(* ===== verification/_CoqProject ===== *)
-Q . S2P
Prelude.v
F64.v
Machine.v
Rdf.v
Encoding.v
EncodingFacts.v
SortKey.v
Sql.v
Writer.v
TreeMap.v
Functions.v
FunctionsFacts.v
Vector.v
VectorFacts.v
Dictionary.v
Job.v
Version.v
Resolve.v
ResolveFacts.v
RoundTrip.v
Ast.v
Program.v
Tarjan.v
Topological.v
DepGraph.v
Strata.v
Lexer.v
LexerFacts.v
Parse.v
ParseFacts.v
DatalogSql.v
Model.v
ModelFacts.v
Accepted.v
SqlPlan.v
SqlText.v
SqlRule.v
SqlLayer.v
SqlArms.v
SqlProgram.v
SqlCompile.v
Exec.v
ExecFacts.v
Materialize.v
MaterializeFacts.v
MaterializeSpec.v
Registry.v
RegistryFacts.v
Reason.v
ReasonFacts.v
VersionHistory.v
TimeTravel.v
Shapes.v
Stats.v
HistoryJobs.v
StoreSchema.v
JoinOrder.v
JoinOrderFacts.v
Host.v
HostFacts.v
CypherValue.v
Calendar.v
CalendarFacts.v
Temporal.v
TemporalOps.v
F64Int.v
StrFacts.v
TemporalFacts.v
DurationFacts.v
TemporalSpec.v
