(* ===== verification/Prelude.v ===== *)
(** * oxilite: a verification development

    oxilite stores RDF in SQL databases (SQLite, Turso, D1) and queries it with SPARQL, Datalog
    and openCypher. This library models the parts of its Rust crates that do the work between
    the third-party parsers and the SQL engine, and proves what makes them correct.

    ** The parts and how they interact

    A quad is encoded ([Encoding]) into four 64-bit ids and the dictionary rows that give
    hashed ids a meaning; the write path ([Writer]) turns the rows into INSERT and DELETE
    statements ([Sql] is the statement and response format) that a job ([Job]) sends to a
    backend, possibly through the versioning layer ([Version]), which prepends a tick; the
    change log that ticks order answers queries about the past ([VersionHistory],
    [TimeTravel]). Readers collect ids and have a resolver ([Resolve]) look the terms up.
    Applications register functions ([Functions]), vector indexes ([Vector]) and graphs that
    hold schema ([Registry]), whose closure query-time reasoning uses ([Reason]) and whose
    shapes are indexed ([Shapes]); the planner orders joins ([JoinOrder]) by statistics
    ([Stats]). [StoreSchema] creates a store with all of this. The Datalog crate tokenizes and
    parses a program ([Lexer], [Parse]) into a tree ([Ast]), checks and stratifies it
    ([Program]), compiles it to SQL ([DatalogSql]), and runs the compiled program as a job
    whose solutions are resolved to terms ([Exec]) or stored as a producer's inferences
    ([Materialize]); rules that call functions of the application are run around it ([Host]).
    The Cypher crate computes with temporal values ([Temporal], [TemporalOps]).

    ** Files and sources

    - [Prelude], [Machine], [StrFacts]: Rust's [Result], [str], [Vec], [BTreeMap], [i64]. [F64]
      and [F64Int]: [f64] (an executable IEEE 754, decimal parsing and shortest printing).
    - [crates/oxilite-core/src]: [Rdf] (the interface of the [oxrdf] crate), [Encoding] and
      [SortKey] ([encoding.rs]), [Sql] ([sql.rs], [error.rs]), [Writer] ([writer.rs]), [Job]
      ([job.rs]), [Version], [VersionHistory] and [HistoryJobs] ([version.rs]: its write side;
      level changes, version references, history jobs and purges; the last jobs and the history
      graph), [Resolve] ([resolve.rs]), [Functions] ([functions.rs]), [Vector] ([vector.rs]),
      [Registry] ([registry.rs]), [Reason] ([reason.rs]), [Shapes] ([shapes.rs]), [Stats]
      ([stats.rs]), [JoinOrder] ([compiler/plan.rs]), [StoreSchema] ([schema.rs], [text.rs]).
      Theorems: [EncodingFacts], [SortKey], [Dictionary], [RoundTrip], [ResolveFacts],
      [TreeMap], [FunctionsFacts], [VectorFacts], [RegistryFacts], [ReasonFacts],
      [JoinOrderFacts], [TimeTravel] (which also gives a versioned store its meaning) and the
      ends of [Sql], [Writer], [Job], [Version], [StoreSchema].
    - [crates/oxilite-datalog/src]: [Ast] ([ast.rs], [error.rs]), [Lexer] ([lexer.rs]),
      [Parse] ([parser.rs]), [Program] ([program.rs]), [DatalogSql] ([sql.rs]), [Exec]
      ([exec.rs]), [Materialize] ([materialize.rs]), [Host] ([host.rs], [lib.rs]). Theorems:
      [LexerFacts], [ParseFacts], [Tarjan], [Topological], [DepGraph], [Strata], [ExecFacts],
      [MaterializeFacts], [MaterializeSpec], [HostFacts]; for the compiler [Model],
      [ModelFacts] and [Accepted] (what a program means), [SqlPlan] (what the SQL means),
      [SqlText], [SqlRule], [SqlLayer], [SqlArms], [SqlProgram] and [SqlCompile] (that they
      agree).
    - [crates/oxilite-cypher/src]: [CypherValue] ([error.rs] and the data of [value.rs]),
      [Calendar], [Temporal], [TemporalOps] ([temporal.rs]). Theorems: [CalendarFacts],
      [TemporalFacts], [DurationFacts], [TemporalSpec].

    Definitions keep the names of the Rust functions; a name that is a keyword, or taken, ends
    in [_]. A method is a function of its receiver; [&mut self] returns the new state. [Result]
    is [result], with the crate's error type; code that may also panic returns [outcome]
    ([Err Panic]), so that a theorem that excludes errors excludes panics too.

    ** What the theorems show

    - Encoding: ids are tagged 63-bit numbers, inline exactly for canonical integers and
      booleans, ordered like the integers; sort keys of numbers compare as IEEE numbers; rows
      are deduplicated and closed; what is written for quads reads back as the quads, at any
      nesting depth, when no two terms share an id (ids are 59-bit hashes).
    - SQL: literals cannot be escaped from, UNION ALL chunks respect the engine's limit,
      statements respect its length limit and write each quad once.
    - Jobs: one shots, sequences, composition; wrapping the job and wrapping the backend in the
      versioning layer give the same runs; at most one tick per transaction.
    - Resolver: ends in a bounded number of lookups with the right terms.
    - Datalog: tokens printed are tokens read; parsing ends; a program is accepted exactly when
      it is range-restricted, its arities agree and negation is stratified, and its strata are
      the dependency classes in a right order; the job reaches the least fixpoint of every
      phase within its bound, and reports divergence.
    - Datalog to SQL: every SELECT, member of the WITH list and phase the compiler prints is the
      text of a plan of [SqlPlan]; the answer of the statement is the stratified least model of
      the program at its goal, against any store ([SqlCompile.compile_correct]). The fragment
      ([plain_program]) leaves out aggregates, [at], the history and vector predicates, and
      mutual recursion whose arms the engine would refuse (see the findings); a WITH RECURSIVE
      member means the least set closed under its arms, a phase its iterated union.
    - Materialization: it ends and writes once, in one atomic request, exactly what the program
      derives. Host rules: run in an order that exists or the program is refused; the job is
      the sequence of its sub-programs.
    - Registries: functions are found by IRI and by Cypher name; vector indexes are read back
      from their description, and synchronising sends nothing exactly when all is built; schema
      registrations are read back, an update not taken to touch the registry leaves it alone,
      and it has no problems exactly when its nodes conform to their shape.
    - Reasoning: pushing constants into the arms of a rewritten pattern changes no answer, and
      under RDFS the answers are exactly the entailed triples.
    - History: a version the resolver accepts is answered with what the store held then, through
      any writes, level changes and purges (a later deletion of the history excepted, see the
      findings); versioning makes no request fail; a level change without loss loses nothing.
    - Join order: every pattern once, each the cheapest of the connected ones left; connected
      patterns are joined without cross products. Schema: created for all options but one.
    - Cypher temporals: the calendar is the proleptic Gregorian calendar; week dates are a
      bijection; months clamp; texts read back, with the two exceptions the theorems single out
      (durations of negative months or minutes, and zoned datetimes in a repeated hour);
      [duration.between] leads from the first date to the second.

    ** Parameters

    Code of other crates and services is a class: [Oxrdf] and [OxrdfLaws] (literals), [Xxh3]
    (hash), [OxsDatatypes] (XSD dates), [SyncBackend] (the engine), [WorkTable] (its work
    table), [StrDebug] (the Unicode tables of [Debug] for [str]), [TermDisplay] and
    [GraphDisplay] (the syntax [oxrdf] prints terms and graph names in), [Jiff] (time zones),
    [Lowercase] and [LowercaseLaws] (Unicode lower-casing); which ids satisfy a condition the
    compiler prints for a constraint is a parameter of [Model] and [SqlPlan]. Each has a
    concrete instance in the file that declares it or in the file of the theorems' witnesses.

    ** Fuel and bounds

    Recursion that is not structural takes fuel, always proved sufficient: the tokenizer uses
    the length of the source, the parser the number of tokens, Tarjan the number of nodes, the
    resolver the number of lookups ([resolver_complete] gives the bound), the fixpoint job the
    iteration bound of the compiled program, a level change two steps (there are three
    levels), the join order and the queue of host rules the number of patterns and of rules
    left. Arithmetic on [i64] wraps as in the release build (the sources set no overflow
    checks); the calendar theorems hold for day numbers up to 2^61 and years up to 2^52, the
    duration theorems for months and days up to 2^50 and seconds up to 2^61 in magnitude:
    beyond them the code overflows.

    ** Not modelled

    The compilation of SPARQL and Cypher to SQL, the planner and lowering of Cypher, the rules
    of OWL 2 RL materialization, and the adapters around third-party engines: see the component
    list. SQL is text here, and only its quoting is given a meaning, except where the text is
    printed from a syntax with a meaning: the plans of [SqlPlan], the arms of [Reason], the
    operations of [VersionHistory]. Concurrency between connections is the engine's.

    ** This file

    The error monad, strings as byte sequences with the operations of the standard library the
    sources use (searching, ASCII case, decimal printing and parsing of [i64]), generic lemmas
    on lists and options, and the tactics and hint databases the other files use. *)

From Stdlib Require Export Ascii.
From Stdlib Require String.
From stdpp Require Export base tactics list gmap strings numbers option fin_maps sorting pretty.
From Stdlib Require Export ZArith Lia.

#[global] Open Scope Z_scope.
#[global] Set Default Goal Selector "!".
#[global] Set Warnings "-clear-no-such-hyp".
#[global] Arguments String.append !s1 s2 : simpl nomatch.

(** ** Results *)

(** [std::result::Result<A, E>]. *)
Inductive result (E A : Type) : Type :=
  | Ok (a : A)
  | Err (e : E).
Arguments Ok {E A} a.
Arguments Err {E A} e.

#[global] Instance result_ret {E} : MRet (result E) := fun _ => Ok.
#[global] Instance result_bind {E} : MBind (result E) := fun _ _ f r =>
  match r with Ok a => f a | Err e => Err e end.
#[global] Instance result_fmap {E} : FMap (result E) := fun _ _ f r =>
  match r with Ok a => Ok (f a) | Err e => Err e end.

(** [Option::ok_or]. *)
Definition ok_or {E A} (o : option A) (e : E) : result E A :=
  match o with Some a => Ok a | None => Err e end.

(** [Result::ok]. *)
Definition ok {E A} (r : result E A) : option A :=
  match r with Ok a => Some a | Err _ => None end.

(** [Result::map_err]. *)
Definition map_err {E F A} (f : E -> F) (r : result E A) : result F A :=
  match r with Ok a => Ok a | Err e => Err (f e) end.

Definition is_ok {E A} (r : result E A) : bool :=
  match r with Ok _ => true | Err _ => false end.

(** A [for] loop whose body may fail: the first error stops it. *)
Fixpoint for_each {E A} (f : A -> result E unit) (l : list A) : result E unit :=
  match l with
  | [] => Ok tt
  | x :: l => f x ≫= fun _ => for_each f l
  end.

(** A [for] loop that updates a state and may fail. *)
Fixpoint try_fold {E A S} (f : S -> A -> result E S) (s : S) (l : list A) : result E S :=
  match l with [] => Ok s | x :: l => f s x ≫= fun s => try_fold f s l end.

(** [iter.map(f).collect::<Result<Vec<_>>>()]. *)
Fixpoint try_map {E A B} (f : A -> result E B) (l : list A) : result E (list B) :=
  match l with
  | [] => Ok []
  | x :: l => f x ≫= fun y => try_map f l ≫= fun ys => Ok (y :: ys)
  end.

Lemma bind_ok {E A B} (r : result E A) (f : A -> result E B) b :
  r ≫= f = Ok b <-> exists a, r = Ok a /\ f a = Ok b.
Proof. destruct r; cbn; naive_solver. Qed.

Lemma bind_unit_ok {E B} (r : result E unit) (f : unit -> result E B) b :
  (r ≫= f) = Ok b <-> r = Ok tt /\ f tt = Ok b.
Proof. destruct r as [[]|]; naive_solver. Qed.

Lemma bind_err {E A B} (r : result E A) (f : A -> result E B) e :
  r ≫= f = Err e <-> r = Err e \/ exists a, r = Ok a /\ f a = Err e.
Proof. destruct r; cbn; naive_solver. Qed.

Lemma fmap_ok {E A B} (g : A -> B) (r : result E A) b :
  g <$> r = Ok b <-> exists a, r = Ok a /\ b = g a.
Proof. destruct r; cbn; naive_solver. Qed.

Lemma ok_or_ok {E A} (o : option A) (e : E) a : ok_or o e = Ok a <-> o = Some a.
Proof. destruct o; cbn; naive_solver. Qed.

Section result_lemmas.
Context {E A B : Type}.
Implicit Types (r : result E A) (f : A -> result E B).

Lemma for_each_ok (g : A -> result E unit) l :
  for_each g l = Ok tt <-> Forall (fun x => g x = Ok tt) l.
Proof.
  induction l as [|x l IH]; cbn; [naive_solver|].
  rewrite Forall_cons, <- IH. destruct (g x) as [[]|] eqn:?; cbn; naive_solver.
Qed.

Lemma for_each_err (g : A -> result E unit) l e :
  for_each g l = Err e ->
  exists l1 x l2, l = l1 ++ x :: l2 /\ Forall (fun x => g x = Ok tt) l1 /\ g x = Err e.
Proof.
  induction l as [|x l IH]; cbn; [done|].
  destruct (g x) as [[]|] eqn:Hx; cbn; intros H.
  - destruct (IH H) as (l1 & y & l2 & -> & ? & ?).
    exists (x :: l1), y, l2. rewrite Forall_cons. naive_solver.
  - exists [], x, l. naive_solver.
Qed.

Lemma try_map_ok f l ys : try_map f l = Ok ys <-> Forall2 (fun x y => f x = Ok y) l ys.
Proof.
  revert ys. induction l as [|x l IH]; intros ys; cbn.
  - split; [intros [= <-]; constructor|by inversion 1].
  - rewrite bind_ok. split.
    + intros (y & Hy & H). apply bind_ok in H as (ys' & H & [= <-]).
      constructor; [done|]. by apply IH.
    + inversion 1; subst. eexists. split; [done|].
      apply bind_ok. eexists. split; [by apply IH|done].
Qed.
End result_lemmas.

(** Splits a chain of binds that succeeded into its steps. *)
Ltac inv_bind :=
  repeat match goal with
  | H : _ ≫= _ = Ok _ |- _ => apply bind_ok in H as (? & ? & H)
  | H : ok_or _ _ = Ok _ |- _ => apply ok_or_ok in H
  | H : Ok _ = Ok _ |- _ => injection H as H
  | H : Err _ = Ok _ |- _ => discriminate H
  end; simplify_eq.

(** ** Computations with fuel

    A fallible computation whose recursion is bounded by fuel. Theorems about such a function
    show that the fuel the sources' model starts with never runs out. *)

Inductive fueled (E A : Type) : Type :=
  | Returned (a : A)
  | Raised (e : E)
  | OutOfFuel.
Arguments Returned {E A} a.
Arguments Raised {E A} e.
Arguments OutOfFuel {E A}.

#[global] Instance fueled_ret {E} : MRet (fueled E) := fun _ => Returned.
#[global] Instance fueled_bind {E} : MBind (fueled E) := fun _ _ f r =>
  match r with Returned a => f a | Raised e => Raised e | OutOfFuel => OutOfFuel end.

(** A result as a computation that needs no fuel. *)
Definition run {E A} (r : result E A) : fueled E A :=
  match r with Ok a => Returned a | Err e => Raised e end.

Lemma fueled_bind_returned {E A B} (r : fueled E A) (f : A -> fueled E B) b :
  r ≫= f = Returned b <-> exists a, r = Returned a /\ f a = Returned b.
Proof. destruct r; cbn; naive_solver. Qed.

Lemma fueled_bind_fuel {E A B} (r : fueled E A) (f : A -> fueled E B) :
  r ≫= f = OutOfFuel <-> r = OutOfFuel \/ exists a, r = Returned a /\ f a = OutOfFuel.
Proof. destruct r; cbn; naive_solver. Qed.

Lemma run_returned {E A} (r : result E A) a : run r = Returned a <-> r = Ok a.
Proof. destruct r; cbn; naive_solver. Qed.

Lemma run_fueled {E A} (r : result E A) : run r <> OutOfFuel.
Proof. by destruct r. Qed.

(** ** Bytes and strings

    A Rust [String] is its UTF-8 bytes: a [string] of [ascii] here, compared bytewise, as
    [str::cmp] does. *)

Definition byte_val (c : ascii) : Z := Z.of_N (N_of_ascii c).
Definition byte_of (z : Z) : ascii := ascii_of_N (Z.to_N z).

(** [u8::is_ascii_digit] and its relatives. *)
Definition is_ascii_digit (c : ascii) : bool := (48 <=? byte_val c) && (byte_val c <=? 57).
Definition is_ascii_uppercase (c : ascii) : bool := (65 <=? byte_val c) && (byte_val c <=? 90).
Definition is_ascii_lowercase (c : ascii) : bool := (97 <=? byte_val c) && (byte_val c <=? 122).
Definition is_ascii_alphabetic (c : ascii) : bool := is_ascii_uppercase c || is_ascii_lowercase c.
Definition is_ascii_alphanumeric (c : ascii) : bool := is_ascii_alphabetic c || is_ascii_digit c.
(** Space, tab, line feed, form feed and carriage return. *)
Definition is_ascii_whitespace (c : ascii) : bool :=
  existsb (Z.eqb (byte_val c)) [32; 9; 10; 12; 13].

Definition to_ascii_uppercase_byte (c : ascii) : ascii :=
  if is_ascii_lowercase c then byte_of (byte_val c - 32) else c.
Definition to_ascii_lowercase_byte (c : ascii) : ascii :=
  if is_ascii_uppercase c then byte_of (byte_val c + 32) else c.

Fixpoint string_map (f : ascii -> ascii) (s : string) : string :=
  match s with
  | EmptyString => EmptyString
  | String c s => String (f c) (string_map f s)
  end.

Definition to_ascii_uppercase : string -> string := string_map to_ascii_uppercase_byte.
Definition to_ascii_lowercase : string -> string := string_map to_ascii_lowercase_byte.

(** [str::eq_ignore_ascii_case]. *)
Definition eq_ignore_ascii_case (a b : string) : bool :=
  String.eqb (to_ascii_lowercase a) (to_ascii_lowercase b).

(** [str::starts_with]. *)
Fixpoint starts_with (s p : string) : bool :=
  match p, s with
  | EmptyString, _ => true
  | String a p, String b s => Ascii.eqb a b && starts_with s p
  | _, _ => false
  end.

(** [str::strip_prefix]. *)
Fixpoint strip_prefix (s p : string) {struct p} : option string :=
  match p, s with
  | EmptyString, _ => Some s
  | String a p, String b s => if Ascii.eqb a b then strip_prefix s p else None
  | _, _ => None
  end.

(** [str::contains]. *)
Fixpoint contains (s p : string) : bool :=
  starts_with s p ||
  match s with EmptyString => false | String _ s => contains s p end.

(** [str::contains] of one ASCII character. *)
Fixpoint contains_char (s : string) (c : ascii) : bool :=
  match s with
  | EmptyString => false
  | String a s => Ascii.eqb a c || contains_char s c
  end.

(** What depends on the Unicode tables of the standard library: [<str as Debug>::fmt] and
    [str::to_lowercase]. *)
Class StrDebug := debug_str : string -> string.
Class Lowercase := to_lowercase : string -> string.

(** [iter().all()] over the bytes. *)
Fixpoint all_chars (p : ascii -> bool) (s : string) : bool :=
  match s with EmptyString => true | String c s => p c && all_chars p s end.

(** [slice::join]. *)
Fixpoint join (sep : string) (l : list string) : string :=
  match l with
  | [] => ""
  | [x] => x
  | x :: l => x +:+ sep +:+ join sep l
  end.

(** [char::is_whitespace] on UTF-8: the rest after a leading white space character. *)
Definition strip_whitespace (s : string) : option string :=
  match s with
  | EmptyString => None
  | String c r =>
      let v := byte_val c in
      if ((9 <=? v) && (v <=? 13)) || (v =? 32) then Some r
      else match r with
           | EmptyString => None
           | String c1 r1 =>
               let v1 := byte_val c1 in
               if (v =? 194) && ((v1 =? 133) || (v1 =? 160)) then Some r1
               else match r1 with
                    | EmptyString => None
                    | String c2 r2 =>
                        let v2 := byte_val c2 in
                        if ((v =? 225) && (v1 =? 154) && (v2 =? 128))
                           || ((v =? 226) && (v1 =? 128)
                               && (((128 <=? v2) && (v2 <=? 138)) || (v2 =? 168) || (v2 =? 169)
                                   || (v2 =? 175)))
                           || ((v =? 226) && (v1 =? 129) && (v2 =? 159))
                           || ((v =? 227) && (v1 =? 128) && (v2 =? 128))
                        then Some r2 else None
                    end
           end
  end.

Fixpoint trim_start_fuel (fuel : nat) (s : string) : string :=
  match fuel, strip_whitespace s with
  | S fuel, Some r => trim_start_fuel fuel r
  | _, _ => s
  end.

(** [str::trim_start]: at most one character per byte. *)
Definition trim_start (s : string) : string := trim_start_fuel (String.length s) s.

(** [str::trim_end]: cuts where only white space remains. *)
Fixpoint trim_end (s : string) : string :=
  if String.eqb (trim_start s) "" then ""
  else match s with EmptyString => "" | String c r => String c (trim_end r) end.

(** [str::trim]. *)
Definition trim (s : string) : string := trim_end (trim_start s).

(** Lower-case hexadecimal, [n] digits, most significant first ([{:016x}] is [n = 16]). *)
Definition hex_digit (d : Z) : ascii := byte_of (if d <? 10 then 48 + d else 87 + d).
Fixpoint hex (n : nat) (z : Z) : string :=
  match n with
  | O => ""
  | S n => String (hex_digit (Z.land (Z.shiftr z (4 * Z.of_nat n)) 15)) (hex n z)
  end.

Definition string_len (s : string) : Z := Z.of_nat (String.length s).

Lemma string_length_app a b :
  String.length (a +:+ b) = (String.length a + String.length b)%nat.
Proof. induction a as [|c a IH]; cbn; [done|]. by rewrite IH. Qed.

Lemma string_len_app a b : string_len (a +:+ b) = string_len a + string_len b.
Proof. unfold string_len. rewrite string_length_app. lia. Qed.

Lemma string_len_nonneg s : 0 <= string_len s.
Proof. unfold string_len. lia. Qed.

Lemma string_app_nil_r (s : string) : s +:+ "" = s.
Proof. induction s as [|c s IH]; cbn; [done|]. f_equal. apply IH. Qed.

Lemma string_app_nil_l (s : string) : "" +:+ s = s.
Proof. done. Qed.

Lemma string_app_assoc (a b c : string) : a +:+ (b +:+ c) = (a +:+ b) +:+ c.
Proof. induction a as [|x a IH]; cbn; [done|]. f_equal. apply IH. Qed.

Lemma string_app_cons x (a b : string) : String x a +:+ b = String x (a +:+ b).
Proof. done. Qed.

Lemma all_chars_app p a b : all_chars p (a +:+ b) = all_chars p a && all_chars p b.
Proof. induction a as [|c a IH]; [done|]. rewrite string_app_cons. cbn. rewrite IH. by rewrite andb_assoc. Qed.

Lemma all_chars_impl (p q : ascii -> bool) s :
  (forall c, p c = true -> q c = true) -> all_chars p s = true -> all_chars q s = true.
Proof.
  intros Hpq. induction s as [|c s IH]; cbn; [done|].
  rewrite !andb_true_iff. intros [? ?]. auto.
Qed.

Lemma string_of_list_app (a b : list ascii) :
  String.string_of_list_ascii (a ++ b) = String.string_of_list_ascii a +:+ String.string_of_list_ascii b.
Proof. induction a as [|x a IH]; cbn; [done|]. by f_equal. Qed.

Lemma strip_prefix_app p r : strip_prefix (p +:+ r) p = Some r.
Proof. induction p as [|c p IH]; cbn; [done|]. by rewrite Ascii.eqb_refl. Qed.

Lemma starts_with_app p r : starts_with (p +:+ r) p = true.
Proof. induction p as [|c p IH]; cbn; [by destruct r|]. by rewrite Ascii.eqb_refl. Qed.

Lemma byte_val_range c : 0 <= byte_val c < 256.
Proof.
  unfold byte_val. pose proof (N_ascii_bounded c). lia.
Qed.

Lemma byte_of_val c : byte_of (byte_val c) = c.
Proof. unfold byte_of, byte_val. rewrite N2Z.id. apply ascii_N_embedding. Qed.

Lemma byte_val_of z : 0 <= z < 256 -> byte_val (byte_of z) = z.
Proof.
  intros ?. unfold byte_of, byte_val. rewrite N_ascii_embedding; lia.
Qed.

(** ** Machine integers *)

Definition i64_min : Z := - 2 ^ 63.
Definition i64_max : Z := 2 ^ 63 - 1.

(** The two's complement reading of the low 64 bits: [x as i64] on a wider or unsigned value. *)
Definition wrap_i64 (z : Z) : Z := (z + 2 ^ 63) mod 2 ^ 64 - 2 ^ 63.

Definition in_i64 (z : Z) : bool := (i64_min <=? z) && (z <=? i64_max).

Lemma wrap_i64_small z : i64_min <= z <= i64_max -> wrap_i64 z = z.
Proof.
  unfold wrap_i64, i64_min, i64_max. intros ?.
  rewrite Z.mod_small; lia.
Qed.

(** Decimal digits, most significant first. *)
Fixpoint digits_val (acc : Z) (s : string) : option Z :=
  match s with
  | EmptyString => Some acc
  | String c s =>
      if is_ascii_digit c then digits_val (acc * 10 + (byte_val c - 48)) s else None
  end.

(** A non-empty run of decimal digits. *)
Definition parse_digits (s : string) : option Z :=
  match s with EmptyString => None | _ => digits_val 0 s end.

(** [i64::from_str]: an optional sign, then decimal digits, in range. *)
Definition parse_i64 (s : string) : option Z :=
  let v := match s with
           | String "+" d => parse_digits d
           | String "-" d => Z.opp <$> parse_digits d
           | _ => parse_digits s
           end in
  v ≫= fun z => if in_i64 z then Some z else None.

(** [u64::from_str] (a leading [+] is accepted). *)
Definition parse_u64 (s : string) : option Z :=
  let v := match s with String "+" d => parse_digits d | _ => parse_digits s end in
  v ≫= fun z => if z <? 2 ^ 64 then Some z else None.

(** [i64::to_string]. *)
Definition show_Z (z : Z) : string := pretty z.

(** *** Printing then parsing an integer *)

Lemma byte_val_digit (d : N) :
  (d < 10)%N -> is_ascii_digit (pretty_N_char d) = true /\ byte_val (pretty_N_char d) - 48 = Z.of_N d.
Proof.
  intros ?.
  assert (d = 0 \/ d = 1 \/ d = 2 \/ d = 3 \/ d = 4 \/ d = 5 \/ d = 6 \/ d = 7 \/ d = 8 \/ d = 9)%N by lia.
  naive_solver.
Qed.

(** The value a digit string adds to an accumulator is affine in the accumulator. *)
Lemma digits_val_app acc s v t :
  digits_val acc s = Some v -> digits_val acc (s +:+ t) = digits_val v t.
Proof.
  revert acc. induction s as [|c s IH]; intros acc; cbn.
  - by intros [= ->].
  - destruct (is_ascii_digit c); [apply IH|done].
Qed.

Lemma pretty_N_go_app (x : N) s : pretty_N_go x s = pretty_N_go x "" +:+ s.
Proof.
  revert s. induction (N.lt_wf_0 x) as [x _ IH]; intros s.
  assert (x = 0 \/ 0 < x)%N as [->|Hx] by lia; [done|].
  rewrite !(pretty_N_go_step x) by done.
  assert (x `div` 10 < x)%N by (by apply N.div_lt).
  rewrite IH by done. rewrite (IH _ ltac:(done) (String _ "")) by done.
  by rewrite <- string_app_assoc.
Qed.

Lemma digits_val_pretty_N_go (x : N) : digits_val 0 (pretty_N_go x "") = Some (Z.of_N x).
Proof.
  induction (N.lt_wf_0 x) as [x _ IH].
  assert (x = 0 \/ 0 < x)%N as [->|Hx] by lia; [done|].
  rewrite pretty_N_go_step by done. rewrite pretty_N_go_app.
  rewrite (digits_val_app _ _ (Z.of_N (x `div` 10))) by (by apply IH, N.div_lt).
  destruct (byte_val_digit (x `mod` 10)) as [Hd Hv]; [by apply N.mod_lt|].
  cbn. rewrite Hd, Hv. f_equal.
  pose proof (N.div_mod x 10 ltac:(done)). lia.
Qed.

Lemma pretty_N_go_nonempty (x : N) s : (0 < x)%N -> exists c t, pretty_N_go x s = String c t /\ is_ascii_digit c = true.
Proof.
  revert s. induction (N.lt_wf_0 x) as [x _ IH]; intros s Hx.
  rewrite pretty_N_go_step by done.
  destruct (byte_val_digit (x `mod` 10)) as [Hd _]; [by apply N.mod_lt|].
  destruct (N.eq_0_gt_0_cases (x `div` 10)) as [Hq|Hq].
  - rewrite Hq, pretty_N_go_0. eauto.
  - apply IH; [by apply N.div_lt|done].
Qed.

Lemma pretty_N_digits (x : N) :
  parse_digits (pretty x) = Some (Z.of_N x) /\
  exists c t, pretty x = String c t /\ is_ascii_digit c = true.
Proof.
  unfold pretty, pretty_N. case_decide; [subst; split; [done|naive_solver]|].
  destruct (pretty_N_go_nonempty x "") as (c & t & Heq & Hc); [lia|].
  split; [|by eauto]. unfold parse_digits.
  rewrite <- digits_val_pretty_N_go. by rewrite Heq.
Qed.

Lemma digits_val_all acc s z : digits_val acc s = Some z -> all_chars is_ascii_digit s = true.
Proof.
  revert acc. induction s as [|c s IH]; intros acc; cbn; [done|].
  destruct (is_ascii_digit c); [|done]. apply IH.
Qed.

Lemma show_Z_digits v : 0 <= v -> all_chars is_ascii_digit (show_Z v) = true /\ show_Z v <> "".
Proof.
  intros Hv. destruct v as [|q|q]; [done| |lia].
  destruct (pretty_N_digits (Npos q)) as (Hd & c & t & Heq & _).
  change (show_Z (Zpos q)) with (pretty (Npos q)). rewrite Heq in *. split; [|done].
  by eapply (digits_val_all 0).
Qed.

(** [i64::from_str] reads back what [i64::to_string] prints. *)
Lemma parse_i64_show z : in_i64 z = true -> parse_i64 (show_Z z) = Some z.
Proof.
  intros Hz.
  enough (match show_Z z with
          | String "+" d => parse_digits d
          | String "-" d => Z.opp <$> parse_digits d
          | _ => parse_digits (show_Z z) end = Some z) as H.
  { unfold parse_i64. rewrite H. cbn. by rewrite Hz. }
  unfold show_Z.
  destruct z as [|p|p]; [done| |].
  - destruct (pretty_N_digits (Npos p)) as (Hv & c & t & Heq & Hc).
    change (pretty (Zpos p)) with (pretty (Npos p)). rewrite Heq in Hv |- *.
    destruct c as [[] [] [] [] [] [] [] []]; try done.
  - cbn. destruct (pretty_N_digits (Npos p)) as (Hv & _).
    change (pretty p) with (pretty (Npos p)). by rewrite Hv.
Qed.

(** ** Sorting and removing duplicates by a key *)

Section by_key.
Context {A : Type} (key : A -> Z).

(** Before the first element with the same or a larger key. *)
Fixpoint insert_by_key (x : A) (l : list A) : list A :=
  match l with
  | [] => [x]
  | y :: l' => if key x <=? key y then x :: l else y :: insert_by_key x l'
  end.

(** [slice::sort_by_key], stable. *)
Definition sort_by_key (l : list A) : list A := foldr insert_by_key [] l.

(** [Vec::dedup_by_key]: drops the elements with the key of the element kept before. *)
Fixpoint dedup_after (k : Z) (l : list A) : list A :=
  match l with
  | [] => []
  | x :: l => if key x =? k then dedup_after k l else x :: dedup_after (key x) l
  end.
Definition dedup_by_key (l : list A) : list A :=
  match l with [] => [] | x :: l => x :: dedup_after (key x) l end.

Definition key_le (x y : A) : Prop := key x <= key y.
Definition key_lt (x y : A) : Prop := key x < key y.

Lemma insert_by_key_perm x l : insert_by_key x l ≡ₚ x :: l.
Proof.
  induction l as [|y l IH]; cbn; [done|].
  destruct (_ <=? _); [done|]. rewrite IH. apply Permutation_swap.
Qed.

Lemma sort_by_key_perm l : sort_by_key l ≡ₚ l.
Proof. induction l as [|x l IH]; cbn; [done|]. by rewrite insert_by_key_perm, IH. Qed.

Lemma insert_by_key_sorted x l :
  StronglySorted key_le l -> StronglySorted key_le (insert_by_key x l).
Proof.
  induction 1 as [|y l Hs IH Hy]; cbn; [by repeat constructor|].
  destruct (Z.leb_spec (key x) (key y)).
  - constructor; [by constructor|]. constructor; [done|].
    eapply Forall_impl; [done|]. unfold key_le. lia.
  - constructor; [done|]. rewrite insert_by_key_perm. constructor; [|done].
    unfold key_le. lia.
Qed.

Lemma sort_by_key_sorted l : StronglySorted key_le (sort_by_key l).
Proof. induction l; cbn; [constructor|]. by apply insert_by_key_sorted. Qed.

Lemma dedup_after_sorted k l :
  StronglySorted key_le l -> Forall (fun x => k <= key x) l ->
  StronglySorted key_lt (dedup_after k l) /\ Forall (fun x => k < key x) (dedup_after k l).
Proof.
  intros Hs. revert k. induction Hs as [|x l Hs IH Hx]; intros k Hk; cbn; [by split; constructor|].
  apply Forall_cons in Hk as [Hk _].
  destruct (Z.eqb_spec (key x) k) as [<-|]; [by apply IH|].
  destruct (IH (key x) Hx) as [IH1 IH2].
  split; [by constructor|]. constructor; [lia|].
  eapply Forall_impl; [done|]. cbn. lia.
Qed.

Lemma dedup_by_key_sorted l :
  StronglySorted key_le l -> StronglySorted key_lt (dedup_by_key l).
Proof.
  destruct 1 as [|x l Hs Hx]; cbn; [constructor|].
  destruct (dedup_after_sorted (key x) l) as [? ?]; [done..|]. by constructor.
Qed.

Lemma dedup_after_sublist k l : dedup_after k l `sublist_of` l.
Proof.
  revert k. induction l as [|x l IH]; intros k; cbn; [constructor|].
  destruct (_ =? _); by constructor.
Qed.

Lemma dedup_by_key_sublist l : dedup_by_key l `sublist_of` l.
Proof. destruct l; cbn; constructor. apply dedup_after_sublist. Qed.

(** Every key survives. *)
Lemma dedup_after_keys k l x :
  x ∈ l -> key x = k \/ exists y, y ∈ dedup_after k l /\ key y = key x.
Proof.
  revert k. induction l as [|y l IH]; intros k Hx; cbn; [by apply elem_of_nil in Hx|].
  apply elem_of_cons in Hx as [<-|Hx].
  - destruct (Z.eqb_spec (key x) k); [by left|]. right. exists x. split; [left|done].
  - destruct (Z.eqb_spec (key y) k); [by apply IH|].
    destruct (IH (key y) Hx) as [Heq|(z & Hz & Heq)]; right.
    + exists y. split; [left|done].
    + exists z. split; [by right|done].
Qed.

Lemma dedup_by_key_keys l x : x ∈ l -> exists y, y ∈ dedup_by_key l /\ key y = key x.
Proof.
  destruct l as [|z l]; cbn; [by intros ?%elem_of_nil|].
  intros [<-|Hx]%elem_of_cons; [by exists x; split; [left|]|].
  destruct (dedup_after_keys (key z) l x Hx) as [->|(y & ? & ?)].
  - exists z. split; [left|done].
  - exists y. split; [by right|done].
Qed.

Lemma dedup_sorted_elem x l : x ∈ dedup_by_key (sort_by_key l) -> x ∈ l.
Proof.
  intros Hx. rewrite <- (sort_by_key_perm l).
  eapply (sublist_subseteq _ _ (dedup_by_key_sublist _)), Hx.
Qed.

Lemma dedup_sorted_keys x l :
  x ∈ l -> exists y, y ∈ dedup_by_key (sort_by_key l) /\ key y = key x.
Proof. intros Hx. apply dedup_by_key_keys. by rewrite sort_by_key_perm. Qed.
End by_key.

(** ** Splitting a list in groups *)

Section chunks.
Context {A : Type}.
Implicit Types l : list A.

(** [slice::chunks]. *)
Fixpoint chunks_fuel (fuel k : nat) (l : list A) : list (list A) :=
  match fuel, l with
  | S fuel, _ :: _ => take k l :: chunks_fuel fuel k (drop k l)
  | _, _ => []
  end.
Definition chunks (k : nat) (l : list A) : list (list A) := chunks_fuel (length l) k l.

Lemma chunks_fuel_concat fuel k l :
  (0 < k)%nat -> (length l <= fuel)%nat -> concat (chunks_fuel fuel k l) = l.
Proof.
  intros Hk. revert l. induction fuel as [|fuel IH]; intros [|x l] Hl; try done; [cbn in Hl; lia|].
  cbn [chunks_fuel concat]. rewrite IH; [apply take_drop|]. rewrite length_drop. cbn in *. lia.
Qed.

Lemma chunks_concat k l : (0 < k)%nat -> concat (chunks k l) = l.
Proof. intros. by apply chunks_fuel_concat. Qed.

Lemma chunks_sizes k l : (0 < k)%nat -> Forall (fun c => (0 < length c <= k)%nat) (chunks k l).
Proof.
  intros Hk. unfold chunks. generalize (length l) as fuel. intros fuel. revert l.
  induction fuel as [|fuel IH]; intros [|x l]; cbn [chunks_fuel]; [constructor..|].
  constructor; [|apply IH]. rewrite length_take. cbn. lia.
Qed.

(** Groups of at least two shorten a list. *)
Lemma chunks_fuel_length fuel k l :
  (2 <= k)%nat -> (length (chunks_fuel fuel k l) <= length l)%nat /\
  ((2 <= length l)%nat -> (length (chunks_fuel fuel k l) < length l)%nat).
Proof.
  intros Hk. revert l. induction fuel as [|fuel IH]; intros [|x l]; cbn [chunks_fuel]; cbn [length]; try lia.
  destruct (IH (drop k (x :: l))) as [H _]. rewrite length_drop in H. cbn [length] in H. lia.
Qed.

Lemma chunks_length k l :
  (2 <= k)%nat -> (2 <= length l)%nat -> (length (chunks k l) < length l)%nat.
Proof. intros. by apply chunks_fuel_length. Qed.
End chunks.

(** ** Folds *)

Lemma foldl_invariant {A B} (P : A -> Prop) (f : A -> B -> A) a l :
  P a -> (forall a x, x ∈ l -> P a -> P (f a x)) -> P (foldl f a l).
Proof.
  revert a. induction l as [|x l IH]; intros a Ha H; cbn; [done|].
  apply IH; [apply H; [by left|done]|]. intros. apply H; [by right|done].
Qed.

(** What one step establishes and the later ones keep holds in the end. *)
Lemma foldl_reaches {A B} (I Q : A -> Prop) (f : A -> B -> A) a l x :
  x ∈ l -> I a -> (forall a y, y ∈ l -> I a -> I (f a y)) ->
  (forall a, I a -> Q (f a x)) -> (forall a y, y ∈ l -> I a -> Q a -> Q (f a y)) -> Q (foldl f a l).
Proof.
  revert a. induction l as [|y l IH]; intros a Hx Ha HI Hx' HQ; [by apply elem_of_nil in Hx|]. cbn.
  apply elem_of_cons in Hx as [->|Hx].
  - assert (I (f a y) /\ Q (f a y)) as H by (split; [by apply HI; [left|]|by apply Hx']).
    apply (foldl_invariant (fun a => I a /\ Q a)) with (f := f) (l := l) in H; [by destruct H|].
    intros b z Hz [Hb Hq]. split; [by apply HI; [right|]|by apply HQ; [right| |]].
  - apply IH; [done|by apply HI; [left|]| |done|].
    + intros. apply HI; [by right|done].
    + intros. apply HQ; [by right|done..].
Qed.
