(* ===== verification/F64.v ===== *)
(** * IEEE 754 binary64, as Rust's [f64]

    The executable specification of floating point of the Standard Library ([spec_float] at
    precision 53 and maximal exponent 1024), with the operations of [f64] the sources use:
    arithmetic, comparison, the total order of [total_cmp], conversion from and to integers,
    bits, decimal parsing ([f64::from_str], correctly rounded) and shortest decimal printing
    (the [Debug], [Display] and [UpperExp] formats). *)

From Stdlib Require Export SpecFloat.
From S2P Require Export Prelude.

Abbreviation f64 := spec_float.

#[global] Instance f64_eq_dec : EqDecision spec_float.
Proof. solve_decision. Defined.

Module F64.

Definition prec : Z := 53.
Definition emax : Z := 1024.

Definition add : f64 -> f64 -> f64 := SFadd prec emax.
Definition sub : f64 -> f64 -> f64 := SFsub prec emax.
Definition mul : f64 -> f64 -> f64 := SFmul prec emax.
Definition div : f64 -> f64 -> f64 := SFdiv prec emax.
Definition sqrt : f64 -> f64 := SFsqrt prec emax.
Definition neg : f64 -> f64 := SFopp.
Definition abs : f64 -> f64 := SFabs.

Definition zero : f64 := S754_zero false.
Definition infinity : f64 := S754_infinity false.
Definition neg_infinity : f64 := S754_infinity true.
Definition nan : f64 := S754_nan.

(** [z as f64]: rounded to nearest, ties to even. *)
Definition of_Z (z : Z) : f64 := binary_normalize prec emax z 0 false.

(** The correctly rounded quotient of two positive integers. *)
Definition of_ratio (s : bool) (n d : positive) : f64 :=
let '(q, e, l) := SFdiv_core_binary prec emax (Zpos n) 0 (Zpos d) 0 in
binary_round_aux prec emax s q e l.

Definition is_nan (x : f64) : bool := match x with S754_nan => true | _ => false end.
Definition is_finite (x : f64) : bool :=
match x with S754_zero _ | S754_finite _ _ _ => true | _ => false end.
Definition is_sign_negative (x : f64) : bool :=
match x with
| S754_zero s | S754_infinity s | S754_finite s _ _ => s
| S754_nan => false
end.

(** [PartialOrd::partial_cmp]: [None] when an operand is NaN. *)
Definition partial_cmp : f64 -> f64 -> option comparison := SFcompare.
(** [==], [<], [<=] and [>=]. *)
Definition eqb (x y : f64) : bool := match partial_cmp x y with Some Eq => true | _ => false end.
Definition ltb (x y : f64) : bool := match partial_cmp x y with Some Lt => true | _ => false end.
Definition leb (x y : f64) : bool :=
match partial_cmp x y with Some Lt | Some Eq => true | _ => false end.

(** [f64::max]: the other operand when one is NaN. *)
Definition max (x y : f64) : f64 :=
if is_nan x then y else if is_nan y then x else if ltb x y then y else x.
Definition min (x y : f64) : f64 :=
if is_nan x then y else if is_nan y then x else if ltb y x then y else x.

(** Integer part, towards zero. *)
Definition trunc (x : f64) : f64 :=
match x with
| S754_finite s m e =>
    if 0 <=? e then x
    else match Z.shiftr (Zpos m) (- e) with
         | 0 => S754_zero s
         | q => binary_normalize prec emax (if s then - q else q) 0 s
         end
| _ => x
end.

(** [f64::fract]: [self - self.trunc()]. *)
Definition fract (x : f64) : f64 := sub x (trunc x).

(** [x as i64]: truncation, saturating, NaN to 0. *)
Definition to_i64 (x : f64) : Z :=
match x with
| S754_zero _ | S754_nan => 0
| S754_infinity s => if s then i64_min else i64_max
| S754_finite s m e =>
    let q := Z.shiftl (Zpos m) e in
    Z.max i64_min (Z.min i64_max (if s then - q else q))
end.

(** [f64::to_bits]: sign, 11 exponent bits, 52 fraction bits. *)
Definition to_bits (x : f64) : Z :=
let sign (s : bool) := if s then 2 ^ 63 else 0 in
match x with
| S754_zero s => sign s
| S754_infinity s => sign s + Z.shiftl 2047 52
| S754_nan => Z.shiftl 2047 52 + 2 ^ 51
| S754_finite s m e =>
    if Zpos m <? 2 ^ 52 then sign s + Zpos m
    else sign s + Z.shiftl (e + 1075) 52 + (Zpos m - 2 ^ 52)
end.

(** The order key of [f64::total_cmp]: the bits as [i64], the magnitude flipped when negative. *)
Definition total_key (x : f64) : Z :=
let b := to_bits x in
if b <? 2 ^ 63 then b else 2 ^ 63 - 1 - b.

Definition total_cmp (x y : f64) : comparison := Z.compare (total_key x) (total_key y).

(** ** Parsing *)

(** Decimal digits with at most one point: the digits, how many follow the point, the rest. *)
Fixpoint scan_digits (acc : Z) (n : nat) (s : string) : Z * nat * string :=
match s with
| String c s' =>
    if is_ascii_digit c then scan_digits (acc * 10 + (byte_val c - 48)) (S n) s'
    else (acc, n, s)
| EmptyString => (acc, n, s)
end.

(** [d * 10 ^ p], correctly rounded; exponents far outside the range of [f64] are decided by
  the number of digits. *)
Definition of_decimal (s : bool) (d : Z) (p : Z) (ndigits : Z) : f64 :=
match d with
| Zpos m =>
    if 310 <? p + ndigits then S754_infinity s
    else if p + ndigits <? -330 then S754_zero s
    else if 0 <=? p then
      binary_normalize prec emax (let v := Zpos m * 10 ^ p in if s then - v else v) 0 s
    else match 10 ^ (- p) with Zpos q => of_ratio s m q | _ => nan end
| _ => S754_zero s
end.

Definition parse_exponent (s : string) : option Z :=
match s with
| String "+" d => parse_digits d
| String "-" d => Z.opp <$> parse_digits d
| d => parse_digits d
end.

Definition parse_unsigned (sg : bool) (s : string) : option f64 :=
let l := to_ascii_lowercase s in
if String.eqb l "inf" || String.eqb l "infinity" then Some (S754_infinity sg)
else if String.eqb l "nan" then Some nan
else
  let '(d1, n1, r1) := scan_digits 0 0 s in
  let '(d, n2, r) := match r1 with
                     | String "." r' => scan_digits d1 0 r'
                     | _ => (d1, 0%nat, r1)
                     end in
  if (n1 + n2 =? 0)%nat then None
  else
    let val x := of_decimal sg d (x - Z.of_nat n2) (Z.of_nat (n1 + n2)) in
    match r with
    | EmptyString => Some (val 0)
    | String c r' =>
        if Ascii.eqb c "e" || Ascii.eqb c "E" then val <$> parse_exponent r' else None
    end.

(** [f64::from_str]. *)
Definition parse (s : string) : option f64 :=
match s with
| String "+" r => parse_unsigned false r
| String "-" r => parse_unsigned true r
| r => parse_unsigned false r
end.

(** ** Printing *)

(** The shortest decimal that parses back: digits and the exponent [k] with value
  [0.d1 d2 ... * 10 ^ k]. [num / den] is the positive value, [x] the float. *)
Fixpoint find_k (fuel : nat) (num den k : Z) : Z :=
let le10 k := if 0 <=? k then den * 10 ^ k <=? num else den <=? num * 10 ^ (- k) in
match fuel with
| O => k
| S fuel =>
    if le10 k then find_k fuel num den (k + 1)
    else if le10 (k - 1) then k
    else find_k fuel num den (k - 1)
end.

Fixpoint shortest_digits (fuel : nat) (n : Z) (x : f64) (num den k : Z) : Z * Z :=
let scaled := if 0 <=? n - k then num * 10 ^ (n - k) else num in
let unit := if 0 <=? n - k then den else den * 10 ^ (k - n) in
let lo := Z.div scaled unit in
let rem := Z.modulo scaled unit in
let back d := of_decimal false d (k - n) n in
let ok d := bool_decide (back d = x) in
let round_hi := unit <=? 2 * rem in
match fuel with
| O => (lo, n)
| S fuel =>
    match ok lo, ok (lo + 1) with
    | true, true => if round_hi then (lo + 1, n) else (lo, n)
    | true, false => (lo, n)
    | false, true => (lo + 1, n)
    | false, false => shortest_digits fuel (n + 1) x num den k
    end
end.

(** Digits [d], [n] of them, and [k], for a positive finite float. *)
Definition shortest (m : positive) (e : Z) : Z * Z * Z :=
let num := if 0 <=? e then Zpos m * 2 ^ e else Zpos m in
let den := if 0 <=? e then 1 else 2 ^ (- e) in
let k := find_k 20 num den ((Z.log2 num - Z.log2 den) * 30103 / 100000) in
let '(d, n) := shortest_digits 17 1 (S754_finite false m e) num den k in
if d =? 10 ^ n then (1, 1, k + 1) else (d, n, k).

Fixpoint zeros (n : nat) : string :=
match n with O => "" | S n => String "0" (zeros n) end.

(** The digits [d] (that many: [n]) of [0.d * 10 ^ k] in positional notation, with at least
  [minfrac] fractional digits. *)
Definition positional (d n k minfrac : Z) : string :=
let ds := show_Z d in
if k <=? 0 then "0." +:+ zeros (Z.to_nat (- k)) +:+ ds
else if k <? n then
  String.substring 0 (Z.to_nat k) ds +:+ "." +:+ String.substring (Z.to_nat k) (Z.to_nat (n - k)) ds
else ds +:+ zeros (Z.to_nat (k - n)) +:+
     (if minfrac =? 0 then "" else "." +:+ zeros (Z.to_nat minfrac)).

(** [d.ddde<x>]. *)
Definition exponential (letter : string) (d n k : Z) : string :=
let ds := show_Z d in
String.substring 0 1 ds +:+
(if n =? 1 then "" else "." +:+ String.substring 1 (Z.to_nat (n - 1)) ds) +:+
letter +:+ show_Z (k - 1).

Definition with_sign (s : bool) (t : string) : string := if s then "-" +:+ t else t.

(** [{}]. *)
Definition display (x : f64) : string :=
match x with
| S754_nan => "NaN"
| S754_infinity s => with_sign s "inf"
| S754_zero s => with_sign s "0"
| S754_finite s m e => let '(d, n, k) := shortest m e in with_sign s (positional d n k 0)
end.

(** [{:?}]: exponential from [1e16] and below [1e-4], else positional with a fraction. *)
Definition debug (x : f64) : string :=
match x with
| S754_nan => "NaN"
| S754_infinity s => with_sign s "inf"
| S754_zero s => with_sign s "0.0"
| S754_finite s m e =>
    let '(d, n, k) := shortest m e in
    let a := S754_finite false m e in
    if leb (of_Z (10 ^ 16)) a || ltb a (of_ratio false 1 10000)
    then with_sign s (exponential "e" d n k)
    else with_sign s (positional d n k 1)
end.

(** [{:E}]. *)
Definition upper_exp (x : f64) : string :=
match x with
| S754_nan => "NaN"
| S754_infinity s => with_sign s "inf"
| S754_zero s => with_sign s "0E0"
| S754_finite s m e => let '(d, n, k) := shortest m e in with_sign s (exponential "E" d n k)
end.

(** [{:.1}] of a float with no fractional part. *)
Definition fixed1_integral (x : f64) : string :=
match x with
| S754_finite s m e => with_sign s (show_Z (Z.shiftl (Zpos m) e) +:+ ".0")
| S754_zero s => with_sign s "0.0"
| S754_infinity s => with_sign s "inf"
| S754_nan => "NaN"
end.

(** ** Checks against known values *)

Example parse_tenth : parse "0.1" = Some (S754_finite false 7205759403792794 (-56)).
Proof. vm_compute. reflexivity. Qed.
Example parse_min_subnormal : parse "5e-324" = Some (S754_finite false 1 (-1074)).
Proof. vm_compute. reflexivity. Qed.
Example parse_rejects : parse "." = None /\ parse "1e" = None /\ parse "" = None /\ parse "1.5x" = None.
Proof. vm_compute. done. Qed.
Example debug_values :
(debug <$> parse "1e300", debug <$> parse "1.0", debug <$> parse "123456789.125",
 debug <$> parse "1e16", debug <$> parse "9007199254740993", debug <$> parse "0.00001",
 display <$> parse "-0.25", upper_exp <$> parse "1234.5")
= (Some "1e300", Some "1.0", Some "123456789.125", Some "1e16", Some "9007199254740992.0",
   Some "1e-5", Some "-0.25", Some "1.2345E3").
Proof. vm_compute. reflexivity. Qed.
Example debug_two_63 : debug (of_Z (2 ^ 63)) = "9.223372036854776e18".
Proof. vm_compute. reflexivity. Qed.

End F64.
