(* ===== verification/Machine.v ===== *)
(** * Machine integers and string slices

    The arithmetic of [i64], [i128] and [i32] as the release build computes it (overflow wraps
    around; the sources set no [overflow-checks]), and the parts of [str] and [BTreeMap] the
    Cypher crate uses: slicing by byte ranges, which panics inside a character, searching and
    splitting, and formatting with zero padding. *)

From S2P Require Export Prelude F64.

(** ** Wrapping arithmetic *)

Definition wrap (w z : Z) : Z := (z + 2 ^ (w - 1)) mod 2 ^ w - 2 ^ (w - 1).

Lemma wrap_64 z : wrap 64 z = wrap_i64 z.
Proof. done. Qed.

Module i64.
Definition add (x y : Z) : Z := wrap_i64 (x + y).
Definition sub (x y : Z) : Z := wrap_i64 (x - y).
Definition mul (x y : Z) : Z := wrap_i64 (x * y).
Definition neg (x : Z) : Z := wrap_i64 (- x).
(** [/], [%], [div_euclid] and [rem_euclid] by a positive constant, which never overflow. *)
Definition quot (x y : Z) : Z := Z.quot x y.
Definition rem (x y : Z) : Z := Z.rem x y.
Definition div (x y : Z) : Z := Z.div x y.
Definition modulo (x y : Z) : Z := Z.modulo x y.
(** [i64::checked_add]. *)
Definition checked_add (x y : Z) : option Z := if in_i64 (x + y) then Some (x + y) else None.
End i64.

Declare Scope i64_scope.
Delimit Scope i64_scope with i64.
Arguments i64.add (x y)%_i64_scope.
Arguments i64.sub (x y)%_i64_scope.
Arguments i64.mul (x y)%_i64_scope.
Arguments i64.neg x%_i64_scope.
Arguments i64.quot (x y)%_i64_scope.
Arguments i64.rem (x y)%_i64_scope.
Arguments i64.div (x y)%_i64_scope.
Arguments i64.modulo (x y)%_i64_scope.
Infix "+" := i64.add : i64_scope.
Infix "-" := i64.sub : i64_scope.
Infix "*" := i64.mul : i64_scope.
Notation "- x" := (i64.neg x) : i64_scope.
Infix "`quot`" := i64.quot : i64_scope.
Infix "`rem`" := i64.rem : i64_scope.
Infix "`div`" := i64.div : i64_scope.
Infix "`mod`" := i64.modulo : i64_scope.

(** [as i128] of a float: truncation, saturating, NaN to 0. *)
Definition i128_max : Z := 2 ^ 127 - 1.
Definition i128_min : Z := - 2 ^ 127.
Definition f64_to_i128 (x : f64) : Z :=
  match x with
  | S754_zero _ | S754_nan => 0
  | S754_infinity s => if s then i128_min else i128_max
  | S754_finite s m e =>
      let q := Z.shiftl (Zpos m) e in
      Z.max i128_min (Z.min i128_max (if s then - q else q))
  end.

Definition in_i128 (z : Z) : bool := (i128_min <=? z) && (z <=? i128_max).

(** [i128::from_str]. *)
Definition parse_i128 (s : string) : option Z :=
  let v := match s with
           | String "+" d => parse_digits d
           | String "-" d => Z.opp <$> parse_digits d
           | _ => parse_digits s
           end in
  v ≫= fun z => if in_i128 z then Some z else None.

(** [f64::round]: half away from zero. *)
Definition f64_round (x : f64) : f64 :=
  match x with
  | S754_finite s m e =>
      if 0 <=? e then x
      else match Z.shiftr (2 * Zpos m + Z.shiftl 1 (- e)) (1 - e) with
           | 0 => S754_zero s
           | q => binary_normalize F64.prec F64.emax (if s then - q else q) 0 s
           end
  | _ => x
  end.

Example round_half :
  (F64.display <$> (f64_round <$> F64.parse "2.5"), F64.display <$> (f64_round <$> F64.parse "-2.5"),
   F64.display <$> (f64_round <$> F64.parse "0.49999999999999994"),
   F64.display <$> (f64_round <$> F64.parse "1234567.75"))
  = (Some "3", Some "-3", Some "0", Some "1234568").
Proof. vm_compute. reflexivity. Qed.

(** Exactness: what the wrapping operations compute in range. *)
Lemma wrap_i64_exact z : i64_min <= z <= i64_max -> wrap_i64 z = z.
Proof. apply wrap_i64_small. Qed.

Lemma wrap_i64_range z : i64_min <= wrap_i64 z <= i64_max.
Proof.
  unfold wrap_i64, i64_min, i64_max.
  pose proof (Z.mod_pos_bound (z + 2 ^ 63) (2 ^ 64) ltac:(lia)). lia.
Qed.

(** Removes the innermost wrap-arounds whose argument [lia] shows in range. *)
Ltac unwrap_with tac :=
  unfold i64.add, i64.sub, i64.mul, i64.neg, i64.quot, i64.rem, i64.div, i64.modulo;
  repeat match goal with
  | |- context [wrap_i64 ?z] =>
      lazymatch z with
      | context [wrap_i64 _] => fail
      | _ => rewrite (wrap_i64_exact z) by (unfold i64_min, i64_max; tac)
      end
  end.
Ltac unwrap := unwrap_with ltac:(Z.to_euclidean_division_equations; lia).

Lemma ok_bind {E A B} (a : A) (f : A -> result E B) : (Ok a ≫= f) = f a.
Proof. done. Qed.

(** ** Strings *)

(** [str::is_char_boundary]. *)
Definition is_char_boundary (s : string) (i : nat) : bool :=
  match String.get i s with
  | None => Nat.eqb i (String.length s)
  | Some c => (Nat.eqb i 0) || (byte_val c <? 128) || (192 <=? byte_val c)
  end.

(** [s.get(a..b)]; [&s[a..b]] panics where it is [None]. *)
Definition str_get (s : string) (a b : nat) : option string :=
  if (a <=? b)%nat && is_char_boundary s a && is_char_boundary s b
  then Some (String.substring a (b - a) s) else None.

(** The position of the first byte that satisfies [p]: [str::find] of ASCII characters, or of
    a predicate that holds of every non-ASCII character. *)
Fixpoint find_byte (p : ascii -> bool) (s : string) : option nat :=
  match s with
  | EmptyString => None
  | String c s => if p c then Some O else S <$> find_byte p s
  end.

Definition one_of (l : list ascii) (c : ascii) : bool := existsb (Ascii.eqb c) l.

(** [str::split_once] at an ASCII character. *)
Fixpoint split_once (p : ascii -> bool) (s : string) : option (string * string) :=
  match s with
  | EmptyString => None
  | String c s =>
      if p c then Some (EmptyString, s)
      else '(a, b) ← split_once p s; Some (String c a, b)
  end.

(** [str::split] at an ASCII character. *)
Fixpoint split_char (sep : ascii) (s : string) : list string :=
  match s with
  | EmptyString => [EmptyString]
  | String c s =>
      if Ascii.eqb c sep then EmptyString :: split_char sep s
      else match split_char sep s with
           | x :: l => String c x :: l
           | [] => [String c EmptyString]
           end
  end.

(** [str::ends_with] a character. *)
Fixpoint ends_with (s : string) (c : ascii) : bool :=
  match s with
  | EmptyString => false
  | String a EmptyString => Ascii.eqb a c
  | String _ s => ends_with s c
  end.

(** [while s.ends_with(c) { s.pop() }]. *)
Fixpoint pop_while (c : ascii) (s : string) : string :=
  match s with
  | EmptyString => EmptyString
  | String a s =>
      match pop_while c s with
      | EmptyString => if Ascii.eqb a c then EmptyString else String a EmptyString
      | t => String a t
      end
  end.

Fixpoint exists_byte (p : ascii -> bool) (s : string) : bool :=
  match s with EmptyString => false | String c s => p c || exists_byte p s end.

(** [chars().filter(p).collect()], for a [p] that only drops ASCII characters. *)
Fixpoint filter_bytes (p : ascii -> bool) (s : string) : string :=
  match s with
  | EmptyString => EmptyString
  | String c s => if p c then String c (filter_bytes p s) else filter_bytes p s
  end.

(** [{z:0w}]: the sign first, then zeros to the width. *)
Definition zero_pad (w : nat) (s : string) : string := F64.zeros (w - String.length s) +:+ s.
Definition fmt_0 (w : nat) (z : Z) : string :=
  if z <? 0 then "-" +:+ zero_pad (w - 1) (show_Z (- z)) else zero_pad w (show_Z z).

(** [{s:0<w}] of an ASCII string. *)
Definition pad_right (w : nat) (s : string) : string := s +:+ F64.zeros (w - String.length s).

(** ** [BTreeMap<String, V>]: entries by ascending key *)

Module BTreeMap.
Section maps.
Context {V : Type}.
Implicit Types m : list (string * V).

Fixpoint get m (k : string) : option V :=
  match m with
  | [] => None
  | (k', v) :: m => if String.eqb k k' then Some v else get m k
  end.

Fixpoint insert m (k : string) (v : V) : list (string * V) :=
  match m with
  | [] => [(k, v)]
  | (k', v') :: m' =>
      match String.compare k k' with
      | Lt => (k, v) :: m
      | Eq => (k, v) :: m'
      | Gt => (k', v') :: insert m' k v
      end
  end.

Fixpoint remove m (k : string) : list (string * V) :=
  match m with
  | [] => []
  | (k', v) :: m => if String.eqb k k' then m else (k', v) :: remove m k
  end.

Definition contains_key m (k : string) : bool :=
  match get m k with Some _ => true | None => false end.

(** [collect]: a later entry with the same key wins. *)
Definition collect (l : list (string * V)) : list (string * V) :=
  foldl (fun m '(k, v) => insert m k v) [] l.
End maps.
Arguments get {V} m k.
Arguments insert {V} m k v.
Arguments remove {V} m k.
Arguments contains_key {V} m k.
Arguments collect {V} l.
End BTreeMap.
