(* ===== verification/Rdf.v ===== *)
(** * RDF terms and the interfaces of the third-party crates

    The data model of the [oxrdf] crate as the sources observe it. Terms are the variants the
    sources match on; IRIs and blank nodes are their text ([as_str]). Literals are opaque: the
    class [Oxrdf] lists the accessors and constructors the sources call, and [OxrdfLaws] the
    documented behaviour the theorems rely on. [ConcreteRdf] is an instance that satisfies the
    laws, used to evaluate the definitions and to discharge the theorems' hypotheses. *)

From S2P Require Export Prelude F64.

(** ** Vocabulary *)

Module xsd.
Definition NS : string := "http://www.w3.org/2001/XMLSchema#".
Definition STRING : string := "http://www.w3.org/2001/XMLSchema#string".
Definition INTEGER : string := "http://www.w3.org/2001/XMLSchema#integer".
Definition BOOLEAN : string := "http://www.w3.org/2001/XMLSchema#boolean".
Definition DOUBLE : string := "http://www.w3.org/2001/XMLSchema#double".
End xsd.

Module rdf.
Definition LANG_STRING : string := "http://www.w3.org/1999/02/22-rdf-syntax-ns#langString".
Definition DIR_LANG_STRING : string :=
  "http://www.w3.org/1999/02/22-rdf-syntax-ns#dirLangString".
Definition TYPE : string := "http://www.w3.org/1999/02/22-rdf-syntax-ns#type".
End rdf.

Inductive BaseDirection := Ltr | Rtl.
#[global] Instance base_direction_eq_dec : EqDecision BaseDirection.
Proof. solve_decision. Defined.

Abbreviation NamedNode := string.
Abbreviation BlankNode := string.

(** ** The [oxrdf] crate *)

Class Oxrdf := {
  Literal : Type;
  literal_eq_dec :: EqDecision Literal;
  lit_value : Literal -> string;
  lit_language : Literal -> option string;
  lit_direction : Literal -> option BaseDirection;
  lit_datatype : Literal -> NamedNode;
  new_simple_literal : string -> Literal;
  new_typed_literal : string -> NamedNode -> Literal;
  (** The checked constructor: the error is the message of its [Display]. *)
  new_language_tagged_literal : string -> string -> result string Literal;
  new_language_tagged_literal_unchecked : string -> string -> Literal;
  new_directional_literal_unchecked : string -> string -> BaseDirection -> Literal;
  literal_from_i64 : Z -> Literal;
  literal_from_bool : bool -> Literal;
  literal_from_f64 : f64 -> Literal;
  (** [NamedNode::new]: the message of the error of an invalid IRI. *)
  iri_error : string -> option string;
  (** [Literal]'s [Display] (N-Triples syntax). *)
  literal_to_string : Literal -> string;
}.

(** [NamedNode::new]. *)
Definition named_node_new `{Oxrdf} (i : string) : result string NamedNode :=
  match iri_error i with Some e => Err e | None => Ok i end.

(** What the documentation of [oxrdf] says of the constructors and accessors. *)
Class OxrdfLaws (O : Oxrdf) : Prop := {
  simple_spec v :
    lit_value (new_simple_literal v) = v /\ lit_language (new_simple_literal v) = None /\
    lit_datatype (new_simple_literal v) = xsd.STRING;
  typed_spec v dt :
    lit_value (new_typed_literal v dt) = v /\ lit_language (new_typed_literal v dt) = None /\
    lit_datatype (new_typed_literal v dt) = dt;
  lang_spec v l :
    lit_value (new_language_tagged_literal_unchecked v l) = v /\
    lit_language (new_language_tagged_literal_unchecked v l) = Some l /\
    lit_direction (new_language_tagged_literal_unchecked v l) = None;
  dir_spec v l d :
    lit_value (new_directional_literal_unchecked v l d) = v /\
    lit_language (new_directional_literal_unchecked v l d) = Some l /\
    lit_direction (new_directional_literal_unchecked v l d) = Some d;
  from_i64_spec z :
    lit_value (literal_from_i64 z) = show_Z z /\ lit_language (literal_from_i64 z) = None /\
    lit_datatype (literal_from_i64 z) = xsd.INTEGER;
  from_bool_spec b :
    lit_value (literal_from_bool b) = (if b then "true" else "false") /\
    lit_language (literal_from_bool b) = None /\
    lit_datatype (literal_from_bool b) = xsd.BOOLEAN;
  (** Literals are equal when their components are: the lexical form with the datatype, or
      with the language tag and direction. *)
  literal_ext_typed l1 l2 :
    lit_value l1 = lit_value l2 -> lit_language l1 = None -> lit_language l2 = None ->
    lit_datatype l1 = lit_datatype l2 -> l1 = l2;
  literal_ext_lang l1 l2 t :
    lit_value l1 = lit_value l2 -> lit_language l1 = Some t -> lit_language l2 = Some t ->
    lit_direction l1 = lit_direction l2 -> l1 = l2;
}.

(** ** Terms, triples and quads *)

(** [oxrdf::NamedOrBlankNode]. *)
Inductive NamedOrBlankNode :=
  | NobNamedNode (n : NamedNode)
  | NobBlankNode (b : BlankNode).
#[global] Instance nob_eq_dec : EqDecision NamedOrBlankNode.
Proof. solve_decision. Defined.

(** [oxrdf::GraphName]. *)
Inductive GraphName :=
  | GnDefaultGraph
  | GnNamedNode (n : NamedNode)
  | GnBlankNode (b : BlankNode).
#[global] Instance graph_name_eq_dec : EqDecision GraphName.
Proof. solve_decision. Defined.

(** [oxrdf::Term]; the triple of a triple term is spread over the constructor. *)
Inductive Term {OX : Oxrdf} :=
  | TermNamedNode (n : NamedNode)
  | TermBlankNode (b : BlankNode)
  | TermLiteral (l : Literal)
  | TermTriple (s : NamedOrBlankNode) (p : NamedNode) (o : Term).
#[global] Instance term_eq_dec `{Oxrdf} : EqDecision Term.
Proof. solve_decision. Defined.

(** [Term]'s [Display] (N-Triples syntax). *)
Class TermDisplay {OX : Oxrdf} := term_to_string : Term -> string.

(** [oxrdf::Triple]. *)
Record Triple {OX : Oxrdf} := mkTriple {
  tr_subject : NamedOrBlankNode;
  tr_predicate : NamedNode;
  tr_object : Term;
}.

(** [oxrdf::Quad]. *)
Record Quad {OX : Oxrdf} := mkQuad {
  qd_subject : NamedOrBlankNode;
  qd_predicate : NamedNode;
  qd_object : Term;
  qd_graph_name : GraphName;
}.

Arguments mkTriple {OX}.
Arguments mkQuad {OX}.

Definition term_of_subject `{Oxrdf} (s : NamedOrBlankNode) : Term :=
  match s with NobNamedNode n => TermNamedNode n | NobBlankNode b => TermBlankNode b end.

(** ** An instance *)

Module ConcreteRdf.
Inductive kind := KLang (l : string) | KDir (l : string) (d : BaseDirection) | KType (dt : string).
#[global] Instance kind_eq_dec : EqDecision kind.
Proof. solve_decision. Defined.

Definition language (k : kind) : option string :=
  match k with KLang l | KDir l _ => Some l | KType _ => None end.
Definition direction (k : kind) : option BaseDirection :=
  match k with KDir _ d => Some d | _ => None end.
Definition datatype (k : kind) : string :=
  match k with KLang _ => rdf.LANG_STRING | KDir _ _ => rdf.DIR_LANG_STRING | KType dt => dt end.

#[global] Instance oxrdf : Oxrdf := {
  Literal := string * kind;
  lit_value := fst;
  lit_language l := language l.2;
  lit_direction l := direction l.2;
  lit_datatype l := datatype l.2;
  new_simple_literal v := (v, KType xsd.STRING);
  new_typed_literal v dt := (v, KType dt);
  new_language_tagged_literal v l :=
    if String.eqb l "" then Err "empty language tag" else Ok (v, KLang l);
  new_language_tagged_literal_unchecked v l := (v, KLang l);
  new_directional_literal_unchecked v l d := (v, KDir l d);
  literal_from_i64 z := (show_Z z, KType xsd.INTEGER);
  literal_from_bool b := ((if b then "true" else "false"), KType xsd.BOOLEAN);
  literal_from_f64 x := (F64.display x, KType xsd.DOUBLE);
  iri_error i := if contains_char i ":" then None else Some "No scheme found in an absolute IRI";
  literal_to_string l := l.1 +:+ "^^" +:+ datatype l.2;
}.

#[global] Instance laws : OxrdfLaws oxrdf.
Proof.
  constructor; try (cbn; naive_solver).
  - intros [v1 []] [v2 []]; cbn; naive_solver.
  - intros [v1 []] [v2 []] t; cbn; naive_solver.
Qed.
End ConcreteRdf.
