(* ===== verification/Encoding.v ===== *)
(** * Term encoding ([crates/oxilite-core/src/encoding.rs])

    Every RDF term maps to a tagged, non-negative 64-bit id: a zero sign bit, four tag bits and
    59 payload bits. Inline kinds (canonical integers and booleans) carry their value, hashed
    kinds a 59-bit hash and a row of [terms] or [triple_terms]. [xxh3_64] and the date parsers
    of [oxsdatatypes] are parameters. *)

From S2P Require Export Rdf.

(** ** Third-party parameters *)

(** [xxhash_rust::xxh3::xxh3_64], a 64-bit unsigned integer. *)
Class Xxh3 := xxh3_64 : list ascii -> Z.

(** The components of [oxsdatatypes::DateTime] and [Date] the code reads; the time zone is the
    [hours] and [minutes] of its [DayTimeDuration]. *)
Record DateTimeParts := mkDateTimeParts {
  dt_year : Z; dt_month : Z; dt_day : Z; dt_hour : Z; dt_minute : Z; dt_second : f64;
  dt_timezone : option (Z * Z);
}.
Class OxsDatatypes := {
  parse_date_time : string -> option DateTimeParts;
  parse_date : string -> option DateTimeParts;
}.

(** [oxilite_core::Error]: the constructors the modelled code builds. *)
Inductive Error :=
  | Backend (msg : string)
  | Unsupported (msg : string)
  | Collision (msg : string)
  | Corrupted (msg : string)
  | Other (msg : string).
#[global] Instance error_eq_dec : EqDecision Error.
Proof. solve_decision. Defined.

(** ** Layout of an id *)

Definition PAYLOAD_BITS : Z := 59.
Definition PAYLOAD_MASK : Z := Z.shiftl 1 PAYLOAD_BITS - 1.
Definition INT_OFFSET : Z := Z.shiftl 1 (PAYLOAD_BITS - 1).
Definition INT_MIN : Z := - INT_OFFSET.
Definition INT_MAX : Z := INT_OFFSET - 1.
Definition DEFAULT_GRAPH_ID : Z := 0.

Inductive Tag :=
  | Default | Iri | TBlankNode | TString | LangString | Typed | Integer | Boolean
  | TTriple | DirLangString.
#[global] Instance tag_eq_dec : EqDecision Tag.
Proof. solve_decision. Defined.

Module Tag.
(** The discriminants: [tag as u8]. *)
Definition to_u8 (t : Tag) : Z :=
  match t with
  | Default => 0 | Iri => 1 | TBlankNode => 2 | TString => 3 | LangString => 4 | Typed => 5
  | Integer => 6 | Boolean => 7 | TTriple => 9 | DirLangString => 10
  end.

Definition from_u8 (v : Z) : option Tag :=
  match v with
  | 0 => Some Default
  | 1 => Some Iri
  | 2 => Some TBlankNode
  | 3 => Some TString
  | 4 => Some LangString
  | 5 => Some Typed
  | 6 => Some Integer
  | 7 => Some Boolean
  | 9 => Some TTriple
  | 10 => Some DirLangString
  | _ => None
  end.

(** The first id carrying this tag. *)
Definition base (t : Tag) : Z := Z.shiftl (to_u8 t) PAYLOAD_BITS.

Definition is_hashed (t : Tag) : bool :=
  match t with
  | Iri | TBlankNode | TString | LangString | Typed | DirLangString => true
  | _ => false
  end.

Definition is_literal (t : Tag) : bool :=
  match t with
  | TString | LangString | Typed | Integer | Boolean | DirLangString => true
  | _ => false
  end.
End Tag.

Definition tag_of (id : Z) : option Tag :=
  Tag.from_u8 (Z.land (Z.shiftr id PAYLOAD_BITS) 15).

Definition make (t : Tag) (payload : Z) : Z := Z.lor (Tag.base t) (Z.land payload PAYLOAD_MASK).

(** The parts of a key, separated by a zero byte. *)
Fixpoint join_bytes (parts : list (list ascii)) : list ascii :=
  match parts with
  | [] => []
  | [p] => p
  | p :: ps => p ++ byte_of 0 :: join_bytes ps
  end.

Definition bytes (s : string) : list ascii := String.list_ascii_of_string s.

(** [i64::to_be_bytes]. *)
Definition to_be_bytes (z : Z) : list ascii :=
  (fun i => byte_of (Z.land (Z.shiftr z (8 * i)) 255)) <$> [7; 6; 5; 4; 3; 2; 1; 0].

Definition hashed `{Xxh3} (t : Tag) (key : list (list ascii)) : Z :=
  make t (Z.land (wrap_i64 (xxh3_64 (byte_of (Tag.to_u8 t) :: join_bytes key))) PAYLOAD_MASK).

Definition integer_id (value : Z) : option Z :=
  if (INT_MIN <=? value) && (value <=? INT_MAX)
  then Some (make Integer (value + INT_OFFSET)) else None.

Definition boolean_id (value : bool) : Z := make Boolean (if value then 1 else 0).

(** ** Rows *)

Module numeric_type.
Definition INTEGER : Z := 1.
Definition DECIMAL : Z := 2.
Definition FLOAT : Z := 3.
Definition DOUBLE : Z := 4.
End numeric_type.

Record TermRow := mkTermRow {
  tr_id : Z;
  lex : string;
  dt : option string;
  lang : option string;
  dir : option Z;
  num : option f64;
  nt : option Z;
  ts : option f64;
}.

Record TripleRow := mkTripleRow {
  tt_id : Z; tt_s : Z; tt_p : Z; tt_o : Z; vk : string; sk : string;
}.

Record EncodedRows := mkEncodedRows { terms : list TermRow; triples : list TripleRow }.
Definition empty_rows : EncodedRows := mkEncodedRows [] [].

(** ** Literal values *)

Definition integer_family (dt : string) : bool :=
  existsb (String.eqb dt)
    ["http://www.w3.org/2001/XMLSchema#integer";
     "http://www.w3.org/2001/XMLSchema#int";
     "http://www.w3.org/2001/XMLSchema#long";
     "http://www.w3.org/2001/XMLSchema#short";
     "http://www.w3.org/2001/XMLSchema#byte";
     "http://www.w3.org/2001/XMLSchema#nonNegativeInteger";
     "http://www.w3.org/2001/XMLSchema#positiveInteger";
     "http://www.w3.org/2001/XMLSchema#nonPositiveInteger";
     "http://www.w3.org/2001/XMLSchema#negativeInteger";
     "http://www.w3.org/2001/XMLSchema#unsignedLong";
     "http://www.w3.org/2001/XMLSchema#unsignedInt";
     "http://www.w3.org/2001/XMLSchema#unsignedShort";
     "http://www.w3.org/2001/XMLSchema#unsignedByte"].

Definition numeric_rank (dt : string) : option Z :=
  if integer_family dt then Some numeric_type.INTEGER
  else if String.eqb dt "http://www.w3.org/2001/XMLSchema#decimal" then Some numeric_type.DECIMAL
  else if String.eqb dt "http://www.w3.org/2001/XMLSchema#float" then Some numeric_type.FLOAT
  else if String.eqb dt "http://www.w3.org/2001/XMLSchema#double" then Some numeric_type.DOUBLE
  else None.

Definition parse_xsd_float (lex : string) : option f64 :=
  if String.eqb lex "INF" || String.eqb lex "+INF" then Some F64.infinity
  else if String.eqb lex "-INF" then Some F64.neg_infinity
  else if String.eqb lex "NaN" then None
  else F64.parse (trim lex) ≫= fun v => if F64.is_finite v then Some v else None.

(** Days since 1970-01-01 of a proleptic Gregorian civil date; [/] and [%] truncate. *)
Definition days_from_civil (y m d : Z) : Z :=
  let y := if m <=? 2 then y - 1 else y in
  let era := Z.quot (if 0 <=? y then y else y - 399) 400 in
  let yoe := y - era * 400 in
  let mp := Z.rem (m + 9) 12 in
  let doy := Z.quot (153 * mp + 2) 5 + d - 1 in
  let doe := yoe * 365 + Z.quot yoe 4 - Z.quot yoe 100 + doy in
  era * 146097 + doe - 719468.

Definition tz_seconds (tz : option (Z * Z)) : f64 :=
  match tz with
  | None => F64.zero
  | Some (hours, minutes) => F64.of_Z (hours * 3600 + minutes * 60)
  end.

Definition timestamp `{OxsDatatypes} (lex dt : string) : option f64 :=
  if String.eqb dt "http://www.w3.org/2001/XMLSchema#dateTime"
     || String.eqb dt "http://www.w3.org/2001/XMLSchema#dateTimeStamp"
  then
    v ← parse_date_time lex;
    let days := days_from_civil (dt_year v) (dt_month v) (dt_day v) in
    Some (F64.sub
            (F64.add
               (F64.add
                  (F64.add (F64.mul (F64.of_Z days) (F64.of_Z 86400))
                           (F64.mul (F64.of_Z (dt_hour v)) (F64.of_Z 3600)))
                  (F64.mul (F64.of_Z (dt_minute v)) (F64.of_Z 60)))
               (dt_second v))
            (tz_seconds (dt_timezone v)))
  else if String.eqb dt "http://www.w3.org/2001/XMLSchema#date"
  then
    v ← parse_date lex;
    let days := days_from_civil (dt_year v) (dt_month v) (dt_day v) in
    Some (F64.sub (F64.mul (F64.of_Z days) (F64.of_Z 86400)) (tz_seconds (dt_timezone v)))
  else None.

Definition timezone_flag `{OxsDatatypes} (lex dt : string) : option Z :=
  _ ← timestamp lex dt;
  let b := bytes lex in
  let n := length b in
  let at_end (k : nat) (c : ascii) := bool_decide (b !! (n - k)%nat = Some c) in
  let tz := ((0 <? n)%nat && at_end 1%nat "Z"%char)
            || ((6 <? n)%nat && ((at_end 6%nat "+"%char || at_end 6%nat "-"%char)
                                 && at_end 3%nat ":"%char)) in
  Some (if tz then 1 else 0).

(** ** Ids of terms *)

Definition named_node_id `{Xxh3} (iri : string) : Z := hashed Iri [bytes iri].
Definition blank_node_id `{Xxh3} (label : string) : Z := hashed TBlankNode [bytes label].

Section encode.
Context {OX : Oxrdf} {XX : Xxh3} {OD : OxsDatatypes}.

Definition plain_row (id : Z) (l : string) : TermRow :=
  mkTermRow id l None None None None None None.

(** The id of a literal and, for hashed literals, the row to store. *)
Definition encode_literal (literal : Literal) : Z * option TermRow :=
  let l := lit_value literal in
  match lit_language literal with
  | Some lng =>
      match lit_direction literal with
      | Some direction =>
          let d := match direction with Ltr => 1 | Rtl => 2 end in
          let id := hashed DirLangString
                      [bytes lng; bytes (if d =? 1 then "ltr" else "rtl"); bytes l] in
          (id, Some (mkTermRow id l None (Some lng) (Some d) None None None))
      | None =>
          let id := hashed LangString [bytes lng; bytes l] in
          (id, Some (mkTermRow id l None (Some lng) None None None None))
      end
  | None =>
      let dt := lit_datatype literal in
      if String.eqb dt xsd.STRING then
        let id := hashed TString [bytes l] in (id, Some (plain_row id l))
      else
        let inline_int :=
          if String.eqb dt xsd.INTEGER then
            v ← parse_i64 l;
            if String.eqb (show_Z v) l then integer_id v else None
          else None in
        let inline_bool :=
          if String.eqb dt xsd.BOOLEAN then
            if String.eqb l "true" then Some (boolean_id true)
            else if String.eqb l "false" then Some (boolean_id false)
            else None
          else None in
        match inline_int, inline_bool with
        | Some id, _ => (id, None)
        | None, Some id => (id, None)
        | None, None =>
            let id := hashed Typed [bytes dt; bytes l] in
            let n := numeric_rank dt in
            let num := n ≫= fun _ => parse_xsd_float l in
            let num :=
              if String.eqb dt xsd.BOOLEAN then
                let t := trim l in
                if String.eqb t "1" || String.eqb t "true" then Some (F64.of_Z 1)
                else if String.eqb t "0" || String.eqb t "false" then Some F64.zero
                else None
              else num in
            (id, Some (mkTermRow id l (Some dt) None (timezone_flag l dt) num
                         (match num with Some _ => n | None => None end) (timestamp l dt)))
        end
  end.

(** The subject of a triple term, as a term. *)
Definition node_key (s : NamedOrBlankNode) : string :=
  match s with
  | NobNamedNode n => "i" +:+ show_Z (named_node_id n)
  | NobBlankNode b => "b" +:+ show_Z (blank_node_id b)
  end.

Definition literal_key (l : Literal) : string :=
  let '(id, row) := encode_literal l in
  match tag_of id, row with
  | Some Integer, _ => "n" +:+ show_Z (Z.land id PAYLOAD_MASK - INT_OFFSET)
  | Some Boolean, _ => "B" +:+ show_Z (Z.land id 1)
  | _, Some r =>
      let by_time := match ts r with
                     | Some ts => "t" +:+ lit_datatype l +:+ "|" +:+ show_Z (default 0 (dir r))
                                  +:+ "|" +:+ F64.debug ts
                     | None => "l" +:+ show_Z id
                     end in
      match num r, nt r with
      | Some n, Some _ =>
          if F64.eqb (F64.fract n) F64.zero && F64.ltb (F64.abs n) (F64.of_Z (9 * 10 ^ 15))
          then "n" +:+ show_Z (F64.to_i64 n)
          else "n" +:+ F64.debug n
      | Some b, None =>
          if String.eqb (lit_datatype l) xsd.BOOLEAN then "B" +:+ show_Z (F64.to_i64 b)
          else by_time
      | _, _ => by_time
      end
  | _, None => "l" +:+ show_Z id
  end.

(** A string that is equal for value-equal terms. *)
Fixpoint value_key (t : Term) : string :=
  match t with
  | TermNamedNode n => node_key (NobNamedNode n)
  | TermBlankNode b => node_key (NobBlankNode b)
  | TermLiteral l => literal_key l
  | TermTriple s p o =>
      "(" +:+ node_key s +:+ " " +:+ node_key (NobNamedNode p) +:+ " " +:+ value_key o +:+ ")"
  end.

(** Order-preserving bit transform: the numeric order of these bits, and the byte order of
    their hexadecimal, is the order of the numbers. *)
Definition sort_bits (x : f64) : Z :=
  let bits := F64.to_bits x in
  if F64.is_sign_negative x then 2 ^ 64 - 1 - bits else Z.lor bits (2 ^ 63).

Definition sort_number (x : f64) : string := hex 16 (sort_bits x).

Definition node_sort_key (s : NamedOrBlankNode) : string :=
  match s with NobBlankNode b => "0" +:+ b | NobNamedNode n => "1" +:+ n end.

Definition literal_sort_key (l : Literal) : string :=
  let '(id, row) := encode_literal l in
  let number :=
    match tag_of id, row with
    | Some Integer, _ => Some (F64.of_Z (Z.land id PAYLOAD_MASK - INT_OFFSET))
    | _, Some r => match nt r with Some _ => num r | None => None end
    | _, None => None
    end in
  match number with
  | Some n => "2" +:+ sort_number n
  | None => "3" +:+ lit_value l +:+ String (byte_of 1) (lit_datatype l)
  end.

(** A string whose byte order is the ORDER BY order of terms. *)
Fixpoint sort_key (t : Term) : string :=
  match t with
  | TermBlankNode b => node_sort_key (NobBlankNode b)
  | TermNamedNode n => node_sort_key (NobNamedNode n)
  | TermLiteral l => literal_sort_key l
  | TermTriple s p o =>
      "4" +:+ node_sort_key s +:+ String (byte_of 2) (node_sort_key (NobNamedNode p))
      +:+ String (byte_of 2) (sort_key o)
  end.

(** The id of a triple term, from the ids of its components. *)
Definition triple_key (s p o : Z) : Z :=
  hashed TTriple [to_be_bytes s; to_be_bytes p; to_be_bytes o].

Definition subject_id (s : NamedOrBlankNode) : Z :=
  match s with NobNamedNode n => named_node_id n | NobBlankNode b => blank_node_id b end.

Definition graph_id (g : GraphName) : Z :=
  match g with
  | GnDefaultGraph => DEFAULT_GRAPH_ID
  | GnNamedNode n => named_node_id n
  | GnBlankNode b => blank_node_id b
  end.

(** The id of a term, without collecting rows. *)
Fixpoint term_id (t : Term) : Z :=
  match t with
  | TermNamedNode n => named_node_id n
  | TermBlankNode b => blank_node_id b
  | TermLiteral l => (encode_literal l).1
  | TermTriple s p o => triple_key (subject_id s) (named_node_id p) (term_id o)
  end.

Definition triple_id (t : Triple) : Z :=
  triple_key (subject_id (tr_subject t)) (named_node_id (tr_predicate t))
    (term_id (tr_object t)).

(** ** Collecting rows ([impl EncodedRows]): each call appends to the rows. *)

Definition push_term (rows : EncodedRows) (r : TermRow) : EncodedRows :=
  mkEncodedRows (terms rows ++ [r]) (triples rows).
Definition push_triple (rows : EncodedRows) (r : TripleRow) : EncodedRows :=
  mkEncodedRows (terms rows) (triples rows ++ [r]).

Definition rows_iri (rows : EncodedRows) (iri : string) : EncodedRows * Z :=
  let id := named_node_id iri in (push_term rows (plain_row id iri), id).

Definition rows_bnode (rows : EncodedRows) (label : string) : EncodedRows * Z :=
  let id := blank_node_id label in (push_term rows (plain_row id label), id).

Definition rows_subject (rows : EncodedRows) (s : NamedOrBlankNode) : EncodedRows * Z :=
  match s with NobNamedNode n => rows_iri rows n | NobBlankNode b => rows_bnode rows b end.

Definition rows_graph (rows : EncodedRows) (g : GraphName) : EncodedRows * Z :=
  match g with
  | GnDefaultGraph => (rows, DEFAULT_GRAPH_ID)
  | GnNamedNode n => rows_iri rows n
  | GnBlankNode b => rows_bnode rows b
  end.

(** [EncodedRows::term] and [EncodedRows::triple], which call each other. *)
Fixpoint rows_term (rows : EncodedRows) (t : Term) : EncodedRows * Z :=
  match t with
  | TermNamedNode n => rows_iri rows n
  | TermBlankNode b => rows_bnode rows b
  | TermLiteral l =>
      let '(id, row) := encode_literal l in
      (match row with Some row => push_term rows row | None => rows end, id)
  | TermTriple s p o =>
      let '(rows, sid) := rows_subject rows s in
      let '(rows, pid) := rows_iri rows p in
      let '(rows, oid) := rows_term rows o in
      let id := triple_key sid pid oid in
      (push_triple rows (mkTripleRow id sid pid oid (value_key t) (sort_key t)), id)
  end.

Definition rows_triple (rows : EncodedRows) (t : Triple) : EncodedRows * Z :=
  rows_term rows (TermTriple (tr_subject t) (tr_predicate t) (tr_object t)).

(** The ids of the components, in the order [s, p, o, g]. *)
Definition rows_quad (rows : EncodedRows) (q : Quad) : EncodedRows * (Z * Z * Z * Z) :=
  let '(rows, s) := rows_subject rows (qd_subject q) in
  let '(rows, p) := rows_iri rows (qd_predicate q) in
  let '(rows, o) := rows_term rows (qd_object q) in
  let '(rows, g) := rows_graph rows (qd_graph_name q) in
  (rows, (s, p, o, g)).

Definition rows_is_empty (rows : EncodedRows) : bool :=
  match terms rows, triples rows with [], [] => true | _, _ => false end.

Definition rows_dedup (rows : EncodedRows) : EncodedRows :=
  mkEncodedRows (dedup_by_key tr_id (sort_by_key tr_id (terms rows)))
                (dedup_by_key tt_id (sort_by_key tt_id (triples rows))).

(** ** Decoding *)

Definition decode_inline (id : Z) : option Term :=
  t ← tag_of id;
  match t with
  | Integer => Some (TermLiteral (literal_from_i64 (Z.land id PAYLOAD_MASK - INT_OFFSET)))
  | Boolean => Some (TermLiteral (literal_from_bool (negb (Z.land id PAYLOAD_MASK =? 0))))
  | _ => None
  end.

Definition decode_row (id : Z) (lex : string) (dt lang : option string) (dir : option Z)
  : result Error Term :=
  tag ← ok_or (tag_of id) (Corrupted ("invalid term id " +:+ show_Z id));
  match tag with
  | Iri => Ok (TermNamedNode lex)
  | TBlankNode => Ok (TermBlankNode lex)
  | TString => Ok (TermLiteral (new_simple_literal lex))
  | LangString =>
      l ← ok_or lang (Corrupted "language tag missing");
      Ok (TermLiteral (new_language_tagged_literal_unchecked lex l))
  | DirLangString =>
      l ← ok_or lang (Corrupted "language tag missing");
      Ok (TermLiteral (new_directional_literal_unchecked lex l
            (match dir with Some 2 => Rtl | _ => Ltr end)))
  | Typed =>
      d ← ok_or dt (Corrupted "datatype missing");
      Ok (TermLiteral (new_typed_literal lex d))
  | Integer | Boolean => ok_or (decode_inline id) (Corrupted "bad inline term")
  | TTriple | Default => Err (Corrupted ("id " +:+ show_Z id +:+ " is not a plain term"))
  end.

Definition make_triple (s p o : Term) : result Error Triple :=
  s ← match s with
      | TermNamedNode n => Ok (NobNamedNode n)
      | TermBlankNode b => Ok (NobBlankNode b)
      | _ => Err (Corrupted "invalid triple term subject")
      end;
  match p with
  | TermNamedNode p => Ok (mkTriple s p o)
  | _ => Err (Corrupted "invalid triple term predicate")
  end.

Definition to_subject (t : Term) : result Error NamedOrBlankNode :=
  match t with
  | TermNamedNode n => Ok (NobNamedNode n)
  | TermBlankNode b => Ok (NobBlankNode b)
  | _ => Err (Corrupted "invalid subject")
  end.

Definition to_graph_name (id : Z) (t : option Term) : result Error GraphName :=
  if id =? DEFAULT_GRAPH_ID then Ok GnDefaultGraph
  else match t with
       | Some (TermNamedNode n) => Ok (GnNamedNode n)
       | Some (TermBlankNode b) => Ok (GnBlankNode b)
       | _ => Err (Corrupted "invalid graph name")
       end.

Definition make_quad (s p o : Term) (g : GraphName) : result Error Quad :=
  match p with
  | TermNamedNode p => s ← to_subject s; Ok (mkQuad s p o g)
  | _ => Err (Corrupted "invalid predicate")
  end.

Definition rdf_type_id : Z := named_node_id rdf.TYPE.
End encode.

(** ** An instance of the parameters

    A polynomial hash and date parsers that accept nothing, to evaluate the definitions. *)
Module ConcreteEncoding.
#[global] Instance xxh3 : Xxh3 :=
  foldl (fun h c => (h * 31 + byte_val c) mod 2 ^ 64) 14695981039346656037.
#[global] Instance oxsdatatypes : OxsDatatypes :=
  {| parse_date_time := fun _ => None; parse_date := fun _ => None |}.
End ConcreteEncoding.
