(* ===== verification/EncodingFacts.v ===== *)
(** * Properties of the term encoding *)

From S2P Require Export Encoding.

(** ** Bits *)

Lemma payload_mask_ones : PAYLOAD_MASK = Z.ones 59.
Proof. reflexivity. Qed.

Lemma land_payload z : Z.land z PAYLOAD_MASK = z mod 2 ^ 59.
Proof. rewrite payload_mask_ones. apply Z.land_ones. lia. Qed.

Lemma lor_shiftl_add a b n : 0 <= n -> 0 <= b < 2 ^ n -> Z.lor (Z.shiftl a n) b = a * 2 ^ n + b.
Proof.
  intros Hn Hb.
  assert (Z.land (Z.shiftl a n) b = 0) as H0.
  { apply Z.bits_inj'. intros i Hi. rewrite Z.land_spec, Z.bits_0.
    destruct (Z.lt_ge_cases i n).
    - by rewrite Z.shiftl_spec_low.
    - rewrite <- (Z.mod_small b (2 ^ n)) by done.
      rewrite Z.mod_pow2_bits_high by lia. apply andb_false_r. }
  rewrite <- Z.shiftl_mul_pow2 by done.
  pose proof (Z.add_lor_land (Z.shiftl a n) b). lia.
Qed.

(** An id is its tag times [2 ^ 59] plus its payload. *)
Lemma make_add t p : make t p = Tag.to_u8 t * 2 ^ 59 + p mod 2 ^ 59.
Proof.
  unfold make, Tag.base, PAYLOAD_BITS. rewrite land_payload.
  apply lor_shiftl_add; [lia|]. by apply Z.mod_pos_bound.
Qed.

Lemma tag_u8_range t : 0 <= Tag.to_u8 t < 16.
Proof. destruct t; cbn; lia. Qed.

Lemma from_to_u8 t : Tag.from_u8 (Tag.to_u8 t) = Some t.
Proof. by destruct t. Qed.

Lemma tag_of_make t p : tag_of (make t p) = Some t.
Proof.
  unfold tag_of, PAYLOAD_BITS. rewrite make_add, Z.shiftr_div_pow2 by lia.
  rewrite Z.div_add_l, (Z.div_small (_ mod _)), Z.add_0_r by (lia || by apply Z.mod_pos_bound).
  change 15 with (Z.ones 4). rewrite Z.land_ones by lia.
  rewrite Z.mod_small by apply tag_u8_range. apply from_to_u8.
Qed.

Lemma payload_make t p : Z.land (make t p) PAYLOAD_MASK = p mod 2 ^ 59.
Proof.
  rewrite land_payload, make_add, Z.add_comm, Z.mod_add, Z.mod_mod by lia. done.
Qed.

Lemma make_range t p : Tag.base t <= make t p < Tag.base t + 2 ^ 59.
Proof.
  rewrite make_add. unfold Tag.base, PAYLOAD_BITS. rewrite Z.shiftl_mul_pow2 by lia.
  pose proof (Z.mod_pos_bound p (2 ^ 59)). lia.
Qed.

Lemma tag_of_hashed `{Xxh3} t key : tag_of (hashed t key) = Some t.
Proof. apply tag_of_make. Qed.

Create Rewrite HintDb encoding.
#[export] Hint Rewrite @tag_of_make @tag_of_hashed payload_make : encoding.

(** ** Ids *)

Lemma integer_id_some v id :
  integer_id v = Some id -> id = make Integer (v + INT_OFFSET) /\ INT_MIN <= v <= INT_MAX.
Proof.
  unfold integer_id. destruct (_ && _) eqn:E; [|done]. intros [= <-]. split; [done|lia].
Qed.

(** The inline id of a literal, as the code tries it. *)
Definition inline_id `{Oxrdf} (l : Literal) : option Z :=
  if String.eqb (lit_datatype l) xsd.INTEGER then
    v ← parse_i64 (lit_value l);
    if String.eqb (show_Z v) (lit_value l) then integer_id v else None
  else if String.eqb (lit_datatype l) xsd.BOOLEAN then
    if String.eqb (lit_value l) "true" then Some (boolean_id true)
    else if String.eqb (lit_value l) "false" then Some (boolean_id false) else None
  else None.

Section literals.
Context {OX : Oxrdf} {XX : Xxh3} {OD : OxsDatatypes}.

(** The cases of [encode_literal] for a literal without a language tag. *)
Lemma encode_typed l :
  lit_language l = None -> lit_datatype l <> xsd.STRING ->
  match inline_id l with
  | Some id => encode_literal l = (id, None)
  | None => exists row, encode_literal l = (hashed Typed [bytes (lit_datatype l); bytes (lit_value l)], Some row)
      /\ tr_id row = hashed Typed [bytes (lit_datatype l); bytes (lit_value l)]
      /\ lex row = lit_value l /\ dt row = Some (lit_datatype l)
  end.
Proof.
  intros Hl Hs. unfold encode_literal, inline_id. rewrite Hl.
  apply String.eqb_neq in Hs as ->.
  destruct (String.eqb_spec (lit_datatype l) xsd.INTEGER) as [E|E].
  - rewrite E. cbn [String.eqb]. change (String.eqb xsd.INTEGER xsd.BOOLEAN) with false. cbn.
    destruct (parse_i64 (lit_value l)) as [v|]; cbn; [|eauto 10].
    destruct (String.eqb _ _); [|eauto 10].
    destruct (integer_id v); eauto 10.
  - destruct (String.eqb (lit_datatype l) xsd.BOOLEAN); [|eauto 10].
    destruct (String.eqb (lit_value l) "true"); [done|].
    destruct (String.eqb (lit_value l) "false"); eauto 10.
Qed.

(** The inline id of a literal carries the tag of its datatype. *)
Lemma inline_id_tag l id :
  inline_id l = Some id ->
  (lit_datatype l = xsd.INTEGER /\ exists v, lit_value l = show_Z v /\ INT_MIN <= v <= INT_MAX
     /\ id = make Integer (v + INT_OFFSET))
  \/ (lit_datatype l = xsd.BOOLEAN /\ exists b : bool,
       lit_value l = (if b then "true" else "false") /\ id = boolean_id b).
Proof.
  unfold inline_id. destruct (String.eqb_spec (lit_datatype l) xsd.INTEGER) as [->|].
  - destruct (parse_i64 _) as [v|]; cbn; [|done].
    destruct (String.eqb_spec (show_Z v) (lit_value l)) as [<-|]; [|done].
    intros [-> ?]%integer_id_some. left. eauto.
  - destruct (String.eqb_spec (lit_datatype l) xsd.BOOLEAN) as [->|]; [|done].
    destruct (String.eqb_spec (lit_value l) "true") as [->|].
    { intros [= <-]. right. split; [done|]. by exists true. }
    destruct (String.eqb_spec (lit_value l) "false") as [->|]; [|done].
    intros [= <-]. right. split; [done|]. by exists false.
Qed.

(** Conversely a canonical lexical form in range is inline. *)
Lemma inline_id_complete l :
  (lit_datatype l = xsd.INTEGER -> forall v, lit_value l = show_Z v -> INT_MIN <= v <= INT_MAX ->
     inline_id l = Some (make Integer (v + INT_OFFSET)))
  /\ (lit_datatype l = xsd.BOOLEAN -> forall b : bool, lit_value l = (if b then "true" else "false") ->
     inline_id l = Some (boolean_id b)).
Proof.
  split.
  - intros Hd v Hv Hr. unfold inline_id. rewrite Hd, Hv, String.eqb_refl.
    rewrite parse_i64_show by (unfold in_i64, i64_min, i64_max; unfold INT_MIN, INT_MAX in Hr;
      change INT_OFFSET with (2 ^ 58) in Hr; lia).
    cbn. rewrite String.eqb_refl. unfold integer_id.
    destruct (_ && _) eqn:E; [done|lia].
  - intros Hd b Hv. unfold inline_id. rewrite Hd, Hv. by destruct b.
Qed.
End literals.

(** The tag a term's id must carry. *)
Definition kind_of `{Oxrdf} (t : Term) : Tag :=
  match t with
  | TermNamedNode _ => Iri
  | TermBlankNode _ => TBlankNode
  | TermTriple _ _ _ => TTriple
  | TermLiteral l =>
      match lit_language l, lit_direction l with
      | Some _, Some _ => DirLangString
      | Some _, None => LangString
      | None, _ =>
          if String.eqb (lit_datatype l) xsd.STRING then TString
          else match inline_id l with
               | None => Typed
               | Some _ => if String.eqb (lit_datatype l) xsd.INTEGER then Integer else Boolean
               end
      end
  end.


Section ids.
Context {OX : Oxrdf} {XX : Xxh3} {OD : OxsDatatypes}.

Lemma encode_literal_make l :
  exists p, (encode_literal l).1 = make (kind_of (TermLiteral l)) p.
Proof.
  unfold kind_of. destruct (lit_language l) as [t|] eqn:Hl.
  - unfold encode_literal. rewrite Hl. destruct (lit_direction l); by eexists.
  - destruct (String.eqb_spec (lit_datatype l) xsd.STRING) as [Hs|Hs].
    + unfold encode_literal. rewrite Hl, Hs. by eexists.
    + pose proof (encode_typed l Hl Hs) as He.
      destruct (inline_id l) as [id|] eqn:Hi.
      * rewrite He. unfold fst.
        apply inline_id_tag in Hi as [(-> & v & _ & _ & ->)|(-> & b & _ & ->)]; by eexists.
      * destruct He as (row & -> & _). by eexists.
Qed.

Lemma term_id_make (t : Term) : exists p, term_id t = make (kind_of t) p.
Proof.
  destruct t as [n|b|l|sb p o]; [by eexists..| |by eexists]. apply encode_literal_make.
Qed.

Lemma kind_base (t : Term) : 2 ^ 59 <= Tag.base (kind_of t) <= 10 * 2 ^ 59.
Proof.
  unfold kind_of. repeat case_match; by vm_compute.
Qed.

Lemma tag_of_range id t : tag_of id = Some t -> 0 <= id < 2 ^ 63 ->
  Tag.base t <= id < Tag.base t + 2 ^ 59.
Proof.
  unfold tag_of, PAYLOAD_BITS, Tag.base. intros Ht Hid.
  rewrite Z.shiftr_div_pow2 in Ht by lia. change PAYLOAD_BITS with 59.
  rewrite Z.shiftl_mul_pow2 by lia.
  change 15 with (Z.ones 4) in Ht. rewrite Z.land_ones in Ht by lia.
  pose proof (Z.div_mod id (2 ^ 59) ltac:(lia)). pose proof (Z.mod_pos_bound id (2 ^ 59) ltac:(lia)).
  rewrite Z.mod_small in Ht by lia.
  assert (id / 2 ^ 59 = Tag.to_u8 t) as <-; [|lia].
  unfold Tag.from_u8 in Ht. repeat case_match; simplify_eq; done.
Qed.
End ids.

(** ** Properties *)

Section properties.
Context {OX : Oxrdf} {XX : Xxh3} {OD : OxsDatatypes}.

(** The id of every term carries the tag of the term's kind, lies in that tag's block of
    [2 ^ 59] ids, and is a positive [i64]: so terms of different kinds never share an id and
    no term has the id of the default graph. *)
Theorem term_ids_tagged (t : Term) :
  tag_of (term_id t) = Some (kind_of t) /\
  Tag.base (kind_of t) <= term_id t < Tag.base (kind_of t) + 2 ^ 59 /\
  DEFAULT_GRAPH_ID < term_id t <= i64_max.
Proof.
  destruct (term_id_make t) as [p ->]. split; [apply tag_of_make|].
  pose proof (make_range (kind_of t) p). pose proof (kind_base t).
  unfold DEFAULT_GRAPH_ID, i64_max. lia.
Qed.

Lemma decode_boolean_id b : decode_inline (boolean_id b) = Some (TermLiteral (literal_from_bool b)).
Proof.
  unfold decode_inline, boolean_id. rewrite tag_of_make. cbn -[Z.land make Z.eqb].
  rewrite payload_make. by destruct b.
Qed.

(** An integer has an inline id exactly when it is in [INT_MIN, INT_MAX]; inline ids sort
    by value, decode to the canonical literal of the value, and the boolean ids decode too. *)
Theorem inline_ids_ordered (v w : Z) :
  (is_Some (integer_id v) <-> INT_MIN <= v <= INT_MAX) /\
  (forall i j, integer_id v = Some i -> integer_id w = Some j ->
     (i < j <-> v < w) /\ decode_inline i = Some (TermLiteral (literal_from_i64 v))) /\
  (forall b, decode_inline (boolean_id b) = Some (TermLiteral (literal_from_bool b))).
Proof.
  split_and!.
  - unfold integer_id, is_Some. destruct (_ && _) eqn:E; naive_solver lia.
  - intros i j [-> Hv]%integer_id_some [-> Hw]%integer_id_some.
    assert (forall z, INT_MIN <= z <= INT_MAX -> (z + INT_OFFSET) mod 2 ^ 59 = z + INT_OFFSET) as Hm.
    { intros z Hz. apply Z.mod_small. unfold INT_MIN, INT_MAX in Hz.
      change INT_OFFSET with (2 ^ 58) in *. lia. }
    split.
    + rewrite !make_add, !Hm by done. lia.
    + unfold decode_inline. rewrite tag_of_make. cbn -[Z.land make Z.sub].
      rewrite payload_make, Hm by done. do 3 f_equal. lia.
  - apply decode_boolean_id.
Qed.

(** A literal without language tag needs no row exactly when it is a canonical integer in
    the inline range or a canonical boolean; every language-tagged or string literal does. *)
Theorem inline_iff_canonical (l : Literal) :
  (encode_literal l).2 = None <->
  lit_language l = None /\
  ((lit_datatype l = xsd.INTEGER /\ exists v, lit_value l = show_Z v /\ INT_MIN <= v <= INT_MAX)
   \/ (lit_datatype l = xsd.BOOLEAN /\ (lit_value l = "true" \/ lit_value l = "false"))).
Proof.
  destruct (lit_language l) as [t|] eqn:Hl.
  { unfold encode_literal. rewrite Hl. destruct (lit_direction l); naive_solver. }
  destruct (String.eqb_spec (lit_datatype l) xsd.STRING) as [Hs|Hs].
  { unfold encode_literal. rewrite Hl, Hs. cbn. split; [done|naive_solver]. }
  pose proof (encode_typed l Hl Hs) as He. destruct (inline_id_complete l) as [Hci Hcb].
  split.
  - intros Hn. split; [done|]. destruct (inline_id l) as [id|] eqn:Hi.
    + apply inline_id_tag in Hi as [(-> & v & ? & ? & _)|(-> & b & Hb & _)]; [by eauto|].
      right. split; [done|]. destruct b; auto.
    + destruct He as (row & He & _). rewrite He in Hn. done.
  - intros [_ H]. assert (is_Some (inline_id l)) as [id Hid].
    { destruct H as [(Hd & v & Hv & Hr)|(Hd & [Hb|Hb])].
      - eexists. by apply (Hci Hd v).
      - eexists. by apply (Hcb Hd true).
      - eexists. by apply (Hcb Hd false). }
    rewrite Hid in He. by rewrite He.
Qed.

(** Encoding then decoding a literal gives the literal back: from the id alone when it is
    inline, from the id and the columns of its row otherwise, and the row is keyed by the id. *)
Lemma decode_encode_literal {laws : OxrdfLaws OX} (l : Literal) :
  match encode_literal l with
  | (id, None) => decode_inline id = Some (TermLiteral l)
  | (id, Some r) =>
      tr_id r = id /\ decode_row id (lex r) (dt r) (lang r) (dir r) = Ok (TermLiteral l)
  end.
Proof.
  destruct (lit_language l) as [t|] eqn:Hl.
  { unfold encode_literal. rewrite Hl.
    destruct (lit_direction l) as [d|] eqn:Hd; (split; [done|]);
      unfold decode_row; rewrite tag_of_hashed; cbn; do 2 f_equal.
    - transitivity (new_directional_literal_unchecked (lit_value l) t d); [by destruct d|].
      destruct (dir_spec (lit_value l) t d) as (? & ? & ?).
      apply (literal_ext_lang _ _ t); congruence.
    - destruct (lang_spec (lit_value l) t) as (? & ? & ?).
      apply (literal_ext_lang _ _ t); congruence. }
  destruct (String.eqb_spec (lit_datatype l) xsd.STRING) as [Hs|Hs].
  { unfold encode_literal. rewrite Hl, Hs. split; [done|].
    unfold decode_row; rewrite tag_of_hashed; cbn; do 2 f_equal.
    destruct (simple_spec (lit_value l)) as (? & ? & ?). apply literal_ext_typed; congruence. }
  pose proof (encode_typed l Hl Hs) as He.
  destruct (inline_id l) as [id|] eqn:Hi.
  - rewrite He. apply inline_id_tag in Hi as [(Hd & v & Hv & Hr & ->)|(Hd & b & Hb & ->)].
    + unfold decode_inline. rewrite tag_of_make. cbn -[Z.land make Z.sub]. do 2 f_equal.
      rewrite payload_make, Z.mod_small by
        (unfold INT_MIN, INT_MAX in Hr; change INT_OFFSET with (2 ^ 58) in *; lia).
      replace (v + INT_OFFSET - INT_OFFSET) with v by lia.
      destruct (from_i64_spec v) as (? & ? & ?). apply literal_ext_typed; congruence.
    + rewrite decode_boolean_id. do 2 f_equal.
      destruct (from_bool_spec b) as (? & ? & ?). apply literal_ext_typed; congruence.
  - destruct He as (row & -> & Hid & Hlex & Hdt). split; [done|].
    unfold decode_row. rewrite tag_of_hashed, Hdt, Hlex. cbn. do 2 f_equal.
    destruct (typed_spec (lit_value l) (lit_datatype l)) as (? & ? & ?).
    apply literal_ext_typed; congruence.
Qed.

(** [EncodedRows::dedup] leaves the rows of both tables strictly sorted by id (so no id
    twice), drops no id and invents no row. *)
Theorem dedup_sorted_unique (rows : EncodedRows) :
  StronglySorted (key_lt tr_id) (terms (rows_dedup rows)) /\
  StronglySorted (key_lt tt_id) (triples (rows_dedup rows)) /\
  (forall r, r ∈ terms (rows_dedup rows) -> r ∈ terms rows) /\
  (forall r, r ∈ terms rows -> exists r', r' ∈ terms (rows_dedup rows) /\ tr_id r' = tr_id r) /\
  (forall r, r ∈ triples (rows_dedup rows) -> r ∈ triples rows) /\
  (forall r, r ∈ triples rows -> exists r', r' ∈ triples (rows_dedup rows) /\ tt_id r' = tt_id r).
Proof.
  cbn. split_and!.
  1,2: apply dedup_by_key_sorted, sort_by_key_sorted.
  all: intros r Hr.
  - by eapply dedup_sorted_elem.
  - by apply dedup_sorted_keys.
  - by eapply dedup_sorted_elem.
  - by apply dedup_sorted_keys.
Qed.
End properties.
