(* ===== verification/SortKey.v ===== *)
(** * The order of sort keys

    [sort_key] compares as bytes; for numbers it prints a transformed bit pattern in
    hexadecimal ([sort_number]). The byte order of two keys is shown to be the numeric order of
    the floats. *)

From S2P Require Export EncodingFacts.

(** ** Hexadecimal strings compare as the numbers they print *)

Lemma hex_digit_compare a b :
  0 <= a < 16 -> 0 <= b < 16 -> Ascii.compare (hex_digit a) (hex_digit b) = (a ?= b).
Proof.
  intros Ha Hb.
  assert (a = 0 \/ a = 1 \/ a = 2 \/ a = 3 \/ a = 4 \/ a = 5 \/ a = 6 \/ a = 7 \/ a = 8 \/ a = 9 \/
          a = 10 \/ a = 11 \/ a = 12 \/ a = 13 \/ a = 14 \/ a = 15) as Ha' by lia.
  assert (b = 0 \/ b = 1 \/ b = 2 \/ b = 3 \/ b = 4 \/ b = 5 \/ b = 6 \/ b = 7 \/ b = 8 \/ b = 9 \/
          b = 10 \/ b = 11 \/ b = 12 \/ b = 13 \/ b = 14 \/ b = 15) as Hb' by lia.
  clear Ha Hb. destruct_or!; subst; reflexivity.
Qed.

Lemma hex_digit_at n x :
  x mod 16 ^ Z.of_nat (S n) =
  Z.land (Z.shiftr x (4 * Z.of_nat n)) 15 * 16 ^ Z.of_nat n + x mod 16 ^ Z.of_nat n.
Proof.
  rewrite Z.shiftr_div_pow2 by lia.
  replace (2 ^ (4 * Z.of_nat n)) with (16 ^ Z.of_nat n) by (rewrite Z.pow_mul_r by lia; done).
  change 15 with (Z.ones 4). rewrite Z.land_ones by lia.
  rewrite Nat2Z.inj_succ, Z.pow_succ_r, Z.mul_comm by lia.
  pose proof (Z.pow_pos_nonneg 16 (Z.of_nat n) ltac:(lia) ltac:(lia)).
  rewrite Z.rem_mul_r by lia. change (2 ^ 4) with 16. lia.
Qed.

Lemma hex_compare n x y :
  String.compare (hex n x) (hex n y) = (x mod 16 ^ Z.of_nat n ?= y mod 16 ^ Z.of_nat n).
Proof.
  induction n as [|n IH]; [by rewrite !Z.mod_1_r|].
  rewrite !hex_digit_at. cbn [hex String.compare].
  assert (forall z, 0 <= Z.land (Z.shiftr z (4 * Z.of_nat n)) 15 < 16) as Hd.
  { intros z. change 15 with (Z.ones 4). rewrite Z.land_ones by lia. by apply Z.mod_pos_bound. }
  rewrite hex_digit_compare by apply Hd.
  set (dx := Z.land (Z.shiftr x _) _). set (dy := Z.land (Z.shiftr y _) _).
  assert (0 < 16 ^ Z.of_nat n) as Hp by (apply Z.pow_pos_nonneg; lia).
  pose proof (Z.mod_pos_bound x _ Hp). pose proof (Z.mod_pos_bound y _ Hp).
  destruct (Z.compare_spec dx dy) as [->|Hlt|Hlt]; symmetry.
  - rewrite IH. apply Z.add_compare_mono_l.
  - apply Z.compare_lt_iff. nia.
  - apply Z.compare_gt_iff. nia.
Qed.

(** ** Bit patterns compare as floats *)

Definition valid (x : f64) : Prop := valid_binary F64.prec F64.emax x = true.

(** The magnitude bits of a finite float. *)
Definition magnitude (m : positive) (e : Z) : Z :=
  if Zpos m <? 2 ^ 52 then Zpos m else Z.shiftl (e + 1075) 52 + (Zpos m - 2 ^ 52).

Lemma digits2_bounds m n : Zpos (digits2_pos m) = n -> 2 ^ (n - 1) <= Zpos m < 2 ^ n.
Proof.
  intros <-. induction m as [m IH|m IH|]; cbn [digits2_pos].
  3: by cbn.
  all: rewrite Pos2Z.inj_succ; replace (Z.succ (Zpos (digits2_pos m)) - 1) with (Z.succ (Zpos (digits2_pos m) - 1)) by lia;
    rewrite !Z.pow_succ_r by lia; lia.
Qed.

(** A valid finite float is normal, or subnormal with the least exponent. *)
Lemma valid_finite s m e :
  valid (S754_finite s m e) ->
  -1074 <= e <= 971 /\ Zpos m < 2 ^ 53 /\ (2 ^ 52 <= Zpos m \/ e = -1074).
Proof.
  unfold valid, valid_binary, bounded, canonical_mantissa, fexp, SpecFloat.emin, F64.prec, F64.emax.
  intros [He Hb]%andb_prop. apply Z.eqb_eq in He. apply Z.leb_le in Hb.
  destruct (digits2_bounds m _ eq_refl) as [Hlo Hhi].
  assert (Zpos (digits2_pos m) <= 53) by lia.
  assert (2 ^ Zpos (digits2_pos m) <= 2 ^ 53) by (apply Z.pow_le_mono_r; lia).
  split_and!; [lia|lia|lia|].
  destruct (decide (Zpos (digits2_pos m) = 53)) as [Hd|]; [|right; lia].
  left. rewrite Hd in Hlo. done.
Qed.

Lemma magnitude_bounds m e :
  -1074 <= e <= 971 -> Zpos m < 2 ^ 53 -> 0 < magnitude m e < Z.shiftl 2047 52.
Proof.
  intros He Hm. unfold magnitude. rewrite !Z.shiftl_mul_pow2 by lia.
  destruct (Z.ltb_spec (Zpos m) (2 ^ 52)); lia.
Qed.

Lemma magnitude_compare s1 m1 e1 s2 m2 e2 :
  valid (S754_finite s1 m1 e1) -> valid (S754_finite s2 m2 e2) ->
  (magnitude m1 e1 ?= magnitude m2 e2) =
  match (e1 ?= e2)%Z with Eq => Pos.compare_cont Eq m1 m2 | c => c end.
Proof.
  intros (He1 & Hm1 & Hn1)%valid_finite (He2 & Hm2 & Hn2)%valid_finite.
  unfold magnitude. rewrite !Z.shiftl_mul_pow2 by lia.
  change (Pos.compare_cont Eq m1 m2) with (Zpos m1 ?= Zpos m2).
  destruct (Z.compare_spec e1 e2) as [->|?|?];
    [destruct (Z.compare_spec (Zpos m1) (Zpos m2))|..];
    destruct (Z.ltb_spec (Zpos m1) (2 ^ 52)), (Z.ltb_spec (Zpos m2) (2 ^ 52));
    first [apply Z.compare_eq_iff; lia|apply Z.compare_lt_iff; lia|apply Z.compare_gt_iff; lia].
Qed.

(** The unsigned magnitude of any float but NaN. *)
Definition magnitude_of (x : f64) : Z :=
  match x with
  | S754_zero _ => 0
  | S754_infinity _ | S754_nan => Z.shiftl 2047 52
  | S754_finite _ m e => magnitude m e
  end.

Lemma magnitude_of_range x : valid x -> 0 <= magnitude_of x < 2 ^ 63.
Proof.
  destruct x as [s|s| |s m e]; [intros _; by vm_compute..|]. unfold magnitude_of.
  intros (He & Hm & _)%valid_finite. pose proof (magnitude_bounds m e He Hm).
  change (Z.shiftl 2047 52) with 9218868437227405312 in *. lia.
Qed.

Lemma sort_bits_magnitude x :
  valid x -> F64.is_nan x = false ->
  sort_bits x = if F64.is_sign_negative x then 2 ^ 63 - 1 - magnitude_of x else 2 ^ 63 + magnitude_of x.
Proof.
  intros Hv Hn. pose proof (magnitude_of_range x Hv) as Hr.
  assert (F64.to_bits x = (if F64.is_sign_negative x then 2 ^ 63 else 0) + magnitude_of x) as Hb.
  { destruct x as [[]|[]| |[] m e]; try done; cbn -[Z.shiftl Z.pow]; unfold magnitude;
      destruct (_ <? _); lia. }
  unfold sort_bits. rewrite Hb. destruct (F64.is_sign_negative x).
  - lia.
  - rewrite Z.lor_comm. change (2 ^ 63) with (Z.shiftl 1 63) at 1.
    rewrite lor_shiftl_add by lia. lia.
Qed.

Lemma sort_bits_range x : valid x -> F64.is_nan x = false -> 0 <= sort_bits x < 2 ^ 64.
Proof.
  intros Hv Hn. rewrite sort_bits_magnitude by done.
  pose proof (magnitude_of_range x Hv). destruct (F64.is_sign_negative x); lia.
Qed.

(** A float is ordered by its magnitude with its sign. *)
Definition signed_magnitude (x : f64) : Z :=
  if F64.is_sign_negative x then - magnitude_of x else magnitude_of x.

Lemma partial_cmp_signed x y :
  valid x -> valid y -> F64.is_nan x = false -> F64.is_nan y = false ->
  F64.partial_cmp x y = Some (signed_magnitude x ?= signed_magnitude y).
Proof.
  intros Hx Hy Nx Ny.
  destruct x as [sx|[]| |[] mx ex], y as [sy|[]| |[] my ey]; try done.
  all: repeat match goal with s : bool |- _ => destruct s end; try reflexivity.
  all: try (pose proof (magnitude_compare _ _ _ _ _ _ Hx Hy) as Hc).
  all: try (apply valid_finite in Hx as (Hex & Hmx & _); pose proof (magnitude_bounds _ _ Hex Hmx) as Bx).
  all: try (apply valid_finite in Hy as (Hey & Hmy & _); pose proof (magnitude_bounds _ _ Hey Hmy) as By).
  all: change (Z.shiftl 2047 52) with 9218868437227405312 in *.
  all: unfold signed_magnitude, magnitude_of; cbn [F64.is_sign_negative].
  all: change (Z.shiftl 2047 52) with 9218868437227405312.
  all: unfold F64.partial_cmp; cbn [SFcompare].
  all: f_equal.
  all: try (symmetry; first [apply Z.compare_lt_iff; lia | apply Z.compare_gt_iff; lia]).
  - rewrite Z.compare_opp, (Z.compare_antisym (magnitude mx ex)), Hc. by destruct (ex ?= ey).
  - rewrite Hc. by destruct (ex ?= ey).
Qed.

Lemma signed_magnitude_inj x y :
  valid x -> valid y -> F64.is_nan x = false -> F64.is_nan y = false ->
  signed_magnitude x = signed_magnitude y -> x = y \/ (magnitude_of x = 0 /\ magnitude_of y = 0).
Proof.
  intros Hx Hy Nx Ny Heq.
  pose proof (partial_cmp_signed x y Hx Hy Nx Ny) as Hc.
  rewrite Heq, Z.compare_refl in Hc.
  destruct x as [sx|[]| |[] mx ex], y as [sy|[]| |[] my ey]; try done.
  all: try (by left); try (by right).
  all: unfold F64.partial_cmp in Hc; cbn [SFcompare] in Hc.
  all: left; destruct (Z.compare_spec ex ey) as [->|?|?]; try done.
  all: destruct (Pos.compare_cont Eq mx my) eqn:Hm; try done.
  all: by apply Pos.compare_eq in Hm as ->.
Qed.

Lemma sort_number_compare x y :
  valid x -> valid y -> F64.is_nan x = false -> F64.is_nan y = false ->
  String.compare (sort_number x) (sort_number y) = (sort_bits x ?= sort_bits y).
Proof.
  intros. unfold sort_number. rewrite hex_compare.
  change (16 ^ Z.of_nat 16) with (2 ^ 64).
  by rewrite !Z.mod_small by (apply sort_bits_range; assumption).
Qed.


