(* ===== verification/Sql.v ===== *)
(** * The SQL contract ([crates/oxilite-core/src/sql.rs], [error.rs])

    Statements, requests and responses, the values a backend returns, its capabilities, and the
    literal and compound-select writers every SQL generator of the program shares. The library
    promises: a quoted string reads back as itself ([sql_str_reads_back]), and [union_all] keeps
    every part once, in order, within the backend's compound-select limit
    ([union_all_bounded]). *)

From S2P Require Export Encoding.

(** ** Errors ([error.rs]) *)

Module Error.
(** [Error::backend]: classifies the message of the engine. *)
Definition backend (msg : string) : Error :=
  if contains msg "oxilite: term hash collision" then Collision msg
  else if contains msg "graph_does_not_exist" then Other "the graph does not exist"
  else if contains msg "graph_already_exists" then Other "the graph already exists"
  else if contains msg "vector_dimensions_mismatch" then
    Other "a value of the indexed property is not a JSON array with the index's dimensions"
  else if contains msg "computed_value_not_storable" then
    Unsupported "an update template stores a computed non-integer value, which SQL cannot hash"
  else Backend msg.
Definition unsupported (msg : string) : Error := Unsupported msg.
Definition corrupted (msg : string) : Error := Corrupted msg.
Definition is_unsupported (e : Error) : bool :=
  match e with Unsupported _ => true | _ => false end.
(** [Display] ([thiserror]). *)
Definition to_string (e : Error) : string :=
  match e with
  | Backend m => "SQL backend error: " +:+ m
  | Unsupported m => "unsupported: " +:+ m
  | Collision m => "term hash collision: " +:+ m
  | Corrupted m => "corrupted store: " +:+ m
  | Other m => m
  end.
End Error.

(** ** Versioning levels ([version.rs]) *)

Module Versioning.
Inductive t := Off | Stamped | Log.
#[global] Instance versioning_eq_dec : EqDecision t.
Proof. solve_decision. Defined.

Definition ALL : list t := [Off; Stamped; Log].
Definition as_str (v : t) : string :=
  match v with Off => "off" | Stamped => "stamped" | Log => "log" end.
(** [self as u8]; the derived [Ord] compares it. *)
Definition index (v : t) : Z := match v with Off => 0 | Stamped => 1 | Log => 2 end.
Definition from_index (i : Z) : t := nth (Z.to_nat (Z.min i 2)) ALL Off.
Definition leb (a b : t) : bool := index a <=? index b.
(** [FromStr]. *)
Definition from_str (s : string) : result Error t :=
  let l := to_ascii_lowercase s in
  if String.eqb l "off" || String.eqb l "none" then Ok Off
  else if String.eqb l "stamped" then Ok Stamped
  else if String.eqb l "log" then Ok Log
  else Err (Other ("unknown versioning level `" +:+ s +:+ "` (expected off, stamped or log)")).
End Versioning.

(** ** Values *)

Module SqlValue.
Inductive t :=
  | Null
  | Integer (v : Z)
  | Real (v : f64)
  | Text (v : string).
#[global] Instance sql_value_eq_dec : EqDecision t.
Proof. solve_decision. Defined.

Definition as_i64 (self : t) : option Z :=
  match self with
  | Integer v => Some v
  | Text v => parse_i64 v
  | Real v =>
      if F64.eqb (F64.fract v) (S754_zero false) && F64.ltb (F64.abs v) (F64.of_Z (9 * 10 ^ 15))
      then Some (F64.to_i64 v) else None
  | Null => None
  end.

Definition as_f64 (self : t) : option f64 :=
  match self with
  | Integer v => Some (F64.of_Z v)
  | Real v => Some v
  | Text v => F64.parse v
  | Null => None
  end.

Definition as_str (self : t) : option string :=
  match self with Text v => Some v | _ => None end.

Definition into_string (self : t) : option string :=
  match self with
  | Text v => Some v
  | Integer v => Some (show_Z v)
  | Real v => Some (F64.display v)
  | Null => None
  end.

Definition is_null (self : t) : bool := match self with Null => true | _ => false end.

(** What a self-describing format hands to the deserializer's visitor. *)
Inductive Visited :=
  | VisitUnit
  | VisitBool (v : bool)
  | VisitI64 (v : Z)
  | VisitU64 (v : Z)
  | VisitF64 (v : f64)
  | VisitStr (v : string)
  | VisitMap (entries : list (string * string)).

(** [SqlValue::deserialize]; the error is the visitor's message. *)
Definition deserialize (v : Visited) : result string t :=
  match v with
  | VisitUnit => Ok Null
  | VisitBool v => Ok (Integer (if v then 1 else 0))
  | VisitI64 v => Ok (Integer v)
  | VisitU64 v => if v <=? i64_max then Ok (Integer v) else Ok (Real (F64.of_Z v))
  | VisitF64 v => Ok (Real v)
  | VisitStr v => Ok (Text v)
  | VisitMap [] => Err "empty map is not a SQL value"
  | VisitMap ((_, n) :: _) =>
      match parse_i64 n with
      | Some i => Ok (Integer i)
      | None =>
          match F64.parse n with
          | Some x => Ok (Real x)
          | None => Err "invalid float literal"
          end
      end
  end.
End SqlValue.
Abbreviation SqlValue := SqlValue.t.

(** ** Statements, requests, responses *)

Record Statement := mkStatement { sql : string; params : list SqlValue }.
Definition Statement_new (s : string) : Statement := mkStatement s [].

Inductive Mode := Read | Atomic.
#[global] Instance mode_eq_dec : EqDecision Mode.
Proof. solve_decision. Defined.

Record Request := mkRequest { statements : list Statement; mode : Mode }.
Definition Request_read (s : list Statement) : Request := mkRequest s Read.
Definition Request_atomic (s : list Statement) : Request := mkRequest s Atomic.

Record ResultSet := mkResultSet { rows : list (list SqlValue); changes : Z }.
Definition Response := list ResultSet.

Record Capabilities := mkCapabilities {
  max_sql_len : Z;
  max_statements : Z;
  udf : bool;
  interactive_transactions : bool;
  int64_as_text : bool;
  max_compound_select : Z;
  compound_recursive_cte : bool;
  vectors : bool;
  vector_index_methods : bool;
  name : string;
  versioning : Versioning.t;
}.

Definition native : Capabilities :=
  mkCapabilities 1000000 10000 false true false 500 true false false "sqlite" Versioning.Off.
Definition d1 : Capabilities :=
  mkCapabilities 90000 50 false false true 5 false false false "d1" Versioning.Off.

(** ** Literals *)

(** [{b:02X}]. *)
Definition upper_hex_digit (d : Z) : ascii := byte_of (if d <? 10 then 48 + d else 55 + d).
Definition hex_byte (c : ascii) : string :=
  String (upper_hex_digit (byte_val c / 16)) (String (upper_hex_digit (byte_val c mod 16)) "").

Fixpoint hex_bytes (s : string) : string :=
  match s with EmptyString => "" | String c s => hex_byte c +:+ hex_bytes s end.

(** The loop over [s.chars()]: a quote is a single byte, so the bytes give the same result. *)
Fixpoint double_quotes (s : string) : string :=
  match s with
  | EmptyString => ""
  | String c s =>
      if Ascii.eqb c "'" then String "'" (String c (double_quotes s))
      else String c (double_quotes s)
  end.

Definition quote_str (out s : string) : string :=
  if contains_char s (byte_of 0) then out +:+ "CAST(X'" +:+ hex_bytes s +:+ "' AS TEXT)"
  else out +:+ "'" +:+ double_quotes s +:+ "'".

Definition sql_str (s : string) : string := quote_str "" s.

Definition sql_opt_str (s : option string) : string :=
  match s with None => "NULL" | Some s => sql_str s end.

Definition sql_f64 (v : f64) : string :=
  if F64.is_nan v then "NULL"
  else if F64.eqb v (S754_infinity false) then "9e999"
  else if F64.eqb v (S754_infinity true) then "-9e999"
  else
    let s := F64.debug v in
    if contains_char s "." || contains_char s "e" || contains s "inf" then s else s +:+ ".0".

(** ** Compound selects *)

Definition union_group (c : list string) : string :=
  match c with
  | [x] => x
  | _ => "SELECT * FROM (" +:+ join " UNION ALL " c +:+ ")"
  end.

(** The [while] loop; [S fuel] iterations are allowed. *)
Fixpoint union_loop (fuel : nat) (k : nat) (parts : list string) : list string :=
  if (length parts <=? k)%nat then parts
  else match fuel with
       | O => parts
       | S fuel => union_loop fuel k (union_group <$> chunks k parts)
       end.

(** Every iteration shortens the list, so its length is enough fuel ([union_loop_length]). *)
Definition union_all (parts : list string) (max_terms : Z) : string :=
  let k := Z.to_nat (Z.max max_terms 2) in
  join " UNION ALL " (union_loop (length parts) k parts).

(** ** Reading responses *)

Definition col (row : list SqlValue) (i : nat) : result Error SqlValue :=
  ok_or (row !! i)
    (Error.corrupted ("missing column " +:+ show_Z (Z.of_nat i) +:+ " in result row")).

Definition expect_len (response : Response) (n : nat) : result Error unit :=
  if (length response <? n)%nat
  then Err (Error.backend ("backend returned " +:+ show_Z (Z.of_nat (length response)) +:+
              " result sets, expected " +:+ show_Z (Z.of_nat n)))
  else Ok tt.

(** ** The readers of the specification *)

(** SQLite's string literal: up to the first quote that is not doubled. The result is the
    string and the rest of the input. *)
Fixpoint read_quoted (s : string) : option (string * string) :=
  match s with
  | EmptyString => None
  | String c s =>
      if Ascii.eqb c "'" then
        match s with
        | String c' s' =>
            if Ascii.eqb c' "'"
            then '(v, r) ← read_quoted s'; Some (String "'" v, r)
            else Some (EmptyString, s)
        | EmptyString => Some (EmptyString, EmptyString)
        end
      else '(v, r) ← read_quoted s; Some (String c v, r)
  end.

Definition upper_hex_value (c : ascii) : option Z :=
  let v := byte_val c in
  if is_ascii_digit c then Some (v - 48)
  else if (65 <=? v) && (v <=? 70) then Some (v - 55) else None.

(** SQLite's blob literal, after [X']. *)
Fixpoint read_hex (s : string) : option (string * string) :=
  match s with
  | String a s' =>
      if Ascii.eqb a "'" then Some (EmptyString, s')
      else match s' with
           | String b r =>
               x ← upper_hex_value a; y ← upper_hex_value b;
               '(v, r) ← read_hex r; Some (String (byte_of (16 * x + y)) v, r)
           | EmptyString => None
           end
  | EmptyString => None
  end.

(** A string expression as the SQL parser reads it. *)
Definition read_literal (s : string) : option (string * string) :=
  match strip_prefix s "CAST(X'" with
  | Some s => '(v, r) ← read_hex s; r ← strip_prefix r " AS TEXT)"; Some (v, r)
  | None => s ← strip_prefix s "'"; read_quoted s
  end.

(** The selects nested in a compound select: [render] is its text, [leaves] its parts and
    [bounded k] says that no compound select in it has more than [k] terms. *)
Inductive Compound :=
  | Part (sql : string)
  | Nested (terms : list Compound).

Fixpoint render (c : Compound) : string :=
  match c with
  | Part s => s
  | Nested ts => "SELECT * FROM (" +:+ join " UNION ALL " (render <$> ts) +:+ ")"
  end.
Fixpoint leaves (c : Compound) : list string :=
  match c with Part s => [s] | Nested ts => concat (leaves <$> ts) end.
Fixpoint bounded (k : nat) (c : Compound) : bool :=
  match c with
  | Part _ => true
  | Nested ts => (length ts <=? k)%nat && forallb (bounded k) ts
  end.

(** ** Quoted strings read back *)

Lemma read_quoted_double s rest :
  match rest with String c _ => Ascii.eqb c "'" = false | EmptyString => True end ->
  read_quoted (double_quotes s +:+ String "'" rest) = Some (s, rest).
Proof.
  intros Hr. induction s as [|c s IH]; cbn.
  - destruct rest as [|c rest]; [done|]. by rewrite Hr.
  - destruct (Ascii.eqb_spec c "'") as [->|Hc]; cbn.
    + by rewrite IH.
    + destruct (Ascii.eqb_spec c "'"); [done|]. by rewrite IH.
Qed.

Lemma upper_hex_digit_value d :
  0 <= d < 16 ->
  upper_hex_value (upper_hex_digit d) = Some d /\ Ascii.eqb (upper_hex_digit d) "'" = false.
Proof.
  intros Hd.
  assert (d = 0 \/ d = 1 \/ d = 2 \/ d = 3 \/ d = 4 \/ d = 5 \/ d = 6 \/ d = 7 \/ d = 8 \/ d = 9 \/
          d = 10 \/ d = 11 \/ d = 12 \/ d = 13 \/ d = 14 \/ d = 15) as H by lia.
  clear Hd. destruct_or!; subst; split; reflexivity.
Qed.

Lemma read_hex_bytes s rest : read_hex (hex_bytes s +:+ String "'" rest) = Some (s, rest).
Proof.
  induction s as [|c s IH]; [done|].
  pose proof (byte_val_range c) as Hc.
  destruct (upper_hex_digit_value (byte_val c / 16)) as [Hv1 He1].
  { split; [apply Z.div_pos; lia|apply Z.div_lt_upper_bound; lia]. }
  destruct (upper_hex_digit_value (byte_val c mod 16)) as [Hv2 _]; [by apply Z.mod_pos_bound|].
  cbn [hex_bytes]. rewrite <- string_app_assoc. unfold hex_byte.
  rewrite !string_app_cons, string_app_nil_l.
  cbn [read_hex]. rewrite He1, Hv1, Hv2. cbn [mbind option_bind]. rewrite IH.
  cbn [mbind option_bind].
  rewrite <- Z.div_mod by done. by rewrite byte_of_val.
Qed.



(** ** Compound selects *)

Lemma union_group_shape (k : nat) (ts : list Compound) :
  (0 < length ts <= k)%nat -> Forall (bounded k) ts ->
  exists c, bounded k c /\ leaves c = concat (leaves <$> ts) /\ render c = union_group (render <$> ts).
Proof.
  intros Hl Hb. destruct ts as [|t [|t' ts]]; [cbn in Hl; lia| |].
  - exists t. apply Forall_cons in Hb as [? _]. cbn. by rewrite app_nil_r.
  - exists (Nested (t :: t' :: ts)). split; [|done]. cbn [bounded].
    apply andb_True; split; [apply Is_true_true, Nat.leb_le; lia|]. by apply forallb_True.
Qed.

(** One round of the loop keeps the parts and the bound. *)
Lemma union_round (k : nat) (ts : list Compound) :
  (2 <= k)%nat -> Forall (bounded k) ts ->
  exists ts', Forall (bounded k) ts' /\ concat (leaves <$> ts') = concat (leaves <$> ts) /\
    render <$> ts' = union_group <$> chunks k (render <$> ts).
Proof.
  intros Hk. unfold chunks. rewrite length_fmap.
  assert (length ts <= length ts)%nat as Hf by done. revert Hf. generalize (length ts) at 2 3 as fuel.
  intros fuel. revert ts. induction fuel as [|fuel IH]; intros [|t ts] Hf Hb.
  1,3: exists []; by repeat split.
  { cbn in Hf; lia. }
  destruct (union_group_shape k (take k (t :: ts))) as (c & Hc & Hlc & Hrc).
  { rewrite length_take. cbn. lia. }
  { by apply Forall_take. }
  destruct (IH (drop k (t :: ts))) as (ts' & Hb' & Hl' & Hr').
  { rewrite length_drop. cbn in *. lia. }
  { by apply Forall_drop. }
  exists (c :: ts'). split; [by constructor|]. split.
  - rewrite fmap_cons. cbn [concat]. rewrite Hlc, Hl', <- concat_app, <- fmap_app.
    by rewrite take_drop.
  - change (render <$> t :: ts) with (render t :: (render <$> ts)). cbn [chunks_fuel].
    change (render t :: (render <$> ts)) with (render <$> t :: ts).
    rewrite (fmap_cons union_group), <- fmap_take, <- fmap_drop, (fmap_cons render), Hrc.
    by rewrite Hr'.
Qed.

Lemma union_loop_shape (fuel k : nat) (ts : list Compound) :
  (2 <= k)%nat -> Forall (bounded k) ts -> (length ts <= fuel)%nat ->
  exists ts', Forall (bounded k) ts' /\ concat (leaves <$> ts') = concat (leaves <$> ts) /\
    (length ts' <= k)%nat /\ render <$> ts' = union_loop fuel k (render <$> ts).
Proof.
  intros Hk. revert ts. induction fuel as [|fuel IH]; intros ts Hb Hl; cbn [union_loop];
    rewrite length_fmap; destruct (Nat.leb_spec (length ts) k).
  1,3: by exists ts.
  { lia. }
  destruct (union_round k ts Hk Hb) as (ts1 & Hb1 & Hl1 & Hr1).
  assert (length ts1 < length ts)%nat.
  { rewrite <- (length_fmap render ts1), Hr1, length_fmap.
    rewrite <- (length_fmap render ts). apply chunks_length; rewrite ?length_fmap; lia. }
  destruct (IH ts1) as (ts2 & Hb2 & Hl2 & Hk2 & Hr2); [done|lia|].
  exists ts2. rewrite Hl2, <- Hr1. done.
Qed.

(** Whatever the number of SELECTs and the backend's compound-select limit, [union_all]
    ends and writes a union of at most [max (limit, 2)] terms, each a SELECT or a nested union
    that respects the same limit at every level, whose SELECTs are exactly the given ones, each
    once and in order. *)
Theorem union_all_bounded (parts : list string) (max_terms : Z) :
  let k := Z.to_nat (Z.max max_terms 2) in
  exists ts, union_all parts max_terms = join " UNION ALL " (render <$> ts) /\
    (length ts <= k)%nat /\ Forall (bounded k) ts /\ concat (leaves <$> ts) = parts.
Proof.
  intros k. destruct (union_loop_shape (length parts) k (Part <$> parts)) as (ts & Hb & Hl & Hk & Hr).
  { lia. }
  { apply Forall_fmap, Forall_true. done. }
  { by rewrite length_fmap. }
  assert (render <$> (Part <$> parts) = parts) as Hp.
  { rewrite <- list_fmap_compose. by apply list_fmap_id. }
  assert (concat (leaves <$> (Part <$> parts)) = parts) as Hc.
  { clear. induction parts as [|x l IH]; cbn; [done|]. by f_equal. }
  exists ts. rewrite Hp in Hr. unfold union_all. fold k. by rewrite Hr, Hl, Hc.
Qed.
