(* ===== verification/Writer.v ===== *)
(** * The write path ([crates/oxilite-core/src/writer.rs])

    Quads become self-contained SQL statements below the backend's length limit. A [Chunker]
    accumulates [VALUES] tuples and starts a new statement when the next tuple does not fit;
    [EncodedQuads] are the ids and dictionary rows of a set of quads. The promises: nothing is
    lost, repeated or reordered by the chunking ([insert_statements_complete]), no statement of
    quads exceeds the limit ([quad_statements_bounded]), and the rows written with quads define
    every id the quads use ([encoded_quads_closed]). *)

From S2P Require Export Sql EncodingFacts.

(** ** Chunks *)

Record Chunker := mkChunker {
  prefix : string; suffix : string; max : Z; current : string; out : list Statement;
}.

Definition Chunker_new (prefix suffix : string) (max : Z) : Chunker :=
  mkChunker prefix suffix max "" [].

Definition Chunker_flush (self : Chunker) : Chunker :=
  if String.eqb (current self) "" then self
  else mkChunker (prefix self) (suffix self) (max self) ""
         (out self ++ [Statement_new (current self +:+ suffix self)]).

Definition Chunker_push (self : Chunker) (tuple : string) : Chunker :=
  let self :=
    if negb (String.eqb (current self) "")
       && (max self <? string_len (current self) + string_len tuple + string_len (suffix self) + 1)
    then Chunker_flush self else self in
  let start := if String.eqb (current self) "" then prefix self else current self +:+ "," in
  mkChunker (prefix self) (suffix self) (max self) (start +:+ tuple) (out self).

Definition Chunker_finish (self : Chunker) : list Statement := out (Chunker_flush self).

(** The loop of every writer: a chunker fed with the tuples of a list. *)
Definition chunked (prefix suffix : string) (max : Z) (tuples : list string) : list Statement :=
  Chunker_finish (foldl Chunker_push (Chunker_new prefix suffix max) tuples).

(** ** Dictionary rows *)

Definition opt_str (v : option string) : string :=
  match v with Some v => sql_str v | None => "NULL" end.

Definition term_tuple (r : TermRow) : string :=
  "(" +:+ show_Z (tr_id r) +:+ "," +:+ sql_str (lex r) +:+ "," +:+ opt_str (dt r) +:+ "," +:+
  opt_str (lang r) +:+ "," +:+
  from_option show_Z "NULL" (dir r) +:+ "," +:+ from_option sql_f64 "NULL" (num r) +:+ "," +:+
  from_option show_Z "NULL" (nt r) +:+ "," +:+ from_option sql_f64 "NULL" (ts r) +:+ ")".

Definition triple_tuple (t : TripleRow) : string :=
  "(" +:+ show_Z (tt_id t) +:+ "," +:+ show_Z (tt_s t) +:+ "," +:+ show_Z (tt_p t) +:+ "," +:+
  show_Z (tt_o t) +:+ "," +:+ sql_str (vk t) +:+ "," +:+ sql_str (sk t) +:+ ")".

Definition TERMS_PREFIX : string :=
  "INSERT OR IGNORE INTO terms(id, lex, dt, lang, dir, num, nt, ts) VALUES ".
Definition TRIPLES_PREFIX : string :=
  "INSERT OR IGNORE INTO triple_terms(id, s, p, o, vk, sk) VALUES ".

Definition term_statements (rows : EncodedRows) (caps : Capabilities) : list Statement :=
  chunked TERMS_PREFIX "" (max_sql_len caps) (term_tuple <$> terms rows) ++
  chunked TRIPLES_PREFIX "" (max_sql_len caps) (triple_tuple <$> triples rows).

(** ** Quads *)

Definition QuadIds : Type := Z * Z * Z * Z.

Record EncodedQuads := mkEncodedQuads { eq_rows : EncodedRows; quads : list QuadIds }.

Section encoded_quads.
Context {OX : Oxrdf} {XX : Xxh3} {OD : OxsDatatypes}.

Definition EncodedQuads_push (me : EncodedQuads) (q : Quad) : EncodedQuads :=
  let '(rows, ids) := rows_quad (eq_rows me) q in mkEncodedQuads rows (quads me ++ [ids]).

Definition EncodedQuads_new (qs : list Quad) : EncodedQuads :=
  let me := foldl EncodedQuads_push (mkEncodedQuads empty_rows []) qs in
  mkEncodedQuads (rows_dedup (eq_rows me)) (quads me).
End encoded_quads.

Definition quad_tuple (q : QuadIds) : string :=
  let '(s, p, o, g) := q in
  "(" +:+ show_Z s +:+ "," +:+ show_Z p +:+ "," +:+ show_Z o +:+ "," +:+ show_Z g +:+ ")".

(** [version::CURRENT_TICK]. *)
Definition CURRENT_TICK : string := "(SELECT max(t) FROM ticks)".

Definition insert_prefix (table : string) (stamped : bool) : string :=
  if stamped then
    "INSERT OR IGNORE INTO " +:+ table +:+
    "(s, p, o, g, t) SELECT column1, column2, column3, column4, " +:+ CURRENT_TICK +:+
    " FROM (VALUES "
  else "INSERT OR IGNORE INTO " +:+ table +:+ "(s, p, o, g) VALUES ".

Definition insert_statements_into (table : string) (quads : list QuadIds) (caps : Capabilities)
  : list Statement :=
  let stamped := String.eqb table "quads" && Versioning.leb Versioning.Stamped (versioning caps) in
  chunked (insert_prefix table stamped) (if stamped then ")" else "") (max_sql_len caps)
    (quad_tuple <$> quads).

Definition quad_insert_statements (quads : list QuadIds) (caps : Capabilities) : list Statement :=
  insert_statements_into "quads" quads caps.

Definition DELETE_PREFIX : string := "DELETE FROM quads WHERE (s, p, o, g) IN (VALUES ".

Definition quad_delete_statements (quads : list QuadIds) (caps : Capabilities) : list Statement :=
  match quads with
  | [(s, p, o, g)] =>
      [Statement_new ("DELETE FROM quads WHERE s = " +:+ show_Z s +:+ " AND p = " +:+ show_Z p
         +:+ " AND o = " +:+ show_Z o +:+ " AND g = " +:+ show_Z g)]
  | _ => chunked DELETE_PREFIX ")" (max_sql_len caps) (quad_tuple <$> quads)
  end.

Definition graph_ids (quads : list QuadIds) : list Z :=
  let graphs := filter (fun g => g <> DEFAULT_GRAPH_ID) ((fun q : QuadIds => q.2) <$> quads) in
  dedup_by_key id (sort_by_key id graphs).

Definition graph_tuple (g : Z) : string := "(" +:+ show_Z g +:+ ")".

Definition EncodedQuads_insert_statements (self : EncodedQuads) (caps : Capabilities)
  : list Statement :=
  term_statements (eq_rows self) caps ++
  chunked "INSERT OR IGNORE INTO graphs(id) VALUES " "" (max_sql_len caps)
    (graph_tuple <$> graph_ids (quads self)) ++
  quad_insert_statements (quads self) caps.

Definition EncodedQuads_delete_statements (self : EncodedQuads) (caps : Capabilities)
  : list Statement := quad_delete_statements (quads self) caps.

(** [Err n]: the [n] statements do not fit one atomic request. *)
Definition atomic_request (before : list Statement) (quads : EncodedQuads) (after : list Statement)
    (caps : Capabilities) : result Z Request :=
  let s := before ++ EncodedQuads_insert_statements quads caps ++ after in
  if max_statements caps <? Z.of_nat (length s) then Err (Z.of_nat (length s))
  else Ok (Request_atomic s).

(** ** What the chunks hold *)

(** A statement with the tuples of [g]. *)
Definition group_text (prefix suffix : string) (g : list string) : string :=
  prefix +:+ join "," g +:+ suffix.

Lemma join_snoc sep g (x : string) : g <> [] -> join sep (g ++ [x]) = join sep g +:+ sep +:+ x.
Proof.
  induction g as [|a [|b g] IH]; intros Hg; [done|done|].
  cbn [app join] in *. rewrite IH by done. by rewrite <- !string_app_assoc.
Qed.

Lemma string_app_nonempty (a b : string) : a <> "" -> String.eqb (a +:+ b) "" = false.
Proof. by destruct a. Qed.

(** The chunker after some pushes: the closed groups, and the open one. *)
Definition chunker_holds (c : Chunker) (groups : list (list string)) (open : list string) : Prop :=
  out c = (fun g => Statement_new (group_text (prefix c) (suffix c) g)) <$> groups /\
  current c = (match open with [] => "" | _ => prefix c +:+ join "," open end) /\
  Forall (fun g => g <> []) groups /\
  Forall (fun g => (2 <= length g)%nat -> string_len (group_text (prefix c) (suffix c) g) <= max c) groups /\
  ((2 <= length open)%nat -> string_len (prefix c +:+ join "," open +:+ suffix c) <= max c).

Lemma chunker_push_holds c gs o t :
  prefix c <> "" -> chunker_holds c gs o ->
  exists gs' o', chunker_holds (Chunker_push c t) gs' o' /\ concat gs' ++ o' = concat gs ++ o ++ [t] /\
    prefix (Chunker_push c t) = prefix c /\ suffix (Chunker_push c t) = suffix c /\
    max (Chunker_push c t) = max c.
Proof.
  intros Hp (Ho & Hc & Hne & Hb & Hbo). destruct c as [p sf m cur ot]. cbn in *. subst cur.
  destruct o as [|x o].
  - exists gs, [t]. unfold Chunker_push, chunker_holds. cbn. split_and!; try done. cbn. lia.
  - unfold Chunker_push, chunker_holds. cbn [current max suffix prefix].
    rewrite (string_app_nonempty p) by done. cbn [negb andb].
    set (cur := p +:+ join "," (x :: o)).
    destruct (Z.ltb_spec m (string_len cur + string_len t + string_len sf + 1)) as [Hm|Hm].
    + exists (gs ++ [x :: o]), [t]. unfold Chunker_flush. cbn [current].
      unfold cur. rewrite (string_app_nonempty p) by done.
      cbn [current prefix suffix out max String.eqb].
      split_and!; try done.
      * rewrite fmap_app, Ho. cbn. unfold group_text. by rewrite <- string_app_assoc.
      * apply Forall_app. split; [done|]. by constructor.
      * apply Forall_app. split; [done|]. constructor; [|constructor].
        unfold group_text. done.
      * cbn. lia.
      * rewrite concat_app. cbn [concat]. by rewrite app_nil_r, <- !app_assoc.
    + exists gs, ((x :: o) ++ [t]). cbn [current prefix suffix out max].
      unfold cur. rewrite (string_app_nonempty p) by done.
      rewrite join_snoc by done. fold cur.
      assert (cur +:+ "," +:+ t = p +:+ join "," (x :: o) +:+ "," +:+ t) as Hcur.
      { unfold cur. by rewrite <- !string_app_assoc. }
      split_and!; try done.
      * by rewrite <- string_app_assoc, Hcur.
      * intros _. rewrite <- !string_app_assoc, (string_app_assoc p). fold cur.
        rewrite !string_len_app. change (string_len ",") with 1. lia.
Qed.

Lemma chunked_spec (p sf : string) (m : Z) (tuples : list string) :
  p <> "" ->
  exists gs, concat gs = tuples /\ Forall (fun g => g <> []) gs /\
    chunked p sf m tuples = (fun g => Statement_new (group_text p sf g)) <$> gs /\
    Forall (fun g => (2 <= length g)%nat -> string_len (group_text p sf g) <= m) gs.
Proof.
  intros Hp.
  assert (exists gs o, chunker_holds (foldl Chunker_push (Chunker_new p sf m) tuples) gs o /\
            concat gs ++ o = tuples /\
            prefix (foldl Chunker_push (Chunker_new p sf m) tuples) = p /\
            suffix (foldl Chunker_push (Chunker_new p sf m) tuples) = sf /\
            max (foldl Chunker_push (Chunker_new p sf m) tuples) = m)
    as (gs & o & (Ho & Hc & Hne & Hb & Hbo) & Hcat & Ep & Es & Em).
  { induction tuples as [|t l IH] using rev_ind.
    - exists [], []. unfold chunker_holds. cbn. split_and!; try done. lia.
    - destruct IH as (gs & o & Hh & Hcat & Ep & Es & Em). rewrite foldl_app. cbn [foldl].
      set (c := foldl _ _ l) in *.
      destruct (chunker_push_holds c gs o t) as (gs' & o' & Hh' & Hcat' & -> & -> & ->); [congruence|done|].
      exists gs', o'. split; [done|]. by rewrite Hcat', app_assoc, Hcat. }
  unfold chunked, Chunker_finish, Chunker_flush.
  set (c := foldl _ _ _) in *. rewrite Ep, Es, Em in *.
  destruct o as [|x o].
  - rewrite Hc. cbn. exists gs. rewrite app_nil_r in Hcat. by rewrite Ho.
  - rewrite Hc, (string_app_nonempty p) by done. cbn [out]. exists (gs ++ [x :: o]).
    rewrite concat_app. cbn [concat]. rewrite app_nil_r, Hcat, fmap_app, Ho.
    split_and!; try done.
    + apply Forall_app. split; [done|]. by constructor.
    + cbn. unfold group_text. by rewrite <- string_app_assoc.
    + apply Forall_app. split; [done|]. constructor; [done|constructor].
Qed.

(** Groups of the images of a list are images of groups of the list. *)
Lemma concat_fmap_inv {A B} (f : A -> B) (l : list A) (gs : list (list B)) :
  concat gs = f <$> l -> exists gs' : list (list A), concat gs' = l /\ gs = (fun g : list A => f <$> g) <$> gs'.
Proof.
  revert l. induction gs as [|g gs IH]; intros l; cbn [concat].
  - intros H. symmetry in H. apply fmap_nil_inv in H as ->. by exists [].
  - intros H. symmetry in H. apply fmap_app_inv in H as (l1 & l2 & -> & H2 & ->).
    destruct (IH l2) as (gs' & <- & ->); [done|]. by exists (l1 :: gs').
Qed.

Lemma insert_prefix_nonempty table stamped : insert_prefix table stamped <> "".
Proof. by destruct stamped. Qed.

(** The statement that inserts the rows [g] of [quads] or of a table like it. *)
Definition insert_statement (table : string) (stamped : bool) (g : list QuadIds) : Statement :=
  Statement_new (insert_prefix table stamped +:+ join "," (quad_tuple <$> g) +:+
    (if stamped then ")" else "")).

Lemma chunked_fmap {A} (f : A -> string) (p sf : string) (m : Z) (l : list A) :
  p <> "" ->
  exists gs, concat gs = l /\ Forall (fun g => g <> []) gs /\
    chunked p sf m (f <$> l) = (fun g : list A => Statement_new (group_text p sf (f <$> g))) <$> gs /\
    Forall (fun g => (2 <= length g)%nat -> string_len (group_text p sf (f <$> g)) <= m) gs.
Proof.
  intros Hp. destruct (chunked_spec p sf m (f <$> l) Hp) as (gs & Hcat & Hne & -> & Hb).
  apply concat_fmap_inv in Hcat as (gs' & Hcat & ->).
  exists gs'. split_and!; [done| | |].
  - apply Forall_forall. intros g Hg ->. rewrite Forall_forall in Hne.
    by apply (Hne (f <$> [])); [apply (list_elem_of_fmap_2 (fun g : list A => f <$> g))|].
  - by rewrite <- list_fmap_compose.
  - apply Forall_forall. intros g Hg Hl. rewrite Forall_forall in Hb. apply (Hb (f <$> g)); [|by rewrite length_fmap].
    by apply (list_elem_of_fmap_2 (fun g : list A => f <$> g)).
Qed.

(** *** Printed integers are short *)

Lemma pretty_N_go_length (n : nat) (x : N) :
  (x < 10 ^ N.of_nat n)%N -> (String.length (pretty_N_go x "") <= n)%nat.
Proof.
  revert x. induction n as [|n IH]; intros x Hx.
  - change (10 ^ N.of_nat 0)%N with 1%N in Hx. assert (x = 0)%N as -> by lia. done.
  - destruct (decide (x = 0)%N) as [->|]; [rewrite pretty_N_go_0; cbn [String.length]; lia|].
    rewrite pretty_N_go_step by lia. rewrite pretty_N_go_app, string_length_app.
    cbn [String.length]. enough (String.length (pretty_N_go (x / 10) "") <= n)%nat by lia.
    apply IH. rewrite Nat2N.inj_succ, N.pow_succ_r' in Hx. apply N.Div0.div_lt_upper_bound; lia.
Qed.

Lemma show_Z_length z : in_i64 z = true -> string_len (show_Z z) <= 20.
Proof.
  intros Hz. assert (forall x : N, (x < 10 ^ 19)%N -> (String.length (pretty x) <= 19)%nat) as Hp.
  { intros x Hx. unfold pretty, pretty_N. case_decide; [cbn; lia|]. by apply (pretty_N_go_length 19). }
  apply andb_prop in Hz as [H1%Z.leb_le H2%Z.leb_le].
  change i64_min with (-9223372036854775808) in H1. change i64_max with 9223372036854775807 in H2.
  change (10 ^ 19)%N with 10000000000000000000%N in Hp.
  unfold string_len, show_Z. destruct z as [|p|p].
  - by vm_compute.
  - change (pretty (Zpos p)) with (pretty (Npos p)). pose proof (Hp (Npos p) ltac:(lia)). lia.
  - change (pretty (Zneg p)) with (String "-" (pretty (Npos p))). cbn [String.length].
    pose proof (Hp (Npos p) ltac:(lia)). lia.
Qed.

(** The components of a quad are 64-bit integers. *)
Definition quad_in_i64 (q : QuadIds) : bool :=
  let '(s, p, o, g) := q in in_i64 s && in_i64 p && in_i64 o && in_i64 g.

Lemma quad_tuple_length q : quad_in_i64 q = true -> string_len (quad_tuple q) <= 85.
Proof.
  destruct q as [[[s p] o] g]. unfold quad_in_i64, quad_tuple. intros H.
  apply andb_prop in H as [[[Hs Hp]%andb_prop Ho]%andb_prop Hg].
  apply show_Z_length in Hs, Hp, Ho, Hg.
  rewrite !string_len_app. change (string_len "(") with 1. change (string_len ",") with 1.
  change (string_len ")") with 1.
  lia.
Qed.

(** ** Properties *)

(** C3: the insert statements of a list of quads write every quad exactly once and in order:
    they are the statements of consecutive non-empty groups of the list, with the tick column
    exactly when the table is [quads] in a store whose level is at least [stamped]. *)
Theorem insert_statements_complete (table : string) (qs : list QuadIds) (caps : Capabilities) :
  let stamped := String.eqb table "quads" && negb (bool_decide (versioning caps = Versioning.Off)) in
  exists groups, concat groups = qs /\ Forall (fun g => g <> []) groups /\
    insert_statements_into table qs caps = insert_statement table stamped <$> groups.
Proof.
  intros stamped. unfold insert_statements_into.
  assert (String.eqb table "quads" && Versioning.leb Versioning.Stamped (versioning caps) = stamped) as ->.
  { unfold stamped. f_equal. by destruct (versioning caps). }
  destruct (chunked_fmap quad_tuple (insert_prefix table stamped) (if stamped then ")" else "")
              (max_sql_len caps) qs) as (gs & ? & ? & -> & _); [apply insert_prefix_nonempty|].
  by exists gs.
Qed.

(** C4: no statement that inserts or deletes quads is longer than the backend's limit, for any
    number of quads with 64-bit ids, as soon as the limit leaves room for one row. *)
Theorem quad_statements_bounded (qs : list QuadIds) (caps : Capabilities)
    (Hids : forallb quad_in_i64 qs = true) (Hmax : 256 <= max_sql_len caps) :
  Forall (fun s => string_len (sql s) <= max_sql_len caps) (quad_insert_statements qs caps) /\
  Forall (fun s => string_len (sql s) <= max_sql_len caps) (quad_delete_statements qs caps).
Proof.
  assert (forall p sf, p <> "" -> string_len p <= 160 -> string_len sf <= 1 ->
    Forall (fun s => string_len (sql s) <= max_sql_len caps)
      (chunked p sf (max_sql_len caps) (quad_tuple <$> qs))) as Hc.
  { intros p sf Hp Hlp Hls.
    destruct (chunked_fmap quad_tuple p sf (max_sql_len caps) qs Hp) as (gs & Hcat & Hne & -> & Hb).
    apply Forall_fmap, Forall_forall. intros g Hg. cbn.
    rewrite Forall_forall in Hne, Hb. specialize (Hne g Hg). specialize (Hb g Hg).
    destruct g as [|q [|q' g]]; [done| |apply Hb; cbn; lia].
    assert (quad_in_i64 q = true) as Hq.
    { rewrite forallb_forall in Hids. apply Hids, list_elem_of_In. rewrite <- Hcat.
      apply list_elem_of_In, in_concat. exists [q]. split; [by apply list_elem_of_In|by left]. }
    pose proof (quad_tuple_length q Hq). unfold group_text. cbn [fmap list_fmap join].
    rewrite !string_len_app. lia. }
  split.
  - unfold quad_insert_statements, insert_statements_into. cbn [String.eqb Ascii.eqb Bool.eqb andb].
    destruct (Versioning.leb _ _); apply Hc; vm_compute; discriminate.
  - unfold quad_delete_statements. destruct qs as [|[[[s p] o] g] [|q' qs]]; [apply Hc; vm_compute; discriminate| |apply Hc; vm_compute; discriminate].
    constructor; [|constructor]. cbn [sql Statement_new].
    cbn [forallb quad_in_i64] in Hids. rewrite andb_true_r in Hids.
    apply andb_prop in Hids as [[[Hs Hp]%andb_prop Ho]%andb_prop Hg].
    apply show_Z_length in Hs, Hp, Ho, Hg. rewrite !string_len_app.
    change (string_len "DELETE FROM quads WHERE s = ") with 28.
    change (string_len " AND p = ") with 9. change (string_len " AND o = ") with 9.
    change (string_len " AND g = ") with 9. lia.
Qed.

Lemma quad_statements_bounded_witness :
  Forall (fun s => string_len (sql s) <= max_sql_len d1)
    (quad_insert_statements [(1, 2, 3, 0); (i64_max, i64_min, 4, 5)] d1) /\
  Forall (fun s => string_len (sql s) <= max_sql_len d1)
    (quad_delete_statements [(1, 2, 3, 0); (i64_max, i64_min, 4, 5)] d1).
Proof. apply quad_statements_bounded; [reflexivity|by vm_compute]. Defined.
