(* ===== verification/TreeMap.v ===== *)
(** * Maps with ordered string keys

    The laws of [BTreeMap] as an association list by strictly ascending key: what is found
    after an insertion or a removal, that the order is kept, and that the keys determine the
    list. *)

From S2P Require Export Machine.

(** ** The order of strings ([str as Ord]) *)

Definition str_lt (a b : string) : Prop := String.compare a b = Lt.

Lemma str_compare_refl a : String.compare a a = Eq.
Proof.
  induction a as [|c a IH]; [done|]. cbn [String.compare].
  unfold Ascii.compare. by rewrite N.compare_refl.
Qed.

Lemma str_compare_eq a b : String.compare a b = Eq <-> a = b.
Proof. split; [apply String.compare_eq_iff|intros ->; apply str_compare_refl]. Qed.

Lemma str_compare_gt a b : String.compare a b = Gt <-> str_lt b a.
Proof. unfold str_lt. rewrite (String.compare_antisym a b). destruct (String.compare b a); cbn; intuition congruence. Qed.

Lemma ascii_compare_lt c d : Ascii.compare c d = Lt <-> (N_of_ascii c < N_of_ascii d)%N.
Proof. unfold Ascii.compare. by rewrite N.compare_lt_iff. Qed.

Lemma str_lt_cons c d a b :
  str_lt (String c a) (String d b) <-> (N_of_ascii c < N_of_ascii d)%N \/ c = d /\ str_lt a b.
Proof.
  unfold str_lt. cbn [String.compare]. destruct (Ascii.compare c d) eqn:Hc.
  - apply Ascii.compare_eq_iff in Hc as ->. split; [by right|]. intros [?|[_ ?]]; [lia|done].
  - apply ascii_compare_lt in Hc. intuition.
  - split; [done|]. intros [H%ascii_compare_lt|[-> _]]; [congruence|].
    unfold Ascii.compare in Hc. by rewrite N.compare_refl in Hc.
Qed.

#[global] Instance str_lt_strict : StrictOrder str_lt.
Proof.
  split.
  - intros a. unfold complement, str_lt. by rewrite str_compare_refl.
  - intros a. induction a as [|c a IH]; intros [|d b] [|e z]; try (unfold str_lt; cbn; done).
    rewrite !str_lt_cons. intros [?|[-> ?]] [?|[-> ?]]; [left; lia|by left|by left|right; eauto].
Qed.

Lemma str_lt_ne a b : str_lt a b -> a <> b.
Proof. intros H ->. by apply (irreflexivity str_lt b). Qed.

Lemma str_lt_total a b : str_lt a b \/ a = b \/ str_lt b a.
Proof.
  destruct (String.compare a b) eqn:H; [right; left; by apply str_compare_eq|by left|].
  right. right. by apply str_compare_gt.
Qed.

Lemma str_lt_app p a b : str_lt (p +:+ a) (p +:+ b) <-> str_lt a b.
Proof.
  induction p as [|c p IH]; [done|]. change (String c p +:+ ?x) with (String c (p +:+ x)).
  rewrite str_lt_cons, IH. intuition lia.
Qed.

Lemma ascending_nodup_list (k : list string) : StronglySorted str_lt k -> NoDup k.
Proof.
  induction 1 as [|x l _ IH Hx]; constructor; [|done]. rewrite Forall_forall in Hx.
  intros H. by apply (irreflexivity str_lt x), Hx.
Qed.

(** Ascending lists with the same elements are the same list. *)
Lemma ascending_unique (k l : list string) : StronglySorted str_lt k -> StronglySorted str_lt l ->
  (forall x, x ∈ k <-> x ∈ l) -> k = l.
Proof.
  intros Hk Hl Hkl. apply (StronglySorted_unique_strong str_lt); [|done|done|].
  - intros x y _ _ H1 H2. exfalso. apply (irreflexivity str_lt x). by transitivity y.
  - by apply NoDup_Permutation; [apply ascending_nodup_list|apply ascending_nodup_list|].
Qed.

(** ** Lookups *)

Section maps.
Context {V : Type}.
Implicit Types (m : list (string * V)) (k : string) (v : V).

Definition ascending m : Prop := StronglySorted str_lt m.*1.

Lemma ascending_cons k v m : ascending ((k, v) :: m) <-> Forall (str_lt k) m.*1 /\ ascending m.
Proof. unfold ascending. cbn. rewrite StronglySorted_cons. tauto. Qed.

Lemma ascending_nodup m : ascending m -> NoDup m.*1.
Proof. apply ascending_nodup_list. Qed.

Lemma tree_get_elem m k v : BTreeMap.get m k = Some v -> (k, v) ∈ m.
Proof.
  induction m as [|[k' v'] m IH]; cbn; [done|]. destruct (String.eqb_spec k k') as [->|_].
  - intros [= ->]. left.
  - right. auto.
Qed.

Lemma tree_get_none m k : BTreeMap.get m k = None <-> k ∉ m.*1.
Proof.
  induction m as [|[k' v'] m IH]; cbn; [split; [intros _; apply not_elem_of_nil|done]|].
  rewrite not_elem_of_cons.
  destruct (String.eqb_spec k k') as [->|Hk]; [intuition congruence|]. rewrite IH. tauto.
Qed.

Lemma tree_get_iff m k v : ascending m -> BTreeMap.get m k = Some v <-> (k, v) ∈ m.
Proof.
  intros Hm. split; [apply tree_get_elem|]. induction m as [|[k' v'] m IH]; [by intros ?%elem_of_nil|].
  apply ascending_cons in Hm as [Hlt Hm]. cbn. rewrite elem_of_cons. intros [[= -> ->]|Hv].
  - by rewrite String.eqb_refl.
  - destruct (String.eqb_spec k k') as [->|_]; [|auto]. rewrite Forall_forall in Hlt.
    exfalso. apply (irreflexivity str_lt k'), Hlt. apply list_elem_of_fmap. by exists (k', v).
Qed.

Lemma tree_contains m k : BTreeMap.contains_key m k = true <-> k ∈ m.*1.
Proof.
  unfold BTreeMap.contains_key. destruct (BTreeMap.get m k) as [v|] eqn:H.
  - split; [intros _|done]. apply tree_get_elem in H. apply list_elem_of_fmap. by exists (k, v).
  - apply tree_get_none in H. by split.
Qed.

(** ** Insertions *)

Lemma tree_insert_get m k v j : BTreeMap.get (BTreeMap.insert m k v) j = if String.eqb j k then Some v else BTreeMap.get m j.
Proof.
  induction m as [|[k' v'] m IH]; cbn; [done|]. destruct (String.compare k k') eqn:Hc; cbn.
  - apply str_compare_eq in Hc as ->. by destruct (String.eqb j k').
  - done.
  - apply str_compare_gt, str_lt_ne in Hc. rewrite IH.
    destruct (String.eqb_spec j k') as [->|], (String.eqb_spec k' k); congruence.
Qed.

Lemma tree_insert_keys m k v j : j ∈ (BTreeMap.insert m k v).*1 <-> j = k \/ j ∈ m.*1.
Proof.
  induction m as [|[k' v'] m IH]; cbn; [rewrite list_elem_of_singleton, elem_of_nil; tauto|].
  destruct (String.compare k k') eqn:Hc; cbn; rewrite !elem_of_cons.
  - apply str_compare_eq in Hc as ->. tauto.
  - tauto.
  - rewrite IH. tauto.
Qed.

Lemma tree_insert_ascending m k v : ascending m -> ascending (BTreeMap.insert m k v).
Proof.
  induction m as [|[k' v'] m IH]; cbn; [intros _; by repeat constructor|].
  intros Hm. pose proof Hm as [Hlt Hm']%ascending_cons. destruct (String.compare k k') eqn:Hc.
  - apply str_compare_eq in Hc as ->. by apply ascending_cons.
  - apply ascending_cons. split; [|done]. constructor; [done|]. eapply Forall_impl; [exact Hlt|].
    intros x Hx. by transitivity k'.
  - apply ascending_cons. split; [|auto]. apply Forall_forall. intros x [->|Hx]%tree_insert_keys.
    + by apply str_compare_gt.
    + rewrite Forall_forall in Hlt. auto.
Qed.

Lemma tree_insert_elem m k v j w : ascending m ->
  (j, w) ∈ BTreeMap.insert m k v <-> j = k /\ w = v \/ j <> k /\ (j, w) ∈ m.
Proof.
  intros Hm. rewrite <- (tree_get_iff (BTreeMap.insert m k v)) by by apply tree_insert_ascending.
  rewrite tree_insert_get, <- tree_get_iff by done. destruct (String.eqb_spec j k); naive_solver.
Qed.

Lemma tree_collect_ascending (l : list (string * V)) : ascending (BTreeMap.collect l).
Proof.
  unfold BTreeMap.collect. assert (ascending []) as H by constructor. revert H. generalize (@nil (string * V)).
  induction l as [|[k v] l IH]; intros m Hm; cbn; [done|]. apply IH. by apply tree_insert_ascending.
Qed.

(** ** Removals *)

Lemma tree_remove_get m k j : ascending m ->
  BTreeMap.get (BTreeMap.remove m k) j = if String.eqb j k then None else BTreeMap.get m j.
Proof.
  induction m as [|[k' v'] m IH]; cbn; [by destruct (String.eqb j k)|].
  intros [Hlt Hm]%ascending_cons. destruct (String.eqb_spec k k') as [->|Hk].
  - destruct (String.eqb_spec j k') as [Hj|_]; [subst j|done]. apply tree_get_none. intros Hin.
    rewrite Forall_forall in Hlt. by apply (irreflexivity str_lt k'), Hlt.
  - cbn. rewrite IH by done. destruct (String.eqb_spec j k') as [Hj|_]; [subst j|done].
    by destruct (String.eqb_spec k' k); [congruence|].
Qed.

Lemma tree_remove_keys m k j : j ∈ (BTreeMap.remove m k).*1 -> j ∈ m.*1.
Proof.
  induction m as [|[k' v'] m IH]; cbn; [done|]. destruct (String.eqb k k'); cbn; rewrite !elem_of_cons; tauto.
Qed.

Lemma tree_remove_ascending m k : ascending m -> ascending (BTreeMap.remove m k).
Proof.
  induction m as [|[k' v'] m IH]; cbn; [done|]. intros [Hlt Hm]%ascending_cons.
  destruct (String.eqb k k'); [done|]. apply ascending_cons. split; [|auto].
  apply Forall_forall. intros x Hx%tree_remove_keys. rewrite Forall_forall in Hlt. auto.
Qed.

Lemma tree_remove_elem m k j w : ascending m -> (j, w) ∈ BTreeMap.remove m k <-> j <> k /\ (j, w) ∈ m.
Proof.
  intros Hm. rewrite <- (tree_get_iff (BTreeMap.remove m k)) by by apply tree_remove_ascending.
  rewrite tree_remove_get, <- tree_get_iff by done. destruct (String.eqb_spec j k); naive_solver.
Qed.
End maps.

#[global] Hint Resolve tree_insert_ascending tree_remove_ascending tree_collect_ascending : core.

Lemma foldl_same {A B} (f g : B -> A -> B) b l : (forall b x, f b x = g b x) -> foldl f b l = foldl g b l.
Proof. intros H. revert b. induction l as [|x l IH]; intros b; cbn; [done|]. by rewrite H, IH. Qed.

Lemma omap_same {A B} (f g : A -> option B) (l : list A) : (forall x, f x = g x) -> omap f l = omap g l.
Proof. intros H. induction l as [|x l IH]; [done|]. cbn. by rewrite H, IH. Qed.

Lemma sorted_filter {A} (R : relation A) (P : A -> Prop) `{forall x, Decision (P x)} l :
  StronglySorted R l -> StronglySorted R (filter P l).
Proof.
  induction 1 as [|x l Hs IH Hx]; [constructor|]. rewrite filter_cons. case_decide; [|done]. constructor; [done|].
  rewrite Forall_forall in Hx |- *. intros y [_ Hy]%list_elem_of_filter. auto.
Qed.

(** ** Grouping ([entry(k).or_default().push(v)]) *)

Section grouping.
Context {A V : Type} (says : A -> option (string * V)).
Implicit Types (m : list (string * list V)) (l : list A).

Definition group_step m (x : A) : list (string * list V) :=
  match says x with
  | Some (k, v) => BTreeMap.insert m k (default [] (BTreeMap.get m k) ++ [v])
  | None => m
  end.

(** What [x] says of [k], and what is said of [k] in order. *)
Definition said_of (k : string) (x : A) : option V := '(k', v) ← says x; if String.eqb k' k then Some v else None.
Definition group_of l (k : string) : list V := omap (said_of k) l.

Lemma said_of_other x k v j : says x = Some (k, v) -> j <> k -> said_of j x = None.
Proof. intros Hs Hj. unfold said_of. rewrite Hs. cbn. by destruct (String.eqb_spec k j); [congruence|]. Qed.

Lemma said_of_same x k v : says x = Some (k, v) -> said_of k x = Some v.
Proof. intros Hs. unfold said_of. rewrite Hs. cbn. by rewrite String.eqb_refl. Qed.

Lemma grouped l m : ascending m ->
  let m' := foldl group_step m l in
  ascending m' /\
  (forall k, default [] (BTreeMap.get m' k) = default [] (BTreeMap.get m k) ++ group_of l k) /\
  (forall k, k ∈ m'.*1 <-> k ∈ m.*1 \/ group_of l k <> []).
Proof.
  revert m. induction l as [|x l IH]; intros m Hm; cbn.
  { split_and!; [done|intros k; by rewrite app_nil_r|intros k; intuition]. }
  unfold group_step at 2 4 6. destruct (says x) as [[k v]|] eqn:Hs.
  - destruct (IH _ (tree_insert_ascending _ k (default [] (BTreeMap.get m k) ++ [v]) Hm)) as (Ho & Hg & Hk).
    split_and!; [done|..]; intros j.
    + rewrite Hg, tree_insert_get. destruct (String.eqb_spec j k) as [Hj|Hj]; [subst j|by rewrite (said_of_other _ _ _ _ Hs Hj)].
      rewrite (said_of_same _ _ _ Hs). cbn. by rewrite <- app_assoc.
    + rewrite Hk, tree_insert_keys. destruct (String.eqb_spec j k) as [Hj|Hj].
      * subst j. rewrite (said_of_same _ _ _ Hs). naive_solver.
      * rewrite (said_of_other _ _ _ _ Hs Hj). tauto.
  - assert (forall k, said_of k x = None) as Hno by (intros k; unfold said_of; by rewrite Hs).
    destruct (IH m Hm) as (Ho & Hg & Hk). split_and!; [done|..]; intros k; [rewrite Hg|rewrite Hk]; by rewrite Hno.
Qed.

(** The keys in ascending order, with what is said of each. *)
Lemma grouped_list l keys : StronglySorted str_lt keys -> (forall k, k ∈ keys <-> group_of l k <> []) ->
  foldl group_step [] l = (fun k => (k, group_of l k)) <$> keys.
Proof.
  intros Hs Hp. destruct (grouped l [] ltac:(constructor)) as (Ho & Hg & Hk). cbn zeta in *. set (m := foldl _ _ _) in *.
  assert (m.*1 = keys) as <-.
  { apply ascending_unique; [done..|]. intros k. rewrite Hk, Hp. set_solver. }
  rewrite <- list_fmap_compose. rewrite <- (list_fmap_id m) at 1. apply list_fmap_ext.
  intros i [k vs] Hi. cbn. f_equal. apply list_elem_of_lookup_2, (tree_get_iff _ _ _ Ho) in Hi.
  specialize (Hg k). by rewrite Hi in Hg.
Qed.

Lemma group_of_app l l' k : group_of (l ++ l') k = group_of l k ++ group_of l' k.
Proof. apply omap_app. Qed.

Lemma group_of_perm l l' k : l ≡ₚ l' -> group_of l k ≡ₚ group_of l' k.
Proof. unfold group_of. by intros ->. Qed.

(** Elements that say nothing a reader uses can be dropped. *)
Lemma grouped_bind {B} (f : string * list V -> list B) l l' : (forall k, f (k, []) = []) ->
  (forall k, f (k, group_of l k) = f (k, group_of l' k)) -> foldl group_step [] l ≫= f = foldl group_step [] l' ≫= f.
Proof.
  intros Hnil Hf.
  assert (forall l, let m := foldl group_step [] l in
    m ≫= f = filter (fun k => f (k, group_of l k) <> []) m.*1 ≫= (fun k => f (k, group_of l k))) as Hm.
  { clear. intros l. cbn zeta. destruct (grouped l [] ltac:(constructor)) as (Ho & Hg & Hk). cbn zeta in *. set (m := foldl _ _ _) in *.
    assert (forall k vs, (k, vs) ∈ m -> vs = group_of l k) as Hv.
    { intros k vs Hin. apply (tree_get_iff _ _ _ Ho) in Hin. specialize (Hg k). by rewrite Hin in Hg. }
    clearbody m. clear Ho Hg Hk. induction m as [|[k vs] m IH]; [done|]. rewrite bind_cons, fmap_cons. cbn [fst].
    rewrite IH by (intros; apply Hv; by right). rewrite (Hv k vs) by left.
    destruct (decide (f (k, group_of l k) <> [])) as [H|H]; [by rewrite filter_cons_True, bind_cons by done|].
    rewrite filter_cons_False by done. apply dec_stable in H. by rewrite H. }
  rewrite !Hm. clear Hm.
  assert (forall l (P : string -> Prop) `{forall k, Decision (P k)}, StronglySorted str_lt (filter P (foldl group_step [] l).*1)) as Hs.
  { clear. intros l P HP. destruct (grouped l [] ltac:(constructor)) as (Ho & _ & _). by apply sorted_filter. }
  assert (forall l k, f (k, group_of l k) <> [] -> k ∈ (foldl group_step [] l).*1) as Hin.
  { clear -Hnil. intros l k Hk. destruct (grouped l [] ltac:(constructor)) as (_ & _ & Hk'). apply Hk'. right. intros Hg.
    apply Hk. by rewrite Hg. }
  assert (filter (fun k => f (k, group_of l k) <> []) (foldl group_step [] l).*1 =
          filter (fun k => f (k, group_of l' k) <> []) (foldl group_step [] l').*1) as ->.
  { apply ascending_unique; [apply Hs..|]. intros k. rewrite !list_elem_of_filter, Hf. split; intros [H _]; split; [done|by apply Hin|done|].
    apply Hin. by rewrite Hf. }
  apply list_bind_ext; [|done]. intros k. apply Hf.
Qed.
End grouping.
