(* ===== verification/Functions.v ===== *)
(** * Host functions ([crates/oxilite-core/src/functions.rs])

    Functions of the application, named by an IRI and, for Cypher, by a name. A host function is
    any function on terms; the registry keeps at most one function per IRI and per Cypher name
    ([FunctionsFacts.register_keeps]), so looking a name up finds the function registered under it. *)

From S2P Require Export Machine Sql.

(** [crate::text::TEXT_MATCH], [crate::registry::NS]. *)
Definition TEXT_MATCH : string := "https://oxilite.dev/ns#textMatch".
Definition OXL_NS : string := "https://oxilite.dev/ns#".

(** ** Functions *)

Record HostFunction {OX : Oxrdf} := mkHostFunction {
  hf_iri : string;
  cypher_name : option string;
  min_arity : nat;
  max_arity : option nat;
  description : string;
  hf_f : list Term -> option Term;
}.
Arguments mkHostFunction {OX}.

(** The part of an IRI after its last [#] or [/]. *)
Fixpoint local_name (iri : string) : string :=
  match iri with
  | EmptyString => EmptyString
  | String c s =>
      if exists_byte (one_of ["#"; "/"]%char) s then local_name s
      else if one_of ["#"; "/"]%char c then s else iri
  end.

(** The registry: functions by ascending IRI. A store hands out a shared registry, or none. *)
Definition FunctionRegistry {OX : Oxrdf} : Type := list (string * HostFunction).
Definition Functions {OX : Oxrdf} : Type := option FunctionRegistry.

Module functions.
Section functions.
Context {OX : Oxrdf} `{Lowercase}.

Definition HostFunction_new (iri : string) (f : list Term -> option Term) : HostFunction :=
  mkHostFunction iri None 0 None "" f.

Definition with_cypher_name (self : HostFunction) (name : string) : HostFunction :=
  mkHostFunction (hf_iri self) (Some name) (min_arity self) (max_arity self) (description self) (hf_f self).
Definition with_arity (self : HostFunction) (lo : nat) (hi : option nat) : HostFunction :=
  mkHostFunction (hf_iri self) (cypher_name self) lo hi (description self) (hf_f self).
Definition with_description (self : HostFunction) (text : string) : HostFunction :=
  mkHostFunction (hf_iri self) (cypher_name self) (min_arity self) (max_arity self) text (hf_f self).

Definition cypher (self : HostFunction) : string :=
  default (local_name (hf_iri self)) (cypher_name self).

Definition call (self : HostFunction) (args : list Term) : option Term :=
  if (length args <? min_arity self)%nat ||
     match max_arity self with Some m => (m <? length args)%nat | None => false end
  then None else hf_f self args.

Definition reserved (iri : string) : option string :=
  if String.eqb iri TEXT_MATCH || starts_with iri OXL_NS then Some "the oxilite namespace is reserved"
  else if starts_with iri xsd.NS then Some "XSD casts are built in"
  else None.

(** ** The registry *)

Implicit Types (reg : FunctionRegistry).

Definition values reg : list HostFunction := snd <$> reg.

Definition register reg (f : HostFunction) : result Error FunctionRegistry :=
  match iri_error (hf_iri f) with
  | Some e => Err (Other ("host function IRI <" +:+ hf_iri f +:+ "> is invalid: " +:+ e))
  | None =>
      match reserved (hf_iri f) with
      | Some why => Err (Other ("cannot register <" +:+ hf_iri f +:+ "> as a host function: " +:+ why))
      | None =>
          let name := to_lowercase (cypher f) in
          if String.eqb name "" then
            Err (Other ("host function <" +:+ hf_iri f +:+
              "> needs a Cypher name (its IRI has no local name)"))
          else
            match List.find (fun g => negb (String.eqb (hf_iri g) (hf_iri f)) &&
                                      String.eqb (to_lowercase (cypher g)) name) (values reg) with
            | Some other => Err (Other ("Cypher name " +:+ cypher f +:+ " is already used by <" +:+
                hf_iri other +:+ ">"))
            | None => Ok (BTreeMap.insert reg (hf_iri f) f)
            end
      end
  end.

Definition unregister reg (iri : string) : FunctionRegistry * bool :=
  (BTreeMap.remove reg iri, BTreeMap.contains_key reg iri).

Definition registry_get reg (iri : string) : option HostFunction := BTreeMap.get reg iri.

Definition by_cypher_name reg (name : string) : option HostFunction :=
  List.find (fun f => eq_ignore_ascii_case (cypher f) name) (values reg).

Definition get (fs : Functions) (iri : string) : option HostFunction :=
  reg ← fs; registry_get reg iri.
Definition shared_by_cypher_name (fs : Functions) (name : string) : option HostFunction :=
  reg ← fs; by_cypher_name reg name.
Definition is_empty (fs : Functions) : bool :=
  match fs with None | Some [] => true | _ => false end.
End functions.
End functions.
