(* ===== verification/FunctionsFacts.v ===== *)
(** * The registry of host functions is well formed

    Whatever is registered and unregistered, a function is found under its IRI and under its
    Cypher name in any casing, no two functions share a name, and no IRI of the engine's own is
    taken over. *)

From S2P Require Export TreeMap Functions.

(** What the Unicode tables promise: texts that differ in the case of ASCII letters only have
    the same lower case. *)
Class LowercaseLaws `{Lowercase} : Prop :=
  lowercase_ignores_case a b : eq_ignore_ascii_case a b = true -> to_lowercase a = to_lowercase b.

Section registry.
Context {OX : Oxrdf} `{LC : Lowercase}.
Implicit Types (reg : FunctionRegistry) (f g : HostFunction).

(** The registries a store can have. *)
Inductive Registered : FunctionRegistry -> Prop :=
  | registered_empty : Registered []
  | registered_added reg f reg' :
      Registered reg -> functions.register reg f = Ok reg' -> Registered reg'
  | registered_removed reg iri : Registered reg -> Registered (functions.unregister reg iri).1.

Record registry_ok reg : Prop := {
  ok_order : ascending reg;
  ok_keys k f : (k, f) ∈ reg -> k = hf_iri f;
  ok_iris k f : (k, f) ∈ reg -> iri_error k = None /\ functions.reserved k = None;
  ok_named k f : (k, f) ∈ reg -> to_lowercase (functions.cypher f) <> "";
  ok_names j f k g : (j, f) ∈ reg -> (k, g) ∈ reg ->
    to_lowercase (functions.cypher f) = to_lowercase (functions.cypher g) -> j = k;
}.

(** What [register] has checked when it accepts. *)
Record accepted reg f : Prop := {
  acc_iri : iri_error (hf_iri f) = None;
  acc_free : functions.reserved (hf_iri f) = None;
  acc_named : to_lowercase (functions.cypher f) <> "";
  acc_names k g : (k, g) ∈ reg -> to_lowercase (functions.cypher g) = to_lowercase (functions.cypher f) ->
    hf_iri g = hf_iri f;
}.

Lemma register_ok reg f reg' : functions.register reg f = Ok reg' ->
  accepted reg f /\ reg' = BTreeMap.insert reg (hf_iri f) f.
Proof.
  unfold functions.register. destruct (iri_error _) eqn:Hiri; [done|].
  destruct (functions.reserved _) eqn:Hres; [done|].
  destruct (String.eqb_spec (to_lowercase (functions.cypher f)) "") as [|Hname]; [done|].
  destruct (List.find _ _) eqn:Hfind; [done|]. intros [= <-]. split; [|done]. split; try done.
  intros k g Hg Hlow. assert (In g (functions.values reg)) as Hin.
  { apply list_elem_of_In, list_elem_of_fmap. by exists (k, g). }
  pose proof (List.find_none _ _ Hfind g Hin) as H. cbn in H. apply andb_false_iff in H as [H|H].
  - by apply negb_false_iff, String.eqb_eq in H.
  - by apply String.eqb_neq in H.
Qed.

Lemma register_keeps reg f reg' : registry_ok reg -> functions.register reg f = Ok reg' -> registry_ok reg'.
Proof.
  intros H [Ha ->]%register_ok. pose proof (ok_order _ H) as Ho.
  assert (forall k g, (k, g) ∈ BTreeMap.insert reg (hf_iri f) f ->
    k = hf_iri f /\ g = f \/ k <> hf_iri f /\ (k, g) ∈ reg) as Hin by (intros; by apply tree_insert_elem).
  split; [auto|..].
  - intros k g [[-> ->]|[_ Hg]]%Hin; [done|]. by eapply ok_keys.
  - intros k g [[-> ->]|[_ Hg]]%Hin; [by destruct Ha|]. by eapply ok_iris.
  - intros k g [[-> ->]|[_ Hg]]%Hin; [by destruct Ha|]. by eapply ok_named.
  - intros j g k h [[-> ->]|[Hj Hg]]%Hin [[-> ->]|[Hk Hh]]%Hin Hlow; [done|..|by eapply ok_names].
    + symmetry in Hlow. rewrite (ok_keys _ H _ _ Hh). symmetry. by eapply acc_names.
    + rewrite (ok_keys _ H _ _ Hg). by eapply acc_names.
Qed.

Lemma unregister_keeps reg iri : registry_ok reg -> registry_ok (functions.unregister reg iri).1.
Proof.
  intros H. pose proof (ok_order _ H) as Ho. cbn.
  assert (forall k g, (k, g) ∈ BTreeMap.remove reg iri -> (k, g) ∈ reg) as Hin.
  { intros k g. by intros [_ ?]%tree_remove_elem. }
  split; [auto|..].
  - intros k g Hg%Hin. by eapply ok_keys.
  - intros k g Hg%Hin. by eapply ok_iris.
  - intros k g Hg%Hin. by eapply ok_named.
  - intros j g k h Hg%Hin Hh%Hin. by eapply ok_names.
Qed.

Lemma registered_ok reg : Registered reg -> registry_ok reg.
Proof.
  induction 1; eauto using register_keeps, unregister_keeps.
  split; [constructor|..]; intros; by apply not_elem_of_nil in H.
Qed.

Lemma by_cypher_name_elem reg name f : functions.by_cypher_name reg name = Some f ->
  f ∈ functions.values reg /\ eq_ignore_ascii_case (functions.cypher f) name = true.
Proof. unfold functions.by_cypher_name. intros [? ?]%List.find_some. by rewrite list_elem_of_In. Qed.

Lemma eq_ignore_ascii_case_sym a b : eq_ignore_ascii_case a b = eq_ignore_ascii_case b a.
Proof. unfold eq_ignore_ascii_case. apply String.eqb_sym. Qed.

Lemma values_elem reg f : registry_ok reg -> f ∈ functions.values reg -> (hf_iri f, f) ∈ reg.
Proof.
  intros H [[k g] [Heq Hg]]%list_elem_of_fmap. cbn in Heq. subst g. by rewrite <- (ok_keys _ H _ _ Hg).
Qed.

(** C21: Whatever functions a store registers and removes, every function of its registry has a
    valid IRI that the engine does not interpret itself, is the one found under that IRI, and
    is the one Cypher finds under exactly the names that equal its own up to ASCII case. *)
Theorem registry_lookups `{!LowercaseLaws} reg f :
  Registered reg -> f ∈ functions.values reg ->
  iri_error (hf_iri f) = None /\ functions.reserved (hf_iri f) = None /\
  functions.registry_get reg (hf_iri f) = Some f /\
  forall name, functions.by_cypher_name reg name = Some f <->
    eq_ignore_ascii_case (functions.cypher f) name = true.
Proof.
  intros Hok%registered_ok Hf. pose proof (values_elem _ _ Hok Hf) as Hin.
  destruct (ok_iris _ Hok _ _ Hin) as [Hiri Hres]. split; [done|split; [done|split]].
  { apply tree_get_iff; [apply Hok|done]. }
  intros name. split; [by intros [_ ?]%by_cypher_name_elem|]. intros Hname.
  destruct (functions.by_cypher_name reg name) as [g|] eqn:Hg.
  - apply by_cypher_name_elem in Hg as [Hg Hgn]. apply (values_elem _ _ Hok) in Hg.
    assert (hf_iri f = hf_iri g) as Heq.
    { eapply ok_names; try done. rewrite (lowercase_ignores_case _ _ Hname). symmetry.
      by apply lowercase_ignores_case. }
    f_equal. rewrite Heq in Hin. apply (tree_get_iff _ _ _ (ok_order _ Hok)) in Hin, Hg. congruence.
  - unfold functions.by_cypher_name in Hg. apply list_elem_of_In in Hf.
    pose proof (List.find_none _ _ Hg f Hf) as Hno. cbn in Hno. congruence.
Qed.

(** A removed function is gone, and the others stay. *)
Lemma unregister_lookups reg iri j : Registered reg ->
  functions.registry_get (functions.unregister reg iri).1 j =
    (if String.eqb j iri then None else functions.registry_get reg j) /\
  ((functions.unregister reg iri).2 = true <-> exists f, functions.registry_get reg iri = Some f).
Proof.
  intros H%registered_ok. split; [apply tree_remove_get, H|]. cbn. unfold BTreeMap.contains_key, functions.registry_get.
  destruct (BTreeMap.get reg iri); naive_solver.
Qed.
End registry.

(** ** A concrete registry *)

#[local] Instance ascii_lowercase : Lowercase := to_ascii_lowercase.
#[local] Instance ascii_lowercase_laws : LowercaseLaws.
Proof. intros a b H. by apply String.eqb_eq. Qed.

Definition sample_function : HostFunction (OX := ConcreteRdf.oxrdf) :=
  functions.HostFunction_new "http://x/Twice" (fun _ => None).

Lemma registry_lookups_witness :
  functions.by_cypher_name [("http://x/Twice", sample_function)] "TWICE" = Some sample_function.
Proof.
  assert (Registered [("http://x/Twice", sample_function)]) as H.
  { apply (registered_added [] sample_function); [apply registered_empty|reflexivity]. }
  destruct (registry_lookups _ sample_function H ltac:(left)) as (_ & _ & _ & Hn).
  apply Hn. reflexivity.
Defined.
