(* ===== verification/Vector.v ===== *)
(** * Vector indexes ([crates/oxilite-core/src/vector.rs])

    Index definitions and their RDF description, the statements that build, drop and
    synchronise their tables, and the nearest-neighbour statement the frontends use. A
    definition is read back from the quads that describe it ([VectorFacts.definitions_roundtrip]), and
    synchronising drops and creates exactly what differs ([VectorFacts.sync_settles]). *)

From S2P Require Export Functions Writer.

Definition VECTORS_GRAPH : string := "oxilite:vectors".
Definition INDEX_PREFIX : string := "oxilite:vector/".
Definition META_PREFIX : string := "vector:".
Definition GUARD_TABLE : string :=
  "CREATE TABLE IF NOT EXISTS oxilite_vector_guard (" +:+
  "vector_dimensions_mismatch TEXT CHECK (vector_dimensions_mismatch IS NULL))".
Definition MAX_K : Z := 10000.
Definition DEFAULT_K : Z := 10.

Module vocab.
Definition VECTOR_INDEX : string := "https://oxilite.dev/ns#VectorIndex".
Definition INDEX_NAME : string := "https://oxilite.dev/ns#indexName".
Definition PROPERTY : string := "https://oxilite.dev/ns#property".
Definition DIMENSIONS : string := "https://oxilite.dev/ns#dimensions".
Definition METRIC : string := "https://oxilite.dev/ns#metric".
Definition ELEMENT_TYPE : string := "https://oxilite.dev/ns#elementType".
Definition CLASS : string := "https://oxilite.dev/ns#class".
Definition QUERY : string := "https://oxilite.dev/ns#query".
Definition K : string := "https://oxilite.dev/ns#k".
Definition NODE : string := "https://oxilite.dev/ns#node".
Definition DISTANCE : string := "https://oxilite.dev/ns#distance".
Definition SCORE : string := "https://oxilite.dev/ns#score".
End vocab.

(** ** Metrics and element types *)

Module Metric.
Inductive t := Cosine | Euclidean | DotProduct | Jaccard.
#[global] Instance metric_eq_dec : EqDecision t.
Proof. solve_decision. Defined.

Definition ALL : list t := [Cosine; Euclidean; DotProduct; Jaccard].
Definition name (m : t) : string :=
  match m with Cosine => "cosine" | Euclidean => "euclidean" | DotProduct => "dot" | Jaccard => "jaccard" end.
Definition iri (m : t) : string :=
  OXL_NS +:+ match m with
             | Cosine => "Cosine" | Euclidean => "Euclidean"
             | DotProduct => "DotProduct" | Jaccard => "Jaccard"
             end.
Definition parse (s : string) : option t :=
  let l := to_ascii_lowercase s in
  if existsb (String.eqb l) ["cosine"; "cos"] then Some Cosine
  else if existsb (String.eqb l) ["euclidean"; "l2"] then Some Euclidean
  else if existsb (String.eqb l) ["dot"; "dot_product"; "dotproduct"] then Some DotProduct
  else if existsb (String.eqb l) ["jaccard"] then Some Jaccard
  else None.
Definition from_iri (i : string) : option t := List.find (fun m => String.eqb (iri m) i) ALL.
Definition distance_fn (m : t) : string :=
  match m with
  | Cosine => "vector_distance_cos" | Euclidean => "vector_distance_l2"
  | DotProduct => "vector_distance_dot" | Jaccard => "vector_distance_jaccard"
  end.
Definition score_sql (m : t) (d : string) : string :=
  match m with
  | Cosine => "(1.0 - (" +:+ d +:+ ") / 2.0)"
  | Euclidean => "(1.0 / (1.0 + (" +:+ d +:+ ") * (" +:+ d +:+ ")))"
  | DotProduct => "(-(" +:+ d +:+ "))"
  | Jaccard => "(1.0 - (" +:+ d +:+ "))"
  end.
Definition score (m : t) (d : f64) : f64 :=
  let one := F64.of_Z 1 in
  match m with
  | Cosine => F64.sub one (F64.div d (F64.of_Z 2))
  | Euclidean => F64.div one (F64.add one (F64.mul d d))
  | DotProduct => F64.neg d
  | Jaccard => F64.sub one d
  end.
End Metric.

Module ElementType.
Inductive t := Float32 | Float64 | Int8 | Bit1 | SparseFloat32.
#[global] Instance element_type_eq_dec : EqDecision t.
Proof. solve_decision. Defined.

Definition ALL : list t := [Float32; Float64; Int8; Bit1; SparseFloat32].
Definition name (e : t) : string :=
  match e with
  | Float32 => "float32" | Float64 => "float64" | Int8 => "int8" | Bit1 => "bit1"
  | SparseFloat32 => "sparse"
  end.
Definition iri (e : t) : string :=
  OXL_NS +:+ match e with
             | Float32 => "Float32" | Float64 => "Float64" | Int8 => "Int8" | Bit1 => "Bit1"
             | SparseFloat32 => "SparseFloat32"
             end.
Definition parse (s : string) : option t :=
  let l := to_ascii_lowercase s in
  if existsb (String.eqb l) ["float32"; "f32"] then Some Float32
  else if existsb (String.eqb l) ["float64"; "f64"] then Some Float64
  else if existsb (String.eqb l) ["int8"; "i8"; "float8"] then Some Int8
  else if existsb (String.eqb l) ["bit1"; "1bit"; "binary"] then Some Bit1
  else if existsb (String.eqb l) ["sparse"; "sparse_float32"; "sparsefloat32"] then Some SparseFloat32
  else None.
Definition from_iri (i : string) : option t := List.find (fun e => String.eqb (iri e) i) ALL.
Definition convert_fn (e : t) : string :=
  match e with
  | Float32 => "vector32" | Float64 => "vector64" | Int8 => "vector8" | Bit1 => "vector1bit"
  | SparseFloat32 => "vector32_sparse"
  end.
End ElementType.

(** ** Definitions *)

Record VectorIndex := mkVectorIndex {
  vx_name : string;
  vx_property : NamedNode;
  vx_dimensions : Z;
  vx_metric : Metric.t;
  vx_element_type : ElementType.t;
  vx_class : option NamedNode;
}.
#[global] Instance vector_index_eq_dec : EqDecision VectorIndex.
Proof. solve_decision. Defined.

Definition VectorIndex_new (name : string) (property : NamedNode) (dimensions : Z) : VectorIndex :=
  mkVectorIndex name property dimensions Metric.Cosine ElementType.Float32 None.
Definition with_metric (self : VectorIndex) (m : Metric.t) : VectorIndex :=
  mkVectorIndex (vx_name self) (vx_property self) (vx_dimensions self) m (vx_element_type self) (vx_class self).
Definition with_element_type (self : VectorIndex) (e : ElementType.t) : VectorIndex :=
  mkVectorIndex (vx_name self) (vx_property self) (vx_dimensions self) (vx_metric self) e (vx_class self).
Definition with_class (self : VectorIndex) (c : NamedNode) : VectorIndex :=
  mkVectorIndex (vx_name self) (vx_property self) (vx_dimensions self) (vx_metric self) (vx_element_type self)
    (Some c).

Definition index_iri (name : string) : NamedNode := INDEX_PREFIX +:+ name.
Definition vx_iri (self : VectorIndex) : NamedNode := index_iri (vx_name self).

(** Everything the built table depends on. *)
Definition fingerprint (self : VectorIndex) : string :=
  vx_property self +:+ "|" +:+ show_Z (vx_dimensions self) +:+ "|" +:+ Metric.name (vx_metric self) +:+ "|" +:+
  ElementType.name (vx_element_type self) +:+ "|" +:+ default "" (vx_class self).

Module vector.
Section vector.
Context {OX : Oxrdf} {XX : Xxh3} {SD : StrDebug} `{Lowercase}.

Definition validate (self : VectorIndex) : result Error unit :=
  let ok := (String.length (vx_name self) <=? 64)%nat &&
            match vx_name self with
            | EmptyString => false
            | String c s => is_ascii_alphabetic c &&
                all_chars (fun c => is_ascii_alphanumeric c || Ascii.eqb c "_") s
            end in
  if negb ok then
    Err (Other ("vector index name " +:+ debug_str (vx_name self) +:+ " must match [A-Za-z][A-Za-z0-9_]{0,63}"))
  else if (vx_dimensions self =? 0) || (65536 <? vx_dimensions self) then
    Err (Other ("vector index " +:+ vx_name self +:+ ": dimensions must be between 1 and 65536, not " +:+
      show_Z (vx_dimensions self)))
  else
    let sparse := bool_decide (vx_element_type self = ElementType.SparseFloat32) in
    if negb (Bool.eqb (bool_decide (vx_metric self = Metric.Jaccard)) sparse) then
      Err (Other ("vector index " +:+ vx_name self +:+
        ": the Jaccard metric goes with sparse vectors, and sparse vectors with Jaccard"))
    else Ok tt.

Definition table_name (name : string) : string := "vec_" +:+ to_lowercase name.
Definition vx_table (self : VectorIndex) : string := table_name (vx_name self).

Definition to_quads (self : VectorIndex) : list Quad :=
  let g := GnNamedNode VECTORS_GRAPH in
  let q p o := mkQuad (NobNamedNode (vx_iri self)) p o g in
  [q rdf.TYPE (TermNamedNode vocab.VECTOR_INDEX);
   q vocab.INDEX_NAME (TermLiteral (new_simple_literal (vx_name self)));
   q vocab.PROPERTY (TermNamedNode (vx_property self));
   q vocab.DIMENSIONS (TermLiteral (literal_from_i64 (vx_dimensions self)));
   q vocab.METRIC (TermNamedNode (Metric.iri (vx_metric self)));
   q vocab.ELEMENT_TYPE (TermNamedNode (ElementType.iri (vx_element_type self)))] ++
  match vx_class self with Some c => [q vocab.CLASS (TermNamedNode c)] | None => [] end.

(** ** Building and dropping tables *)

Definition require (caps : Capabilities) : result Error unit :=
  if vectors caps then Ok tt
  else Err (Error.unsupported ("vector indexes need a backend with vector functions, such as Turso " +:+
    "(oxilite-turso); " +:+ name caps +:+ " has none")).

Definition create_statements (self : VectorIndex) (caps : Capabilities) : result Error (list Statement) :=
  _ ← require caps;
  _ ← validate self;
  let t := vx_table self in
  let pid := show_Z (named_node_id (vx_property self)) in
  let dims := show_Z (vx_dimensions self) in
  let conv := ElementType.convert_fn (vx_element_type self) in
  let msg := sql_str ("oxilite: vector index " +:+ vx_name self +:+ " expects " +:+ dims +:+ " dimensions") in
  let check o := "COALESCE(json_array_length((SELECT lex FROM terms WHERE id = " +:+ o +:+ ")), -1) <> " +:+ dims in
  Ok ((Statement_new <$>
    [ "CREATE TABLE IF NOT EXISTS " +:+ t +:+
        " (s INTEGER NOT NULL, o INTEGER NOT NULL, g INTEGER NOT NULL, e BLOB NOT NULL, PRIMARY KEY (s, o, g))";
      "CREATE TRIGGER IF NOT EXISTS " +:+ t +:+ "_ins AFTER INSERT ON quads WHEN NEW.p = " +:+ pid +:+
        " BEGIN SELECT RAISE(ABORT, " +:+ msg +:+ ") WHERE " +:+ check "NEW.o" +:+
        "; INSERT OR IGNORE INTO " +:+ t +:+ "(s, o, g, e) SELECT NEW.s, NEW.o, NEW.g, " +:+ conv +:+
        "(lex) FROM terms WHERE id = NEW.o; END";
      "CREATE TRIGGER IF NOT EXISTS " +:+ t +:+ "_del AFTER DELETE ON quads WHEN OLD.p = " +:+ pid +:+
        " BEGIN DELETE FROM " +:+ t +:+ " WHERE s = OLD.s AND o = OLD.o AND g = OLD.g; END";
      GUARD_TABLE;
      "INSERT INTO oxilite_vector_guard(vector_dimensions_mismatch) SELECT " +:+ sql_str (vx_name self) +:+
        " FROM quads q WHERE q.p = " +:+ pid +:+ " AND " +:+ check "q.o" +:+ " LIMIT 1";
      "INSERT OR IGNORE INTO " +:+ t +:+ "(s, o, g, e) SELECT q.s, q.o, q.g, " +:+ conv +:+
        "(t.lex) FROM quads q JOIN terms t ON t.id = q.o WHERE q.p = " +:+ pid ]) ++
    (if bool_decide (vx_element_type self = ElementType.SparseFloat32) && vector_index_methods caps
     then [Statement_new ("CREATE INDEX IF NOT EXISTS " +:+ t +:+ "_ivf ON " +:+ t +:+
             " USING toy_vector_sparse_ivf (e)")] else []) ++
    [Statement_new ("INSERT OR REPLACE INTO oxilite_meta(key, value) VALUES (" +:+
      sql_str (META_PREFIX +:+ to_lowercase (vx_name self)) +:+ ", " +:+ sql_str (fingerprint self) +:+ ")")]).

Definition drop_statements (name : string) : list Statement :=
  let t := table_name name in
  Statement_new <$>
    [ "DROP TRIGGER IF EXISTS " +:+ t +:+ "_ins";
      "DROP TRIGGER IF EXISTS " +:+ t +:+ "_del";
      "DROP INDEX IF EXISTS " +:+ t +:+ "_ivf";
      "DROP TABLE IF EXISTS " +:+ t;
      "DELETE FROM oxilite_meta WHERE key = " +:+ sql_str (META_PREFIX +:+ to_lowercase name) ].

(** ** Searching *)

Inductive QueryVector := QVector (text : string) | QNode (t : Term).

Definition QueryVector_vector (values : list f64) : QueryVector :=
  QVector ("[" +:+ join "," (F64.display <$> values) +:+ "]").

Fixpoint collect_options {A} (l : list (option A)) : option (list A) :=
  match l with
  | [] => Some []
  | o :: l => x ← o; xs ← collect_options l; Some (x :: xs)
  end.

(** [str::strip_suffix] of a character. *)
Definition strip_suffix (s : string) (c : ascii) : option string :=
  if ends_with s c then Some (String.substring 0 (String.length s - 1) s) else None.

Definition parse_vector (text : string) : option (list f64) :=
  rest ← strip_prefix (trim text) "[";
  inner ← strip_suffix rest "]";
  let inner := trim inner in
  if String.eqb inner "" then Some []
  else collect_options
    ((fun x => v ← F64.parse (trim x); if F64.is_finite v then Some v else None) <$> split_char "," inner).

Definition knn_sql (index : VectorIndex) (query : QueryVector) (k : Z) : result Error string :=
  if (k =? 0) || (MAX_K <? k) then
    Err (Other ("vector search: k must be between 1 and " +:+ show_Z MAX_K +:+ ", not " +:+ show_Z k))
  else
    let t := vx_table index in
    q ← match query with
        | QVector text =>
            match parse_vector text with
            | None => Err (Other ("vector search on " +:+ vx_name index +:+ ": the query " +:+ debug_str text +:+
                " is not a JSON array of numbers"))
            | Some v =>
                if negb (Z.of_nat (length v) =? vx_dimensions index) then
                  Err (Other ("vector search on " +:+ vx_name index +:+ ": the query has " +:+
                    show_Z (Z.of_nat (length v)) +:+ " dimensions, the index " +:+ show_Z (vx_dimensions index)))
                else Ok (ElementType.convert_fn (vx_element_type index) +:+ "(" +:+ sql_str text +:+ ")")
            end
        | QNode node =>
            Ok ("(SELECT e FROM " +:+ t +:+ " WHERE s = " +:+ show_Z (term_id node) +:+ " LIMIT 1)")
        end;
    let dist := Metric.distance_fn (vx_metric index) in
    let inner :=
      match vx_class index with
      | None =>
          if bool_decide (vx_element_type index = ElementType.SparseFloat32) then
            "SELECT s, " +:+ dist +:+ "(e, " +:+ q +:+ ") AS d FROM " +:+ t +:+ " ORDER BY d LIMIT " +:+ show_Z k
          else "SELECT v.s AS s, " +:+ dist +:+ "(v.e, " +:+ q +:+ ") AS d FROM " +:+ t +:+ " v"
      | Some class =>
          "SELECT v.s AS s, " +:+ dist +:+ "(v.e, " +:+ q +:+ ") AS d FROM " +:+ t +:+
          " v WHERE EXISTS (SELECT 1 FROM quads c WHERE c.s = v.s AND c.p = " +:+ show_Z rdf_type_id +:+
          " AND c.o = " +:+ show_Z (named_node_id class) +:+ ")"
      end in
    Ok ("SELECT s, MIN(d) AS d FROM (" +:+ inner +:+ ") GROUP BY s ORDER BY d, s LIMIT " +:+ show_Z k).

Definition knn_ranked_sql (index : VectorIndex) (query : QueryVector) (k : Z) : result Error string :=
  knn ← knn_sql index query k;
  Ok ("WITH knn AS (" +:+ knn +:+ ") SELECT knn.s AS s, knn.d AS d, " +:+
    "(SELECT COUNT(*) FROM knn k2 WHERE k2.d < knn.d OR (k2.d = knn.d AND k2.s < knn.s)) + 1 AS r FROM knn").

(** ** Reading definitions back *)

Definition definitions_statement (id_col : string -> string) : Statement :=
  Statement_new ("SELECT " +:+ id_col "q.s" +:+ ", " +:+ id_col "q.p" +:+ ", " +:+ id_col "q.o" +:+
    ", ts.lex, tp.lex, t.lex, t.dt, t.lang, t.dir FROM quads q " +:+
    "LEFT JOIN terms ts ON ts.id = q.s LEFT JOIN terms tp ON tp.id = q.p LEFT JOIN terms t ON t.id = q.o " +:+
    "WHERE q.g = " +:+ show_Z (named_node_id VECTORS_GRAPH)).

Definition Described : Type := list (string * list (string * Term)).

(** [by_subject.entry(s).or_default().push((p, o))]. *)
Definition describe (m : Described) (s p : string) (o : Term) : Described :=
  BTreeMap.insert m s (default [] (BTreeMap.get m s) ++ [(p, o)]).

(** The only property [p], if there is one. *)
Definition one (props : list (string * Term)) (p : string) : result string (option Term) :=
  match filter (fun kv => kv.1 = p) props with
  | [] => Ok None
  | [kv] => Ok (Some kv.2)
  | _ => Err ("more than one " +:+ local_name p)
  end.

(** [u32::from_str]. *)
Definition parse_u32 (s : string) : option Z :=
  v ← parse_u64 s; if v <? 2 ^ 32 then Some v else None.

Definition definition (s : string) (props : list (string * Term)) : result string VectorIndex :=
  from_iri ← ok_or (strip_prefix s INDEX_PREFIX) ("an index must be named <" +:+ INDEX_PREFIX +:+ "NAME>");
  n ← one props vocab.INDEX_NAME;
  name ← match n with
         | Some (TermLiteral l) => Ok (lit_value l)
         | Some _ => Err "indexName must be a string"
         | None => Ok from_iri
         end;
  if negb (String.eqb name from_iri) then
    Err ("indexName " +:+ debug_str name +:+ " differs from the name in the IRI (" +:+ debug_str from_iri +:+ ")")
  else
  p ← one props vocab.PROPERTY;
  property ← match p with
             | Some (TermNamedNode n) => Ok n
             | Some _ => Err "property must be an IRI"
             | None => Err "property is missing"
             end;
  d ← one props vocab.DIMENSIONS;
  dimensions ← match d with
               | Some (TermLiteral l) =>
                   if bool_decide (numeric_rank (lit_datatype l) = Some 1) ||
                      String.eqb (lit_datatype l) xsd.INTEGER
                   then ok_or (parse_u32 (lit_value l))
                          ("dimensions " +:+ lit_value l +:+ " is not a positive integer")
                   else Err "dimensions must be an integer"
               | Some _ => Err "dimensions must be an integer"
               | None => Err "dimensions is missing"
               end;
  m ← one props vocab.METRIC;
  metric ← match m with
           | Some (TermNamedNode n) => ok_or (Metric.from_iri n) ("unknown metric <<" +:+ n +:+ ">>")
           | Some _ => Err "metric must be an IRI"
           | None => Ok Metric.Cosine
           end;
  e ← one props vocab.ELEMENT_TYPE;
  element_type ← match e with
                 | Some (TermNamedNode n) =>
                     ok_or (ElementType.from_iri n) ("unknown element type <<" +:+ n +:+ ">>")
                 | Some _ => Err "elementType must be an IRI"
                 | None => Ok (if bool_decide (metric = Metric.Jaccard) then ElementType.SparseFloat32
                               else ElementType.Float32)
                 end;
  c ← one props vocab.CLASS;
  class ← match c with
          | Some (TermNamedNode n) => Ok (Some n)
          | Some _ => Err "class must be an IRI"
          | None => Ok None
          end;
  let d := mkVectorIndex name property dimensions metric element_type class in
  _ ← map_err Error.to_string (validate d);
  Ok d.

Definition is_index (props : list (string * Term)) : bool :=
  existsb (fun '(p, o) => String.eqb p rdf.TYPE &&
    match o with TermNamedNode n => String.eqb n vocab.VECTOR_INDEX | _ => false end) props.

Definition add_definition (s : list VectorIndex * list string) (e : string * list (string * Term))
  : list VectorIndex * list string :=
  if negb (is_index e.2) then s
  else match definition e.1 e.2 with
       | Ok d =>
           match List.find (fun x => String.eqb (vx_table x) (vx_table d)) s.1 with
           | Some other =>
               (s.1, s.2 ++ ["<" +:+ e.1 +:+ ">: index name " +:+ vx_name d +:+ " clashes with " +:+
                 vx_name other +:+ " (names are compared ignoring case)"])
           | None => (s.1 ++ [d], s.2)
           end
       | Err m => (s.1, s.2 ++ ["<" +:+ e.1 +:+ ">: " +:+ m])
       end.

Definition definitions_from_triples (by_subject : Described) : list VectorIndex * list string :=
  foldl add_definition ([], []) by_subject.

Definition describe_quad (m : Described) (q : Quad) : Described :=
  match qd_graph_name q, qd_subject q with
  | GnNamedNode g, NobNamedNode s =>
      if String.eqb g VECTORS_GRAPH then describe m s (qd_predicate q) (qd_object q) else m
  | _, _ => m
  end.

Definition definitions_from_quads (quads : list Quad) : list VectorIndex * list string :=
  definitions_from_triples (foldl describe_quad [] quads).

Definition describe_row (m : Described) (row : list SqlValue) : Described :=
  let get i := default SqlValue.Null (row !! i) in
  match SqlValue.as_i64 (get 0%nat), SqlValue.as_i64 (get 1%nat), SqlValue.as_i64 (get 2%nat) with
  | Some _, Some _, Some o =>
      match SqlValue.into_string (get 3%nat), SqlValue.into_string (get 4%nat) with
      | Some s, Some p =>
          match decode_inline o with
          | Some t => describe m s p t
          | None =>
              match SqlValue.into_string (get 5%nat) with
              | None => m
              | Some lex =>
                  match decode_row o lex (SqlValue.into_string (get 6%nat)) (SqlValue.into_string (get 7%nat))
                          (SqlValue.as_i64 (get 8%nat)) with
                  | Ok t => describe m s p t
                  | Err _ => m
                  end
              end
          end
      | _, _ => m
      end
  | _, _, _ => m
  end.

Definition definitions_from_rows (rows : list (list SqlValue)) : list VectorIndex * list string :=
  definitions_from_triples (foldl describe_row [] rows).

(** ** Synchronising *)

Definition Built : Type := list (string * string).

Definition built_from_meta (rows : list (string * string)) : Built :=
  BTreeMap.collect (omap (fun '(k, v) => k ← strip_prefix k META_PREFIX; Some (k, v)) rows).

Definition is_built (index : VectorIndex) (built : Built) : bool :=
  bool_decide (BTreeMap.get built (to_lowercase (vx_name index)) = Some (fingerprint index)).

Definition orphan_drops (defs : list VectorIndex) (built : Built) : list Statement :=
  concat ((fun name => if existsb (fun d => String.eqb (to_lowercase (vx_name d)) name) defs then []
                       else drop_statements name) <$> built.*1).

Definition sync_one (built : Built) (caps : Capabilities) (d : VectorIndex) : result Error (list Statement) :=
  if is_built d built then Ok []
  else
    cs ← create_statements d caps;
    Ok ((if BTreeMap.contains_key built (to_lowercase (vx_name d)) then drop_statements (vx_name d) else []) ++ cs).

Definition sync_statements (defs : list VectorIndex) (built : Built) (caps : Capabilities)
  : result Error (list Statement) :=
  ss ← try_map (sync_one built caps) defs;
  Ok (orphan_drops defs built ++ concat ss).

(** ** Names *)

Definition service_index (iri : string) : option string := strip_prefix iri INDEX_PREFIX.

Definition find (defs : list VectorIndex) (name : string) : option VectorIndex :=
  match List.find (fun d => String.eqb (vx_name d) name) defs with
  | Some d => Some d
  | None => List.find (fun d => eq_ignore_ascii_case (vx_name d) name) defs
  end.
End vector.
End vector.
