(* ===== verification/VectorFacts.v ===== *)
(** * Index definitions read back from their description

    The quads that describe indexes, in whatever order a store returns them and beside quads
    of other graphs, describe the same indexes again. *)

From S2P Require Export TreeMap Vector.

Lemma parse_u64_show z : 0 <= z < 2 ^ 64 -> parse_u64 (show_Z z) = Some z.
Proof.
  intros Hz. unfold parse_u64, show_Z. destruct z as [|p|p]; [done| |lia].
  destruct (pretty_N_digits (Npos p)) as (Hv & c & t & Heq & Hc).
  change (pretty (Zpos p)) with (pretty (Npos p)). rewrite Heq in Hv |- *.
  enough ((match String c t with String "+" d => parse_digits d | _ => parse_digits (String c t) end) = Some (Zpos p))
    as -> by (cbn; by rewrite (proj2 (Z.ltb_lt _ _)) by lia).
  by destruct c as [[] [] [] [] [] [] [] []].
Qed.

Lemma parse_u32_show z : 0 <= z < 2 ^ 32 -> vector.parse_u32 (show_Z z) = Some z.
Proof.
  intros Hz. unfold vector.parse_u32. rewrite parse_u64_show by lia. cbn.
  by rewrite (proj2 (Z.ltb_lt _ _)) by lia.
Qed.

Section vector.
Context {OX : Oxrdf} {OL : OxrdfLaws OX} {XX : Xxh3} {SD : StrDebug} `{LC : Lowercase}.
Implicit Types (d : VectorIndex) (q : Quad).

(** ** Gathering the properties of a subject *)

(** What a quad says of [s], if it describes an index. *)
Definition says (s : string) q : option (string * Term) :=
  match qd_graph_name q, qd_subject q with
  | GnNamedNode g, NobNamedNode s' =>
      if String.eqb g VECTORS_GRAPH && String.eqb s' s then Some (qd_predicate q, qd_object q) else None
  | _, _ => None
  end.

Definition properties (qs : list Quad) (s : string) : list (string * Term) := omap (says s) qs.

Definition quad_says q : option (string * (string * Term)) :=
  match qd_graph_name q, qd_subject q with
  | GnNamedNode g, NobNamedNode s =>
      if String.eqb g VECTORS_GRAPH then Some (s, (qd_predicate q, qd_object q)) else None
  | _, _ => None
  end.

Lemma describe_quad_step m q : vector.describe_quad m q = group_step quad_says m q.
Proof.
  unfold vector.describe_quad, group_step, quad_says. destruct (qd_graph_name q), (qd_subject q); try done.
  by destruct (String.eqb _ _).
Qed.

Lemma says_said s q : says s q = said_of quad_says s q.
Proof.
  unfold says, said_of, quad_says. destruct (qd_graph_name q), (qd_subject q); try done. by destruct (String.eqb _ VECTORS_GRAPH).
Qed.

(** The subjects in ascending order, with the properties of each. *)
Lemma gathered_list qs subjects : StronglySorted str_lt subjects ->
  (forall s, s ∈ subjects <-> properties qs s <> []) ->
  foldl vector.describe_quad [] qs = (fun s => (s, properties qs s)) <$> subjects.
Proof.
  intros Hs Hp. assert (forall s, properties qs s = group_of quad_says qs s) as Hg.
  { intros s. apply omap_same, says_said. }
  rewrite (foldl_same vector.describe_quad (group_step quad_says) _ _ describe_quad_step).
  etrans; [apply (grouped_list quad_says qs subjects); [done|]|by apply list_fmap_ext; intros; rewrite Hg].
  intros k. by rewrite Hp, Hg.
Qed.

(** ** Reading one definition *)

Definition index_properties d : list (string * Term) :=
  (fun q => (qd_predicate q, qd_object q)) <$> vector.to_quads d.

Lemma one_perm ps ps' p : ps ≡ₚ ps' -> vector.one ps p = vector.one ps' p.
Proof.
  intros H. unfold vector.one. assert (filter (fun kv => kv.1 = p) ps ≡ₚ filter (fun kv => kv.1 = p) ps') as Hf by by rewrite H.
  destruct (filter _ ps) as [|a [|b l]].
  - by apply Permutation_nil_l in Hf as <-.
  - by apply Permutation_singleton_l in Hf as <-.
  - pose proof (Permutation_length Hf). by destruct (filter _ ps') as [|? [|??]].
Qed.

Lemma is_index_perm ps ps' : ps ≡ₚ ps' -> vector.is_index ps = vector.is_index ps'.
Proof.
  intros H. unfold vector.is_index. induction H as [|[p o] l l' _ IH|[p o] [p' o'] l|]; cbn; [done|by rewrite IH| |congruence].
  rewrite !orb_assoc. f_equal. apply orb_comm.
Qed.

Lemma definition_perm s ps ps' : ps ≡ₚ ps' -> vector.definition s ps = vector.definition s ps'.
Proof. intros H. unfold vector.definition. by rewrite !(one_perm _ _ _ H). Qed.

Lemma metric_from_iri m : Metric.from_iri (Metric.iri m) = Some m.
Proof. by destruct m. Qed.

Lemma element_type_from_iri e : ElementType.from_iri (ElementType.iri e) = Some e.
Proof. by destruct e. Qed.

Lemma index_property d p : vector.one (index_properties d) p =
  Ok (if String.eqb p rdf.TYPE then Some (TermNamedNode vocab.VECTOR_INDEX)
      else if String.eqb p vocab.INDEX_NAME then Some (TermLiteral (new_simple_literal (vx_name d)))
      else if String.eqb p vocab.PROPERTY then Some (TermNamedNode (vx_property d))
      else if String.eqb p vocab.DIMENSIONS then Some (TermLiteral (literal_from_i64 (vx_dimensions d)))
      else if String.eqb p vocab.METRIC then Some (TermNamedNode (Metric.iri (vx_metric d)))
      else if String.eqb p vocab.ELEMENT_TYPE then Some (TermNamedNode (ElementType.iri (vx_element_type d)))
      else if String.eqb p vocab.CLASS then TermNamedNode <$> vx_class d
      else None).
Proof.
  unfold vector.one, index_properties, vector.to_quads.
  repeat match goal with |- context [String.eqb p ?k] =>
    destruct (String.eqb_spec p k) as [->|]; [by destruct (vx_class d)|]
  end.
  destruct (vx_class d); cbn [app fmap list_fmap qd_predicate qd_object]; by rewrite !filter_cons_False by (cbn [fst]; congruence).
Qed.

Lemma validate_dimensions d : vector.validate d = Ok tt -> 0 < vx_dimensions d <= 65536 \/ vx_dimensions d < 0.
Proof.
  unfold vector.validate. destruct (negb _); [done|]. destruct (_ || _) eqn:H; [done|]. intros _.
  apply orb_false_iff in H as [?%Z.eqb_neq ?%Z.ltb_ge]. lia.
Qed.

Lemma definition_reads d : 0 <= vx_dimensions d -> vector.validate d = Ok tt ->
  vector.definition (vx_iri d) (index_properties d) = Ok d.
Proof.
  intros Hpos Hd. unfold vector.definition, vx_iri, index_iri. rewrite strip_prefix_app, !index_property.
  cbn -[vector.validate Metric.from_iri Metric.iri ElementType.from_iri ElementType.iri]. destruct (simple_spec (vx_name d)) as (-> & _).
  rewrite String.eqb_refl. cbn -[vector.validate Metric.from_iri Metric.iri ElementType.from_iri ElementType.iri].
  destruct (from_i64_spec (vx_dimensions d)) as (-> & _ & ->). rewrite String.eqb_refl, orb_true_r.
  rewrite parse_u32_show by (apply validate_dimensions in Hd; lia). cbn -[vector.validate Metric.from_iri Metric.iri ElementType.from_iri ElementType.iri].
  rewrite metric_from_iri, element_type_from_iri. cbn -[vector.validate Metric.from_iri Metric.iri ElementType.from_iri ElementType.iri].
  destruct d as [n p k m e [c|]]; cbn -[vector.validate Metric.from_iri Metric.iri ElementType.from_iri ElementType.iri] in *; by rewrite Hd.
Qed.

Lemma is_index_reads d : vector.is_index (index_properties d) = true.
Proof. done. Qed.

(** ** Reading all of them *)

(** The quads that describe the indexes. *)
Definition described (defs : list VectorIndex) : list Quad := concat (vector.to_quads <$> defs).

Lemma says_index s d : properties (vector.to_quads d) s = if String.eqb (vx_iri d) s then index_properties d else [].
Proof.
  unfold properties, index_properties, vector.to_quads.
  destruct (String.eqb (vx_iri d) s) eqn:Hs; destruct (vx_class d);
    cbn [app omap list_omap says qd_graph_name qd_subject fmap list_fmap qd_predicate qd_object];
    by rewrite Hs, String.eqb_refl.
Qed.

Lemma vx_iri_inj d d' : vx_iri d = vx_iri d' -> vx_name d = vx_name d'.
Proof.
  unfold vx_iri, index_iri. intros H. assert (strip_prefix (INDEX_PREFIX +:+ vx_name d) INDEX_PREFIX =
    strip_prefix (INDEX_PREFIX +:+ vx_name d') INDEX_PREFIX) as Hp by by rewrite H.
  rewrite !strip_prefix_app in Hp. by injection Hp.
Qed.

Lemma properties_app qs qs' s : properties (qs ++ qs') s = properties qs s ++ properties qs' s.
Proof. apply omap_app. Qed.

Lemma properties_absent defs s : s ∉ vx_iri <$> defs -> properties (described defs) s = [].
Proof.
  unfold described. induction defs as [|d defs IH]; cbn [fmap list_fmap concat]; [done|]. rewrite not_elem_of_cons. intros [Hd Hs].
  rewrite properties_app, says_index, IH by done. by destruct (String.eqb_spec (vx_iri d) s); [congruence|].
Qed.

Lemma properties_described defs d : NoDup (vx_iri <$> defs) -> d ∈ defs ->
  properties (described defs) (vx_iri d) = index_properties d.
Proof.
  unfold described. induction defs as [|d' defs IH]; cbn [fmap list_fmap concat]; [by intros _ ?%elem_of_nil|].
  intros [Hd' Hn]%NoDup_cons [->|Hd]%elem_of_cons; rewrite properties_app, says_index.
  - rewrite String.eqb_refl. fold (described defs). by rewrite properties_absent, app_nil_r.
  - destruct (String.eqb_spec (vx_iri d') (vx_iri d)) as [Heq|_]; [|by apply IH].
    exfalso. apply Hd'. rewrite Heq. by apply list_elem_of_fmap_2.
Qed.

Lemma properties_elsewhere others s : Forall (fun q => qd_graph_name q <> GnNamedNode VECTORS_GRAPH) others ->
  properties others s = [].
Proof.
  induction 1 as [|q qs Hq _ IH]; [done|]. unfold properties in *. cbn. rewrite IH.
  unfold says. destruct (qd_graph_name q) as [|g|]; try done. destruct (qd_subject q); [|done].
  by destruct (String.eqb_spec g VECTORS_GRAPH); [subst|].
Qed.

Lemma definitions_added ps defs acc :
  Forall (fun d => 0 <= vx_dimensions d /\ vector.validate d = Ok tt) defs ->
  (forall d, d ∈ defs -> ps (vx_iri d) ≡ₚ index_properties d) ->
  NoDup (vector.vx_table <$> acc ++ defs) ->
  foldl vector.add_definition (acc, []) ((fun s => (s, ps s)) <$> (vx_iri <$> defs)) = (acc ++ defs, []).
Proof.
  intros Hok Hps. revert acc. induction defs as [|d defs IH]; intros acc Hn; cbn [fmap list_fmap foldl].
  { by rewrite app_nil_r. }
  inversion_clear Hok as [|? ? [Hpos Hd] Hok']. pose proof (Hps d ltac:(left)) as Hp.
  assert (vector.add_definition (acc, []) (vx_iri d, ps (vx_iri d)) = (acc ++ [d], [])) as ->.
  { unfold vector.add_definition. cbn [fst snd]. rewrite (is_index_perm _ _ Hp), is_index_reads.
    rewrite (definition_perm _ _ _ Hp), definition_reads by done. cbn [negb].
    destruct (List.find _ acc) as [d'|] eqn:Hf; [|done]. apply List.find_some in Hf as [Hin Heq].
    apply String.eqb_eq in Heq. rewrite fmap_app, NoDup_app in Hn. destruct Hn as (_ & Hn & _).
    exfalso. apply (Hn (vector.vx_table d')); [by apply list_elem_of_fmap_2, list_elem_of_In|]. rewrite Heq. left. }
  rewrite IH; [by rewrite <- app_assoc|done|intros; apply Hps; by right|by rewrite <- app_assoc].
Qed.

(** C22: Valid indexes, in the order of their names and with distinct tables, are what a store's
    quads define when the quads of the index graph are exactly those that describe the indexes:
    whatever the order of the quads and whatever the other graphs hold, they are read back
    without a problem reported. *)
Theorem definitions_roundtrip defs others qs :
  Forall (fun d => 0 <= vx_dimensions d /\ vector.validate d = Ok tt) defs ->
  StronglySorted str_lt (vx_name <$> defs) -> NoDup (vector.vx_table <$> defs) ->
  Forall (fun q => qd_graph_name q <> GnNamedNode VECTORS_GRAPH) others ->
  qs ≡ₚ concat (vector.to_quads <$> defs) ++ others ->
  vector.definitions_from_quads qs = (defs, []).
Proof.
  intros Hok Hs Hn Hothers Hqs. unfold vector.definitions_from_quads, vector.definitions_from_triples.
  assert (StronglySorted str_lt (vx_iri <$> defs)) as Hsi.
  { clear -Hs. induction defs as [|d defs IH]; cbn; [constructor|]. cbn in Hs.
    apply StronglySorted_cons in Hs as [Hd Hs]. apply StronglySorted_cons. split; [|auto].
    rewrite Forall_fmap in Hd |- *. eapply Forall_impl; [exact Hd|]. intros d' H.
    exact (proj2 (str_lt_app INDEX_PREFIX _ _) H). }
  assert (forall s, properties qs s ≡ₚ properties (described defs) s) as Hperm.
  { intros s. rewrite <- (app_nil_r (properties (described defs) s)), <- (properties_elsewhere others s Hothers).
    rewrite <- properties_app. unfold properties. by rewrite Hqs. }
  pose proof (ascending_nodup_list _ Hsi) as Hni.
  rewrite (gathered_list qs (vx_iri <$> defs) Hsi).
  - apply (definitions_added (properties qs) defs []); [done| |done].
    intros d Hd. by rewrite Hperm, properties_described.
  - intros s. split.
    + intros [d [-> Hd]]%list_elem_of_fmap Hnil. specialize (Hperm (vx_iri d)).
      rewrite Hnil, properties_described in Hperm by done. by apply Permutation_nil_l in Hperm.
    + intros Hne. destruct (decide (s ∈ vx_iri <$> defs)) as [|Hno]; [done|]. exfalso. apply Hne.
      specialize (Hperm s). rewrite properties_absent in Hperm by done. by apply Permutation_nil_r in Hperm.
Qed.

(** ** Synchronising does what differs *)

Lemma create_statements_some d caps ss : vector.create_statements d caps = Ok ss -> ss <> [].
Proof.
  unfold vector.create_statements. destruct (vector.require caps) as [[]|]; [|done].
  cbn -[vector.validate]. destruct (vector.validate d) as [[]|]; [|done]. cbn. by intros [= <-].
Qed.

Lemma sync_one_nil built caps d : vector.sync_one built caps d = Ok [] <-> vector.is_built d built = true.
Proof.
  unfold vector.sync_one. destruct (vector.is_built d built); [by split|].
  split; [|done]. destruct (vector.create_statements d caps) as [cs|] eqn:Hc; [|by cbn].
  apply create_statements_some in Hc. cbn. by intros [= [_ ?]%app_nil].
Qed.

Lemma try_map_nil {A B E} (f : A -> result E (list B)) l :
  (exists ss, try_map f l = Ok ss /\ concat ss = []) <-> Forall (fun x => f x = Ok []) l.
Proof.
  induction l as [|x l IH]; cbn; [split; [constructor|by exists []]|]. rewrite Forall_cons, <- IH. split.
  - intros (ss & Hss & Hc). destruct (f x) as [y|]; [|done]. destruct (try_map f l) as [ys|]; [|done].
    injection Hss as <-. apply app_nil in Hc as [-> Hc]. eauto.
  - intros (-> & ss & -> & Hc). by exists ([] :: ss).
Qed.

(** Nothing is sent exactly when every index is built as it is defined and nothing else is built. *)
Lemma sync_settles defs (built : vector.Built) caps : vector.sync_statements defs built caps = Ok [] <->
  Forall (fun d => vector.is_built d built = true) defs /\
  Forall (fun name => existsb (fun d => String.eqb (to_lowercase (vx_name d)) name) defs = true) built.*1.
Proof.
  assert (vector.orphan_drops defs built = [] <->
    Forall (fun name => existsb (fun d => String.eqb (to_lowercase (vx_name d)) name) defs = true) built.*1) as <-.
  { unfold vector.orphan_drops. induction (built.*1) as [|n l IH]; [done|]. cbn [fmap list_fmap concat].
    rewrite Forall_cons, <- IH. destruct (existsb _ defs); [cbn; tauto|]. split; [done|by intros [? _]]. }
  rewrite <- (Forall_iff _ _ _ (fun d => sync_one_nil built caps d)), <- try_map_nil. unfold vector.sync_statements.
  split.
  - destruct (try_map _ defs) as [ss|]; [|done]. cbn. intros [= [Ho Hc]%app_nil]. eauto.
  - intros [(ss & -> & Hss) Ho]. cbn. by rewrite Ho, Hss.
Qed.
End vector.

(** ** A concrete store *)

Definition sample_index (name : string) : VectorIndex :=
  with_class (VectorIndex_new name "http://x/embedding" 3) "http://x/Doc".

Lemma definitions_roundtrip_witness (SD : StrDebug := fun s => s) (LC : Lowercase := to_ascii_lowercase) :
  let defs := [sample_index "Abstracts"; sample_index "bodies"] in
  vector.definitions_from_quads (OX := ConcreteRdf.oxrdf) (reverse (concat (vector.to_quads <$> defs))) = (defs, []).
Proof.
  intros defs. apply (definitions_roundtrip (OX := ConcreteRdf.oxrdf) defs []).
  - repeat constructor; by cbn.
  - repeat constructor.
  - apply (bool_decide_unpack _). reflexivity.
  - constructor.
  - by rewrite app_nil_r, reverse_Permutation.
Defined.
