(* ===== verification/Dictionary.v ===== *)
(** * The dictionary written with quads

    What [EncodedRows] and [EncodedQuads] promise the readers of the store: an id used by a quad,
    or by the row of a triple term, is either inline or the key of a row of the same set, so that
    looking ids up never meets a dangling one. *)

From S2P Require Export Writer.

Section dictionary.
Context {OX : Oxrdf} {XX : Xxh3} {OD : OxsDatatypes}.

(** The rows give the id a meaning. *)
Definition stored (rows : EncodedRows) (id : Z) : Prop :=
  is_Some (decode_inline id) \/
  (exists r, r ∈ terms rows /\ tr_id r = id) \/ (exists t, t ∈ triples rows /\ tt_id t = id).

Definition triple_stored (rows : EncodedRows) (t : TripleRow) : Prop :=
  stored rows (tt_s t) /\ stored rows (tt_p t) /\ stored rows (tt_o t).

(** Every component of a triple term has a row. *)
Definition closed (rows : EncodedRows) : Prop := forall t, t ∈ triples rows -> triple_stored rows t.

(** Later rows keep every key of earlier ones. *)
Definition extends (rows rows' : EncodedRows) : Prop :=
  (forall r, r ∈ terms rows -> exists r', r' ∈ terms rows' /\ tr_id r' = tr_id r) /\
  (forall t, t ∈ triples rows -> exists t', t' ∈ triples rows' /\ tt_id t' = tt_id t).

#[export] Instance extends_preorder : PreOrder extends.
Proof.
  split.
  - intros rows. split; intros x Hx; by exists x.
  - intros a b c [H1 H2] [H3 H4]. split; intros x Hx.
    + destruct (H1 x Hx) as (y & Hy & <-). apply H3, Hy.
    + destruct (H2 x Hx) as (y & Hy & <-). apply H4, Hy.
Qed.

Lemma stored_extends rows rows' id : extends rows rows' -> stored rows id -> stored rows' id.
Proof.
  intros [H1 H2] [?|[(r & Hr & <-)|(t & Ht & <-)]]; [by left|right; left; by apply H1|right; right; by apply H2].
Qed.

Lemma triple_stored_extends rows rows' t :
  extends rows rows' -> triple_stored rows t -> triple_stored rows' t.
Proof. intros He (? & ? & ?). split_and!; eauto using stored_extends. Qed.

(** One step of encoding: the rows grow, stay closed, and define the new id. *)
Definition encodes (rows : EncodedRows) (out : EncodedRows * Z) : Prop :=
  extends rows out.1 /\ (closed rows -> closed out.1) /\ stored out.1 out.2.

Lemma push_term_extends rows r : extends rows (push_term rows r).
Proof. split; intros x Hx; exists x; (split; [|done]); cbn; set_solver. Qed.

Lemma push_term_encodes rows r : encodes rows (push_term rows r, tr_id r).
Proof.
  split_and!; cbn [fst snd].
  - apply push_term_extends.
  - intros Hc t Ht. eapply triple_stored_extends; [apply push_term_extends|by apply Hc].
  - right. left. exists r. cbn. set_solver.
Qed.

Lemma rows_subject_encodes rows s : encodes rows (rows_subject rows s).
Proof. destruct s as [n|b]; apply (push_term_encodes rows (plain_row _ _)). Qed.

Lemma rows_iri_encodes rows i : encodes rows (rows_iri rows i).
Proof. apply (push_term_encodes rows (plain_row _ i)). Qed.

Lemma encode_literal_row l :
  match encode_literal l with
  | (id, None) => is_Some (decode_inline id)
  | (id, Some r) => tr_id r = id
  end.
Proof.
  destruct (lit_language l) as [t|] eqn:Hl.
  { unfold encode_literal. rewrite Hl. by destruct (lit_direction l). }
  destruct (String.eqb_spec (lit_datatype l) xsd.STRING) as [Hs|Hs].
  { unfold encode_literal. by rewrite Hl, Hs. }
  pose proof (encode_typed l Hl Hs) as He. destruct (inline_id l) as [id|] eqn:Hi.
  - rewrite He. apply inline_id_tag in Hi as [(_ & v & _ & _ & ->)|(_ & b & _ & ->)].
    + unfold decode_inline. rewrite tag_of_make. by eexists.
    + rewrite decode_boolean_id. by eexists.
  - by destruct He as (row & -> & Hid & _).
Qed.

Lemma rows_term_encodes rows t : encodes rows (rows_term rows t).
Proof.
  revert rows. induction t as [n|b|l|s p o IH]; intros rows.
  - apply rows_iri_encodes.
  - apply (rows_subject_encodes rows (NobBlankNode b)).
  - cbn. pose proof (encode_literal_row l) as Hl. destruct (encode_literal l) as [id [row|]].
    + rewrite <- Hl. apply push_term_encodes.
    + split_and!; [done|done|by left].
  - cbn [rows_term].
    destruct (rows_subject rows s) as [rows1 sid] eqn:E1.
    destruct (rows_iri rows1 p) as [rows2 pid] eqn:E2.
    destruct (rows_term rows2 o) as [rows3 oid] eqn:E3.
    pose proof (rows_subject_encodes rows s) as (X1 & C1 & S1). rewrite E1 in *. cbn in *.
    pose proof (rows_iri_encodes rows1 p) as (X2 & C2 & S2). rewrite E2 in *. cbn in *.
    pose proof (IH rows2) as (X3 & C3 & S3). rewrite E3 in *. cbn in *.
    set (row := mkTripleRow _ _ _ _ _ _).
    assert (extends rows3 (push_triple rows3 row)) as X4.
    { split; intros x Hx; exists x; (split; [|done]); cbn; set_solver. }
    split_and!; cbn [fst snd].
    + by rewrite X1, X2, X3.
    + intros Hc t Ht. apply elem_of_app in Ht as [Ht|Ht].
      * eapply triple_stored_extends; [done|]. by apply (C3 (C2 (C1 Hc))).
      * apply list_elem_of_singleton in Ht as ->. eapply triple_stored_extends; [done|].
        split_and!; cbn; eauto using stored_extends.
    + right. right. exists row. split; [cbn; set_solver|done].
Qed.

Definition quad_stored (rows : EncodedRows) (q : QuadIds) : Prop :=
  let '(s, p, o, g) := q in
  stored rows s /\ stored rows p /\ stored rows o /\ (g = DEFAULT_GRAPH_ID \/ stored rows g).

Lemma quad_stored_extends rows rows' q :
  extends rows rows' -> quad_stored rows q -> quad_stored rows' q.
Proof.
  destruct q as [[[s p] o] g]. intros He (? & ? & ? & Hg).
  split_and!; eauto using stored_extends. destruct Hg; eauto using stored_extends.
Qed.

Lemma rows_quad_encodes rows q :
  extends rows (rows_quad rows q).1 /\ (closed rows -> closed (rows_quad rows q).1) /\
  quad_stored (rows_quad rows q).1 (rows_quad rows q).2.
Proof.
  unfold rows_quad. destruct q as [s p o g]. cbn [qd_subject qd_predicate qd_object qd_graph_name].
  destruct (rows_subject rows s) as [rows1 sid] eqn:E1.
  destruct (rows_iri rows1 p) as [rows2 pid] eqn:E2.
  destruct (rows_term rows2 o) as [rows3 oid] eqn:E3.
  destruct (rows_graph rows3 g) as [rows4 gid] eqn:E4.
  pose proof (rows_subject_encodes rows s) as (X1 & C1 & S1). rewrite E1 in *.
  pose proof (rows_iri_encodes rows1 p) as (X2 & C2 & S2). rewrite E2 in *.
  pose proof (rows_term_encodes rows2 o) as (X3 & C3 & S3). rewrite E3 in *.
  assert (extends rows3 rows4 /\ (closed rows3 -> closed rows4) /\
          (gid = DEFAULT_GRAPH_ID \/ stored rows4 gid)) as (X4 & C4 & S4).
  { destruct g as [|n|b].
    - injection E4 as <- <-. split_and!; [done|done|by left].
    - change (rows_iri rows3 n = (rows4, gid)) in E4.
      pose proof (rows_iri_encodes rows3 n) as (? & ? & ?). rewrite E4 in *. cbn in *. by auto.
    - change (rows_subject rows3 (NobBlankNode b) = (rows4, gid)) in E4.
      pose proof (rows_subject_encodes rows3 (NobBlankNode b)) as (? & ? & ?).
      rewrite E4 in *. cbn in *. by auto. }
  cbn in *. split_and!; [by rewrite X1, X2, X3|auto| | | |done].
  - eapply stored_extends; [|exact S1]. by rewrite X2, X3.
  - eapply stored_extends; [|exact S2]. by rewrite X3.
  - by eapply stored_extends.
Qed.

Lemma dedup_extends rows : extends rows (rows_dedup rows).
Proof. split; intros x Hx; [by apply (dedup_sorted_keys tr_id)|by apply (dedup_sorted_keys tt_id)]. Qed.

Lemma dedup_closed rows : closed rows -> closed (rows_dedup rows).
Proof.
  intros Hc t Ht. eapply triple_stored_extends; [apply dedup_extends|].
  apply Hc. exact (dedup_sorted_elem tt_id _ _ Ht).
Qed.

(** C5: encoding a list of quads leaves one tuple of ids per quad, in order, and the rows written
    with them define every id the quads use, and every id the rows of triple terms use, at every
    nesting depth: readers never meet an id without a row. *)
Theorem encoded_quads_closed (qs : list Quad) :
  let e := EncodedQuads_new qs in
  length (quads e) = length qs /\ closed (eq_rows e) /\ Forall (quad_stored (eq_rows e)) (quads e).
Proof.
  cbn zeta. unfold EncodedQuads_new. cbn [quads eq_rows].
  set (me := foldl _ _ _).
  assert (length (quads me) = length qs /\ closed (eq_rows me) /\
          Forall (quad_stored (eq_rows me)) (quads me)) as (Hl & Hc & Hq).
  { subst me. induction qs as [|q qs IH] using rev_ind; [split_and!; [done|inversion 1|constructor]|].
    rewrite foldl_app. cbn [foldl]. set (me := foldl _ _ _) in *. destruct IH as (Hl & Hc & Hq).
    destruct (rows_quad_encodes (eq_rows me) q) as (X & C & S). unfold EncodedQuads_push.
    destruct (rows_quad (eq_rows me) q) as [rows ids]. cbn [fst snd quads eq_rows] in *.
    split_and!; [rewrite !length_app; cbn; lia|auto|].
    apply Forall_app. split; [|by constructor].
    eapply Forall_impl; [exact Hq|]. intros. by eapply quad_stored_extends. }
  split_and!; [done|by apply dedup_closed|].
  eapply Forall_impl; [exact Hq|]. intros. eapply quad_stored_extends; [apply dedup_extends|done].
Qed.

(** the statements that insert encoded quads create exactly the named graphs the quads use,
    each once: the rows of the [graphs] statements are the distinct non-default graph ids. *)
Theorem graphs_inserted_once (qs : list QuadIds) :
  StronglySorted (key_lt id) (graph_ids qs) /\
  (forall g, g ∈ graph_ids qs <-> g <> DEFAULT_GRAPH_ID /\ exists q, q ∈ qs /\ q.2 = g).
Proof.
  unfold graph_ids. set (gs := filter _ _). split.
  { apply dedup_by_key_sorted, sort_by_key_sorted. }
  assert (forall g, g ∈ gs <-> g <> DEFAULT_GRAPH_ID /\ exists q, q ∈ qs /\ q.2 = g) as Hgs.
  { intros g. unfold gs. rewrite list_elem_of_filter, list_elem_of_fmap. naive_solver. }
  intros g. rewrite <- Hgs. split.
  - apply dedup_sorted_elem.
  - intros Hg. destruct (dedup_sorted_keys id g gs Hg) as (y & Hy & Heq). unfold id in Heq. by subst.
Qed.
End dictionary.
