(* ===== verification/Job.v ===== *)
(** * Step machines ([crates/oxilite-core/src/job.rs])

    A job is a resumable operation: [step] takes the response to its last request and returns
    the next request or its output. The class [Job] is the trait; a job that runs into an
    [expect] panics. A backend is a state with an [execute] that may fail ([SyncBackend]).
    [run_sync] is the driver (the asynchronous one is the same loop), with fuel for its steps.
    The generic jobs are shown to be what their names say: one request ([one_shot_runs]), all
    requests in order with the changes summed ([sequence_runs]), and the sequential composition
    of two jobs ([then_is_bind]). *)

From S2P Require Export Sql.

(** ** Jobs and backends *)

Inductive Fault :=
  | Failed (e : Error)
  | Panic (msg : string).

(** An [expect] on an option. *)
Definition expect {A} (o : option A) (msg : string) : result Fault A := ok_or o (Panic msg).
(** [?] on a result of the program. *)
Definition try {A} (r : result Error A) : result Fault A := map_err Failed r.

Inductive Step (T : Type) :=
  | Execute (r : Request)
  | Done (out : T).
Arguments Execute {T} r.
Arguments Done {T} out.

Class Job (J : Type) := {
  Output : Type;
  step : J -> option Response -> result Fault (Step Output * J);
}.
Arguments Output J {_}.

Class SyncBackend (W : Type) := {
  execute : Request -> W -> result Error Response * W;
  capabilities : W -> Capabilities;
  begin : W -> result Error unit * W;
  commit : W -> result Error unit * W;
  rollback : W -> result Error unit * W;
}.

(** The default bodies of [begin], [commit] and [rollback]. *)
Definition no_transactions {W} (w : W) : result Error unit * W :=
  (Err (Error.unsupported "interactive transactions"), w).

(** The loop of [run_sync] and [run_async]; [None] when the fuel (one unit per step) runs out. *)
Fixpoint run_loop {J W} `{!Job J, !SyncBackend W} (fuel : nat) (job : J)
    (response : option Response) (w : W) : option (result Fault (Output J) * W) :=
  match fuel with
  | O => None
  | S fuel =>
      match step job response with
      | Err e => Some (Err e, w)
      | Ok (Done out, _) => Some (Ok out, w)
      | Ok (Execute request, job) =>
          match execute request w with
          | (Err e, w) => Some (Err (Failed e), w)
          | (Ok response, w) => run_loop fuel job (Some response) w
          end
      end
  end.

Definition run_sync {J W} `{!Job J, !SyncBackend W} (fuel : nat) (w : W) (job : J)
  : option (result Fault (Output J) * W) := run_loop fuel job None w.

(** ** The generic jobs *)

Record OneShot (T : Type) := mkOneShot {
  os_request : option Request;
  os_decode : option (Response -> result Error T);
}.
Arguments mkOneShot {T}.
Arguments os_request {T}.
Arguments os_decode {T}.

Definition OneShot_new {T} (request : Request) (decode : Response -> result Error T) : OneShot T :=
  mkOneShot (Some request) (Some decode).

#[global] Instance one_shot_job {T} : Job (OneShot T) := {
  Output := T;
  step self response :=
    match response with
    | None =>
        r ← expect (os_request self) "OneShot started twice";
        Ok (Execute r, mkOneShot None (os_decode self))
    | Some r =>
        decode ← expect (os_decode self) "OneShot resumed twice";
        out ← try (decode r);
        Ok (Done out, mkOneShot (os_request self) None)
    end;
}.

(** [u64] addition of a release build. *)
Definition wrap_u64 (z : Z) : Z := z mod 2 ^ 64.

Record Sequence := mkSequence { sq_requests : list Request; sq_changes : Z }.
Definition Sequence_new (requests : list Request) : Sequence := mkSequence requests 0.

Definition response_changes (r : Response) : Z :=
  foldl (fun n rs => wrap_u64 (n + changes rs)) 0 r.

#[global] Instance sequence_job : Job Sequence := {
  Output := Z;
  step self response :=
    let changes :=
      match response with
      | Some r => wrap_u64 (sq_changes self + response_changes r)
      | None => sq_changes self
      end in
    Ok (match sq_requests self with
        | r :: rest => (Execute r, mkSequence rest changes)
        | [] => (Done changes, mkSequence [] changes)
        end);
}.

Record Then (A B : Type) `{Job A} := mkThen {
  th_first : A;
  th_next : option (Output A -> result Error B);
  th_second : option B;
}.
Arguments mkThen {A B H}.
Arguments th_first {A B H}.
Arguments th_next {A B H}.
Arguments th_second {A B H}.

Definition Then_new {A B} `{Job A} (first : A) (next : Output A -> result Error B) : Then A B :=
  mkThen first (Some next) None.

#[global] Instance then_job {A B} `{HA : Job A, HB : Job B} : Job (Then A B) := {
  Output := Output B;
  step self response :=
    match th_second self with
    | Some b =>
        '(s, b) ← step b response; Ok (s, mkThen (th_first self) (th_next self) (Some b))
    | None =>
        '(s, a) ← step (th_first self) response;
        match s with
        | Execute r => Ok (Execute r, mkThen a (th_next self) None)
        | Done out =>
            make ← expect (th_next self) "Then continued twice";
            b ← try (make out);
            '(s, b) ← step b None;
            Ok (s, mkThen a None (Some b))
        end
    end;
}.

(** ** The driver *)

Section driver.
Context {J W : Type} `{!Job J, !SyncBackend W}.

(** More fuel does not change a result. *)
Lemma run_loop_mono n m job response (w : W) out :
  (n <= m)%nat -> run_loop n job response w = Some out -> run_loop m job response w = Some out.
Proof.
  revert m job response w. induction n as [|n IH]; intros [|m] job response w Hm; try done; [lia|].
  cbn. destruct (step job response) as [[[r|o] job']|e]; [|done..].
  destruct (execute r w) as [[resp|e] w']; [|done]. apply IH. lia.
Qed.

(** All the requests in order; the first failure ends it. *)
Fixpoint execute_all (requests : list Request) (w : W) : result Error (list Response) * W :=
  match requests with
  | [] => (Ok [], w)
  | r :: rest =>
      match execute r w with
      | (Err e, w) => (Err e, w)
      | (Ok resp, w) => let '(out, w) := execute_all rest w in (cons resp <$> out, w)
      end
  end.
End driver.

(** a one-shot job runs its request exactly once and returns what its decoder makes of the
    response, or the backend's error; it never panics. *)
Theorem one_shot_runs {T W} `{!SyncBackend W} (request : Request) (decode : Response -> result Error T)
    (w : W) (fuel : nat) :
  run_sync (S (S fuel)) w (OneShot_new request decode) =
  Some (let '(out, w') := execute request w in (try (out ≫= decode), w')).
Proof.
  cbn. destruct (execute request w) as [[resp|e] w']; cbn; [|done].
  by destruct (decode resp).
Qed.

Lemma wrap_u64_add a b : wrap_u64 (wrap_u64 a + b) = wrap_u64 (a + b).
Proof. unfold wrap_u64. by rewrite Zplus_mod_idemp_l. Qed.

Lemma sequence_step requests n resp :
  step (mkSequence requests n) resp =
  let n := match resp with Some r => wrap_u64 (n + response_changes r) | None => n end in
  Ok (match requests with
      | r :: rest => (Execute r, mkSequence rest n)
      | [] => (Done n, mkSequence [] n)
      end).
Proof. done. Qed.

Lemma sequence_loop {W} `{!SyncBackend W} requests n resp (w : W) fuel :
  (length requests < fuel)%nat ->
  run_loop fuel (mkSequence requests n) (Some resp) w =
  Some (let '(out, w') := execute_all requests w in
        ((fun rs => foldl (fun n r => wrap_u64 (n + response_changes r)) n (resp :: rs)) <$> try out, w')).
Proof.
  revert n resp w fuel. induction requests as [|r rest IH]; intros n resp w [|fuel] Hf; try (cbn in Hf; lia).
  - done.
  - cbn [run_loop execute_all]. rewrite sequence_step. cbn zeta iota.
    destruct (execute r w) as [[resp'|e] w']; [|done].
    rewrite IH by (cbn in Hf; lia).
    destruct (execute_all rest w') as [[rs|e] w'']; done.
Qed.

(** A sequence job executes all its requests, in order, up to the first one that fails, and
    returns the total of the changes of all statements (modulo [2 ^ 64]); one step more than
    it has requests is enough for it to end. *)
Theorem sequence_runs {W} `{!SyncBackend W} (requests : list Request) (w : W) :
  run_sync (S (length requests)) w (Sequence_new requests) =
  Some (let '(out, w') := execute_all requests w in
        ((fun rs => foldl (fun n r => wrap_u64 (n + response_changes r)) 0 rs) <$> try out, w')).
Proof.
  destruct requests as [|r rest]; [done|].
  change (run_sync (S (length (r :: rest))) w (Sequence_new (r :: rest))) with
    (match execute r w with
     | (Err e, w) => Some (Err (Failed e), w)
     | (Ok response, w) => run_loop (S (length rest)) (mkSequence rest 0) (Some response) w
     end).
  cbn [execute_all]. destruct (execute r w) as [[resp|e] w']; [|done].
  rewrite sequence_loop by lia. by destruct (execute_all rest w') as [[rs|e] w''].
Qed.

(** ** Sequential composition *)

Section then_runs.
Context {A B W : Type} `{HA : Job A, HB : Job B, !SyncBackend W}.

(** Once its second job exists, a [Then] is that job. *)
Lemma run_then_second n (a : A) next (b : B) response (w : W) :
  run_loop n (mkThen (B := B) a next (Some b)) response w = run_loop n b response w.
Proof.
  revert b response w. induction n as [|n IH]; intros b response w; [done|].
  cbn. destruct (step b response) as [[[r|o] b']|e]; cbn; [|done..].
  destruct (execute r w) as [[resp|e] w']; [|done]. apply IH.
Qed.

Lemma run_then_first n m (a : A) (next : Output A -> result Error B) response (w w' : W) out :
  run_loop n a response w = Some (out, w') ->
  match out with
  | Err e => run_loop (n + m) (mkThen a (Some next) None) response w = Some (Err e, w')
  | Ok o =>
      match next o with
      | Err e => run_loop (n + m) (mkThen a (Some next) None) response w = Some (Err (Failed e), w')
      | Ok b => forall res, run_loop (S m) b None w' = Some res ->
          run_loop (n + m) (mkThen a (Some next) None) response w = Some res
      end
  end.
Proof.
  revert a response w. induction n as [|n IH]; intros a response w; [done|].
  cbn [run_loop Nat.add]. cbn [step then_job th_second th_first th_next].
  destruct (step a response) as [[[r|o] a']|e] eqn:Es; cbn [mbind result_bind].
  - destruct (execute r w) as [[resp|e] w1] eqn:Ex.
    + apply IH.
    + by intros [= <- <-].
  - intros [= <- <-]. cbn [expect ok_or mbind result_bind].
    destruct (next o) as [b|e] eqn:En; cbn; [|done].
    intros res. destruct (step b None) as [[[r|o'] b']|e]; cbn; [|done..].
    destruct (execute r w) as [[resp|e] w1]; [|done].
    rewrite run_then_second. apply run_loop_mono. lia.
  - by intros [= <- <-].
Qed.

(** A [Then] is sequential composition: when the first job fails or its continuation does,
    so does the whole; when the first job ends with an output, the whole behaves as the job
    built from it, in the state the first one left, and never panics by itself. *)
Theorem then_is_bind (a : A) (next : Output A -> result Error B) (w w' : W) (n m : nat)
    (out : result Fault (Output A)) (Hfirst : run_sync n w a = Some (out, w')) :
  match mbind (M := result Fault) (fun o => try (next o)) out with
  | Err e => run_sync (n + m) w (Then_new a next) = Some (Err e, w')
  | Ok b => forall res, run_sync (S m) w' b = Some res -> run_sync (n + m) w (Then_new a next) = Some res
  end.
Proof.
  pose proof (run_then_first n m a next None w w' out Hfirst) as H.
  destruct out as [o|e]; cbn; [|done]. by destruct (next o).
Qed.
End then_runs.

(** ** A backend that answers from a script

    The responses still to give, and the requests received, latest first. *)
Record Script := mkScript { answers : list (result Error Response); received : list Request }.

#[global] Instance script_backend : SyncBackend Script := {
  execute r w :=
    match answers w with
    | [] => (Err (Backend "no answer"), mkScript [] (r :: received w))
    | a :: rest => (a, mkScript rest (r :: received w))
    end;
  capabilities _ := native;
  begin := no_transactions;
  commit := no_transactions;
  rollback := no_transactions;
}.

Lemma then_is_bind_witness :
  let r := Request_read [Statement_new "SELECT 1"] in
  let w := mkScript [Ok [mkResultSet [] 1]; Ok [mkResultSet [] 2]] [] in
  run_sync 4 w (Then_new (Sequence_new [r]) (fun n => Ok (Sequence_new [r; r]))) =
  Some (Err (Failed (Backend "no answer")), mkScript [] [r; r; r]).
Proof.
  intros r w.
  apply (then_is_bind (HA := sequence_job) (HB := sequence_job) (Sequence_new [r]) (fun n => Ok (Sequence_new [r; r])) w
           (mkScript [Ok [mkResultSet [] 2]] [r]) 2 2 (Ok (1 : @Output Sequence sequence_job))); reflexivity.
Defined.
