(* ===== verification/Version.v ===== *)
(** * Versioning: one tick per atomic write ([crates/oxilite-core/src/version.rs])

    In a store whose level is [stamped] or [log] every atomic request that writes quads is
    prefixed with the statements that open a tick ([prepare]), and the results of that prefix are
    removed from its response ([strip]). The prefix is added either around a job ([Versioned],
    for hosts that run requests themselves) or around a backend ([VersionedBackend], which opens
    a single tick per interactive transaction). The two are shown to agree
    ([versioned_refines_backend]); the schema, the as-of queries and the purges, which are SQL
    text, are not modelled. The host's clock is a parameter: [clock n] is its [n]-th reading. *)

From S2P Require Export Job Dictionary.

(** ** The recorded state *)

Module History.
Inductive t := None_ | Live | Frozen.
Definition as_str (h : t) : string :=
  match h with None_ => "none" | Live => "live" | Frozen => "frozen" end.
End History.

Record VersionState := mkVersionState {
  level : Versioning.t;
  history : History.t;
  stamp_column : bool;
  stamp_index : bool;
  as_of_index : bool;
}.

(** [VersionState::absorb]: one [oxilite_meta] entry. *)
Definition absorb (self : VersionState) (key value : string) : VersionState :=
  let '(mkVersionState l h c i a) := self in
  if String.eqb key "versioning" then
    mkVersionState (match Versioning.from_str value with Ok v => v | Err _ => Versioning.Off end) h c i a
  else if String.eqb key "history" then
    mkVersionState l (if String.eqb value "live" then History.Live
                      else if String.eqb value "frozen" then History.Frozen else History.None_) c i a
  else if String.eqb key "stamp_column" then mkVersionState l h (String.eqb value "1") i a
  else if String.eqb key "stamp_index" then mkVersionState l h c (String.eqb value "1") a
  else if String.eqb key "as_of_index" then mkVersionState l h c i (String.eqb value "1")
  else self.

Definition has_ticks (self : VersionState) : bool :=
  Versioning.leb Versioning.Stamped (level self) || stamp_column self ||
  negb (match history self with History.None_ => true | _ => false end).

Record CommitInfo := mkCommitInfo { author : option string; message : option string }.
Definition no_commit_info : CommitInfo := mkCommitInfo None None.

Module kind.
Definition WRITE : Z := 0.
Definition GENESIS : Z := 1.
Definition FREEZE : Z := 2.
Definition RESUME : Z := 3.
Definition DROPPED : Z := 4.
Definition LEVEL : Z := 5.
Definition PURGE : Z := 6.

Definition name (k : Z) : string :=
  match k with
  | 0 => "write" | 1 => "genesis" | 2 => "freeze" | 3 => "resume" | 4 => "dropped"
  | 5 => "level" | 6 => "purge" | _ => "unknown"
  end.
End kind.

Definition NOW : string := "((julianday('now') - 2440587.5) * 86400.0)".

Definition tick_statement (k : Z) (author message : option string) : Statement :=
  Statement_new ("INSERT INTO ticks(t, time, kind, author, message) SELECT coalesce(max(t), 0) + 1, "
    +:+ NOW +:+ ", " +:+ show_Z k +:+ ", " +:+ sql_opt_str author +:+ ", " +:+ sql_opt_str message
    +:+ " FROM ticks").

(** ** Preparing a request *)

Definition writes_quads (s : Statement) : bool :=
  starts_with (sql s) "INSERT OR IGNORE INTO quads(" || starts_with (sql s) "DELETE FROM quads ".

Definition PREFIX_LEN : nat := 2.

Definition opens_own_tick (r : Request) : bool :=
  existsb (fun s => starts_with (sql s) "INSERT INTO ticks(") (take PREFIX_LEN (statements r)).

Definition XSD_DATE_TIME : string := "http://www.w3.org/2001/XMLSchema#dateTime".

Section prepare.
Context {OX : Oxrdf} {XX : Xxh3} {OD : OxsDatatypes}.

(** The closure [lit] of [write_tick_statements]: the rows and the SQL of a text's id. *)
Definition tick_literal (rows : EncodedRows) (v : option string) : EncodedRows * string :=
  match v with
  | None => (rows, "NULL")
  | Some v => let '(rows, id) := rows_term rows (TermLiteral (new_simple_literal v)) in (rows, show_Z id)
  end.

(** [now] is the reading of the host's clock. *)
Definition write_tick_statements (now : string) (info : CommitInfo) : list Statement :=
  let secs := default F64.zero (timestamp now XSD_DATE_TIME) in
  let '(rows, time_id) := rows_term empty_rows (TermLiteral (new_typed_literal now XSD_DATE_TIME)) in
  let '(rows, author_id) := tick_literal rows (author info) in
  let '(rows, message_id) := tick_literal rows (message info) in
  take 1 (term_statements rows native) ++
  [Statement_new
    ("INSERT INTO ticks(t, time, kind, author, message, time_id, author_id, message_id) " +:+
     "SELECT coalesce(max(t), 0) + 1, " +:+ sql_f64 secs +:+ ", " +:+ show_Z kind.WRITE +:+ ", " +:+
     sql_opt_str (author info) +:+ ", " +:+ sql_opt_str (message info) +:+ ", " +:+
     show_Z time_id +:+ ", " +:+ author_id +:+ ", " +:+ message_id +:+ " FROM ticks")].

Definition prepare (now : string) (request : Request) (level : Versioning.t) (info : CommitInfo)
  : option Request :=
  if negb (Versioning.leb Versioning.Stamped level)
     || bool_decide (mode request <> Atomic)
     || opens_own_tick request
     || negb (existsb writes_quads (statements request))
  then None
  else Some (mkRequest (write_tick_statements now info ++ statements request) (mode request)).
End prepare.

Definition strip (response : Response) : Response :=
  drop (Nat.min PREFIX_LEN (length response)) response.

Definition effective_caps (caps : Capabilities) (level : Versioning.t) : Capabilities :=
  let n :=
    if Versioning.leb Versioning.Stamped level
    then Z.max (Z.max (max_statements caps - Z.of_nat PREFIX_LEN) 0) 1
    else max_statements caps in
  mkCapabilities (max_sql_len caps) n (udf caps) (interactive_transactions caps)
    (int64_as_text caps) (max_compound_select caps) (compound_recursive_cte caps) (vectors caps)
    (vector_index_methods caps) (name caps) level.

(** ** Around a job *)

Section versioned.
Context {OX : Oxrdf} {XX : Xxh3} {OD : OxsDatatypes}.
Context (clock : nat -> string).

(** [v_reads]: how often the clock has been read. *)
Record Versioned (J : Type) := mkVersioned {
  v_inner : J; v_level : Versioning.t; v_info : CommitInfo; v_pending : bool; v_reads : nat;
}.
Arguments mkVersioned {J}.
Arguments v_inner {J}.
Arguments v_level {J}.
Arguments v_info {J}.
Arguments v_pending {J}.
Arguments v_reads {J}.

Definition Versioned_new {J} (inner : J) (level : Versioning.t) (info : CommitInfo) : Versioned J :=
  mkVersioned inner level info false 0.

#[export] Instance versioned_job {J} `{!Job J} : Job (Versioned J) := {
  Output := Output J;
  step self response :=
    let response := if v_pending self then strip <$> response else response in
    '(s, inner) ← step (v_inner self) response;
    Ok (match s with
        | Execute r =>
            match prepare (clock (v_reads self)) r (v_level self) (v_info self) with
            | Some p =>
                (Execute p, mkVersioned inner (v_level self) (v_info self) true (S (v_reads self)))
            | None => (Execute r, mkVersioned inner (v_level self) (v_info self) false (v_reads self))
            end
        | Done out => (Done out, mkVersioned inner (v_level self) (v_info self) false (v_reads self))
        end);
}.

(** ** Around a backend *)

Record VersionedBackend (W : Type) := mkVersionedBackend {
  vb_inner : W; vb_caps : list Capabilities; vb_level : Z; vb_info : CommitInfo;
  in_transaction : bool; tick_open : bool; vb_reads : nat;
}.
Arguments mkVersionedBackend {W}.
Arguments vb_inner {W}.
Arguments vb_caps {W}.
Arguments vb_level {W}.
Arguments vb_info {W}.
Arguments in_transaction {W}.
Arguments tick_open {W}.
Arguments vb_reads {W}.

Definition VersionedBackend_new {W} (inner : W) (caps : Capabilities) (level : Versioning.t)
  : VersionedBackend W :=
  mkVersionedBackend inner (effective_caps caps <$> Versioning.ALL) (Versioning.index level)
    no_commit_info false false 0.

Definition set_level {W} (self : VersionedBackend W) (level : Versioning.t) : VersionedBackend W :=
  mkVersionedBackend (vb_inner self) (vb_caps self) (Versioning.index level) (vb_info self)
    (in_transaction self) (tick_open self) (vb_reads self).
Definition set_commit_info {W} (self : VersionedBackend W) (info : CommitInfo) : VersionedBackend W :=
  mkVersionedBackend (vb_inner self) (vb_caps self) (vb_level self) info
    (in_transaction self) (tick_open self) (vb_reads self).
Definition set_flags {W} (self : VersionedBackend W) (tx opened : bool) : VersionedBackend W :=
  mkVersionedBackend (vb_inner self) (vb_caps self) (vb_level self) (vb_info self) tx opened
    (vb_reads self).
Definition set_inner {W} (self : VersionedBackend W) (w : W) : VersionedBackend W :=
  mkVersionedBackend w (vb_caps self) (vb_level self) (vb_info self) (in_transaction self)
    (tick_open self) (vb_reads self).

Definition prepared {W} (self : VersionedBackend W) (request : Request)
  : option Request * VersionedBackend W :=
  if in_transaction self && tick_open self then (None, self)
  else match prepare (clock (vb_reads self)) request (Versioning.from_index (vb_level self)) (vb_info self) with
       | None => (None, self)
       | Some p =>
           (Some p, mkVersionedBackend (vb_inner self) (vb_caps self) (vb_level self) (vb_info self)
                      (in_transaction self) (if in_transaction self then true else tick_open self)
                      (S (vb_reads self)))
       end.

#[export] Instance versioned_backend {W} `{!SyncBackend W} : SyncBackend (VersionedBackend W) := {
  execute request self :=
    match prepared self request with
    | (Some p, self) =>
        let '(r, w) := execute p (vb_inner self) in (strip <$> r, set_inner self w)
    | (None, self) => let '(r, w) := execute request (vb_inner self) in (r, set_inner self w)
    end;
  capabilities self := default native (vb_caps self !! Z.to_nat (vb_level self));
  begin self :=
    match begin (vb_inner self) with
    | (Err e, w) => (Err e, set_inner self w)
    | (Ok _, w) => (Ok tt, set_flags (set_inner self w) true false)
    end;
  commit self :=
    let self := set_flags self false false in
    let '(r, w) := commit (vb_inner self) in (r, set_inner self w);
  rollback self :=
    let self := set_flags self false false in
    let '(r, w) := rollback (vb_inner self) in (r, set_inner self w);
}.

(** ** The agreement of the two *)

(** What a run of the wrapped backend shows of the inner one. *)
Definition project {A W} (out : A * VersionedBackend W) : A * W := (out.1, vb_inner out.2).

Lemma from_index_index l : Versioning.from_index (Versioning.index l) = l.
Proof. by destruct l. Qed.

Lemma versioned_loop {J W} `{!Job J, !SyncBackend W} fuel (j : J) level info pending n
    (resp : option Response) (w : W) caps opened :
  run_loop fuel (mkVersioned j level info pending n) resp w =
  project <$> run_loop fuel j (if pending then strip <$> resp else resp)
    (mkVersionedBackend w caps (Versioning.index level) info false opened n).
Proof.
  revert j pending n resp w. induction fuel as [|fuel IH]; intros j pending n resp w; [done|].
  cbn [run_loop]. cbn [step versioned_job v_pending v_inner].
  set (resp' := if pending then _ else _).
  destruct (step j resp') as [[[r|o] j']|e]; cbn [mbind result_bind]; [|done..].
  cbn [v_reads v_level v_info execute versioned_backend].
  unfold prepared. cbn [in_transaction tick_open andb vb_reads vb_level vb_info vb_inner vb_caps].
  rewrite from_index_index.
  destruct (prepare (clock n) r level info) as [p|]; cbn [set_inner vb_inner].
  - destruct (execute p w) as [[resp''|e] w']; cbn; [|done]. apply (IH j' true).
  - destruct (execute r w) as [[resp''|e] w']; cbn; [|done]. apply (IH j' false).
Qed.
End versioned.
Arguments mkVersioned {J}.
Arguments v_pending {J}.
Arguments mkVersionedBackend {W}.
Arguments vb_inner {W}.
Arguments vb_level {W}.
Arguments vb_info {W}.
Arguments in_transaction {W}.
Arguments tick_open {W}.
Arguments vb_reads {W}.

Section properties.
Context {OX : Oxrdf} {XX : Xxh3} {OD : OxsDatatypes}.

(** C7: a job wrapped in [Versioned] on a plain backend and the job itself on the backend
    wrapped in [VersionedBackend] (outside interactive transactions) are the same: after any
    number of steps they give the same result and leave the plain backend in the same state. *)
Theorem versioned_refines_backend {J W} `{!Job J, !SyncBackend W} (clock : nat -> string) (fuel : nat)
    (j : J) (w : W) (caps : Capabilities) (level : Versioning.t) (info : CommitInfo) :
  run_sync (Job0 := versioned_job clock) fuel w (Versioned_new j level info) =
  project <$> run_sync (SyncBackend0 := versioned_backend clock) fuel
    (set_commit_info (VersionedBackend_new w caps level) info) j.
Proof. apply (versioned_loop clock fuel j level info false 0 None w _ false). Qed.

(** ** The prefix *)

Lemma chunked_nonempty p sf m t l : p <> "" -> exists s rest, chunked p sf m (t :: l) = s :: rest.
Proof.
  intros Hp. destruct (chunked_spec p sf m (t :: l) Hp) as ([|g gs] & Hcat & _ & -> & _); [done|].
  cbn. eauto.
Qed.

Lemma term_statements_nonempty rows caps r l :
  terms rows = r :: l -> exists s rest, term_statements rows caps = s :: rest.
Proof.
  intros Hr. unfold term_statements. rewrite Hr. cbn [fmap list_fmap].
  destruct (chunked_nonempty TERMS_PREFIX "" (max_sql_len caps) (term_tuple r) (term_tuple <$> l))
    as (s & rest & Hs); [done|]. rewrite Hs. cbn. eauto.
Qed.

Lemma rows_term_nonempty rows t : terms rows <> [] -> terms (rows_term rows t).1 <> [].
Proof.
  intros Hr Hn. destruct (terms rows) as [|r l] eqn:E; [done|].
  destruct (rows_term_encodes rows t) as ((H & _) & _ & _).
  destruct (H r) as (r' & Hr' & _); [rewrite E; by left|]. rewrite Hn in Hr'. by apply elem_of_nil in Hr'.
Qed.

Lemma tick_literal_nonempty rows v : terms rows <> [] -> terms (tick_literal rows v).1 <> [].
Proof.
  intros Hr. destruct v as [v|]; cbn; [|done].
  pose proof (rows_term_nonempty rows (TermLiteral (new_simple_literal v)) Hr) as H. cbn in H.
  by destruct (encode_literal _) as [id [row|]].
Qed.

Context {laws : OxrdfLaws OX}.

Lemma time_literal_row now :
  terms (rows_term empty_rows (TermLiteral (new_typed_literal now XSD_DATE_TIME))).1 <> [].
Proof.
  destruct (typed_spec now XSD_DATE_TIME) as (_ & Hl & Hd). cbn.
  pose proof (encode_typed (new_typed_literal now XSD_DATE_TIME) Hl) as H. rewrite Hd in H.
  specialize (H ltac:(done)). unfold inline_id in H. rewrite Hd in H. cbn in H.
  destruct H as (row & -> & _). done.
Qed.

(** The prefix is a statement for the terms and one for the tick. *)
Lemma write_tick_shape now info :
  exists s rest, write_tick_statements now info =
    [s; Statement_new ("INSERT INTO ticks(" +:+ rest)].
Proof.
  unfold write_tick_statements.
  pose proof (time_literal_row now) as H0.
  destruct (rows_term empty_rows _) as [rows time_id]. cbn [fst] in H0.
  pose proof (tick_literal_nonempty rows (author info) H0) as H1.
  destruct (tick_literal rows (author info)) as [rows1 aid]. cbn [fst] in H1.
  pose proof (tick_literal_nonempty rows1 (message info) H1) as H2.
  destruct (tick_literal rows1 (message info)) as [rows2 mid]. cbn [fst] in H2.
  destruct (terms rows2) as [|r l] eqn:Er; [done|].
  destruct (term_statements_nonempty rows2 native r l Er) as (s & rest & ->).
  cbn [take app]. exists s. by eexists.
Qed.

Lemma prepare_shape now r p l info :
  prepare now r l info = Some p ->
  Versioning.leb Versioning.Stamped l = true /\ mode r = Atomic /\ opens_own_tick r = false /\
  existsb writes_quads (statements r) = true /\ mode p = Atomic /\
  exists t1 rest, statements p = t1 :: Statement_new ("INSERT INTO ticks(" +:+ rest) :: statements r.
Proof.
  unfold prepare. destruct (Versioning.leb Versioning.Stamped l); cbn [negb orb]; [|done].
  case_bool_decide as Em; [done|]. cbn [orb].
  destruct (opens_own_tick r); [done|]. cbn [orb].
  destruct (existsb writes_quads (statements r)); [|done]. cbn [negb].
  intros [= <-]. destruct (write_tick_shape now info) as (s & rest & ->).
  cbn [mode statements app]. split_and!; try done. by exists s, rest.
Qed.


(** C9: a request a writer kept within the capabilities the store handed out stays within the
    backend's own limit when its tick is added, if the backend takes at least three statements
    per request. *)
Theorem prepared_request_fits (now : string) (r p : Request) (caps : Capabilities) (l : Versioning.t)
    (info : CommitInfo) (Hp : prepare now r l info = Some p) (Hcaps : 3 <= max_statements caps)
    (Hr : Z.of_nat (length (statements r)) <= max_statements (effective_caps caps l)) :
  Z.of_nat (length (statements p)) <= max_statements caps.
Proof.
  pose proof (prepare_shape now r p l info Hp) as (Hl & _ & _ & _ & _ & t1 & rest & ->).
  cbn [length]. unfold effective_caps in Hr. cbn [max_statements] in Hr. rewrite Hl in Hr.
  unfold PREFIX_LEN in Hr. lia.
Qed.

(** ** Interactive transactions *)

(** A backend that records the requests it is given, in order. *)
Record Logged (W : Type) := mkLogged { lg_inner : W; lg_requests : list Request }.
#[local] Arguments mkLogged {W}.
#[local] Arguments lg_inner {W}.
#[local] Arguments lg_requests {W}.

#[local] Instance logged_backend {W} `{!SyncBackend W} : SyncBackend (Logged W) := {
  execute r self :=
    let '(a, w) := execute r (lg_inner self) in (a, mkLogged w (lg_requests self ++ [r]));
  capabilities self := capabilities (lg_inner self);
  begin self := let '(a, w) := begin (lg_inner self) in (a, mkLogged w (lg_requests self));
  commit self := let '(a, w) := commit (lg_inner self) in (a, mkLogged w (lg_requests self));
  rollback self := let '(a, w) := rollback (lg_inner self) in (a, mkLogged w (lg_requests self));
}.

(** Requests executed one after the other, whatever they answer. *)
Definition execute_each {W} `{!SyncBackend W} (reqs : list Request) (w : W) : W :=
  foldl (fun w r => (execute r w).2) w reqs.

Context {W : Type} `{!SyncBackend W} (clock : nat -> string).
#[local] Existing Instance versioned_backend.

Lemma logged_execute (self : Logged W) r :
  execute r self =
  let '(a, w) := execute r (lg_inner self) in (a, mkLogged w (lg_requests self ++ [r])).
Proof. done. Qed.

Lemma execute_logged (self : VersionedBackend (Logged W)) r :
  let p := prepared clock self r in
  let self' := (execute (SyncBackend := versioned_backend clock) r self).2 in
  lg_requests (vb_inner self') = lg_requests (vb_inner self) ++ [default r p.1] /\
  in_transaction self' = in_transaction p.2 /\ tick_open self' = tick_open p.2 /\
  vb_level self' = vb_level p.2 /\ vb_info self' = vb_info p.2.
Proof.
  cbn zeta. unfold execute, versioned_backend.
  assert (vb_inner (prepared clock self r).2 = vb_inner self) as Hi.
  { unfold prepared. destruct (_ && _); [done|]. by destruct (prepare _ _ _ _). }
  destruct (prepared clock self r) as [[p|] self']; cbn [fst snd default] in *; rewrite Hi, logged_execute.
  - by destruct (execute p (lg_inner (vb_inner self))).
  - by destruct (execute r (lg_inner (vb_inner self))).
Qed.

(** In an interactive transaction at most one request is given a tick: the first one that
    needs it. Every other request reaches the engine as it was written, in order. *)
Theorem one_tick_per_transaction (self : VersionedBackend (Logged W)) (reqs : list Request)
    (Htx : in_transaction self = true) (Hopen : tick_open self = false) :
  let level := Versioning.from_index (vb_level self) in
  let done := execute_each (SyncBackend0 := versioned_backend clock) reqs self in
  exists sent, lg_requests (vb_inner done) = lg_requests (vb_inner self) ++ sent /\
    (sent = reqs \/
     exists before r after now p, reqs = before ++ r :: after /\ sent = before ++ p :: after /\
       prepare now r level (vb_info self) = Some p /\
       Forall (fun r => exists now, prepare now r level (vb_info self) = None) before).
Proof.
  assert (forall reqs (self : VersionedBackend (Logged W)),
    in_transaction self = true -> tick_open self = true ->
    lg_requests (vb_inner (execute_each (SyncBackend0 := versioned_backend clock) reqs self))
    = lg_requests (vb_inner self) ++ reqs) as Hafter.
  { clear. induction reqs as [|r reqs IH]; intros self Ht Ho; [by rewrite app_nil_r|].
    destruct (execute_logged self r) as (Hl & Ht' & Ho' & _).
    assert (prepared clock self r = (None, self)) as Hp by (unfold prepared; by rewrite Ht, Ho).
    rewrite Hp in *. cbn [fst snd default] in *.
    unfold execute_each in *. cbn [foldl]. rewrite IH by congruence. by rewrite Hl, <- app_assoc. }
  cbn zeta. revert self Htx Hopen. induction reqs as [|r reqs IH]; intros self Ht Ho.
  { exists []. rewrite app_nil_r. by split; [|left]. }
  destruct (execute_logged self r) as (Hl & Ht' & Ho' & Hv' & Hi').
  unfold execute_each. cbn [foldl]. set (self' := (execute r self).2) in *.
  destruct (prepare (clock (vb_reads self)) r (Versioning.from_index (vb_level self)) (vb_info self))
    as [p|] eqn:Hp; unfold prepared in *; rewrite Ht, Ho in *; cbn [andb] in *; rewrite Hp in *;
    cbn [fst snd default in_transaction tick_open vb_level vb_info] in *.
  - exists (p :: reqs). split.
    + etrans; [apply Hafter; congruence|]. by rewrite Hl, <- app_assoc.
    + right. exists [], r, reqs. eexists _, p. split_and!; [done|done|exact Hp|constructor].
  - rewrite Ht in Ht'. rewrite Ho in Ho'. destruct (IH self' Ht' Ho') as (sent & Hs & Hcase).
    exists (r :: sent). split.
    + etrans; [exact Hs|]. by rewrite Hl, <- app_assoc.
    + destruct Hcase as [->|(before & r' & after & now & p & -> & -> & Hp' & Hb)]; [by left|].
      right. exists (r :: before), r', after, now, p. rewrite Hv', Hi' in *.
      split_and!; [done|done|done|]. constructor; [by eexists|done].
Qed.
End properties.

(** ** Witnesses *)

Definition sample_write : Request :=
  Request_atomic (quad_insert_statements [(1, 2, 3, 0)] native).


Lemma prepared_request_fits_witness :
  match prepare "2026-01-01T00:00:00Z" sample_write Versioning.Log no_commit_info with
  | Some p => Z.of_nat (length (statements p)) <= max_statements d1
  | None => False
  end.
Proof.
  destruct (prepare _ _ _ _) as [p|] eqn:Hp; [|vm_compute in Hp; discriminate].
  apply (prepared_request_fits (laws := ConcreteRdf.laws) _ _ _ d1 _ _ Hp); by vm_compute.
Defined.

Lemma one_tick_per_transaction_witness :
  let self := set_flags (VersionedBackend_new (mkLogged Script (mkScript [] []) []) native
                Versioning.Stamped) true false in
  exists sent, lg_requests _ (vb_inner (execute_each
      (SyncBackend0 := versioned_backend (W := Logged Script) (SyncBackend0 := logged_backend) (fun _ => "")) [sample_write] self))
    = [] ++ sent.
Proof.
  intros self.
  destruct (one_tick_per_transaction (fun _ => "") self [sample_write] eq_refl eq_refl)
    as (sent & H & _). by exists sent.
Defined.
