(* ===== verification/Resolve.v ===== *)
(** * Resolving ids to terms ([crates/oxilite-core/src/resolve.rs])

    A [TermResolver] collects the ids that must be decoded, asks the dictionary for the rows of
    the ones it cannot decode locally, and assembles triple terms once their components are
    known, which may take a round-trip per nesting level. The file models the resolver's
    operations; [ResolveFacts] proves that it terminates and finds the right terms. *)

From S2P Require Export Dictionary.

Definition CHUNK : nat := 400.

Inductive Lookup := Terms | Triples.

Section resolver.
Context {OX : Oxrdf}.

Record TermResolver := mkTermResolver {
  known : gmap Z Term;
  pending : gset Z;
  rtriples : gmap Z (Z * Z * Z);
  in_flight : list Lookup;
}.

Definition with_constants (constants : gmap Z Term) : TermResolver :=
  mkTermResolver constants ∅ ∅ [].

Definition set_known (self : TermResolver) (k : gmap Z Term) : TermResolver :=
  mkTermResolver k (pending self) (rtriples self) (in_flight self).

(** [contains_key]. *)
Definition has_key {A} (m : gmap Z A) (id : Z) : bool := bool_decide (is_Some (m !! id)).

Definition want (self : TermResolver) (id : Z) : TermResolver :=
  if (id =? DEFAULT_GRAPH_ID) || has_key (known self) id || has_key (rtriples self) id
  then self
  else match decode_inline id with
       | Some t => set_known self (<[id := t]> (known self))
       | None => mkTermResolver (known self) ({[id]} ∪ pending self) (rtriples self) (in_flight self)
       end.

Definition id_col (caps : Capabilities) (c : string) : string :=
  if int64_as_text caps then "CAST(" +:+ c +:+ " AS TEXT)" else c.

(** [resolve::join]. *)
Definition join_ids (ids : list Z) : string := join "," (show_Z <$> ids).

Definition terms_statement (caps : Capabilities) (chunk : list Z) : Statement :=
  Statement_new ("SELECT " +:+ id_col caps "id" +:+
    ", lex, dt, lang, dir FROM terms WHERE id IN (" +:+ join_ids chunk +:+ ")").

Definition triples_statement (caps : Capabilities) (chunk : list Z) : Statement :=
  Statement_new ("SELECT " +:+ id_col caps "id" +:+ ", " +:+ id_col caps "s" +:+ ", " +:+
    id_col caps "p" +:+ ", " +:+ id_col caps "o" +:+ " FROM triple_terms WHERE id IN (" +:+
    join_ids chunk +:+ ")").

(** A [BTreeSet] is iterated in increasing order. *)
Definition sorted_elements (s : gset Z) : list Z := sort_by_key id (elements s).

Definition is_triple_id (id : Z) : bool := bool_decide (tag_of id = Some TTriple).

(** The ids of the next lookup, the plain ones and the triple terms. *)
Definition term_lookups (self : TermResolver) : list Z :=
  filter (fun id => is_triple_id id = false) (sorted_elements (pending self)).
Definition triple_lookups (self : TermResolver) : list Z :=
  filter (fun id => is_triple_id id = true) (sorted_elements (pending self)).

Definition request (self : TermResolver) (caps : Capabilities) : option Request * TermResolver :=
  if bool_decide (pending self = ∅) then (None, self)
  else
    let terms := chunks CHUNK (term_lookups self) in
    let triples := chunks CHUNK (triple_lookups self) in
    (Some (Request_read ((terms_statement caps <$> terms) ++ (triples_statement caps <$> triples))),
     mkTermResolver (known self) ∅ (rtriples self)
       (((fun _ => Terms) <$> terms) ++ ((fun _ => Triples) <$> triples))).

Definition text_at (row : list SqlValue) (i : nat) : option string :=
  row !! i ≫= SqlValue.into_string.

(** The body of the loop over the rows of one result set. *)
Definition absorb_row (self : TermResolver) (kind : Lookup) (row : list SqlValue)
  : result Error TermResolver :=
  c ← col row 0;
  id ← ok_or (SqlValue.as_i64 c) (Error.corrupted "bad id in lookup");
  match kind with
  | Terms =>
      let lex := default "" (text_at row 1) in
      let dt := text_at row 2 in
      let lang := text_at row 3 in
      let dir := row !! 4%nat ≫= SqlValue.as_i64 in
      t ← decode_row id lex dt lang dir;
      Ok (set_known self (<[id := t]> (known self)))
  | Triples =>
      let get i := c ← col row i; ok_or (SqlValue.as_i64 c) (Error.corrupted "bad triple term row") in
      s ← get 1%nat; p ← get 2%nat; o ← get 3%nat;
      let self := mkTermResolver (known self) (pending self)
                    (<[id := (s, p, o)]> (rtriples self)) (in_flight self) in
      Ok (want (want (want self s) p) o)
  end.

(** The triple terms whose components are all known. *)
Definition is_ready (self : TermResolver) (parts : Z * Z * Z) : bool :=
  let '(s, p, o) := parts in
  has_key (known self) s && has_key (known self) p && has_key (known self) o.

Definition ready (self : TermResolver) : list (Z * (Z * Z * Z)) :=
  filter (fun e => is_ready self e.2 = true) (map_to_list (rtriples self)).

Definition term_of_triple (t : Triple) : Term :=
  TermTriple (tr_subject t) (tr_predicate t) (tr_object t).

(** The body of the loop over the ready ids: the lookups are of known ids. *)
Definition assemble_one (self : TermResolver) (e : Z * (Z * Z * Z)) : TermResolver :=
  let '(id, (s, p, o)) := e in
  let triples := delete id (rtriples self) in
  let known' :=
    match known self !! s, known self !! p, known self !! o with
    | Some s, Some p, Some o =>
        match make_triple s p o with
        | Ok t => <[id := term_of_triple t]> (known self)
        | Err _ => known self
        end
    | _, _, _ => known self
    end in
  mkTermResolver known' (pending self) triples (in_flight self).

(** The [loop] of [assemble]. Every iteration removes a triple term, so their number is enough
    fuel. *)
Fixpoint assemble_loop (fuel : nat) (self : TermResolver) : TermResolver :=
  match ready self with
  | [] => self
  | r => match fuel with
         | O => self
         | S fuel => assemble_loop fuel (foldl assemble_one self r)
         end
  end.
Definition assemble (self : TermResolver) : TermResolver :=
  assemble_loop (size (rtriples self)) self.

Definition absorb (self : TermResolver) (response : Response) : result Error TermResolver :=
  let kinds := in_flight self in
  let self := mkTermResolver (known self) (pending self) (rtriples self) [] in
  self ← try_fold (fun self '(kind, rs) => try_fold (fun self row => absorb_row self kind row) self (rows rs))
           self (zip kinds response);
  Ok (assemble self).

Definition is_complete (self : TermResolver) : bool := bool_decide (pending self = ∅).

Definition get (self : TermResolver) (id : Z) : result Error Term :=
  ok_or (match known self !! id with Some t => Some t | None => decode_inline id end)
    (Error.corrupted ("term " +:+ show_Z id +:+ " not found in the dictionary")).
End resolver.

(** [ids_of]: the ids of the first column of a result set. *)
Definition ids_of (response : Response) (i : nat) : list Z :=
  match response !! i with
  | Some rs => omap (fun r : list SqlValue => head r ≫= SqlValue.as_i64) (rows rs)
  | None => []
  end.
