(* ===== verification/ResolveFacts.v ===== *)
(** * Looking ids up finds their terms

    [denotes db id t] is the meaning of an id in a dictionary. Whatever ids are wanted, the
    resolver ends after a bounded number of lookups and then returns the term each id denotes,
    at any nesting depth ([resolver_complete]). The answer of the engine to a lookup is written
    out in [answers]: one result set per statement, with the rows whose id is in its list. *)

From S2P Require Export Resolve.

Section facts.
Context {OX : Oxrdf}.

(** ** The meaning of ids *)

Section dictionary.
Context (db : EncodedRows).

Definition term_of_row (r : TermRow) : result Error Term :=
  decode_row (tr_id r) (lex r) (dt r) (lang r) (dir r).

Inductive denotes : Z -> Term -> Prop :=
  | denotes_inline id t : decode_inline id = Some t -> denotes id t
  | denotes_row r t :
      decode_inline (tr_id r) = None -> is_triple_id (tr_id r) = false ->
      r ∈ terms db -> term_of_row r = Ok t -> denotes (tr_id r) t
  | denotes_triple r s p o t :
      is_triple_id (tt_id r) = true -> r ∈ triples db ->
      denotes (tt_s r) s -> denotes (tt_p r) p -> denotes (tt_o r) o ->
      make_triple s p o = Ok t -> denotes (tt_id r) (term_of_triple t).

(** What the writers guarantee of a dictionary: ids are keys, 64-bit, and rows can be read. *)
Record readable : Prop := {
  terms_unique r r' : r ∈ terms db -> r' ∈ terms db -> tr_id r = tr_id r' -> r = r';
  triples_unique r r' : r ∈ triples db -> r' ∈ triples db -> tt_id r = tt_id r' -> r = r';
  terms_ok r : r ∈ terms db -> in_i64 (tr_id r) = true /\ is_ok (term_of_row r) = true;
  triples_ok r : r ∈ triples db ->
    in_i64 (tt_id r) = true /\ in_i64 (tt_s r) = true /\ in_i64 (tt_p r) = true /\ in_i64 (tt_o r) = true;
}.

(** *** The engine's answers *)

Definition id_value (caps : Capabilities) (id : Z) : SqlValue :=
  if int64_as_text caps then SqlValue.Text (show_Z id) else SqlValue.Integer id.
Definition opt_text (s : option string) : SqlValue :=
  match s with Some s => SqlValue.Text s | None => SqlValue.Null end.

Definition term_columns (caps : Capabilities) (r : TermRow) : list SqlValue :=
  [id_value caps (tr_id r); SqlValue.Text (lex r); opt_text (dt r); opt_text (lang r);
   match dir r with Some d => SqlValue.Integer d | None => SqlValue.Null end].
Definition triple_columns (caps : Capabilities) (r : TripleRow) : list SqlValue :=
  [id_value caps (tt_id r); id_value caps (tt_s r); id_value caps (tt_p r); id_value caps (tt_o r)].

Definition found_terms (ids : list Z) : list TermRow := filter (fun r => tr_id r ∈ ids) (terms db).
Definition found_triples (ids : list Z) : list TripleRow := filter (fun r => tt_id r ∈ ids) (triples db).

Definition answers (caps : Capabilities) (self : TermResolver) : Response :=
  ((fun c => mkResultSet (term_columns caps <$> found_terms c) 0) <$> chunks CHUNK (term_lookups self)) ++
  ((fun c => mkResultSet (triple_columns caps <$> found_triples c) 0) <$> chunks CHUNK (triple_lookups self)).

(** The loop of the jobs that own a resolver: look up until nothing is pending. *)
Fixpoint resolve_loop (fuel : nat) (caps : Capabilities) (self : TermResolver)
  : option (result Error TermResolver) :=
  match request self caps with
  | (None, self) => Some (Ok self)
  | (Some _, self') =>
      match fuel with
      | O => None
      | S fuel =>
          match absorb self' (answers caps self) with
          | Ok self => resolve_loop fuel caps self
          | Err e => Some (Err e)
          end
      end
  end.

(** ** Absorbing an answer *)

Definition absorb_term (self : TermResolver) (r : TermRow) : TermResolver :=
  match term_of_row r with
  | Ok t => set_known self (<[tr_id r := t]> (known self))
  | Err _ => self
  end.

Definition absorb_triple (self : TermResolver) (r : TripleRow) : TermResolver :=
  want (want (want (mkTermResolver (known self) (pending self)
    (<[tt_id r := (tt_s r, tt_p r, tt_o r)]> (rtriples self)) (in_flight self))
    (tt_s r)) (tt_p r)) (tt_o r).

Lemma id_value_as_i64 caps id : in_i64 id = true -> SqlValue.as_i64 (id_value caps id) = Some id.
Proof. intros H. unfold id_value. destruct (int64_as_text caps); cbn; [by apply parse_i64_show|done]. Qed.

Lemma opt_text_string s : SqlValue.into_string (opt_text s) = s.
Proof. by destruct s. Qed.

Context (Hdb : readable).

Lemma absorb_row_term caps self r :
  r ∈ terms db -> absorb_row self Terms (term_columns caps r) = Ok (absorb_term self r).
Proof.
  intros Hr. destruct (terms_ok Hdb r Hr) as [Hi Ho]. unfold absorb_row, absorb_term.
  cbn [term_columns col lookup list_lookup ok_or mbind result_bind]. unfold col. cbn.
  rewrite id_value_as_i64 by done. cbn. rewrite !opt_text_string.
  unfold term_of_row in *.
  replace (SqlValue.as_i64 match dir r with Some d => SqlValue.Integer d | None => SqlValue.Null end)
    with (dir r) by by destruct (dir r).
  destruct (decode_row _ _ _ _ _); done.
Qed.

Lemma absorb_row_triple caps self r :
  r ∈ triples db -> absorb_row self Triples (triple_columns caps r) = Ok (absorb_triple self r).
Proof.
  intros Hr. destruct (triples_ok Hdb r Hr) as (H1 & H2 & H3 & H4). unfold absorb_row, col. cbn.
  rewrite !id_value_as_i64 by done. done.
Qed.
Lemma try_fold_app {A B} (f : A -> B -> result Error A) a l1 l2 :
  try_fold f a (l1 ++ l2) = (try_fold f a l1 ≫= fun a => try_fold f a l2).
Proof.
  revert a. induction l1 as [|x l1 IH]; intros a; cbn; [done|].
  destruct (f a x); cbn; [apply IH|done].
Qed.

Lemma try_fold_ok {A B C} (f : A -> B -> result Error A) (g : A -> C -> A) (h : C -> B) a l :
  (forall a c, c ∈ l -> f a (h c) = Ok (g a c)) -> try_fold f a (h <$> l) = Ok (foldl g a l).
Proof.
  revert a. induction l as [|x l IH]; intros a H; cbn; [done|].
  rewrite H by set_solver. cbn. apply IH. intros. apply H. set_solver.
Qed.

(** The loop over the result sets of one kind of lookup. *)
Lemma absorb_sets {R} (kind : Lookup) (step : TermResolver -> R -> TermResolver)
    (found : list Z -> list R) (columns : R -> list SqlValue) self cs :
  (forall self r c, r ∈ found c -> absorb_row self kind (columns r) = Ok (step self r)) ->
  try_fold (fun self '(kind, rs) => try_fold (fun self row => absorb_row self kind row) self (rows rs))
    self (zip ((fun _ => kind) <$> cs) ((fun c => mkResultSet (columns <$> found c) 0) <$> cs))
  = Ok (foldl step self (concat (found <$> cs))).
Proof.
  intros H. revert self. induction cs as [|c cs IH]; intros self; cbn; [done|].
  rewrite (try_fold_ok _ step) by eauto. cbn. rewrite IH. by rewrite foldl_app.
Qed.

(** The rows an answer holds. *)
Definition answer_terms (self : TermResolver) : list TermRow :=
  concat (found_terms <$> chunks CHUNK (term_lookups self)).
Definition answer_triples (self : TermResolver) : list TripleRow :=
  concat (found_triples <$> chunks CHUNK (triple_lookups self)).

Lemma concat_found {R} (key : R -> Z) (l : list R) (ids : list Z) r :
  r ∈ concat ((fun c => filter (fun r => key r ∈ c) l) <$> chunks CHUNK ids) <-> r ∈ l /\ key r ∈ ids.
Proof.
  rewrite <- (chunks_concat CHUNK ids) at 2 by (unfold CHUNK; lia).
  induction (chunks CHUNK ids) as [|c cs IH]; cbn [fmap list_fmap concat]; [set_solver|].
  rewrite !elem_of_app, IH, list_elem_of_filter. naive_solver.
Qed.

Lemma elem_of_answer_terms self r :
  r ∈ answer_terms self <-> r ∈ terms db /\ tr_id r ∈ term_lookups self.
Proof. apply (concat_found tr_id). Qed.
Lemma elem_of_answer_triples self r :
  r ∈ answer_triples self <-> r ∈ triples db /\ tt_id r ∈ triple_lookups self.
Proof. apply (concat_found tt_id). Qed.

Lemma elem_of_sorted_elements (s : gset Z) id : id ∈ sorted_elements s <-> id ∈ s.
Proof. unfold sorted_elements. rewrite sort_by_key_perm. apply elem_of_elements. Qed.
Lemma elem_of_term_lookups self id :
  id ∈ term_lookups self <-> id ∈ pending self /\ is_triple_id id = false.
Proof. unfold term_lookups. rewrite list_elem_of_filter, elem_of_sorted_elements. naive_solver. Qed.
Lemma elem_of_triple_lookups self id :
  id ∈ triple_lookups self <-> id ∈ pending self /\ is_triple_id id = true.
Proof. unfold triple_lookups. rewrite list_elem_of_filter, elem_of_sorted_elements. naive_solver. Qed.

(** The resolver between a request and its answer, and a whole round. *)
Definition asked (self : TermResolver) : TermResolver :=
  mkTermResolver (known self) ∅ (rtriples self) [].
Definition answered (self : TermResolver) : TermResolver :=
  foldl absorb_triple (foldl absorb_term (asked self) (answer_terms self)) (answer_triples self).

Lemma request_none self caps : pending self = ∅ -> request self caps = (None, self).
Proof. intros H. unfold request. by rewrite bool_decide_eq_true_2. Qed.

Lemma round_ok self caps :
  pending self <> ∅ ->
  exists r self', request self caps = (Some r, self') /\
    absorb self' (answers caps self) = Ok (assemble (answered self)).
Proof.
  intros Hp. unfold request. rewrite bool_decide_eq_false_2 by done.
  eexists _, _. split; [done|]. unfold absorb. cbn [in_flight known pending rtriples].
  unfold answers. rewrite zip_with_app by by rewrite !length_fmap.
  rewrite try_fold_app.
  rewrite (absorb_sets Terms absorb_term).
  2: { intros s r c [_ Hr]%list_elem_of_filter. by apply absorb_row_term. }
  cbn [mbind result_bind].
  rewrite (absorb_sets Triples absorb_triple).
  2: { intros s r c [_ Hr]%list_elem_of_filter. by apply absorb_row_triple. }
  done.
Qed.
(** ** What a resolver knows *)

(** A resolver has an id: decoded, fetched, or still to fetch. *)
Definition tracked (self : TermResolver) (id : Z) : Prop :=
  is_Some (known self !! id) \/ is_Some (rtriples self !! id) \/ id ∈ pending self.

Definition parts_of (r : TripleRow) : Z * Z * Z := (tt_s r, tt_p r, tt_o r).
Definition components (r : TripleRow) : list Z := [tt_s r; tt_p r; tt_o r].

(** Known terms are right and inline ids are never fetched. *)
Definition sound (self : TermResolver) : Prop :=
  (forall id t t', known self !! id = Some t -> denotes id t' -> t = t') /\
  (forall id, id ∈ pending self -> decode_inline id = None).

(** Fetched triple terms are rows whose components are tracked, or in the lookup [L] being
    answered. *)
Record inv (L : gset Z) (self : TermResolver) : Prop := {
  inv_sound : sound self;
  inv_triples id parts : rtriples self !! id = Some parts ->
    is_triple_id id = true /\ exists r, r ∈ triples db /\ tt_id r = id /\ parts = parts_of r /\
      forall c t, c ∈ components r -> denotes c t -> tracked self c \/ c ∈ L;
}.

Lemma triple_not_inline id : is_triple_id id = true -> decode_inline id = None.
Proof.
  unfold is_triple_id, decode_inline. intros Ht%bool_decide_eq_true. by rewrite Ht.
Qed.

Lemma denotes_inline_eq id t t' : decode_inline id = Some t -> denotes id t' -> t = t'.
Proof.
  intros H. inversion 1; subst; [congruence|congruence|].
  by rewrite triple_not_inline in H.
Qed.

Lemma row_not_triple r : r ∈ terms db -> is_triple_id (tr_id r) = false.
Proof.
  intros Hr. destruct (terms_ok Hdb r Hr) as [_ Ho]. unfold term_of_row, decode_row in Ho.
  unfold is_triple_id. apply bool_decide_eq_false. intros Ht. by rewrite Ht in Ho.
Qed.

Lemma denotes_row_eq r t t' : r ∈ terms db -> term_of_row r = Ok t -> denotes (tr_id r) t' -> t = t'.
Proof.
  intros Hr Ht Hd. inversion Hd as [id u Hu Hid|r' u Hi Hn Hr' Hu Hid|r' s p o u Hn Hr' Hs Hp Ho Hu Hid]; subst.
  - unfold term_of_row, decode_row in Ht. unfold decode_inline in Hu.
    destruct (tag_of (tr_id r)) as [g|] eqn:Hg; [|done]. cbn in Ht, Hu.
    unfold decode_inline in Ht. rewrite Hg in Ht. destruct g; try done; cbn in *; congruence.
  - apply (terms_unique Hdb) in Hid; [|done..]. subst. congruence.
  - pose proof (row_not_triple r Hr) as H. rewrite <- Hid in H. congruence.
Qed.

Lemma denotes_not_default t : ~ denotes DEFAULT_GRAPH_ID t.
Proof.
  intros Hd. inversion Hd as [id u Hu Hid|r' u Hi Hn Hr' Hu Hid|r' s p o u Hn Hr' Hs Hp Ho Hu Hid]; subst.
  - done.
  - unfold term_of_row in Hu. by rewrite Hid in Hu.
  - by rewrite Hid in Hn.
Qed.

(** *** Operations that only add *)

Definition grows (self self' : TermResolver) : Prop := forall id, tracked self id -> tracked self' id.

Lemma inv_grows L self self' :
  inv L self -> grows self self' -> rtriples self' = rtriples self -> sound self' -> inv L self'.
Proof.
  intros [Hs Ht] Hg Heq Hs'. constructor; [done|].
  intros id parts H. rewrite Heq in H. destruct (Ht id parts H) as (? & r & ? & ? & ? & Hc).
  split; [done|]. exists r. split_and!; [done..|]. intros c t Hin Hd.
  destruct (Hc c t Hin Hd); [left; by apply Hg|by right].
Qed.

Lemma set_known_grows self id t : grows self (set_known self (<[id := t]> (known self))).
Proof.
  intros i [?|?]; [left|by right]. cbn. destruct (decide (i = id)) as [->|].
  - rewrite lookup_insert_eq. by eexists.
  - by rewrite lookup_insert_ne.
Qed.

Lemma set_known_sound self id t :
  sound self -> (forall t', denotes id t' -> t = t') -> sound (set_known self (<[id := t]> (known self))).
Proof.
  intros [Hk Hp] H. split; [|done]. intros i u u' Hl Hd. cbn in Hl.
  destruct (decide (i = id)) as [->|].
  - rewrite lookup_insert_eq in Hl. injection Hl as <-. by apply H.
  - rewrite lookup_insert_ne in Hl by done. by eapply Hk.
Qed.

Lemma want_grows self c : grows self (want self c).
Proof.
  unfold want. destruct (_ || _); [by intros id|].
  destruct (decode_inline c); [apply set_known_grows|].
  intros id [?|[?|?]]; unfold tracked; cbn; set_solver.
Qed.

Lemma want_sound self c : sound self -> sound (want self c).
Proof.
  intros Hs. unfold want. destruct (_ || _); [done|].
  destruct (decode_inline c) as [t|] eqn:Hc.
  - apply set_known_sound; [done|]. intros t'. by apply denotes_inline_eq.
  - destruct Hs as [Hk Hp]. split; [done|]. cbn. intros id Hid.
    apply elem_of_union in Hid as [->%elem_of_singleton|]; [done|by apply Hp].
Qed.

Lemma want_rtriples self c : rtriples (want self c) = rtriples self.
Proof. unfold want. destruct (_ || _); [done|]. by destruct (decode_inline c). Qed.

Lemma want_inv L self c : inv L self -> inv L (want self c).
Proof.
  intros Hi. apply (inv_grows L self); [done|apply want_grows|apply want_rtriples|].
  apply want_sound, Hi.
Qed.

Lemma want_tracked self c t : denotes c t -> tracked (want self c) c.
Proof.
  intros Hd. unfold want, has_key.
  destruct (Z.eqb_spec c DEFAULT_GRAPH_ID) as [->|Hn]; [by apply denotes_not_default in Hd|]. cbn [orb].
  case_bool_decide as H1; [by left|]. case_bool_decide as H2; [by right; left|]. cbn [orb].
  destruct (decode_inline c) eqn:E; unfold tracked; cbn.
  - left. rewrite lookup_insert_eq. by eexists.
  - right. right. set_solver.
Qed.

Lemma absorb_term_inv L self r : r ∈ terms db -> inv L self -> inv L (absorb_term self r).
Proof.
  intros Hr Hi. unfold absorb_term. destruct (term_of_row r) as [t|] eqn:Ht; [|done].
  apply (inv_grows L self); [done|apply set_known_grows|done|].
  apply set_known_sound; [apply Hi|]. intros t'. by apply denotes_row_eq.
Qed.

Lemma absorb_term_grows self r : grows self (absorb_term self r).
Proof. unfold absorb_term. destruct (term_of_row r); [apply set_known_grows|by intros id]. Qed.

Lemma absorb_triple_grows self r : grows self (absorb_triple self r).
Proof.
  intros id H. unfold absorb_triple. do 3 apply want_grows.
  destruct H as [H|[H|H]]; unfold tracked; cbn; [by left|right; left|by right; right].
  destruct (decide (id = tt_id r)) as [->|]; [rewrite lookup_insert_eq; by eexists|by rewrite lookup_insert_ne].
Qed.

Lemma absorb_triple_rtriples self r :
  rtriples (absorb_triple self r) = <[tt_id r := parts_of r]> (rtriples self).
Proof. unfold absorb_triple. by rewrite !want_rtriples. Qed.

Lemma absorb_triple_inv L self r :
  r ∈ triples db -> is_triple_id (tt_id r) = true -> inv L self -> inv L (absorb_triple self r).
Proof.
  intros Hr Ht Hi. constructor.
  - unfold absorb_triple. do 3 apply want_sound. apply Hi.
  - intros id parts. rewrite absorb_triple_rtriples.
    destruct (decide (id = tt_id r)) as [->|Hne].
    + rewrite lookup_insert_eq. intros [= <-]. split; [done|]. exists r. split_and!; [done..|].
      intros c t Hc Hd. left. unfold absorb_triple, components in *.
      apply elem_of_cons in Hc as [->|Hc]; [do 2 apply want_grows; by eapply want_tracked|].
      apply elem_of_cons in Hc as [->|Hc]; [apply want_grows; by eapply want_tracked|].
      apply list_elem_of_singleton in Hc as ->. by eapply want_tracked.
    + rewrite lookup_insert_ne by done. intros H.
      destruct (inv_triples L self Hi id parts H) as (? & r' & ? & ? & ? & Hc).
      split; [done|]. exists r'. split_and!; [done..|]. intros c t Hin Hd.
      destruct (Hc c t Hin Hd); [left; by apply absorb_triple_grows|by right].
Qed.

(** *** A round of lookup *)

Lemma asked_inv self : inv ∅ self -> inv (pending self) (asked self).
Proof.
  intros [[Hk Hp] Ht]. constructor; [split; [done|set_solver]|].
  intros id parts H. destruct (Ht id parts H) as (? & r & ? & ? & ? & Hc).
  split; [done|]. exists r. split_and!; [done..|]. intros c t Hin Hd.
  destruct (Hc c t Hin Hd) as [[H'|[H'|H']]|H']; [left; by left|left; right; by left|by right|set_solver].
Qed.

Lemma answered_inv_lookup self : inv ∅ self -> inv (pending self) (answered self).
Proof.
  intros Hi. unfold answered.
  apply (foldl_invariant (inv (pending self))).
  - apply (foldl_invariant (inv (pending self))); [by apply asked_inv|].
    intros a r [Hr _]%elem_of_answer_terms. by apply absorb_term_inv.
  - intros a r [Hr [_ Ht]%elem_of_triple_lookups]%elem_of_answer_triples. by apply absorb_triple_inv.
Qed.

Lemma answered_grows self id : tracked (asked self) id -> tracked (answered self) id.
Proof.
  intros H. unfold answered. apply (foldl_invariant (fun a => tracked a id)).
  - apply (foldl_invariant (fun a => tracked a id)); [done|].
    intros a r _. apply absorb_term_grows.
  - intros a r _. apply absorb_triple_grows.
Qed.

Lemma known_absorb_term self r id :
  is_Some (known self !! id) -> is_Some (known (absorb_term self r) !! id).
Proof.
  intros H. unfold absorb_term. destruct (term_of_row r); [|done]. cbn.
  destruct (decide (id = tr_id r)) as [->|]; [rewrite lookup_insert_eq; by eexists|by rewrite lookup_insert_ne].
Qed.

(** Every id of the lookup that denotes a term has been decoded or fetched. *)
Lemma answered_lookup self id t :
  inv ∅ self -> id ∈ pending self -> denotes id t -> tracked (answered self) id.
Proof.
  intros Hi Hp Hd. inversion Hd as [id' u Hu Hid|r u Hn Hnt Hr Hu Hid|r s p o u Hn Hr Hs Hpp Ho Hu Hid]; subst.
  - destruct (inv_sound _ _ Hi) as [_ H]. by rewrite H in Hu.
  - assert (r ∈ answer_terms self) as Hin.
    { apply elem_of_answer_terms. split; [done|]. by apply elem_of_term_lookups. }
    unfold answered. apply (foldl_invariant (fun a => tracked a (tr_id r))).
    + left. apply (foldl_reaches (fun _ => True) (fun a => is_Some (known a !! tr_id r)) _ _ _ r);
        [done|done|done| |].
      * intros a _. unfold absorb_term. rewrite Hu. cbn. rewrite lookup_insert_eq. by eexists.
      * intros a y _ _. apply known_absorb_term.
    + intros a y _. apply absorb_triple_grows.
  - assert (r ∈ answer_triples self) as Hin.
    { apply elem_of_answer_triples. split; [done|]. by apply elem_of_triple_lookups. }
    unfold answered. right. left.
    apply (foldl_reaches (fun _ => True) (fun a => is_Some (rtriples a !! tt_id r)) _ _ _ r);
      [done|done|done| |].
    + intros a _. rewrite absorb_triple_rtriples, lookup_insert_eq. by eexists.
    + intros a y _ _ H. rewrite absorb_triple_rtriples. destruct (decide (tt_id r = tt_id y)) as [<-|].
      * rewrite lookup_insert_eq. by eexists.
      * by rewrite lookup_insert_ne.
Qed.

Lemma answered_inv self : inv ∅ self -> inv ∅ (answered self).
Proof.
  intros Hi. destruct (answered_inv_lookup self Hi) as [Hs Ht]. constructor; [done|].
  intros id parts H. destruct (Ht id parts H) as (? & r & ? & ? & ? & Hc).
  split; [done|]. exists r. split_and!; [done..|]. intros c t Hin Hd. left.
  destruct (Hc c t Hin Hd); [done|]. by eapply answered_lookup.
Qed.

Lemma answered_tracked self id t :
  inv ∅ self -> tracked self id -> denotes id t -> tracked (answered self) id.
Proof.
  intros Hi [H|[H|H]] Hd; [| |by eapply answered_lookup].
  - apply answered_grows. by left.
  - apply answered_grows. right. by left.
Qed.

(** *** Settled ids

    Ids that are decoded, fetched, or whose components are all known. *)

Definition components_known (self : TermResolver) (id : Z) : Prop :=
  forall r c, r ∈ triples db -> tt_id r = id -> c ∈ components r -> is_Some (known self !! c).

Definition settled (self : TermResolver) (id : Z) : Prop :=
  is_Some (known self !! id) \/ is_Some (rtriples self !! id) \/ components_known self id.

Definition known_le (self self' : TermResolver) : Prop :=
  forall id, is_Some (known self !! id) -> is_Some (known self' !! id).

Lemma components_known_le self self' id :
  known_le self self' -> components_known self id -> components_known self' id.
Proof. intros H Hc r c Hr Hid Hin. apply H. by eapply Hc. Qed.

#[local] Instance known_le_preorder : PreOrder known_le.
Proof. split; [by intros x id|]. intros x y z H1 H2 id H. by apply H2, H1. Qed.

(** *** Assembling triple terms *)

(** A fetched triple term whose components are known. *)
Definition assemblable (self : TermResolver) (e : Z * (Z * Z * Z)) : Prop :=
  is_triple_id e.1 = true /\ (exists r, r ∈ triples db /\ tt_id r = e.1 /\ e.2 = parts_of r) /\
  is_ready self e.2 = true.

Lemma is_ready_iff self s p o :
  is_ready self (s, p, o) = true <->
  is_Some (known self !! s) /\ is_Some (known self !! p) /\ is_Some (known self !! o).
Proof. unfold is_ready, has_key. rewrite !andb_true_iff, !bool_decide_eq_true. naive_solver. Qed.

Lemma elem_of_ready self e :
  e ∈ ready self <-> rtriples self !! e.1 = Some e.2 /\ is_ready self e.2 = true.
Proof. unfold ready. rewrite list_elem_of_filter. destruct e. rewrite elem_of_map_to_list. naive_solver. Qed.

Lemma ready_assemblable self e : inv ∅ self -> e ∈ ready self -> assemblable self e.
Proof.
  intros Hi [Hl Hr]%elem_of_ready. destruct (inv_triples _ _ Hi _ _ Hl) as (? & r & ? & ? & ? & _).
  split_and!; [done| |done]. by exists r.
Qed.

(** The triple term built from known components is the one the id denotes. *)
Lemma assembled_eq self r s p o t t' :
  sound self -> r ∈ triples db -> is_triple_id (tt_id r) = true ->
  known self !! tt_s r = Some s -> known self !! tt_p r = Some p -> known self !! tt_o r = Some o ->
  denotes (tt_id r) t' -> (make_triple s p o = Ok t -> term_of_triple t = t') /\ is_ok (make_triple s p o) = true.
Proof.
  intros [Hk _] Hr Ht Es Ep Eo Hd.
  inversion Hd as [id u Hu Hid|r' u Hi Hn Hr' Hu Hid|r' s' p' o' u Hn Hr' Hs Hp Ho Hu Hid]; subst.
  - by rewrite triple_not_inline in Hu.
  - pose proof (row_not_triple r' Hr') as H. rewrite Hid in H. congruence.
  - apply (triples_unique Hdb) in Hid; [|done..]. subst r'.
    rewrite (Hk _ _ _ Es Hs), (Hk _ _ _ Ep Hp), (Hk _ _ _ Eo Ho), Hu. split; [|done].
    by intros [= ->].
Qed.

Lemma assemble_one_known self e id :
  is_Some (known self !! id) -> is_Some (known (assemble_one self e) !! id).
Proof.
  intros H. destruct e as [i [[s p] o]]. cbn.
  destruct (known self !! s); [|done]. destruct (known self !! p); [|done].
  destruct (known self !! o); [|done]. destruct (make_triple _ _ _); [|done].
  destruct (decide (id = i)) as [->|]; [rewrite lookup_insert_eq; by eexists|by rewrite lookup_insert_ne].
Qed.

Lemma assemble_one_rtriples self e : rtriples (assemble_one self e) = delete e.1 (rtriples self).
Proof. by destruct e as [i [[s p] o]]. Qed.

Lemma assemble_one_pending self e : pending (assemble_one self e) = pending self.
Proof. by destruct e as [i [[s p] o]]. Qed.

(** The components of an assemblable triple term, and its term. *)
Lemma assemble_one_spec self e :
  assemblable self e ->
  exists r s p o, r ∈ triples db /\ e = (tt_id r, parts_of r) /\ is_triple_id (tt_id r) = true /\
    known self !! tt_s r = Some s /\ known self !! tt_p r = Some p /\ known self !! tt_o r = Some o /\
    known (assemble_one self e) =
      match make_triple s p o with
      | Ok t => <[tt_id r := term_of_triple t]> (known self)
      | Err _ => known self
      end.
Proof.
  destruct e as [i parts]. intros (Ht & (r & Hr & Hid & Hp) & Hready). cbn in *. subst i parts.
  unfold parts_of in Hready. apply is_ready_iff in Hready as ([s Hs] & [p Hp] & [o Ho]).
  exists r, s, p, o. split_and!; [done..|]. cbn. by rewrite Hs, Hp, Ho.
Qed.

Lemma assemble_one_sound self e : assemblable self e -> sound self -> sound (assemble_one self e).
Proof.
  intros He Hs. destruct (assemble_one_spec self e He) as (r & s & p & o & Hr & -> & Ht & Es & Ep & Eo & Hk).
  split; [|rewrite assemble_one_pending; apply Hs]. rewrite Hk. intros id t t' Hl Hd.
  destruct (make_triple s p o) as [tr|e] eqn:Hm; [|by eapply Hs].
  destruct (decide (id = tt_id r)) as [->|Hne].
  - rewrite lookup_insert_eq in Hl. injection Hl as <-.
    by apply (assembled_eq self r s p o tr t').
  - rewrite lookup_insert_ne in Hl by done. by eapply Hs.
Qed.

Lemma assemble_one_tracked self e id t :
  assemblable self e -> sound self -> denotes id t -> tracked self id -> tracked (assemble_one self e) id.
Proof.
  intros He Hs Hd [H|[H|H]].
  - left. by apply assemble_one_known.
  - destruct (assemble_one_spec self e He) as (r & s & p & o & Hr & -> & Ht & Es & Ep & Eo & Hk).
    destruct (decide (id = tt_id r)) as [->|Hne].
    + left. rewrite Hk. destruct (assembled_eq self r s p o (mkTriple (NobNamedNode "") "" t) t Hs Hr Ht Es Ep Eo Hd) as [_ Hok].
      destruct (make_triple s p o); [|done]. rewrite lookup_insert_eq. by eexists.
    + right. left. rewrite assemble_one_rtriples. by rewrite lookup_delete_ne.
  - right. right. by rewrite assemble_one_pending.
Qed.

Lemma assemble_one_inv self e : assemblable self e -> inv ∅ self -> inv ∅ (assemble_one self e).
Proof.
  intros He [Hs Ht]. constructor; [by apply assemble_one_sound|].
  intros id parts. rewrite assemble_one_rtriples, lookup_delete_Some. intros [Hne H].
  destruct (Ht id parts H) as (? & r & ? & ? & ? & Hc). split; [done|].
  exists r. split_and!; [done..|]. intros c t Hin Hd.
  destruct (Hc c t Hin Hd); [|by right]. left. by eapply assemble_one_tracked.
Qed.

Lemma assemble_one_settled self e id :
  assemblable self e -> settled self id -> settled (assemble_one self e) id.
Proof.
  intros He Hs. assert (known_le self (assemble_one self e)) as Hle.
  { intros i. apply assemble_one_known. }
  destruct Hs as [H|[H|H]]; [left; by apply Hle| |right; right; by eapply components_known_le].
  destruct (decide (id = e.1)) as [->|Hne].
  - right. right. eapply components_known_le; [exact Hle|].
    destruct He as (_ & (r & Hr & Hid & Hp) & Hready). rewrite Hp in Hready.
    apply is_ready_iff in Hready as (Ks & Kp & Ko).
    intros r' c Hr' Hid' Hc. assert (r' = r) as -> by (apply (triples_unique Hdb); congruence).
    unfold components in Hc. set_solver.
  - right. left. by rewrite assemble_one_rtriples, lookup_delete_ne.
Qed.

(** The loop over the ready triple terms. *)
Lemma assemble_batch self :
  inv ∅ self ->
  let self' := foldl assemble_one self (ready self) in
  inv ∅ self' /\ pending self' = pending self /\ known_le self self' /\
  (forall id, settled self id -> settled self' id) /\
  (forall id t, denotes id t -> tracked self id -> tracked self' id).
Proof.
  intros Hi. cbn zeta.
  apply (foldl_invariant (fun a => (inv ∅ a /\ pending a = pending self /\ known_le self a /\
    (forall id, settled self id -> settled a id) /\
    (forall id t, denotes id t -> tracked self id -> tracked a id)))); [done|].
  intros a e He (Ha & Hp & Hk & Hst & Hg).
  assert (assemblable a e) as Hae.
  { destruct (ready_assemblable self e Hi He) as (? & ? & Hr). split_and!; [done..|].
    destruct e as [i [[s p] o]]. cbn [snd] in *. apply is_ready_iff. apply is_ready_iff in Hr. naive_solver. }
  split_and!.
  - by apply assemble_one_inv.
  - by rewrite assemble_one_pending.
  - intros id H. by apply assemble_one_known, Hk.
  - intros id H. by apply assemble_one_settled, Hst.
  - intros id t Hd H. eapply assemble_one_tracked; [done|apply Ha|done|]. by eapply Hg.
Qed.

Lemma batch_size self :
  ready self <> [] ->
  (size (rtriples (foldl assemble_one self (ready self))) < size (rtriples self))%nat.
Proof.
  intros Hne. assert (forall l a, rtriples (foldl assemble_one a l) ⊆ rtriples a) as Hsub.
  { induction l as [|e l IH]; intros a; cbn; [done|]. etrans; [apply IH|].
    rewrite assemble_one_rtriples. apply delete_subseteq. }
  destruct (ready self) as [|e l] eqn:E; [done|]. cbn.
  assert (e ∈ ready self) as [Hl _]%elem_of_ready by (rewrite E; by left).
  eapply Nat.le_lt_trans; [apply map_subseteq_size, Hsub|].
  rewrite assemble_one_rtriples, map_size_delete, Hl. cbn.
  assert (size (rtriples self) <> 0)%nat; [|lia].
  intros H0%map_size_empty_inv. by rewrite H0 in Hl.
Qed.

Lemma assemble_loop_spec fuel self :
  (size (rtriples self) <= fuel)%nat -> inv ∅ self ->
  let self' := assemble_loop fuel self in
  ready self' = [] /\ inv ∅ self' /\ pending self' = pending self /\
  (forall id, settled self id -> settled self' id) /\ known_le self self' /\
  (forall id t, denotes id t -> tracked self id -> tracked self' id).
Proof.
  revert self. induction fuel as [|fuel IH]; intros self Hf Hi; cbn zeta.
  - assert (ready self = []) as Hr.
    { unfold ready. assert (rtriples self = ∅) as -> by (apply map_size_empty_inv; lia).
      by rewrite map_to_list_empty. }
    cbn. rewrite Hr. split_and!; naive_solver.
  - cbn [assemble_loop]. destruct (ready self) as [|e l] eqn:Hr; [split_and!; naive_solver|].
    rewrite <- Hr. destruct (assemble_batch self Hi) as (Hi' & Hp' & Hk' & Hs' & Hg').
    assert (ready self <> []) as Hne by by rewrite Hr.
    pose proof (batch_size self Hne).
    destruct (IH (foldl assemble_one self (ready self))) as (? & ? & Hp2 & Hs2 & Hk2 & Hg2); [lia|done|].
    split_and!; [done|done|congruence|auto|by etrans|]. intros id t Hd H'. eapply Hg2, Hg', H'; done.
Qed.

(** When nothing is pending and nothing is ready, everything that was tracked is known. *)
Lemma finished self id t :
  inv ∅ self -> ready self = [] -> pending self = ∅ -> denotes id t -> tracked self id ->
  known self !! id = Some t.
Proof.
  intros Hi Hr Hp Hd. 
  assert (is_Some (known self !! id) -> known self !! id = Some t) as Hknown.
  { intros [u Hu]. rewrite Hu. f_equal. destruct (inv_sound _ _ Hi) as [Hk _]. by eapply Hk. }
  induction Hd as [id t Hin|r t Hn Hnt Hin Ht|r s p o t Hn Hin Hs IHs Hpp IHp Ho IHo Hm];
    (intros [H|[[parts H]|H]]; [by apply Hknown| |by rewrite Hp in H]).
  - destruct (inv_triples _ _ Hi _ _ H) as (Ht & _). by rewrite triple_not_inline in Hin.
  - destruct (inv_triples _ _ Hi _ _ H) as (Ht' & _). congruence.
  - exfalso. destruct (inv_triples _ _ Hi _ _ H) as (_ & r' & Hr' & Hid & -> & Hc).
    apply (triples_unique Hdb) in Hid; [|done..]. subst r'.
    assert (forall c u, c ∈ components r -> denotes c u ->
      ((is_Some (known self !! c) -> known self !! c = Some u) -> tracked self c -> known self !! c = Some u) ->
      known self !! c = Some u) as Hall.
    { intros c u Hc' Hd IH. apply IH.
      - intros [v Hv]. rewrite Hv. f_equal. destruct (inv_sound _ _ Hi) as [Hk _]. by eapply Hk.
      - destruct (Hc c u Hc' Hd); [done|set_solver]. }
    assert ((tt_id r, parts_of r) ∈ ready self) as Hready; [|rewrite Hr in Hready; by apply elem_of_nil in Hready].
    apply elem_of_ready. split; [done|]. cbn. unfold parts_of. apply is_ready_iff.
    split_and!; eexists; (eapply Hall; [unfold components; set_solver|done|done]).
Qed.

(** ** Termination

    A triple row met before is not fetched again, unless it was wanted while its own lookup was
    being answered, or could not be assembled; it then makes no new request. [seen] is the set of
    the ids of the triple rows met so far. *)

Definition fresh (seen : gset Z) (self : TermResolver) : Prop :=
  forall id, id ∈ pending self -> id ∈ seen -> components_known self id.

Definition unseen (seen : gset Z) : nat := length (filter (fun r => tt_id r ∉ seen) (triples db)).

Lemma want_known_le self c : known_le self (want self c).
Proof.
  intros id H. unfold want. destruct (_ || _); [done|]. destruct (decode_inline c); [|done]. cbn.
  destruct (decide (id = c)) as [->|]; [rewrite lookup_insert_eq; by eexists|by rewrite lookup_insert_ne].
Qed.

Lemma absorb_triple_known_le self r : known_le self (absorb_triple self r).
Proof. intros id H. unfold absorb_triple. by do 3 apply want_known_le. Qed.

Lemma absorb_term_pending self r : pending (absorb_term self r) = pending self.
Proof. unfold absorb_term. by destruct (term_of_row r). Qed.

Lemma absorb_term_known_le self r : known_le self (absorb_term self r).
Proof. intros id. apply known_absorb_term. Qed.

Lemma absorb_term_settled self r id : settled self id -> settled (absorb_term self r) id.
Proof.
  assert (rtriples (absorb_term self r) = rtriples self) as E.
  { unfold absorb_term. by destruct (term_of_row r). }
  intros [H|[H|H]]; [left; by apply known_absorb_term|right; left; by rewrite E|right; right].
  eapply components_known_le, H. intros i. apply known_absorb_term.
Qed.

Lemma want_settled self c id : settled self id -> settled (want self c) id.
Proof.
  intros [H|[H|H]]; [left; by apply want_known_le|right; left; by rewrite want_rtriples|right; right].
  eapply components_known_le, H. apply want_known_le.
Qed.

Lemma absorb_triple_settled self r id : settled self id -> settled (absorb_triple self r) id.
Proof.
  intros H. unfold absorb_triple. do 3 apply want_settled.
  destruct H as [H|[H|H]]; [by left|right; left; cbn|by right; right].
  destruct (decide (id = tt_id r)) as [->|]; [rewrite lookup_insert_eq; by eexists|by rewrite lookup_insert_ne].
Qed.

(** A wanted id that was settled has known components: it is not fetched again for nothing. *)
Lemma want_fresh seen self c :
  (forall id, id ∈ seen -> settled self id) -> fresh seen self -> fresh seen (want self c).
Proof.
  intros Hs Hf id Hp Hin. eapply components_known_le; [apply want_known_le|].
  unfold want, has_key in Hp. destruct (_ =? _); [by apply Hf|]. cbn [orb] in Hp.
  case_bool_decide as H1; [by apply Hf|]. case_bool_decide as H2; [by apply Hf|]. cbn [orb] in Hp.
  destruct (decode_inline c); [by apply Hf|]. cbn in Hp.
  apply elem_of_union in Hp as [->%elem_of_singleton|Hp]; [|by apply Hf].
  by destruct (Hs c Hin) as [?|[?|?]].
Qed.

Lemma absorb_triple_fresh seen self r :
  (forall id, id ∈ seen -> settled self id) -> fresh seen self -> fresh seen (absorb_triple self r).
Proof.
  intros Hs Hf. unfold absorb_triple. set (self0 := mkTermResolver _ _ _ _).
  assert (forall id, id ∈ seen -> settled self0 id) as Hs0.
  { intros id Hin. destruct (Hs id Hin) as [H|[H|H]]; [by left|right; left; cbn|by right; right].
    destruct (decide (id = tt_id r)) as [->|]; [rewrite lookup_insert_eq; by eexists|by rewrite lookup_insert_ne]. }
  assert (fresh seen self0) as Hf0 by done.
  do 3 (apply want_fresh; [intros; repeat apply want_settled; by apply Hs0|]). done.
Qed.

Lemma answered_settled self id : settled self id -> settled (answered self) id.
Proof.
  intros H. unfold answered. apply (foldl_invariant (fun a => settled a id)).
  - apply (foldl_invariant (fun a => settled a id)); [done|]. intros a r _. apply absorb_term_settled.
  - intros a r _. apply absorb_triple_settled.
Qed.

Lemma answered_seen self r : r ∈ answer_triples self -> settled (answered self) (tt_id r).
Proof.
  intros Hr. unfold answered.
  apply (foldl_reaches (fun _ => True) (fun a => settled a (tt_id r)) _ _ _ r); [done|done|done| |].
  - intros a _. right. left. rewrite absorb_triple_rtriples, lookup_insert_eq. by eexists.
  - intros a y _ _. apply absorb_triple_settled.
Qed.

Lemma answered_fresh seen self :
  (forall id, id ∈ seen -> settled self id) -> fresh seen (answered self).
Proof.
  intros Hs. unfold answered.
  apply (foldl_invariant (fun a => (forall id, id ∈ seen -> settled a id) /\ fresh seen a)).
  - split.
    + intros id Hin. apply (foldl_invariant (fun a => settled a id)).
      * by apply Hs.
      * intros a r _. apply absorb_term_settled.
    + intros id Hp. exfalso. revert Hp.
      apply (foldl_invariant (fun a => id ∉ pending a)); [cbn; set_solver|].
      intros a r _. by rewrite absorb_term_pending.
  - intros a r _ [Ha Hf]. split; [|by apply absorb_triple_fresh].
    intros id Hin. apply absorb_triple_settled. by apply Ha.
Qed.

(** Rows whose components are known want nothing. *)
Lemma want_known self c : is_Some (known self !! c) -> want self c = self.
Proof. intros H. unfold want, has_key. rewrite bool_decide_eq_true_2 by done. by rewrite orb_true_r. Qed.

Lemma absorb_triple_quiet self r :
  r ∈ triples db -> components_known self (tt_id r) -> pending (absorb_triple self r) = pending self.
Proof.
  intros Hr Hc. unfold absorb_triple. unfold components_known, components in Hc.
  assert (forall c, c ∈ [tt_s r; tt_p r; tt_o r] -> is_Some (known self !! c)) as H by eauto.
  rewrite (want_known _ (tt_s r)) by (cbn; apply H; set_solver).
  rewrite (want_known _ (tt_p r)) by (cbn; apply H; set_solver).
  rewrite (want_known _ (tt_o r)) by (cbn; apply H; set_solver). done.
Qed.

Lemma answered_quiet self :
  (forall r, r ∈ answer_triples self -> components_known self (tt_id r)) ->
  pending (answered self) = ∅.
Proof.
  intros Hq. unfold answered.
  enough (pending (foldl absorb_triple (foldl absorb_term (asked self) (answer_terms self)) (answer_triples self)) = ∅
    /\ known_le self (foldl absorb_triple (foldl absorb_term (asked self) (answer_terms self)) (answer_triples self))) by naive_solver.
  apply (foldl_invariant (fun a => pending a = ∅ /\ known_le self a)).
  - apply (foldl_invariant (fun a => pending a = ∅ /\ known_le self a)); [by split; [|intros id]|].
    intros a r _ [Hp Hk]. rewrite absorb_term_pending. split; [done|].
    etrans; [exact Hk|apply absorb_term_known_le].
  - intros a r Hr [Hp Hk]. split; [|etrans; [exact Hk|apply absorb_triple_known_le]].
    rewrite absorb_triple_quiet; [done|by apply elem_of_answer_triples in Hr as [? _]|].
    eapply components_known_le; [exact Hk|by apply Hq].
Qed.

(** *** Rounds *)

(** What a round of lookup does: [seen] grows by the rows of the answer. *)
Lemma round_spec (seen : gset Z) self :
  inv ∅ self -> (forall id, id ∈ seen -> settled self id) ->
  let self' := assemble (answered self) in
  let seen' := seen ∪ list_to_set (tt_id <$> answer_triples self) in
  ready self' = [] /\ inv ∅ self' /\ (forall id, id ∈ seen' -> settled self' id) /\
  (forall id t, denotes id t -> tracked self id -> tracked self' id) /\ fresh seen self' /\
  (fresh seen self -> (forall r, r ∈ answer_triples self -> tt_id r ∈ seen) -> pending self' = ∅).
Proof.
  intros Hi Hs. pose proof (answered_inv self Hi) as Ha.
  destruct (assemble_loop_spec _ (answered self) (le_n _) Ha) as (Hr & Hi' & Hp & Hst & Hk & Hg).
  cbn zeta. unfold assemble. set (self' := assemble_loop _ _) in *. split_and!; [done|done|..].
  - intros id [Hin|Hin]%elem_of_union; apply Hst.
    + by apply answered_settled, Hs.
    + apply elem_of_list_to_set, list_elem_of_fmap in Hin as (r & -> & Hin). by apply answered_seen.
  - intros id t Hd H. apply (Hg id t Hd). by eapply answered_tracked.
  - intros id Hin Hsn. rewrite Hp in Hin. eapply components_known_le; [exact Hk|].
    by apply (answered_fresh seen self Hs).
  - intros Hf Hall. rewrite Hp. apply answered_quiet. intros r Hin.
    apply Hf; [|by apply Hall]. by apply elem_of_answer_triples in Hin as [_ [? _]%elem_of_triple_lookups].
Qed.

Lemma unseen_decreases (seen : gset Z) (l : list TripleRow) r :
  r ∈ l -> r ∈ triples db -> tt_id r ∉ seen ->
  (unseen (seen ∪ list_to_set (tt_id <$> l)) < unseen seen)%nat.
Proof.
  intros Hl Hr Hn. unfold unseen. set (seen' := seen ∪ _).
  assert (tt_id r ∈ seen') as Hin.
  { apply elem_of_union_r, elem_of_list_to_set. by apply list_elem_of_fmap_2. }
  assert (forall i, i ∉ seen' -> i ∉ seen) as Hsub by set_solver.
  clearbody seen'. clear Hl. induction (triples db) as [|x xs IH]; [by apply elem_of_nil in Hr|].
  assert (length (filter (fun r => tt_id r ∉ seen') xs) <= length (filter (fun r => tt_id r ∉ seen) xs))%nat as Hle.
  { clear -Hsub. induction xs as [|y ys IH]; [done|]. rewrite !filter_cons.
    destruct (decide (tt_id y ∉ seen')), (decide (tt_id y ∉ seen)); cbn; try lia. exfalso. by auto. }
  rewrite !filter_cons. apply elem_of_cons in Hr as [<-|Hr].
  - rewrite decide_False by (intros H; by apply H). rewrite decide_True by done. cbn. lia.
  - specialize (IH Hr). destruct (decide (tt_id x ∉ seen')), (decide (tt_id x ∉ seen)); cbn; try lia.
    exfalso. by auto.
Qed.

(** *** The loop ends *)

Lemma resolve_loop_ends caps fuel (seen : gset Z) self :
  inv ∅ self -> ready self = [] -> (forall id, id ∈ seen -> settled self id) ->
  (pending self = ∅ \/ (fresh seen self /\ (3 * unseen seen + 1 <= fuel)%nat)
   \/ (3 * unseen seen + 2 <= fuel)%nat) ->
  exists self', resolve_loop fuel caps self = Some (Ok self') /\
    inv ∅ self' /\ ready self' = [] /\ pending self' = ∅ /\
    (forall id t, denotes id t -> tracked self id -> tracked self' id).
Proof.
  revert seen self. induction fuel as [|fuel IH]; intros seen self Hi Hr Hs Hm.
  all: destruct (decide (pending self = ∅)) as [Hp|Hp].
  1, 3: exists self; cbn [resolve_loop]; rewrite request_none by done; naive_solver.
  { destruct Hm as [?|[[_ ?]|?]]; [done|lia..]. }
  destruct (round_ok self caps Hp) as (rq & self1 & Hrq & Habs). cbn [resolve_loop]. rewrite Hrq, Habs.
  destruct (round_spec seen self Hi Hs) as (Hr' & Hi' & Hs' & Hg & Hf & Hq).
  set (self' := assemble (answered self)) in *.
  set (seen' := seen ∪ list_to_set (tt_id <$> answer_triples self)) in *.
  enough (exists seen'', (forall id, id ∈ seen'' -> settled self' id) /\
    (pending self' = ∅ \/ (fresh seen'' self' /\ (3 * unseen seen'' + 1 <= fuel)%nat)
     \/ (3 * unseen seen'' + 2 <= fuel)%nat)) as (seen'' & Hss & Hmm).
  { destruct (IH seen'' self' Hi' Hr' Hss Hmm) as (out & Hout & ? & ? & ? & Hg').
    exists out. split_and!; [done..|]. intros id t Hd Htr. eapply Hg', Hg, Htr; done. }
  destruct (decide (Exists (fun r => tt_id r ∉ seen) (answer_triples self))) as [Hnew|Hold].
  - exists seen'. split; [done|]. right. right.
    apply Exists_exists in Hnew as (r & Hin & Hn).
    assert (unseen seen' < unseen seen)%nat.
    { eapply unseen_decreases; [done| |done]. by apply elem_of_answer_triples in Hin as [? _]. }
    destruct Hm as [?|[[_ ?]|?]]; [done|lia|lia].
  - assert (forall r, r ∈ answer_triples self -> tt_id r ∈ seen) as Hall.
    { intros r Hin. destruct (decide (tt_id r ∈ seen)); [done|]. exfalso. apply Hold.
      apply Exists_exists. by exists r. }
    exists seen. split; [intros id Hid; apply Hs'; set_solver|].
    destruct Hm as [?|[[Hfr _]|Hle]]; [done|left; by apply Hq|right; left; split; [done|lia]].
Qed.

(** The ids a job wants, on top of the constants it starts with. *)
Definition wanting (constants : gmap Z Term) (ids : list Z) : TermResolver :=
  foldl want (with_constants constants) ids.

Lemma wanting_spec constants ids :
  (forall id t t', constants !! id = Some t -> denotes id t' -> t = t') ->
  inv ∅ (wanting constants ids) /\ ready (wanting constants ids) = [] /\
  rtriples (wanting constants ids) = ∅ /\
  (forall id t, id ∈ ids -> denotes id t -> tracked (wanting constants ids) id).
Proof.
  intros Hc. unfold wanting.
  assert (rtriples (foldl want (with_constants constants) ids) = ∅) as Ht.
  { apply (foldl_invariant (fun a => rtriples a = ∅)); [done|]. intros. by rewrite want_rtriples. }
  split_and!; [| |done|].
  - apply (foldl_invariant (inv ∅)); [|intros; by apply want_inv].
    constructor; [split; [done|set_solver]|]. intros id parts. cbn. by rewrite lookup_empty.
  - unfold ready. rewrite Ht. by rewrite map_to_list_empty.
  - intros id t Hin Hd.
    apply (foldl_reaches (fun _ => True) (fun a => tracked a id) _ _ _ id); [done|done|done| |].
    + intros a _. by eapply want_tracked.
    + intros a y _ _. apply want_grows.
Qed.
End dictionary.

(** C10: whatever ids are wanted of a readable dictionary, looking them up ends, after at most
    three lookups per triple term of the dictionary plus two, without an error, and every
    wanted id that denotes a term (directly, or as a triple term nested to any depth) then
    decodes to that term. *)
Theorem resolver_complete (db : EncodedRows) (caps : Capabilities) (constants : gmap Z Term)
    (ids : list Z) (Hdb : readable db)
    (Hconst : forall id t t', constants !! id = Some t -> denotes db id t' -> t = t') :
  exists r,
    resolve_loop db (3 * length (triples db) + 2) caps (wanting constants ids) = Some (Ok r) /\
    is_complete r = true /\
    (forall id t, id ∈ ids -> denotes db id t -> get r id = Ok t).
Proof.
  destruct (wanting_spec db Hdb constants ids Hconst) as (Hi & Hr & _ & Ht).
  destruct (resolve_loop_ends db Hdb caps (3 * length (triples db) + 2) ∅ (wanting constants ids))
    as (r & Hrun & Hi' & Hr' & Hp & Hg); [done|done|set_solver| |].
  { right. right. assert (unseen db ∅ <= length (triples db))%nat; [|lia]. apply length_filter. }
  exists r. split_and!; [done|by apply bool_decide_eq_true|].
  intros id t Hin Hd. unfold get.
  rewrite (finished db Hdb r id t); [done..|]. eapply Hg; [done|]. by eapply Ht.
Qed.
End facts.
