(* ===== verification/RoundTrip.v ===== *)
(** * Quads survive storage

    What [EncodedQuads] writes and what a [TermResolver] reads are inverse: in the dictionary
    written with a list of quads, the ids of each quad denote its terms, provided no two of the
    list's terms have the same id ([quads_roundtrip]). With [resolver_complete] a reader gets the
    quads back. *)

From S2P Require Export ResolveFacts.

Section roundtrip.
Context {OX : Oxrdf} {XX : Xxh3} {OD : OxsDatatypes} {laws : OxrdfLaws OX}.

(** ** The terms of a list of quads *)

Fixpoint subterms (t : Term) : list Term :=
  t :: match t with
       | TermTriple s p o => term_of_subject s :: TermNamedNode p :: subterms o
       | _ => []
       end.

Definition graph_term (g : GraphName) : option Term :=
  match g with
  | GnDefaultGraph => None
  | GnNamedNode n => Some (TermNamedNode n)
  | GnBlankNode b => Some (TermBlankNode b)
  end.

Definition quad_terms (q : Quad) : list Term :=
  term_of_subject (qd_subject q) :: TermNamedNode (qd_predicate q) :: subterms (qd_object q) ++
  option_list (graph_term (qd_graph_name q)).

(** ** Rows and the terms they are written for *)

Definition plain (t : Term) : Prop := match t with TermTriple _ _ _ => False | _ => True end.

(** [r] is the row of the hashed plain term [t]. *)
Definition row_for (t : Term) (r : TermRow) : Prop :=
  tr_id r = term_id t /\ term_of_row r = Ok t /\ decode_inline (tr_id r) = None /\
  is_triple_id (tr_id r) = false.

Definition triple_row_for (t : Term) (r : TripleRow) : Prop :=
  match t with
  | TermTriple s p o =>
      tt_id r = term_id t /\ tt_s r = subject_id s /\ tt_p r = named_node_id p /\ tt_o r = term_id o
  | _ => False
  end.

(** Every row is the row of one of the terms [ts]. *)
Definition rows_of (ts : list Term) (rows : EncodedRows) : Prop :=
  (forall r, r ∈ terms rows -> exists t, t ∈ ts /\ row_for t r) /\
  (forall r, r ∈ triples rows -> exists t, t ∈ ts /\ triple_row_for t r).

Lemma hashed_row_facts g key :
  g = Iri \/ g = TBlankNode \/ g = TString \/ g = LangString \/ g = Typed \/ g = DirLangString ->
  decode_inline (hashed g key) = None /\ is_triple_id (hashed g key) = false.
Proof.
  intros Hg. unfold decode_inline, is_triple_id. rewrite tag_of_hashed.
  destruct_or! Hg; subst; by split.
Qed.

Lemma iri_row n : row_for (TermNamedNode n) (plain_row (named_node_id n) n).
Proof.
  split; [done|]. unfold term_of_row, decode_row. cbn [tr_id plain_row].
  unfold named_node_id. rewrite tag_of_hashed. split; [done|]. apply hashed_row_facts. auto.
Qed.

Lemma bnode_row b : row_for (TermBlankNode b) (plain_row (blank_node_id b) b).
Proof.
  split; [done|]. unfold term_of_row, decode_row. cbn [tr_id plain_row].
  unfold blank_node_id. rewrite tag_of_hashed. split; [done|]. apply hashed_row_facts. auto.
Qed.

Lemma literal_row l :
  match encode_literal l with
  | (id, Some r) => row_for (TermLiteral l) r
  | (id, None) => denotes empty_rows id (TermLiteral l) /\ decode_inline id = Some (TermLiteral l)
  end.
Proof.
  pose proof (decode_encode_literal l) as H.
  assert (term_id (TermLiteral l) = (encode_literal l).1) as Hid by done.
  assert (forall r, (encode_literal l).2 = Some r -> exists g key,
    (g = Iri \/ g = TBlankNode \/ g = TString \/ g = LangString \/ g = Typed \/ g = DirLangString) /\
    (encode_literal l).1 = hashed g key) as Hh.
  { intros r. destruct (lit_language l) as [t|] eqn:Hl.
    { unfold encode_literal. rewrite Hl. destruct (lit_direction l); intros _; eexists _, _; (split; [|done]); auto 10. }
    destruct (String.eqb_spec (lit_datatype l) xsd.STRING) as [Hs|Hs].
    { unfold encode_literal. rewrite Hl, Hs. intros _. eexists _, _. split; [|done]. auto. }
    pose proof (encode_typed l Hl Hs) as He. destruct (inline_id l) as [id|].
    - by rewrite He.
    - destruct He as (row & -> & _). intros _. eexists _, _. split; [|done]. auto 10. }
  destruct (encode_literal l) as [id [r|]]; cbn [fst snd] in *.
  - destruct H as [Hr H]. destruct (Hh r eq_refl) as (g & key & Hg & ->).
    destruct (hashed_row_facts g key Hg). unfold row_for, term_of_row. rewrite Hr. by split_and!.
  - split; [by constructor|done].
Qed.

Lemma rows_of_mono ts ts' rows : (forall t, t ∈ ts -> t ∈ ts') -> rows_of ts rows -> rows_of ts' rows.
Proof. intros Hs [H1 H2]. split; [intros r Hr; destruct (H1 r Hr)|intros r Hr; destruct (H2 r Hr)]; naive_solver. Qed.

Lemma push_term_rows_of ts rows t r :
  t ∈ ts -> row_for t r -> rows_of ts rows -> rows_of ts (push_term rows r).
Proof.
  intros Ht Hr [H1 H2]. split; [|done]. intros r' [?|Hr']%elem_of_app; [by apply H1|].
  apply list_elem_of_singleton in Hr' as ->. by exists t.
Qed.

(** *** Collecting the rows of a term *)

(** One step: every row is the row of a term of [ts], the id is the term's, and every subterm is
    stored. *)
Definition stores (ts : list Term) (t : Term) (rows : EncodedRows) (out : EncodedRows * Z) : Prop :=
  (rows_of ts rows -> rows_of ts out.1) /\ out.2 = term_id t /\
  Forall (fun u => stored out.1 (term_id u)) (subterms t).

Lemma rows_iri_stores ts rows n :
  TermNamedNode n ∈ ts -> stores ts (TermNamedNode n) rows (rows_iri rows n).
Proof.
  intros Hn. destruct (rows_iri_encodes rows n) as (_ & _ & Hs). split_and!; [|done|].
  - by apply (push_term_rows_of ts rows (TermNamedNode n)); [|apply iri_row].
  - cbn [subterms]. constructor; [exact Hs|constructor].
Qed.

Lemma rows_subject_stores ts rows s :
  term_of_subject s ∈ ts -> stores ts (term_of_subject s) rows (rows_subject rows s).
Proof.
  destruct s as [n|b]; [apply rows_iri_stores|]. intros Hb.
  destruct (rows_subject_encodes rows (NobBlankNode b)) as (_ & _ & Hs). split_and!; [|done|].
  - by apply (push_term_rows_of ts rows (TermBlankNode b)); [|apply bnode_row].
  - cbn [subterms]. constructor; [exact Hs|constructor].
Qed.

Lemma subject_term_id s : term_id (term_of_subject s) = subject_id s.
Proof. by destruct s. Qed.

Lemma rows_term_stores ts t rows :
  (forall u, u ∈ subterms t -> u ∈ ts) -> stores ts t rows (rows_term rows t).
Proof.
  revert rows. induction t as [n|b|l|s p o IH]; intros rows Hts.
  - apply rows_iri_stores, Hts. by left.
  - apply (rows_subject_stores ts rows (NobBlankNode b)), Hts. by left.
  - pose proof (literal_row l) as Hl. cbn [rows_term]. unfold stores.
    assert (term_id (TermLiteral l) = (encode_literal l).1) as Hid by done. rewrite !Hid.
    cbn [subterms]. destruct (encode_literal l) as [id [r|]] eqn:E; cbn [fst snd] in *.
    + split_and!; [|done|].
      * apply (push_term_rows_of ts rows (TermLiteral l)); [apply Hts; by left|done].
      * constructor; [|done]. rewrite Hid. right. left. exists r. split; [cbn; set_solver|].
        destruct Hl as [-> _]. done.
    + split_and!; [done|done|]. constructor; [|done]. rewrite Hid. left. rewrite (proj2 Hl). by eexists.
  - cbn [rows_term subterms] in *.
    pose proof (rows_subject_stores ts rows s ltac:(apply Hts; set_solver)) as S1.
    destruct (rows_subject rows s) as [rows1 sid] eqn:E1.
    pose proof (rows_iri_stores ts rows1 p ltac:(apply Hts; set_solver)) as S2.
    pose proof (rows_iri_encodes rows1 p) as (X2 & _ & _).
    destruct (rows_iri rows1 p) as [rows2 pid] eqn:E2.
    pose proof (IH rows2 ltac:(intros u Hu; apply Hts; set_solver)) as S3.
    pose proof (rows_term_encodes rows2 o) as (X3 & _ & _).
    destruct (rows_term rows2 o) as [rows3 oid] eqn:E3.
    destruct S1 as (R1 & I1 & F1), S2 as (R2 & I2 & F2), S3 as (R3 & I3 & F3). cbn [fst snd] in *.
    rewrite subject_term_id in I1. cbn [term_id] in I2. subst sid pid oid.
    set (row := mkTripleRow _ _ _ _ _ _).
    assert (extends rows3 (push_triple rows3 row)) as X4.
    { split; intros x Hx; exists x; (split; [|done]); cbn; set_solver. }
    assert (triple_row_for (TermTriple s p o) row) as Hrow by done.
    split_and!; cbn [fst snd]; [|done|].
    + intros Hr. destruct (R3 (R2 (R1 Hr))) as [H1 H2]. split; [done|].
      intros r [?|Hr']%elem_of_app; [by apply H2|]. apply list_elem_of_singleton in Hr' as ->.
      exists (TermTriple s p o). split; [apply Hts; by left|done].
    + constructor; [|constructor; [|constructor]].
      * right. right. exists row. split; [cbn; set_solver|done].
      * apply (stored_extends rows1); [by rewrite X2, X3|].
        rewrite Forall_forall in F1. apply F1. by destruct s; left.
      * apply (stored_extends rows2); [by rewrite X3|]. rewrite Forall_forall in F2. apply F2. by left.
      * eapply Forall_impl; [exact F3|]. intros u Hu. by eapply stored_extends.
Qed.

(** *** Collecting the rows of quads *)

Definition quad_ids (q : Quad) : QuadIds :=
  (subject_id (qd_subject q), named_node_id (qd_predicate q), term_id (qd_object q),
   graph_id (qd_graph_name q)).

Lemma rows_graph_stores ts rows g :
  (forall t, graph_term g = Some t -> t ∈ ts) ->
  (rows_of ts rows -> rows_of ts (rows_graph rows g).1) /\ extends rows (rows_graph rows g).1 /\
  (rows_graph rows g).2 = graph_id g /\
  (forall t, graph_term g = Some t -> stored (rows_graph rows g).1 (term_id t)).
Proof.
  destruct g as [|n|b]; intros Hg.
  - split_and!; naive_solver.
  - destruct (rows_iri_stores ts rows n (Hg _ eq_refl)) as (? & ? & HF).
    destruct (rows_iri_encodes rows n) as (? & _ & _).
    split_and!; [done..|]. intros t [= <-]. rewrite Forall_forall in HF. apply HF. by left.
  - destruct (rows_subject_stores ts rows (NobBlankNode b) (Hg _ eq_refl)) as (? & ? & HF).
    destruct (rows_subject_encodes rows (NobBlankNode b)) as (? & _ & _).
    split_and!; [done..|]. intros t [= <-]. rewrite Forall_forall in HF. apply HF. by left.
Qed.

Lemma rows_quad_stores ts rows q :
  (forall u, u ∈ quad_terms q -> u ∈ ts) ->
  (rows_of ts rows -> rows_of ts (rows_quad rows q).1) /\ extends rows (rows_quad rows q).1 /\
  (rows_quad rows q).2 = quad_ids q /\
  Forall (fun u => stored (rows_quad rows q).1 (term_id u)) (quad_terms q).
Proof.
  destruct q as [s p o g]. unfold quad_terms, quad_ids, rows_quad.
  cbn [qd_subject qd_predicate qd_object qd_graph_name]. intros Hts.
  pose proof (rows_subject_stores ts rows s ltac:(apply Hts; set_solver)) as S1.
  pose proof (rows_subject_encodes rows s) as (X1 & _ & _).
  destruct (rows_subject rows s) as [rows1 sid] eqn:E1.
  pose proof (rows_iri_stores ts rows1 p ltac:(apply Hts; set_solver)) as S2.
  pose proof (rows_iri_encodes rows1 p) as (X2 & _ & _).
  destruct (rows_iri rows1 p) as [rows2 pid] eqn:E2.
  pose proof (rows_term_stores ts o rows2 ltac:(intros u Hu; apply Hts; set_solver)) as S3.
  pose proof (rows_term_encodes rows2 o) as (X3 & _ & _).
  destruct (rows_term rows2 o) as [rows3 oid] eqn:E3.
  pose proof (rows_graph_stores ts rows3 g) as (R4 & X4 & I4 & F4).
  { intros t Ht. apply Hts. rewrite Ht. set_solver. }
  destruct (rows_graph rows3 g) as [rows4 gid] eqn:E4.
  destruct S1 as (R1 & I1 & F1), S2 as (R2 & I2 & F2), S3 as (R3 & I3 & F3). cbn [fst snd] in *.
  rewrite subject_term_id in I1. cbn [term_id] in I2. subst sid pid oid gid.
  split_and!; [naive_solver|by rewrite X1, X2, X3|done|].
  rewrite Forall_forall in F1, F2.
  constructor; [|constructor]; [..|apply Forall_app; split].
  - apply (stored_extends rows1); [by rewrite X2, X3|]. apply F1. by destruct s; left.
  - apply (stored_extends rows2); [by rewrite X3|]. apply F2. by left.
  - eapply Forall_impl; [exact F3|]. intros u Hu. by eapply stored_extends.
  - destruct (graph_term g) as [t|]; constructor; [by apply F4|constructor].
Qed.

Lemma encoded_quads_store (qs : list Quad) :
  let ts := concat (quad_terms <$> qs) in
  let e := EncodedQuads_new qs in
  rows_of ts (eq_rows e) /\ quads e = quad_ids <$> qs /\
  Forall (fun u => stored (eq_rows e) (term_id u)) ts.
Proof.
  cbn zeta. unfold EncodedQuads_new. cbn [eq_rows quads].
  set (me := foldl _ _ _).
  assert (rows_of (concat (quad_terms <$> qs)) (eq_rows me) /\ quads me = quad_ids <$> qs /\
    Forall (fun u => stored (eq_rows me) (term_id u)) (concat (quad_terms <$> qs))) as (H1 & H2 & H3).
  { subst me. induction qs as [|q qs IH] using rev_ind; [split_and!; [split; set_solver|done|constructor]|].
    rewrite foldl_app, !fmap_app, concat_app. cbn [foldl fmap list_fmap concat]. rewrite app_nil_r.
    set (me := foldl _ _ _) in *. destruct IH as (IH1 & IH2 & IH3). unfold EncodedQuads_push.
    pose proof (rows_quad_stores (concat (quad_terms <$> qs) ++ quad_terms q) (eq_rows me) q) as (R & X & I & F).
    { set_solver. }
    destruct (rows_quad (eq_rows me) q) as [rows ids]. cbn [fst snd eq_rows quads] in *.
    split_and!.
    - apply R. eapply rows_of_mono; [|exact IH1]. set_solver.
    - by rewrite IH2, I.
    - apply Forall_app. split; [|done]. eapply Forall_impl; [exact IH3|].
      intros u Hu. by eapply stored_extends. }
  split_and!; [|done|].
  - destruct H1 as [Ha Hb]. split.
    + intros r Hr. apply Ha. by apply (dedup_sorted_elem tr_id).
    + intros r Hr. apply Hb. by apply (dedup_sorted_elem tt_id).
  - eapply Forall_impl; [exact H3|]. intros u Hu. eapply stored_extends; [apply dedup_extends|done].
Qed.

(** ** The dictionary denotes the terms *)

Lemma sorted_unique {A} (key : A -> Z) (l : list A) x y :
  StronglySorted (key_lt key) l -> x ∈ l -> y ∈ l -> key x = key y -> x = y.
Proof.
  unfold key_lt. induction 1 as [|z l Hs IH Hz]; [by intros ?%elem_of_nil|].
  rewrite Forall_forall in Hz. intros [->|Hx]%elem_of_cons [->|Hy]%elem_of_cons Heq; [done| | |by apply IH].
  - specialize (Hz y Hy). lia.
  - specialize (Hz x Hx). lia.
Qed.

Lemma term_id_i64 t : in_i64 (term_id t) = true.
Proof.
  destruct (term_id_make t) as [p ->]. pose proof (make_range (kind_of t) p). pose proof (kind_base t).
  unfold in_i64, i64_min, i64_max. apply andb_true_intro; split; apply Z.leb_le; lia.
Qed.

Lemma encoded_readable (qs : list Quad) : readable (eq_rows (EncodedQuads_new qs)).
Proof.
  destruct (encoded_quads_store qs) as ([Ht Htr] & _ & _). cbn zeta in *.
  assert (forall rows, StronglySorted (key_lt tr_id) (terms (rows_dedup rows)) /\
    StronglySorted (key_lt tt_id) (triples (rows_dedup rows))) as Hs.
  { intros rows. split; apply dedup_by_key_sorted, sort_by_key_sorted. }
  destruct (Hs (eq_rows (foldl EncodedQuads_push (mkEncodedQuads empty_rows []) qs))) as [S1 S2].
  constructor.
  - intros r r' Hr Hr'. by apply (sorted_unique tr_id _ _ _ S1).
  - intros r r' Hr Hr'. by apply (sorted_unique tt_id _ _ _ S2).
  - intros r Hr. destruct (Ht r Hr) as (t & _ & Hid & Hok & _). rewrite Hid, Hok. split; [apply term_id_i64|done].
  - intros r Hr. destruct (Htr r Hr) as ([| | |s p o] & _ & Hrow); try done.
    destruct Hrow as (-> & -> & -> & ->). rewrite <- subject_term_id.
    split_and!; [apply (term_id_i64 (TermTriple s p o))|apply term_id_i64
                |apply (term_id_i64 (TermNamedNode p))|apply term_id_i64].
Qed.

Lemma triple_id_is_triple t : is_triple_id (term_id t) = true -> exists s p o, t = TermTriple s p o.
Proof.
  destruct (term_id_make t) as [x Hx]. rewrite Hx. unfold is_triple_id. rewrite tag_of_make.
  intros Hk%bool_decide_eq_true. destruct t as [| |l|s p o]; try done; [|by eauto].
  exfalso. injection Hk as Hk. unfold kind_of in Hk. repeat case_match; done.
Qed.

Lemma subject_plain s : plain (term_of_subject s).
Proof. by destruct s. Qed.

(** In a dictionary whose rows are the rows of [ts], without collisions in [ts], an id that is
    stored denotes its term. *)
Lemma stored_denotes ts rows t :
  rows_of ts rows -> (forall t u, t ∈ ts -> u ∈ ts -> term_id t = term_id u -> t = u) ->
  (forall u, u ∈ subterms t -> u ∈ ts /\ stored rows (term_id u)) ->
  denotes rows (term_id t) t.
Proof.
  intros [Ht Htr] Hinj. 
  assert (forall t, plain t -> t ∈ ts -> stored rows (term_id t) -> denotes rows (term_id t) t) as Hplain.
  { intros u Hpl Hu Hst.
    assert (is_triple_id (term_id u) = false) as Hnt.
    { destruct (is_triple_id (term_id u)) eqn:E; [|done].
      by destruct (triple_id_is_triple u E) as (s & p & o & ->). }
    destruct Hst as [[v Hv]|[(r & Hr & Hid)|(r & Hr & Hid)]].
    - destruct u as [n|b|l|]; [..|done].
      + exfalso. cbn [term_id] in Hv. unfold named_node_id in Hv.
        destruct (hashed_row_facts Iri [bytes n] ltac:(auto)) as [Hn _]; congruence.
      + exfalso. cbn [term_id] in Hv. unfold blank_node_id in Hv.
        destruct (hashed_row_facts TBlankNode [bytes b] ltac:(auto)) as [Hn _]; congruence.
      + pose proof (literal_row l) as Hl. cbn [term_id] in *.
        destruct (encode_literal l) as [id [row|]] eqn:E; cbn [fst] in *.
        * destruct Hl as (Hid & _ & Hn & _). cbn [term_id] in Hid. rewrite E in Hid. cbn in Hid. congruence.
        * apply denotes_inline, Hl.
    - destruct (Ht r Hr) as (u' & Hu' & Hid' & Hok & Hn & Hf).
      assert (u' = u) as -> by (apply Hinj; congruence).
      rewrite <- Hid. by apply denotes_row.
    - destruct (Htr r Hr) as ([| | |s p o] & Hu' & Hrow); try done. destruct Hrow as (Hid' & _).
      assert (TermTriple s p o = u) as <- by (apply Hinj; congruence). done. }
  induction t as [n|b|l|s p o IH]; intros Hsub.
  1-3: destruct (Hsub _ ltac:(by left)); by apply Hplain.
  cbn [subterms] in Hsub.
  destruct (Hsub (TermTriple s p o)) as [Hin Hst]; [by left|].
  assert (exists r, r ∈ triples rows /\ tt_id r = term_id (TermTriple s p o)) as (r & Hr & Hid).
  { destruct Hst as [[v Hv]|[(r & Hr & Hid)|?]]; [| |done].
    - exfalso. unfold decode_inline in Hv. cbn [term_id] in Hv. unfold triple_key in Hv.
      by rewrite tag_of_hashed in Hv.
    - destruct (Ht r Hr) as (u & Hu & Hid' & _ & _ & Hf). exfalso.
      rewrite Hid in Hf. unfold is_triple_id in Hf. cbn [term_id] in Hf. unfold triple_key in Hf.
      by rewrite tag_of_hashed in Hf. }
  destruct (Htr r Hr) as ([| | |s' p' o'] & Hu' & Hrow); try done.
  destruct Hrow as (Hid' & Hs' & Hp' & Ho').
  assert (TermTriple s' p' o' = TermTriple s p o) as [= -> -> ->] by (apply Hinj; congruence).
  rewrite <- Hid.
  change (TermTriple s p o) with (term_of_triple (mkTriple s p o)).
  apply (denotes_triple rows r (term_of_subject s) (TermNamedNode p) o).
  - rewrite Hid. cbn [term_id]. unfold triple_key, is_triple_id. rewrite tag_of_hashed. done.
  - done.
  - rewrite Hs', <- subject_term_id. destruct (Hsub (term_of_subject s)); [set_solver|].
    apply Hplain; [apply subject_plain|done..].
  - rewrite Hp'. destruct (Hsub (TermNamedNode p)); [set_solver|]. by apply (Hplain (TermNamedNode p)).
  - rewrite Ho'. apply IH. intros u Hu. apply Hsub. set_solver.
  - by destruct s.
Qed.

(** C6: the dictionary written with a list of quads is readable, and when no two terms of the
    list have the same id the ids of the [n]-th tuple denote the subject, predicate, object and
    graph name of the [n]-th quad: nothing a quad says is lost, however deep its triple terms. *)
Theorem quads_roundtrip (qs : list Quad)
    (Hinj : forall t u, t ∈ concat (quad_terms <$> qs) -> u ∈ concat (quad_terms <$> qs) ->
       term_id t = term_id u -> t = u) :
  let e := EncodedQuads_new qs in
  readable (eq_rows e) /\
  Forall2 (fun q (ids : QuadIds) =>
    let '(s, p, o, g) := ids in
    denotes (eq_rows e) s (term_of_subject (qd_subject q)) /\
    denotes (eq_rows e) p (TermNamedNode (qd_predicate q)) /\
    denotes (eq_rows e) o (qd_object q) /\
    match graph_term (qd_graph_name q) with
    | Some t => denotes (eq_rows e) g t
    | None => g = DEFAULT_GRAPH_ID
    end) qs (quads e).
Proof.
  cbn zeta. split; [apply encoded_readable|].
  destruct (encoded_quads_store qs) as (Hrows & Hids & Hst). cbn zeta in *.
  set (ts := concat (quad_terms <$> qs)) in *.
  set (rows := eq_rows (EncodedQuads_new qs)) in *. rewrite Hids.
  apply Forall2_fmap_r, Forall_Forall2_diag, Forall_forall. intros q Hq.
  assert (forall u, u ∈ quad_terms q -> u ∈ ts /\ stored rows (term_id u)) as Hterms.
  { intros u Hu. assert (u ∈ ts) as Huts.
    { unfold ts. apply list_elem_of_In, in_concat. exists (quad_terms q).
      split; [apply list_elem_of_In; by apply list_elem_of_fmap_2|by apply list_elem_of_In]. }
    split; [done|]. rewrite Forall_forall in Hst. by apply Hst. }
  assert (forall t, (forall u, u ∈ subterms t -> u ∈ quad_terms q) -> denotes rows (term_id t) t) as Hden.
  { intros t Ht. apply (stored_denotes ts); [done|done|]. intros u Hu. by apply Hterms, Ht. }
  unfold quad_terms in *. unfold quad_ids. split_and!.
  - rewrite <- subject_term_id. apply Hden. destruct (qd_subject q); cbn; set_solver.
  - apply (Hden (TermNamedNode (qd_predicate q))). cbn. set_solver.
  - apply Hden. set_solver.
  - destruct (qd_graph_name q) as [|n|b]; [done| |].
    + apply (Hden (TermNamedNode n)). cbn. set_solver.
    + apply (Hden (TermBlankNode b)). cbn. set_solver.
Qed.
End roundtrip.

(** ** Witnesses *)

Definition no_collisions `{Oxrdf, Xxh3, OxsDatatypes} (ts : list Term) : bool :=
  forallb (fun t => forallb (fun u => negb (term_id t =? term_id u) || bool_decide (t = u)) ts) ts.

Lemma no_collisions_spec `{Oxrdf, Xxh3, OxsDatatypes} ts :
  no_collisions ts = true ->
  forall t u, t ∈ ts -> u ∈ ts -> term_id t = term_id u -> t = u.
Proof.
  unfold no_collisions. rewrite forallb_forall. intros Hc t u Ht Hu Heq.
  specialize (Hc t (proj1 (list_elem_of_In _ _) Ht)). rewrite forallb_forall in Hc.
  specialize (Hc u (proj1 (list_elem_of_In _ _) Hu)). rewrite Heq, Z.eqb_refl in Hc.
  cbn in Hc. by apply bool_decide_eq_true in Hc.
Qed.

(** A quad about a quoted triple, in a named graph. *)
Definition sample_quads : list (@Quad ConcreteRdf.oxrdf) :=
  [mkQuad (NobBlankNode "b") "http://e/says"
     (TermTriple (NobNamedNode "http://e/a") "http://e/age"
        (TermLiteral (new_typed_literal (Oxrdf := ConcreteRdf.oxrdf) "42" xsd.INTEGER)))
     (GnNamedNode "http://e/g");
   mkQuad (NobNamedNode "http://e/a") "http://e/name"
     (TermLiteral (new_language_tagged_literal_unchecked (Oxrdf := ConcreteRdf.oxrdf) "A" "en"))
     GnDefaultGraph].

Lemma quads_roundtrip_witness :
  no_collisions (concat (quad_terms <$> sample_quads)) = true /\
  readable (eq_rows (EncodedQuads_new sample_quads)).
Proof.
  split; [by vm_compute|].
  apply (quads_roundtrip (laws := ConcreteRdf.laws) sample_quads).
  apply no_collisions_spec. by vm_compute.
Defined.

Lemma resolver_complete_witness :
  exists r, resolve_loop (eq_rows (EncodedQuads_new sample_quads)) 5 d1
    (wanting ∅ [blank_node_id "b"]) = Some (Ok r) /\ is_complete r = true.
Proof.
  destruct (resolver_complete (eq_rows (EncodedQuads_new sample_quads)) d1 ∅ [blank_node_id "b"]
    (encoded_readable (laws := ConcreteRdf.laws) sample_quads)) as (r & Hr & Hc & _).
  - intros id t t' H. by rewrite lookup_empty in H.
  - exists r. split; [exact Hr|exact Hc].
Defined.
