(* ===== verification/Ast.v ===== *)
(** * Datalog programs ([crates/oxilite-datalog/src/ast.rs], [error.rs])

    The abstract syntax of rules over RDF terms and the errors of the frontend, with the
    accessors the analysis and the compiler use. *)

From S2P Require Export Sql.

(** ** Errors ([error.rs]) *)

Record Span := mkSpan { line : Z; column : Z }.
Definition default_span : Span := mkSpan 0 0.
#[global] Instance span_eq_dec : EqDecision Span.
Proof. solve_decision. Defined.

Definition span_to_string (sp : Span) : string := show_Z (line sp) +:+ ":" +:+ show_Z (column sp).

Module DatalogError.
Inductive t :=
  | Parse (span : Span) (message : string)
  | Unsafe (predicate variable : string)
  | Unstratified (kind : string) (component : list string)
  | NotTripleShaped (predicate : string)
  | Arity (predicate : string) (expected found : nat)
  | UnknownPrefix (prefix : string)
  | NoGoal
  | UnknownGoal (name : string)
  | IterationLimit (component : string) (rounds : nat)
  | Unsupported (message : string)
  | Store (e : Error).

Definition parse (span : Span) (message : string) : t := Parse span message.
Definition unsupported (message : string) : t := Unsupported message.

(** [Display] ([thiserror]). *)
Definition to_string `{StrDebug} (e : t) : string :=
  match e with
  | Parse sp m => "datalog parse error at " +:+ span_to_string sp +:+ ": " +:+ m
  | Unsafe p v => "unsafe rule for `" +:+ p +:+ "`: " +:+ v +:+ " is not bound by a positive body atom"
  | Unstratified k c =>
      k +:+ " is not stratified: it occurs inside the recursive component [" +:+
      join ", " (debug_str <$> c) +:+ "]"
  | NotTripleShaped p =>
      "cannot materialize `" +:+ p +:+
      "`: a rule head must be an IRI predicate with two arguments, or triple/3 or triple/4"
  | Arity p expected found =>
      "predicate `" +:+ p +:+ "` is used with arity " +:+ show_Z (Z.of_nat found) +:+
      " and with arity " +:+ show_Z (Z.of_nat expected)
  | UnknownPrefix p => "undefined prefix `" +:+ p +:+ ":`"
  | NoGoal => "the program has no goal: add a line of the form `?- p(?x, ?y).`"
  | UnknownGoal n => "the goal names `" +:+ n +:+ "`, which no rule defines"
  | IterationLimit c n =>
      "the component " +:+ c +:+ " did not reach a fixpoint within " +:+ show_Z (Z.of_nat n) +:+
      " rounds; raise Options::max_iterations if the program really needs more"
  | Unsupported m => "unsupported: " +:+ m
  | Store e => Error.to_string e
  end.
End DatalogError.
Abbreviation DatalogError := DatalogError.t.

(** ** Relations *)

Inductive HistoryRel := Commit | Added | Removed | Branch.
#[global] Instance history_rel_eq_dec : EqDecision HistoryRel.
Proof. solve_decision. Defined.

Module HistoryRel.
Definition from_name (name : string) : option HistoryRel :=
  if String.eqb name "commit" then Some Commit
  else if String.eqb name "added" then Some Added
  else if String.eqb name "removed" then Some Removed
  else if String.eqb name "branch" then Some Branch
  else None.
Definition name (h : HistoryRel) : string :=
  match h with Commit => "commit" | Added => "added" | Removed => "removed" | Branch => "branch" end.
Definition arity (h : HistoryRel) : nat :=
  match h with Commit => 4 | Added | Removed => 5 | Branch => 2 end.
End HistoryRel.

Inductive Pred :=
  | Edb (n : NamedNode)
  | Idb (n : string)
  | PTriple (graph : bool)
  | PHistory (h : HistoryRel)
  | Nearest (rank : bool).
#[global] Instance pred_eq_dec : EqDecision Pred.
Proof. solve_decision. Defined.

#[global] Instance history_rel_countable : Countable HistoryRel.
Proof.
  apply (inj_countable' (fun h => match h with Commit => 0 | Added => 1 | Removed => 2 | Branch => 3 end)
    (fun n => match n with 0 => Commit | 1 => Added | 2 => Removed | _ => Branch end)).
  by intros [].
Defined.

#[global] Instance pred_countable : Countable Pred.
Proof.
  apply (inj_countable'
    (fun p => match p with
              | Edb n => inl (inl n) | Idb n => inl (inr n)
              | PTriple g => inr (inl (inl g)) | PHistory h => inr (inl (inr h))
              | Nearest r => inr (inr r)
              end)
    (fun c => match c with
              | inl (inl n) => Edb n | inl (inr n) => Idb n
              | inr (inl (inl g)) => PTriple g | inr (inl (inr h)) => PHistory h
              | inr (inr r) => Nearest r
              end)).
  by intros [].
Defined.

Module Pred.
Definition arity (p : Pred) : option nat :=
  match p with
  | PTriple false => Some 3%nat
  | PTriple true => Some 4%nat
  | PHistory h => Some (HistoryRel.arity h)
  | Nearest rank => Some (if rank then 5%nat else 4%nat)
  | Edb _ | Idb _ => None
  end.

Definition is_extensional (p : Pred) : bool := match p with Idb _ => false | _ => true end.

(** [Display]. *)
Definition to_string (p : Pred) : string :=
  match p with
  | Edb n => "<" +:+ n +:+ ">"
  | Idb n => n
  | PTriple false => "triple/3"
  | PTriple true => "triple/4"
  | PHistory h => HistoryRel.name h +:+ "/" +:+ show_Z (Z.of_nat (HistoryRel.arity h))
  | Nearest rank => "nearest/" +:+ (if rank then "5" else "4")
  end.
End Pred.

(** ** Atoms, rules, programs *)

Inductive Arg {OX : Oxrdf} :=
  | ArgVar (v : string)
  | Wildcard
  | ArgConst (t : Term).
#[global] Instance arg_eq_dec `{Oxrdf} : EqDecision Arg.
Proof. solve_decision. Defined.

Inductive At :=
  | AtVersion (r : string)
  | AtVar (v : string).
#[global] Instance at_eq_dec : EqDecision At.
Proof. solve_decision. Defined.

Record Atom {OX : Oxrdf} := mkAtom {
  pred : Pred; args : list Arg; atom_span : Span; at_ : option At;
}.
Arguments mkAtom {OX}.
#[global] Instance atom_eq_dec `{Oxrdf} : EqDecision Atom.
Proof. solve_decision. Defined.

Inductive AggFn := Count | CountDistinct | Sum | Min | Max | Avg | Sample | GroupConcat.
#[global] Instance agg_fn_eq_dec : EqDecision AggFn.
Proof. solve_decision. Defined.

Definition agg_name (f : AggFn) : string :=
  match f with
  | Count | CountDistinct => "COUNT"
  | Sum => "SUM" | Min => "MIN" | Max => "MAX" | Avg => "AVG" | Sample => "SAMPLE"
  | GroupConcat => "GROUP_CONCAT"
  end.

Inductive HeadArg {OX : Oxrdf} :=
  | Plain (a : Arg)
  | Agg (func : AggFn) (var : string).

Record Head {OX : Oxrdf} := mkHead { head_pred : Pred; head_args : list HeadArg; head_span : Span }.
Arguments mkHead {OX}.

Inductive BinOp := OEq | ONe | OLt | OLe | OGt | OGe | OAdd | OSub | OMul | ODiv | OAnd | OOr.
#[global] Instance bin_op_eq_dec : EqDecision BinOp.
Proof. solve_decision. Defined.

Module BinOp.
Definition is_comparison (o : BinOp) : bool :=
  match o with OEq | ONe | OLt | OLe | OGt | OGe => true | _ => false end.
Definition is_arithmetic (o : BinOp) : bool :=
  match o with OAdd | OSub | OMul | ODiv => true | _ => false end.
End BinOp.

Inductive Expr {OX : Oxrdf} :=
  | EVar (v : string)
  | EConst (t : Term)
  | EBinary (op : BinOp) (left right : Expr)
  | ENot (e : Expr)
  | ENeg (e : Expr)
  | ECall (name : string) (args : list Expr).

Inductive BodyItem {OX : Oxrdf} :=
  | BAtom (a : Atom)
  | Negated (a : Atom)
  | Constraint (e : Expr).

Record Rule {OX : Oxrdf} := mkRule { head : Head; body : list BodyItem }.
Arguments mkRule {OX}.

Record Goal_ {OX : Oxrdf} := mkGoal { goal_atom : Atom; goal_constraints : list Expr }.
Arguments mkGoal {OX}.

Record Program {OX : Oxrdf} := mkProgram {
  rules : list Rule; goal : option Goal_; version : option string;
}.
Arguments mkProgram {OX}.

Section accessors.
Context {OX : Oxrdf}.

Definition aggregates (h : Head) : bool :=
  existsb (fun a => match a with Agg _ _ => true | Plain _ => false end) (head_args h).

Definition positive (r : Rule) : list Atom :=
  omap (fun i => match i with BAtom a => Some a | _ => None end) (body r).
Definition negated (r : Rule) : list Atom :=
  omap (fun i => match i with Negated a => Some a | _ => None end) (body r).
Definition constraints (r : Rule) : list Expr :=
  omap (fun i => match i with Constraint e => Some e | _ => None end) (body r).

Definition rules_for (p : Program) (q : Pred) : list Rule :=
  filter (fun r => head_pred (head r) = q) (rules p).

(** [if !out.contains(v) { out.push(v) }]. *)
Definition push_new {A} `{EqDecision A} (out : list A) (v : A) : list A :=
  if decide (v ∈ out) then out else out ++ [v].

Fixpoint expr_vars (e : Expr) (out : list string) : list string :=
  match e with
  | EVar v => push_new out v
  | EConst _ => out
  | EBinary _ l r => expr_vars r (expr_vars l out)
  | ENot e | ENeg e => expr_vars e out
  | ECall _ es => (fix go es out := match es with [] => out | e :: es => go es (expr_vars e out) end) es out
  end.

Definition atom_vars (a : Atom) (out : list string) : list string :=
  foldl (fun out arg => match arg with ArgVar v => push_new out v | _ => out end) out (args a).
End accessors.

(** ** Collected variables *)

Section vars.
Context {OX : Oxrdf}.

(** A variable occurs in an expression. *)
Fixpoint occurs (v : string) (e : Expr) : Prop :=
  match e with
  | EVar w => v = w
  | EConst _ => False
  | EBinary _ l r => occurs v l \/ occurs v r
  | ENot e | ENeg e => occurs v e
  | ECall _ es => (fix go es := match es with [] => False | e :: es => occurs v e \/ go es end) es
  end.

(** Induction with the arguments of a call. *)
Lemma expr_induction (P : Expr -> Prop) :
  (forall v, P (EVar v)) -> (forall t, P (EConst t)) ->
  (forall op l r, P l -> P r -> P (EBinary op l r)) ->
  (forall e, P e -> P (ENot e)) -> (forall e, P e -> P (ENeg e)) ->
  (forall n es, Forall P es -> P (ECall n es)) -> forall e, P e.
Proof.
  intros Hv Hc Hb Hn Hg Hcall. fix IH 1. intros [v|t|op l r|e|e|n es].
  - apply Hv.
  - apply Hc.
  - apply Hb; apply IH.
  - apply Hn, IH.
  - apply Hg, IH.
  - apply Hcall. induction es as [|e es IHes]; constructor; [apply IH|exact IHes].
Qed.

Lemma elem_of_push_new (out : list string) v w : w ∈ push_new out v <-> w ∈ out \/ w = v.
Proof. unfold push_new. destruct (decide (v ∈ out)); set_solver. Qed.

Lemma elem_of_expr_vars e out v : v ∈ expr_vars e out <-> v ∈ out \/ occurs v e.
Proof.
  revert out. induction e as [w|t|op l r IHl IHr|e IH|e IH|n es IH] using expr_induction;
    intros out; cbn.
  - apply elem_of_push_new.
  - naive_solver.
  - rewrite IHr, IHl. naive_solver.
  - apply IH.
  - apply IH.
  - revert out. induction IH as [|e es He _ IHes]; intros out; [naive_solver|].
    rewrite IHes, He. naive_solver.
Qed.

Lemma elem_of_atom_vars a out v : v ∈ atom_vars a out <-> v ∈ out \/ ArgVar v ∈ args a.
Proof.
  unfold atom_vars. revert out. induction (args a) as [|arg l IH]; intros out; cbn; [set_solver|].
  rewrite IH. destruct arg; rewrite ?elem_of_push_new, elem_of_cons; naive_solver.
Qed.
End vars.
