(* ===== verification/Program.v ===== *)
(** * Program analysis ([crates/oxilite-datalog/src/program.rs])

    Arity and safety checks, the dependency graph of the derived predicates, its strongly
    connected components (Tarjan), the stratification check, the evaluation order of the
    components (Kahn) and their recursion shape. The theorems are in [Tarjan], [Topological] and
    [Strata]. Vectors are lists, updated by index; a [BTreeMap] is a list of entries sorted by
    key, a [BTreeSet] a finite set iterated in increasing order. *)

From S2P Require Export Ast.

(** ** Dependencies *)

Inductive Dep := Positive | Negative | Aggregating.
#[global] Instance dep_eq_dec : EqDecision Dep.
Proof. solve_decision. Defined.

(** The derived [Ord]. *)
Definition dep_rank (d : Dep) : nat := match d with Positive => 0 | Negative => 1 | Aggregating => 2 end.
Definition dep_ltb (a b : Dep) : bool := (dep_rank a <? dep_rank b)%nat.

Inductive Shape := NonRecursive | Linear | LinearMutual | NonLinear.
#[global] Instance shape_eq_dec : EqDecision Shape.
Proof. solve_decision. Defined.

Record Stratum := mkStratum { preds : list Pred; shape : Shape }.
Definition is_recursive (s : Stratum) : bool := negb (bool_decide (shape s = NonRecursive)).

Record Analysis := mkAnalysis { strata : list Stratum; arity : gmap Pred nat }.

Definition stratum_of (a : Analysis) (p : Pred) : option nat :=
  fst <$> list_find (fun s => p ∈ preds s) (strata a).

(** *** The sorted edge map *)

Definition EdgeMap : Type := list ((nat * nat) * Dep).

Definition edge_compare (a b : nat * nat) : comparison :=
  match (a.1 ?= b.1)%nat with Eq => (a.2 ?= b.2)%nat | c => c end.

(** [edges.entry(key).or_insert(dep)], then the stronger of the two. *)
Fixpoint edge_insert (key : nat * nat) (dep : Dep) (edges : EdgeMap) : EdgeMap :=
  match edges with
  | [] => [(key, dep)]
  | (k, d) :: rest =>
      match edge_compare key k with
      | Eq => (k, if dep_ltb d dep then dep else d) :: rest
      | Lt => (key, dep) :: edges
      | Gt => (k, d) :: edge_insert key dep rest
      end
  end.

(** ** Checks *)

Section checks.
Context {OX : Oxrdf}.

Definition item_atom (i : BodyItem) : option Atom :=
  match i with BAtom a | Negated a => Some a | Constraint _ => None end.

(** The atoms a program reads: those of the bodies, then the goal. *)
Definition for_each_atom (f : Atom -> result DatalogError unit) (program : Program)
  : result DatalogError unit :=
  _ ← for_each (fun rule =>
        for_each (fun item => match item_atom item with Some a => f a | None => Ok tt end) (body rule))
      (rules program);
  match goal program with Some g => f (goal_atom g) | None => Ok tt end.

Definition check_iri_atoms (program : Program) : result DatalogError unit :=
  for_each_atom (fun a =>
    match pred a with
    | Edb _ =>
        if (length (args a) =? 1)%nat || (length (args a) =? 2)%nat then Ok tt
        else Err (DatalogError.Arity (Pred.to_string (pred a)) 2 (length (args a)))
    | _ => Ok tt
    end) program.

Fixpoint head_arities (rs : list Rule) (arity : gmap Pred nat) : result DatalogError (gmap Pred nat) :=
  match rs with
  | [] => Ok arity
  | rule :: rs =>
      let p := head_pred (head rule) in
      let n := length (head_args (head rule)) in
      match arity !! p with
      | Some known =>
          if (known =? n)%nat then head_arities rs arity
          else Err (DatalogError.Arity (Pred.to_string p) known n)
      | None => head_arities rs (<[p := n]> arity)
      end
  end.

Definition arities (program : Program) : result DatalogError (gmap Pred nat) :=
  arity ← head_arities (rules program) ∅;
  _ ← for_each_atom (fun a =>
        match arity !! pred a with
        | Some known =>
            if (known =? length (args a))%nat then Ok tt
            else Err (DatalogError.Arity (Pred.to_string (pred a)) known (length (args a)))
        | None => Ok tt
        end) program;
  Ok arity.

(** The variables the positive atoms of a rule bind. *)
Definition bound_vars (rule : Rule) : list string :=
  foldl (fun out a => atom_vars a out) [] (positive rule).

Definition check_rule_safety (rule : Rule) : result DatalogError unit :=
  let bound := bound_vars rule in
  let name := Pred.to_string (head_pred (head rule)) in
  let require v :=
    if decide (v ∈ bound) then Ok tt else Err (DatalogError.Unsafe name ("?" +:+ v)) in
  _ ← for_each (fun arg =>
        match arg with
        | Plain (ArgVar v) => require v
        | Agg _ var => if String.eqb var "*" then Ok tt else require var
        | _ => Ok tt
        end) (head_args (head rule));
  _ ← for_each (fun atom => for_each require (atom_vars atom [])) (negated rule);
  for_each (fun c => for_each require (expr_vars c [])) (constraints rule).

Definition check_safety (program : Program) : result DatalogError unit :=
  for_each check_rule_safety (rules program).

(** ** The dependency graph *)

(** The derived predicates, in the order of their first rule, and their positions. *)
Definition add_node (s : list Pred * gmap Pred nat) (rule : Rule) : list Pred * gmap Pred nat :=
  let '(nodes, index) := s in
  let p := head_pred (head rule) in
  match index !! p with
  | Some _ => (nodes, index)
  | None => (nodes ++ [p], <[p := length nodes]> index)
  end.

Definition graph_nodes (program : Program) : list Pred * gmap Pred nat :=
  foldl add_node ([], ∅) (rules program).

Definition item_dep (aggregating : bool) (i : BodyItem) : option (Atom * Dep) :=
  match i with
  | BAtom a => Some (a, if aggregating then Aggregating else Positive)
  | Negated a => Some (a, Negative)
  | Constraint _ => None
  end.

(** The edges of a rule's body, from its head's node. *)
Definition add_item (index : gmap Pred nat) (from : nat) (aggregating : bool)
    (edges : EdgeMap) (item : BodyItem) : EdgeMap :=
  match item_dep aggregating item with
  | Some (atom, dep) =>
      match index !! pred atom with
      | Some to => edge_insert (from, to) dep edges
      | None => edges
      end
  | None => edges
  end.

Definition rule_edges (index : gmap Pred nat) (edges : EdgeMap) (rule : Rule) : EdgeMap :=
  let from := default 0%nat (index !! head_pred (head rule)) in
  foldl (add_item index from (aggregates (head rule))) edges (body rule).

Definition dependency_graph (program : Program) : list Pred * EdgeMap :=
  let '(nodes, index) := graph_nodes program in
  (nodes, foldl (rule_edges index) [] (rules program)).
End checks.

(** ** Strongly connected components *)

Definition successors (n : nat) (edges : EdgeMap) : list (list nat) :=
  foldl (fun succ e => let '((from, to), _) := e in alter (fun l => l ++ [to]) from succ)
    (replicate n []) edges.

Record TarjanState := mkTarjan {
  t_index : list (option nat);
  low : list nat;
  on_stack : list bool;
  stack : list nat;   (* the top first *)
  next : nat;
  t_out : list (list nat);
}.

Definition set_low (st : TarjanState) (v l : nat) : TarjanState :=
  mkTarjan (t_index st) (<[v := l]> (low st)) (on_stack st) (stack st) (next st) (t_out st).

Definition visit (st : TarjanState) (v : nat) : TarjanState :=
  mkTarjan (<[v := Some (next st)]> (t_index st)) (<[v := next st]> (low st))
    (<[v := true]> (on_stack st)) (v :: stack st) (S (next st)) (t_out st).

(** The inner [while let]: pops down to [v]. *)
Fixpoint pop_component (v : nat) (stack : list nat) (on_stack : list bool) (component : list nat)
  : list nat * list bool * list nat :=
  match stack with
  | [] => ([], on_stack, component)
  | w :: rest =>
      let on_stack := <[w := false]> on_stack in
      let component := component ++ [w] in
      if (w =? v)%nat then (rest, on_stack, component) else pop_component v rest on_stack component
  end.

Definition sort_nats (l : list nat) : list nat := sort_by_key Z.of_nat l.

Definition close_component (st : TarjanState) (v : nat) : TarjanState :=
  if bool_decide (t_index st !!! v = Some (low st !!! v)) then
    let '(stack, on_stack, component) := pop_component v (stack st) (on_stack st) [] in
    mkTarjan (t_index st) (low st) on_stack stack (next st) (t_out st ++ [sort_nats component])
  else st.

(** The depth of the recursion is at most the number of unvisited nodes: [fuel]. *)
Fixpoint strongconnect (fuel : nat) (succ : list (list nat)) (v : nat) (st : TarjanState) : TarjanState :=
  match fuel with
  | O => st
  | S fuel =>
      let st := foldl (fun st w =>
        match t_index st !!! w with
        | None =>
            let st := strongconnect fuel succ w st in
            set_low st v (Nat.min (low st !!! v) (low st !!! w))
        | Some iw =>
            if (on_stack st !!! w : bool) then set_low st v (Nat.min (low st !!! v) iw) else st
        end) (visit st v) (succ !!! v) in
      close_component st v
  end.

Definition tarjan (n : nat) (edges : EdgeMap) : list (list nat) :=
  let succ := successors n edges in
  let st := mkTarjan (replicate n None) (replicate n 0%nat) (replicate n false) [] 0 [] in
  t_out (foldl (fun st v =>
    match t_index st !!! v with None => strongconnect n succ v st | Some _ => st end) st (seq 0 n)).

Definition component_of (n : nat) (sccs : list (list nat)) : list nat :=
  snd (foldl (fun '(ci, out) scc => (S ci, foldl (fun out v => <[v := ci]> out) out scc))
         (0%nat, replicate n 0%nat) sccs).

(** ** Stratification *)

Definition check_stratification (nodes : list Pred) (sccs : list (list nat)) (owner : list nat)
    (edges : EdgeMap) : result DatalogError unit :=
  for_each (fun e : (nat * nat) * Dep =>
    let '((from, to), dep) := e in
    if bool_decide (dep = Positive) || negb (owner !!! from =? owner !!! to)%nat then Ok tt
    else Err (DatalogError.Unstratified
               (if bool_decide (dep = Negative) then "negation" else "aggregation")
               ((fun v => default "" (Pred.to_string <$> nodes !! v)) <$> (sccs !!! (owner !!! from))))) edges.

(** ** The evaluation order *)

Record KahnState := mkKahn { k_ready : gset nat; indegree : list nat; k_out : list nat }.

(** The edges between components: [succ[b]] holds the components that depend on [b]. *)
Definition add_edge (owner : list nat) (s : list (gset nat) * list nat) (e : (nat * nat) * Dep)
  : list (gset nat) * list nat :=
  let '(succ, indegree) := s in
  let '((from, to), _) := e in
  let a := owner !!! from in let b := owner !!! to in
  if negb (a =? b)%nat && bool_decide (a ∉ (succ !!! b : gset nat))
  then (<[b := {[a]} ∪ (succ !!! b)]> succ, <[a := S (indegree !!! a)]> indegree)
  else (succ, indegree).

Definition component_edges (n : nat) (owner : list nat) (edges : EdgeMap)
  : list (gset nat) * list nat :=
  foldl (add_edge owner) (replicate n ∅, replicate n 0%nat) edges.

Definition sorted_nats (s : gset nat) : list nat := sort_nats (elements s).

(** The [for] loop over the dependents of a component that has been output. *)
Definition release (succ : gset nat) (st : KahnState) : KahnState :=
  foldl (fun st j =>
    let d := (indegree st !!! j - 1)%nat in
    mkKahn (if (d =? 0)%nat then {[j]} ∪ k_ready st else k_ready st) (<[j := d]> (indegree st)) (k_out st))
    st (sorted_nats succ).

(** The [while let]: every iteration outputs a component, so [n] iterations are enough. *)
Fixpoint kahn_loop (fuel : nat) (succ : list (gset nat)) (st : KahnState) : KahnState :=
  match fuel, sorted_nats (k_ready st) with
  | S fuel, i :: _ =>
      kahn_loop fuel succ
        (release (succ !!! i) (mkKahn (k_ready st ∖ {[i]}) (indegree st) (k_out st ++ [i])))
  | _, _ => st
  end.

Definition topological (sccs : list (list nat)) (owner : list nat) (edges : EdgeMap) : list nat :=
  let n := length sccs in
  let '(succ, indegree) := component_edges n owner edges in
  let ready := list_to_set (filter (fun i => indegree !!! i = 0%nat) (seq 0 n)) in
  let st := kahn_loop n succ (mkKahn ready indegree []) in
  foldl push_new (k_out st) (seq 0 n).

(** ** Shapes *)

Section analysis.
Context {OX : Oxrdf}.

Definition recursive_atoms (ps : list Pred) (rule : Rule) : nat :=
  length (filter (fun a => pred a ∈ ps) (positive rule)).

Definition shape_step (ps : list Pred) (s : bool * bool) (rule : Rule) : bool * bool :=
  let '(recursive, non_linear) := s in
  if decide (head_pred (head rule) ∈ ps) then
    let n := recursive_atoms ps rule in
    ((0 <? n)%nat || recursive, (1 <? n)%nat || non_linear)
  else (recursive, non_linear).

Definition shape_of (program : Program) (ps : list Pred) : Shape :=
  let '(recursive, non_linear) := foldl (shape_step ps) (false, false) (rules program) in
  if negb recursive then NonRecursive
  else if non_linear then NonLinear
  else if (1 <? length ps)%nat then LinearMutual else Linear.

Definition analyse (program : Program) : result DatalogError Analysis :=
  _ ← check_iri_atoms program;
  arity ← arities program;
  _ ← check_safety program;
  let '(nodes, edges) := dependency_graph program in
  let sccs := tarjan (length nodes) edges in
  let owner := component_of (length nodes) sccs in
  _ ← check_stratification nodes sccs owner edges;
  let strata := (fun ci =>
    let ps := omap (fun v => nodes !! v) (sccs !!! ci) in mkStratum ps (shape_of program ps))
    <$> topological sccs owner edges in
  Ok (mkAnalysis strata arity).
End analysis.
