(* ===== verification/Tarjan.v ===== *)
(** * Tarjan's algorithm is correct

    [tarjan n edges] partitions the nodes [0 .. n-1] into strongly connected components and
    outputs every component after the ones it has edges to. *)

From S2P Require Export Program.

Section tarjan.
Context (n : nat) (succ : list (list nat)).
Context (Hlen : length succ = n) (Hsucc : forall v w, w ∈ succ !!! v -> (v < n)%nat -> (w < n)%nat).

Definition edge (v w : nat) : Prop := w ∈ succ !!! v.
Definition reach : nat -> nat -> Prop := rtc edge.

Definition idx (st : TarjanState) (v : nat) : option nat := t_index st !!! v.
Definition emitted (st : TarjanState) : list nat := concat (t_out st).

(** Components output before the ones that have edges to them. *)
Definition edges_go_back (out : list (list nat)) : Prop :=
  forall out1 c out2 x y, out = out1 ++ c :: out2 -> x ∈ c -> edge x y -> y ∈ concat out1 \/ y ∈ c.
Definition strongly_connected (out : list (list nat)) : Prop :=
  forall c x y, c ∈ out -> x ∈ c -> y ∈ c -> reach x y.

Definition newer (st : TarjanState) (a b : nat) : Prop :=
  exists i j, idx st a = Some i /\ idx st b = Some j /\ (j < i)%nat.

Record wf (st : TarjanState) : Prop := {
  wf_index_len : length (t_index st) = n;
  wf_low_len : length (low st) = n;
  wf_on_len : length (on_stack st) = n;
  wf_nodup : NoDup (stack st ++ emitted st);
  wf_range v : v ∈ stack st ++ emitted st -> (v < n)%nat;
  wf_visited v : (v < n)%nat -> is_Some (idx st v) <-> v ∈ stack st ++ emitted st;
  wf_on v : (v < n)%nat -> on_stack st !!! v = true <-> v ∈ stack st;
  wf_next v i : (v < n)%nat -> idx st v = Some i -> (i < next st)%nat;
  wf_sorted : StronglySorted (newer st) (stack st);
  wf_back : edges_go_back (t_out st);
  wf_scc : strongly_connected (t_out st);
}.

(** ** Elementary steps *)

Lemma lookup_total_insert_eq {A} `{Inhabited A} (l : list A) i x :
  (i < length l)%nat -> <[i := x]> l !!! i = x.
Proof. intros. by apply list_lookup_total_insert_eq. Qed.

Lemma set_low_wf st v l : wf st -> wf (set_low st v l).
Proof. intros []. constructor; try done. cbn. by rewrite length_insert. Qed.

Lemma set_low_eq st v l : wf st -> (v < n)%nat -> low (set_low st v l) !!! v = l.
Proof. intros H Hv. cbn. apply lookup_total_insert_eq. by rewrite (wf_low_len st H). Qed.

Lemma set_low_ne st v l x : x <> v -> low (set_low st v l) !!! x = low st !!! x.
Proof. intros Hx. cbn. by rewrite list_lookup_total_insert_ne. Qed.

Lemma visit_idx st v x :
  wf st -> (v < n)%nat -> idx (visit st v) x = if decide (x = v) then Some (next st) else idx st x.
Proof.
  intros H Hv. unfold idx, visit. cbn. destruct (decide (x = v)) as [->|Hx].
  - apply lookup_total_insert_eq. by rewrite (wf_index_len st H).
  - by rewrite list_lookup_total_insert_ne.
Qed.

Lemma visit_low st v : wf st -> (v < n)%nat -> low (visit st v) !!! v = next st.
Proof. intros H Hv. cbn. apply lookup_total_insert_eq. by rewrite (wf_low_len st H). Qed.

Lemma newer_preserved st st' l :
  (forall x i, x ∈ l -> idx st x = Some i -> idx st' x = Some i) ->
  StronglySorted (newer st) l -> StronglySorted (newer st') l.
Proof.
  intros Hp. induction 1 as [|x l Hs IH Hx]; constructor.
  - apply IH. intros y i Hy. apply Hp. by right.
  - rewrite Forall_forall in *. intros y Hy. destruct (Hx y Hy) as (i & j & Hi & Hj & Hij).
    exists i, j. split_and!; [apply Hp; [left|done]|apply Hp; [by right|done]|done].
Qed.

Lemma visit_wf st v : wf st -> (v < n)%nat -> idx st v = None -> wf (visit st v).
Proof.
  intros H Hv Hn. pose proof (visit_idx st v) as Hidx.
  assert (v ∉ stack st ++ emitted st) as Hnew.
  { intros Hin. apply (wf_visited st H v Hv) in Hin as [? ?]. congruence. }
  destruct H as [H1 H2 H3 H4 H5 H6 H7 H8 H9 H10 H11]. constructor.
  - cbn. by rewrite length_insert.
  - cbn. by rewrite length_insert.
  - cbn. by rewrite length_insert.
  - cbn. by constructor.
  - intros x. cbn. rewrite elem_of_cons. intros [->|?]; [done|by apply H5].
  - intros x Hx. rewrite Hidx by done. cbn. rewrite elem_of_cons.
    destruct (decide (x = v)) as [->|Hne]; [split; [by left|by eexists]|].
    rewrite (H6 x Hx). naive_solver.
  - intros x Hx. cbn. rewrite elem_of_cons. destruct (decide (x = v)) as [->|Hne].
    + rewrite lookup_total_insert_eq by congruence. naive_solver.
    + rewrite list_lookup_total_insert_ne by done. rewrite (H7 x Hx). naive_solver.
  - intros x i Hx. rewrite Hidx by done. cbn. destruct (decide (x = v)) as [->|Hne].
    + intros [= <-]. lia.
    + intros Hi. specialize (H8 x i Hx Hi). lia.
  - cbn. constructor.
    + eapply newer_preserved; [|exact H9]. intros x i Hx Hi. rewrite Hidx by done.
      rewrite decide_False; [done|]. intros ->. congruence.
    + rewrite Forall_forall. intros x Hx.
      assert (x < n)%nat as Hxn by (apply H5, elem_of_app; by left).
      assert (is_Some (idx st x)) as [i Hi] by (apply H6; [done|apply elem_of_app; by left]).
      exists (next st), i. rewrite !Hidx by done. rewrite decide_True by done.
      rewrite decide_False by (intros ->; congruence). split_and!; [done|done|by eapply H8].
  - done.
  - done.
Qed.

(** *** Popping a component *)

Lemma pop_component_spec v above below on acc :
  v ∉ above ->
  pop_component v (above ++ v :: below) on acc =
  (below, foldl (fun on w => <[w := false]> on) on (above ++ [v]), acc ++ above ++ [v]).
Proof.
  revert on acc. induction above as [|w above IH]; intros on acc Hv; cbn.
  - by rewrite Nat.eqb_refl.
  - destruct (Nat.eqb_spec w v) as [->|Hne]; [set_solver|].
    rewrite IH by set_solver. by rewrite <- app_assoc.
Qed.

Lemma foldl_off_length l (on : list bool) : length (foldl (fun on w => <[w := false]> on) on l) = length on.
Proof. revert on. induction l as [|x l IH]; intros on; cbn; [done|]. by rewrite IH, length_insert. Qed.

Lemma foldl_off_lookup l (on : list bool) x :
  (x < length on)%nat ->
  foldl (fun on w => <[w := false]> on) on l !!! x = if decide (x ∈ l) then false else on !!! x.
Proof.
  revert on. induction l as [|y l IH]; intros on Hx; cbn; [done|].
  rewrite IH by by rewrite length_insert.
  destruct (decide (x ∈ l)) as [Hin|Hin].
  - rewrite decide_True by (by right). done.
  - destruct (decide (x = y)) as [->|Hne].
    + rewrite decide_True by (by left). by rewrite lookup_total_insert_eq.
    + rewrite decide_False by set_solver. by rewrite list_lookup_total_insert_ne.
Qed.

(** ** The loop over the successors of a node

    [covered st0 v new st y]: the node [y] is accounted for while [v] is open: it was pushed above
    [v], is [v], was output, or lies below [v] and the low link of [v] knows. *)

Definition covered (st0 : TarjanState) (v : nat) (new : list nat) (st : TarjanState) (y : nat) : Prop :=
  y ∈ new \/ y = v \/ y ∈ emitted st \/
  (y ∈ stack st0 /\ exists i, idx st y = Some i /\ (low st !!! v <= i)%nat).

(** [v] has been visited from [st0], and the successors [done] have been processed; [new] was
    pushed above [v]. *)
Record looping (st0 : TarjanState) (v : nat) (st : TarjanState) (done new : list nat) : Prop := {
  lp_wf : wf st;
  lp_fresh : idx st0 v = None;
  lp_stack : stack st = new ++ v :: stack st0;
  lp_idx x i : idx st0 x = Some i -> idx st x = Some i;
  lp_v : idx st v = Some (next st0);
  lp_emitted x : x ∈ emitted st0 -> x ∈ emitted st;
  lp_low_old x : is_Some (idx st0 x) -> low st !!! x = low st0 !!! x;
  lp_next : (next st0 < next st)%nat;
  lp_low_le : (low st !!! v <= next st0)%nat;
  lp_low : low st !!! v = next st0 \/
    exists y, y ∈ stack st0 /\ idx st y = Some (low st !!! v) /\ reach v y;
  lp_new x : x ∈ new -> reach v x /\ exists y, y ∈ v :: stack st0 /\ reach x y;
  lp_edges x y : x ∈ new -> edge x y -> covered st0 v new st y;
  lp_done y : y ∈ done -> covered st0 v new st y;
}.

(** [v] has been processed from [st0]: either its component was output with it, or [v] and the
    nodes [new] stay on the stack because they reach an older node. *)
Record finished (st0 : TarjanState) (v : nat) (st : TarjanState) (new : list nat) : Prop := {
  fi_wf : wf st;
  fi_stack : stack st = new ++ stack st0;
  fi_idx x i : idx st0 x = Some i -> idx st x = Some i;
  fi_visited : is_Some (idx st v);
  fi_emitted x : x ∈ emitted st0 -> x ∈ emitted st;
  fi_low_old x : is_Some (idx st0 x) -> low st !!! x = low st0 !!! x;
  fi_next : (next st0 <= next st)%nat;
  fi_case :
    (new = [] /\ v ∈ emitted st /\ (next st0 <= low st !!! v)%nat) \/
    (v ∈ new /\ (forall x, x ∈ new -> reach v x /\ exists y, y ∈ stack st0 /\ reach x y) /\
     (exists y, y ∈ stack st0 /\ idx st y = Some (low st !!! v) /\ reach v y) /\
     (forall x y, x ∈ new -> edge x y -> y ∈ new \/ y ∈ emitted st \/
        (y ∈ stack st0 /\ exists i, idx st y = Some i /\ (low st !!! v <= i)%nat)));
}.

Lemma edge_reach x y : edge x y -> reach x y.
Proof. intros. by apply rtc_once. Qed.

Lemma sorted_above {A} (R : A -> A -> Prop) l1 x l2 y :
  StronglySorted R (l1 ++ x :: l2) -> y ∈ l1 -> R y x.
Proof.
  induction l1 as [|z l1 IH]; cbn; [by intros _ ?%elem_of_nil|].
  inversion 1 as [|? ? Hs Hz]; subst. intros [->|Hy]%elem_of_cons; [|by apply IH].
  rewrite Forall_forall in Hz. apply Hz. set_solver.
Qed.

Lemma covered_mono st0 v new new' st st' y :
  covered st0 v new st y -> (forall x, x ∈ new -> x ∈ new') ->
  (forall x, x ∈ emitted st -> x ∈ emitted st') ->
  (forall x i, idx st x = Some i -> idx st' x = Some i) ->
  (low st' !!! v <= low st !!! v)%nat -> covered st0 v new' st' y.
Proof.
  intros [H|[H|[H|(H & i & Hi & Hle)]]] Hn He Hx Hl.
  - left. by apply Hn.
  - by right; left.
  - right; right; left. by apply He.
  - right; right; right. split; [done|]. exists i. split; [by apply Hx|lia].
Qed.

Lemma looping_newer st0 v st done new x i :
  looping st0 v st done new -> x ∈ new -> idx st x = Some i -> (next st0 < i)%nat.
Proof.
  intros H Hx Hi. pose proof (wf_sorted _ (lp_wf _ _ _ _ _ H)) as Hs. rewrite (lp_stack _ _ _ _ _ H) in Hs.
  destruct (sorted_above _ _ _ _ x Hs Hx) as (i' & j & Hi' & Hj & Hlt).
  rewrite (lp_v _ _ _ _ _ H) in Hj. simplify_eq. congruence.
Qed.

Lemma start_looping st0 v :
  wf st0 -> (v < n)%nat -> idx st0 v = None -> looping st0 v (visit st0 v) [] [].
Proof.
  intros H Hv Hn. pose proof (visit_idx st0 v) as Hidx. constructor.
  - by apply visit_wf.
  - done.
  - done.
  - intros x i Hx. rewrite Hidx by done. rewrite decide_False; [done|]. intros ->. congruence.
  - rewrite Hidx by done. by rewrite decide_True.
  - done.
  - intros x [i Hx]. cbn. rewrite list_lookup_total_insert_ne; [done|]. intros ->. congruence.
  - cbn. lia.
  - by rewrite visit_low.
  - left. by rewrite visit_low.
  - by intros x ?%elem_of_nil.
  - by intros x y ?%elem_of_nil.
  - by intros x ?%elem_of_nil.
Qed.

(** A successor already on the stack, or already output. *)
Lemma step_visited st0 v st done new w iw :
  looping st0 v st done new -> (v < n)%nat -> (w < n)%nat -> edge v w -> idx st w = Some iw ->
  looping st0 v
    (if (on_stack st !!! w : bool) then set_low st v (Nat.min (low st !!! v) iw) else st) (done ++ [w]) new.
Proof.
  intros H Hv Hw He Hi. pose proof (lp_wf _ _ _ _ _ H) as Hwf.
  destruct (on_stack st !!! w) eqn:Hon.
  - assert (w ∈ stack st) as Hin by by apply (wf_on st Hwf w Hw).
    set (st' := set_low st v _).
    assert (low st' !!! v = Nat.min (low st !!! v) iw) as Hlow by by apply set_low_eq.
    assert (forall y, covered st0 v new st y -> covered st0 v new st' y) as Hmono.
    { intros y Hy. eapply covered_mono; [done|done|done|done|]. rewrite Hlow. lia. }
    pose proof (fun x i => looping_newer _ _ _ _ _ x i H) as Hnewer.
    destruct H as [H1 H0 H2 H3 H4 H5 H6 H7 H8 H9 H10 H11 H12].
    constructor; try done.
    + by apply set_low_wf.
    + intros x Hx. rewrite <- H6 by done. apply set_low_ne. intros ->. destruct Hx as [i Hx]. congruence.
    + rewrite Hlow. lia.
    + rewrite Hlow. destruct (Nat.min_spec (low st !!! v) iw) as [[_ ->]|[Hle ->]]; [done|].
      rewrite H2 in Hin. apply elem_of_app in Hin as [Hin|Hin].
      * specialize (Hnewer w iw Hin Hi). lia.
      * apply elem_of_cons in Hin as [->|Hin].
        -- left. congruence.
        -- right. exists w. split_and!; [done|done|by apply edge_reach].
    + intros x y Hx Hxy. by apply Hmono, (H11 x).
    + intros y [Hy|Hy]%elem_of_app; [by apply Hmono, H12|].
      apply list_elem_of_singleton in Hy as ->.
      rewrite H2 in Hin. apply elem_of_app in Hin as [Hin|[->|Hin]%elem_of_cons].
      * by left.
      * by right; left.
      * right; right; right. split; [done|]. exists iw. split; [done|]. rewrite Hlow. lia.
  - assert (w ∉ stack st) as Hnot.
    { intros Hin. apply (wf_on st Hwf w Hw) in Hin. congruence. }
    assert (w ∈ stack st ++ emitted st) as [?|Hem]%elem_of_app by (apply (wf_visited st Hwf w Hw); by eexists); [done|].
    destruct H. constructor; try done.
    intros y [Hy|Hy]%elem_of_app; [by auto|]. apply list_elem_of_singleton in Hy as ->.
    by right; right; left.
Qed.

(** A successor that has just been processed. *)
Lemma step_recursive st0 v st done new w st' new_w :
  looping st0 v st done new -> (v < n)%nat -> edge v w -> finished st w st' new_w ->
  looping st0 v (set_low st' v (Nat.min (low st' !!! v) (low st' !!! w))) (done ++ [w]) (new_w ++ new).
Proof.
  intros H Hv He F. pose proof (fi_wf _ _ _ _ F) as Hwf'.
  assert (low st' !!! v = low st !!! v) as Hlv.
  { apply (fi_low_old _ _ _ _ F). rewrite (lp_v _ _ _ _ _ H). by eexists. }
  rewrite Hlv. set (l := Nat.min _ _). set (st2 := set_low st' v l).
  assert (low st2 !!! v = l) as Hlow by by apply set_low_eq.
  assert (l <= low st !!! v)%nat as Hl by (unfold l; lia).
  assert (forall y, covered st0 v new st y -> covered st0 v (new_w ++ new) st2 y) as Hmono.
  { intros y Hy. eapply covered_mono; [exact Hy|set_solver|apply F|apply F|]. by rewrite Hlow. }
  pose proof (fun x i => looping_newer _ _ _ _ _ x i H) as Hnewer.
  destruct H as [H1 H0 H2 H3 H4 H5 H6 H7 H8 H9 H10 H11 H12].
  destruct F as [F1 F2 F3 F4 F5 F6 F7 F8].
  constructor; try done.
  - by apply set_low_wf.
  - cbn. rewrite F2, H2. by rewrite <- app_assoc.
  - intros x i Hx. by apply F3, H3.
  - by apply F3.
  - intros x Hx. by apply F5, H5.
  - intros x Hx. unfold st2. rewrite set_low_ne.
    + rewrite F6; [by apply H6|]. destruct Hx as [i Hx]. exists i. by apply H3.
    + intros ->. destruct Hx as [i Hx]. congruence.
  - cbn. lia.
  - rewrite Hlow. lia.
  - rewrite Hlow. destruct F8 as [(-> & Hem & Hge)|(Hin & Hr & (y & Hy & Hyi & Hwy) & Hed)].
    + assert (l = low st !!! v) as -> by (unfold l; lia).
      destruct H9 as [H9|(y & Hy & Hyi & Hvy)]; [by left|right]. exists y. split_and!; [done|by apply F3|done].
    + unfold l. destruct (Nat.min_spec (low st !!! v) (low st' !!! w)) as [[_ ->]|[Hle ->]].
      * destruct H9 as [H9|(z & Hz & Hzi & Hvz)]; [by left|right]. exists z. split_and!; [done|by apply F3|done].
      * rewrite H2 in Hy. apply elem_of_app in Hy as [Hy|[->|Hy]%elem_of_cons].
        -- assert (is_Some (idx st y)) as [i Hi].
           { apply (wf_visited st H1); [|rewrite H2; set_solver]. apply (wf_range st H1). rewrite H2. set_solver. }
           assert (i = low st' !!! w) as -> by (apply F3 in Hi; congruence).
           specialize (Hnewer y _ Hy Hi). lia.
        -- left. apply F3 in H4. congruence.
        -- right. exists y. split_and!; [done|done|]. etrans; [by apply edge_reach|done].
  - intros x [Hx|Hx]%elem_of_app; [|by apply H10].
    destruct F8 as [(-> & _)|(Hin & Hr & _ & Hed)]; [by apply elem_of_nil in Hx|].
    destruct (Hr x Hx) as (Hwx & y & Hy & Hxy). split; [etrans; [by apply edge_reach|done]|].
    rewrite H2 in Hy. apply elem_of_app in Hy as [Hy|Hy]; [|by exists y].
    destruct (H10 y Hy) as (_ & z & Hz & Hyz). exists z. split; [done|]. by etrans.
  - intros x y [Hx|Hx]%elem_of_app Hxy; [|by apply Hmono, (H11 x)].
    destruct F8 as [(-> & _)|(Hin & _ & _ & Hed)]; [by apply elem_of_nil in Hx|].
    destruct (Hed x y Hx Hxy) as [Hy|[Hy|(Hy & i & Hyi & Hle)]].
    + left. set_solver.
    + by right; right; left.
    + rewrite H2 in Hy. apply elem_of_app in Hy as [Hy|[->|Hy]%elem_of_cons].
      * left. set_solver.
      * by right; left.
      * right; right; right. split; [done|]. exists i. split; [done|]. rewrite Hlow. unfold l. lia.
  - intros y [Hy|Hy]%elem_of_app; [by apply Hmono, H12|]. apply list_elem_of_singleton in Hy as ->.
    destruct F8 as [(-> & Hem & _)|(Hin & _)]; [by right; right; left|left; set_solver].
Qed.

(** ** Closing a node *)

Lemma edges_go_back_snoc out c :
  edges_go_back out -> (forall x y, x ∈ c -> edge x y -> y ∈ concat out \/ y ∈ c) -> edges_go_back (out ++ [c]).
Proof.
  intros Ho Hc out1 c' out2 x y Heq Hx Hxy.
  destruct out2 as [|d out2 _] using rev_ind.
  - apply app_inj_tail in Heq as [-> ->]. by apply (Hc x).
  - rewrite app_comm_cons, app_assoc in Heq. apply app_inj_tail in Heq as [Heq _]. by eapply Ho.
Qed.

Lemma edges_go_back_closed out x y :
  edges_go_back out -> x ∈ concat out -> edge x y -> y ∈ concat out.
Proof.
  intros Ho Hx Hxy. apply list_elem_of_In, in_concat in Hx as (c & Hc & Hx).
  apply list_elem_of_In, list_elem_of_split in Hc as (out1 & out2 & ->).
  apply list_elem_of_In in Hx. rewrite concat_app. cbn [concat].
  destruct (Ho out1 c out2 x y eq_refl Hx Hxy); set_solver.
Qed.

Lemma reach_closed (P : nat -> Prop) x y :
  (forall a b, P a -> edge a b -> P b) -> P x -> reach x y -> P y.
Proof. intros Hc Hx. induction 1 as [|x z y Hxz _ IH]; [done|]. apply IH. by eapply Hc. Qed.

(** The component of an open root: its nodes reach the root, and nothing below it. *)
Lemma root_component st0 v st new :
  wf st0 -> (v < n)%nat -> looping st0 v st (succ !!! v) new -> low st !!! v = next st0 ->
  (forall x y, x ∈ new ++ [v] -> edge x y -> y ∈ emitted st \/ y ∈ new ++ [v]) /\
  (forall x y, x ∈ new ++ [v] -> y ∈ new ++ [v] -> reach x y).
Proof.
  intros Hwf0 Hv [H1 H0 H2 H3 H4 H5 H6 H7 H8 H9 H10 H11 H12] Hroot.
  assert (forall y i, y ∈ stack st0 -> idx st y = Some i -> (i < next st0)%nat) as Hold.
  { intros y i Hy Hi. assert (y ∈ stack st0 ++ emitted st0) as Hy' by (apply elem_of_app; by left).
    assert (y < n)%nat as Hyn by by apply (wf_range st0 Hwf0).
    apply (wf_visited st0 Hwf0 y Hyn) in Hy' as [j Hj]. pose proof (wf_next st0 Hwf0 y j Hyn Hj).
    apply H3 in Hj. simplify_eq. congruence. }
  assert (forall x y, x ∈ new ++ [v] -> edge x y -> y ∈ emitted st \/ y ∈ new ++ [v]) as Hedges.
  { intros x y Hx Hxy. assert (covered st0 v new st y) as Hc.
    { apply elem_of_app in Hx as [Hx|Hx]; [by apply (H11 x)|].
      apply list_elem_of_singleton in Hx as ->. by apply H12. }
    destruct Hc as [?|[->|[?|(Hy & i & Hi & Hle)]]]; [right; set_solver|right; set_solver|by left|].
    specialize (Hold y i Hy Hi). lia. }
  split; [done|].
  assert (forall x, x ∈ new ++ [v] -> reach x v) as Hto.
  { intros x Hx. apply elem_of_app in Hx as Hx'. destruct Hx' as [Hn|Hn].
    2: { apply list_elem_of_singleton in Hn as ->. apply rtc_refl. }
    destruct (H10 x Hn) as (_ & y & [->|Hy]%elem_of_cons & Hxy); [done|exfalso].
    assert (y ∈ emitted st \/ y ∈ new ++ [v]) as Hcl.
    { refine (reach_closed (fun y => y ∈ emitted st \/ y ∈ new ++ [v]) x y _ (or_intror Hx) Hxy).
      intros a b [Ha|Ha] Hab; [left|by apply (Hedges a)].
      eapply edges_go_back_closed; [apply (wf_back st H1)|done|done]. }
    pose proof (wf_nodup st H1) as Hnd. rewrite H2 in Hnd.
    apply NoDup_app in Hnd as (Hnd & Hd & _). destruct Hcl as [Hcl|Hcl].
    - apply (Hd y); [set_solver|done].
    - apply NoDup_app in Hnd as (_ & Hd1 & Hd2). apply elem_of_app in Hcl as [Hcl|Hcl].
      + apply (Hd1 y Hcl). by right.
      + apply list_elem_of_singleton in Hcl as ->. by apply NoDup_cons in Hd2 as [? _]. }
  intros x y Hx Hy. etrans; [by apply Hto|].
  apply elem_of_app in Hy as [Hy|Hy]; [by apply H10|]. apply list_elem_of_singleton in Hy as ->. done.
Qed.

Lemma close_root st0 v st new :
  wf st0 -> (v < n)%nat -> looping st0 v st (succ !!! v) new -> low st !!! v = next st0 ->
  finished st0 v (mkTarjan (t_index st) (low st)
    (foldl (fun on w => <[w := false]> on) (on_stack st) (new ++ [v])) (stack st0) (next st)
    (t_out st ++ [sort_nats (new ++ [v])])) [].
Proof.
  intros Hwf0 Hv H Hroot. destruct (root_component st0 v st new Hwf0 Hv H Hroot) as [Hedges Hscc].
  destruct H as [H1 H0 H2 H3 H4 H5 H6 H7 H8 H9 H10 H11 H12].
  set (st2 := mkTarjan _ _ _ _ _ _).
  pose proof (sort_by_key_perm Z.of_nat (new ++ [v])) as Hperm. fold (sort_nats (new ++ [v])) in Hperm.
  assert (emitted st2 = emitted st ++ sort_nats (new ++ [v])) as Hem.
  { unfold emitted. cbn. rewrite concat_app. cbn. by rewrite app_nil_r. }
  assert (stack st2 ++ emitted st2 ≡ₚ stack st ++ emitted st) as Hall.
  { rewrite Hem, Hperm, H2. cbn [stack st2]. solve_Permutation. }
  assert (wf st2) as Hwf2.
  { pose proof (wf_nodup st H1) as Hnd. rewrite H2 in Hnd.
    destruct H1 as [L1 L2 L3 L4 L5 L6 L7 L8 L9 L10 L11]. constructor; try done.
    - cbn. by rewrite foldl_off_length.
    - by rewrite Hall.
    - intros x. rewrite Hall. apply L5.
    - intros x Hx. rewrite Hall. by apply L6.
    - intros x Hx. cbn. rewrite foldl_off_lookup by by rewrite L3.
      apply NoDup_app in Hnd as (Hnd & _ & _). apply NoDup_app in Hnd as (_ & Hd & Hnd).
      apply NoDup_cons in Hnd as [Hvs _].
      destruct (decide (x ∈ new ++ [v])) as [Hin|Hin].
      + split; [done|]. intros Hxs. exfalso. apply elem_of_app in Hin as [Hin|Hin].
        * apply (Hd x Hin). by right.
        * apply list_elem_of_singleton in Hin as ->. done.
      + rewrite (L7 x Hx), H2. set_solver.
    - eapply newer_preserved; [|apply (wf_sorted st0 Hwf0)]. intros x i _. apply H3.
    - cbn. apply edges_go_back_snoc; [done|]. intros x y Hx Hxy.
      rewrite Hperm in *. by apply (Hedges x).
    - intros c x y. cbn. rewrite elem_of_app, list_elem_of_singleton. intros [Hc| ->]; [by apply L11|].
      rewrite !Hperm. apply Hscc. }
  constructor; try done.
  - intros x Hx. rewrite Hem. apply elem_of_app. left. by apply H5.
  - cbn. lia.
  - left. split_and!; [done| |cbn; lia]. rewrite Hem, Hperm. set_solver.
Qed.

Lemma close_looping st0 v st new :
  wf st0 -> (v < n)%nat -> looping st0 v st (succ !!! v) new ->
  exists new', finished st0 v (close_component st v) new'.
Proof.
  intros Hwf0 Hv H. unfold close_component.
  pose proof H as Hl. destruct H as [H1 H0 H2 H3 H4 H5 H6 H7 H8 H9 H10 H11 H12].
  change (t_index st !!! v) with (idx st v). rewrite H4. case_bool_decide as Hroot.
  - injection Hroot as Hroot.
    assert (v ∉ new) as Hvn.
    { pose proof (wf_nodup st H1) as Hnd. rewrite H2, <- app_assoc in Hnd.
      apply NoDup_app in Hnd as (_ & Hd & _). intros Hin. apply (Hd v Hin). set_solver. }
    rewrite H2, pop_component_spec by done. exists []. by apply close_root.
  - exists (new ++ [v]).
    assert (low st !!! v <> next st0) as Hnr by congruence.
    destruct H9 as [?|(z & Hz & Hzi & Hvz)]; [done|].
    constructor; try done.
    + by rewrite H2, <- app_assoc.
    + lia.
    + right. split_and!.
      * set_solver.
      * intros x [Hx|Hx]%elem_of_app.
        -- destruct (H10 x Hx) as (Hvx & y & [->|Hy]%elem_of_cons & Hxy); (split; [done|]); [|by exists y].
           exists z. split; [done|]. by etrans.
        -- apply list_elem_of_singleton in Hx as ->. split; [done|]. by exists z.
      * by exists z.
      * intros x y Hx Hxy. assert (covered st0 v new st y) as Hc.
        { apply elem_of_app in Hx as [Hx|Hx]; [by apply (H11 x)|].
          apply list_elem_of_singleton in Hx as ->. by apply H12. }
        destruct Hc as [?|[->|[?|?]]]; [left; set_solver|left; set_solver|by right; left|by right; right].
Qed.

(** ** The recursion *)

Definition unvisited (st : TarjanState) : nat := length (filter (fun x => idx st x = None) (seq 0 n)).

Lemma unvisited_mono st st' :
  (forall x i, idx st x = Some i -> idx st' x = Some i) -> (unvisited st' <= unvisited st)%nat.
Proof.
  intros H. unfold unvisited. induction (seq 0 n) as [|x l IH]; [done|]. rewrite !filter_cons.
  destruct (decide (idx st' x = None)) as [Hn|], (decide (idx st x = None)) as [|Hs]; cbn; try lia.
  exfalso. destruct (idx st x) as [i|] eqn:E; [|done]. apply H in E. congruence.
Qed.

Lemma unvisited_decreases st st' v :
  (v < n)%nat -> idx st v = None -> is_Some (idx st' v) ->
  (forall x i, idx st x = Some i -> idx st' x = Some i) -> (unvisited st' < unvisited st)%nat.
Proof.
  intros Hv Hn Hs H. unfold unvisited.
  assert (v ∈ seq 0 n) as Hin by (apply elem_of_seq; lia). revert Hin.
  assert (forall l, (length (filter (fun x => idx st' x = None) l) <= length (filter (fun x => idx st x = None) l))%nat) as Hle.
  { clear -H. induction l as [|x l IH]; [done|]. rewrite !filter_cons.
    destruct (decide (idx st' x = None)) as [Hn|], (decide (idx st x = None)) as [|Hs]; cbn; try lia.
    exfalso. destruct (idx st x) as [i|] eqn:E; [|done]. apply H in E. congruence. }
  induction (seq 0 n) as [|x l IH]; [by intros ?%elem_of_nil|]. intros [<-|Hin]%elem_of_cons.
  - rewrite !filter_cons. rewrite decide_False by (destruct Hs; congruence).
    rewrite decide_True by done. cbn. specialize (Hle l). lia.
  - specialize (IH Hin). rewrite !filter_cons.
    destruct (decide (idx st' x = None)) as [Hx|], (decide (idx st x = None)) as [|Hs']; cbn; try lia.
    exfalso. destruct (idx st x) as [i|] eqn:E; [|done]. apply H in E. congruence.
Qed.

Lemma strongconnect_spec fuel st v :
  wf st -> (v < n)%nat -> idx st v = None -> (unvisited st <= fuel)%nat ->
  exists new, finished st v (strongconnect fuel succ v st) new.
Proof.
  revert st v. induction fuel as [|fuel IH]; intros st0 v Hwf Hv Hn Hf.
  { assert (unvisited (visit st0 v) < unvisited st0)%nat; [|lia].
    pose proof (start_looping st0 v Hwf Hv Hn) as H.
    apply (unvisited_decreases st0 (visit st0 v) v); [done..| |apply H]. rewrite (lp_v _ _ _ _ _ H). by eexists. }
  cbn [strongconnect].
  enough (forall todo done st new, done ++ todo = succ !!! v -> looping st0 v st done new ->
    exists new', looping st0 v
      (foldl (fun st w =>
        match t_index st !!! w with
        | None =>
            let st := strongconnect fuel succ w st in
            set_low st v (Nat.min (low st !!! v) (low st !!! w))
        | Some iw =>
            if (on_stack st !!! w : bool) then set_low st v (Nat.min (low st !!! v) iw) else st
        end) st todo) (succ !!! v) new') as Hloop.
  { destruct (Hloop (succ !!! v) [] (visit st0 v) []) as (new & Hl); [done|by apply start_looping|].
    by eapply close_looping. }
  induction todo as [|w todo IHt]; intros done_ st new Hsplit H.
  { rewrite app_nil_r in Hsplit. subst done_. by exists new. }
  cbn [foldl]. assert (edge v w) as He by (unfold edge; rewrite <- Hsplit; set_solver).
  assert (w < n)%nat as Hw by (by eapply Hsucc).
  change (t_index st !!! w) with (idx st w). destruct (idx st w) as [iw|] eqn:Hi.
  - apply (IHt (done_ ++ [w]) _ new); [by rewrite <- app_assoc|]. by apply step_visited.
  - destruct (IH st w) as (new_w & Hfin); [apply H|done|done| |].
    { assert (unvisited st < unvisited st0)%nat; [|lia].
      apply (unvisited_decreases st0 st v); [done..| |apply H]. rewrite (lp_v _ _ _ _ _ H). by eexists. }
    apply (IHt (done_ ++ [w]) _ (new_w ++ new)); [by rewrite <- app_assoc|]. by eapply step_recursive.
Qed.

(** *** The outer loop *)

Definition initial : TarjanState := mkTarjan (replicate n None) (replicate n 0%nat) (replicate n false) [] 0 [].

Lemma initial_wf : wf initial.
Proof.
  constructor; cbn; rewrite ?length_replicate; try done.
  - constructor.
  - by intros v ?%elem_of_nil.
  - intros v Hv. unfold idx. cbn. rewrite lookup_total_replicate_2 by done.
    split; [by intros [? ?]|by intros ?%elem_of_nil].
  - intros v Hv. rewrite lookup_total_replicate_2 by done. split; [done|by intros ?%elem_of_nil].
  - intros v i Hv. unfold idx. cbn. by rewrite lookup_total_replicate_2 by done.
  - constructor.
  - intros out1 c out2 x y H. by destruct out1.
  - by intros c x y ?%elem_of_nil.
Qed.

Definition tarjan_state : TarjanState :=
  foldl (fun st v => match t_index st !!! v with None => strongconnect n succ v st | Some _ => st end)
    initial (seq 0 n).

Lemma tarjan_state_spec :
  wf tarjan_state /\ stack tarjan_state = [] /\ forall v, (v < n)%nat -> v ∈ emitted tarjan_state.
Proof.
  unfold tarjan_state.
  enough (forall l done st, done ++ l = seq 0 n -> wf st -> stack st = [] ->
    (forall v, v ∈ done -> is_Some (idx st v)) ->
    let st' := foldl (fun st v => match t_index st !!! v with None => strongconnect n succ v st | Some _ => st end) st l in
    wf st' /\ stack st' = [] /\ forall v, (v < n)%nat -> v ∈ emitted st') as H.
  { apply (H (seq 0 n) [] initial); [done|apply initial_wf|done|by intros v ?%elem_of_nil]. }
  induction l as [|v l IH]; intros done_ st Hsplit Hwf Hstack Hvis; cbn.
  - rewrite app_nil_r in Hsplit. subst done_. split_and!; [done..|]. intros v Hv.
    assert (is_Some (idx st v)) as Hs by (apply Hvis, elem_of_seq; lia).
    apply (wf_visited st Hwf v Hv) in Hs. by rewrite Hstack in Hs.
  - assert (v < n)%nat as Hv.
    { assert (v ∈ seq 0 n) as Hin by (rewrite <- Hsplit; set_solver). apply elem_of_seq in Hin. lia. }
    change (t_index st !!! v) with (idx st v). destruct (idx st v) as [iv|] eqn:Hi.
    + apply (IH (done_ ++ [v])); [by rewrite <- app_assoc|done|done|].
      intros x [Hx|Hx]%elem_of_app; [by apply Hvis|]. apply list_elem_of_singleton in Hx as ->. by eexists.
    + destruct (strongconnect_spec n st v Hwf Hv Hi) as (new & F).
      { unfold unvisited. etrans; [apply length_filter|]. by rewrite length_seq. }
      destruct F as [F1 F2 F3 F4 F5 F6 F7 F8].
      apply (IH (done_ ++ [v])); [by rewrite <- app_assoc|done| |].
      * rewrite F2, Hstack, app_nil_r. rewrite Hstack in F8.
        destruct F8 as [(-> & _)|(_ & _ & (y & Hy & _) & _)]; [done|by apply elem_of_nil in Hy].
      * intros x [Hx|Hx]%elem_of_app.
        -- destruct (Hvis x Hx) as [i Hx']. exists i. by apply F3.
        -- by apply list_elem_of_singleton in Hx as ->.
Qed.
End tarjan.

(** ** The successor lists *)

Definition in_range (n : nat) (edges : EdgeMap) : Prop :=
  forall from to dep, ((from, to), dep) ∈ edges -> (from < n)%nat /\ (to < n)%nat.
Definition has_edge (edges : EdgeMap) (from to : nat) : Prop := exists dep, ((from, to), dep) ∈ edges.

Lemma successors_spec n edges :
  in_range n edges ->
  length (successors n edges) = n /\ forall v w, (v < n)%nat -> w ∈ successors n edges !!! v <-> has_edge edges v w.
Proof.
  unfold successors. intros Hr.
  enough (forall l succ, length succ = n -> (forall f t d, ((f, t), d) ∈ l -> (f < n)%nat) ->
    let succ' := foldl (fun succ (e : (nat * nat) * Dep) => let '((from, to), _) := e in alter (fun l => l ++ [to]) from succ) succ l in
    length succ' = n /\ forall v w, (v < n)%nat -> w ∈ succ' !!! v <-> w ∈ succ !!! v \/ has_edge l v w) as H.
  { destruct (H edges (replicate n [])) as [H1 H2].
    - by rewrite length_replicate.
    - intros f t d Hin. by apply (Hr f t d).
    - split; [done|]. intros v w Hv. rewrite H2 by done. rewrite lookup_total_replicate_2 by done.
      split; [intros [?%elem_of_nil|?]; done|by right]. }
  induction l as [|[[f t] d] l IH]; intros succ Hl Hin; cbn.
  - split; [done|]. intros v w Hv. split; [by left|]. intros [?|[d ?%elem_of_nil]]; done.
  - destruct (IH (alter (fun l => l ++ [t]) f succ)) as [H1 H2].
    + by rewrite length_alter.
    + intros f' t' d' H'. apply (Hin f' t' d'). by right.
    + split; [done|]. intros v w Hv. rewrite H2 by done.
      assert (w ∈ alter (fun l => l ++ [t]) f succ !!! v <-> w ∈ succ !!! v \/ (v = f /\ w = t)) as ->.
      { destruct (decide (v = f)) as [->|Hne].
        - rewrite list_lookup_total_alter_eq by lia. set_solver.
        - rewrite list_lookup_total_alter_ne by done. naive_solver. }
      unfold has_edge. setoid_rewrite elem_of_cons. naive_solver.
Qed.

Lemma edge_has_edge n edges v w :
  in_range n edges -> edge (successors n edges) v w <-> has_edge edges v w.
Proof.
  intros Hr. destruct (successors_spec n edges Hr) as [Hl Hs]. unfold edge.
  destruct (decide (v < n)%nat) as [Hv|Hv]; [by apply Hs|].
  rewrite list_lookup_total_alt, (proj2 (lookup_ge_None _ _)) by lia. cbn.
  split; [by intros ?%elem_of_nil|]. intros [d Hd]. destruct (Hr v w d Hd). lia.
Qed.

(** [edges] is reachability along the dependencies. *)
Definition depends (edges : EdgeMap) : nat -> nat -> Prop := rtc (has_edge edges).

Lemma reach_depends n edges v w : in_range n edges -> reach (successors n edges) v w <-> depends edges v w.
Proof.
  intros Hr. split; intros H.
  - eapply rtc_subrel; [|exact H]. intros x y. by apply edge_has_edge.
  - eapply rtc_subrel; [|exact H]. intros x y. by apply edge_has_edge.
Qed.

(** What the algorithm promises: a partition into strongly connected sets, in an order in which
    edges never lead to a later set. *)
Record is_scc_order (n : nat) (edges : EdgeMap) (sccs : list (list nat)) : Prop := {
  scc_partition : concat sccs ≡ₚ seq 0 n;
  scc_connected c x y : c ∈ sccs -> x ∈ c -> y ∈ c -> depends edges x y;
  scc_back out1 c out2 x y :
    sccs = out1 ++ c :: out2 -> x ∈ c -> has_edge edges x y -> y ∈ concat out1 \/ y ∈ c;
}.

Lemma tarjan_scc_order n edges : in_range n edges -> is_scc_order n edges (tarjan n edges).
Proof.
  intros Hr. destruct (successors_spec n edges Hr) as [Hl Hs].
  assert (forall v w, w ∈ successors n edges !!! v -> (v < n)%nat -> (w < n)%nat) as Hsucc.
  { intros v w Hw Hv. apply Hs in Hw as [d Hd]; [|done]. by destruct (Hr v w d Hd). }
  destruct (tarjan_state_spec n _ Hl Hsucc) as (Hwf & Hst & Hall).
  change (tarjan n edges) with (t_out (tarjan_state n (successors n edges))).
  set (st := tarjan_state _ _) in *. constructor.
  - pose proof (wf_nodup _ _ _ Hwf) as Hnd. rewrite Hst in Hnd. cbn in Hnd.
    apply NoDup_Permutation; [done|apply NoDup_seq|]. intros v. rewrite elem_of_seq. split.
    + intros Hv. assert (v < n)%nat; [|lia]. apply (wf_range _ _ _ Hwf). by rewrite Hst.
    + intros Hv. apply Hall. lia.
  - intros c x y Hc Hx Hy. apply (reach_depends n); [done|]. by apply (wf_scc _ _ _ Hwf c).
  - intros out1 c out2 x y Heq Hx Hxy. apply (edge_has_edge n) in Hxy; [|done].
    by apply (wf_back _ _ _ Hwf out1 c out2 x y).
Qed.

(** ** The owner of a node *)

Section owner.
Context (n : nat) (edges : EdgeMap) (sccs : list (list nat)) (Hscc : is_scc_order n edges sccs).

Definition set_all (ci : nat) (out : list nat) (scc : list nat) : list nat :=
  foldl (fun out v => <[v := ci]> out) out scc.

Lemma set_all_spec ci out scc v :
  length (set_all ci out scc) = length out /\
  ((v < length out)%nat -> set_all ci out scc !!! v = if decide (v ∈ scc) then ci else out !!! v).
Proof.
  unfold set_all. revert out. induction scc as [|w scc IH]; intros out; cbn; [done|].
  destruct (IH (<[w := ci]> out)) as [H1 H2]. rewrite length_insert in *. split; [done|].
  intros Hv. rewrite H2 by done. destruct (decide (v ∈ scc)).
  - rewrite decide_True by (by right). done.
  - destruct (decide (v = w)) as [->|].
    + rewrite decide_True by (by left). by apply list_lookup_total_insert_eq.
    + rewrite decide_False by set_solver. by rewrite list_lookup_total_insert_ne.
Qed.

Lemma owner_fold l ci out v :
  NoDup (concat l) -> (v < length out)%nat ->
  let result := snd (foldl (fun '(ci, out) scc => (S ci, foldl (fun out v => <[v := ci]> out) out scc)) (ci, out) l) in
  (v ∉ concat l -> result !!! v = out !!! v) /\
  (forall i c, l !! i = Some c -> v ∈ c -> result !!! v = (ci + i)%nat).
Proof.
  revert ci out. induction l as [|scc l IH]; intros ci out Hnd Hv; cbn; [done|].
  cbn [concat] in Hnd. apply NoDup_app in Hnd as (_ & Hd & Hnd).
  destruct (set_all_spec ci out scc v) as [L1 L2].
  destruct (IH (S ci) (set_all ci out scc) Hnd) as [H1 H2]; [by rewrite L1|].
  unfold set_all in *. split.
  - intros Hn. rewrite H1, L2 by set_solver. rewrite decide_False by set_solver. done.
  - intros [|i] c Hi Hc; cbn in Hi.
    + injection Hi as ->. rewrite H1, L2 by (try done; by apply Hd). rewrite decide_True by done. lia.
    + rewrite (H2 i c Hi Hc). lia.
Qed.

Lemma sccs_nodup : NoDup (concat sccs).
Proof. rewrite (scc_partition _ _ _ Hscc). apply NoDup_seq. Qed.

Lemma owner_eq i c v : sccs !! i = Some c -> v ∈ c -> component_of n sccs !!! v = i.
Proof.
  intros Hi Hv. unfold component_of.
  assert (v < n)%nat.
  { assert (v ∈ concat sccs) as Hin.
    { apply list_elem_of_In, in_concat. exists c. split; [|by apply list_elem_of_In].
      apply list_elem_of_In. by eapply list_elem_of_lookup_2. }
    rewrite (scc_partition _ _ _ Hscc) in Hin. apply elem_of_seq in Hin. lia. }
  destruct (owner_fold sccs 0 (replicate n 0%nat) v sccs_nodup) as [_ Ho]; [by rewrite length_replicate|].
  by rewrite (Ho i c Hi Hv).
Qed.

Lemma owner_spec v :
  (v < n)%nat -> exists c, sccs !! (component_of n sccs !!! v) = Some c /\ v ∈ c.
Proof.
  intros Hv. assert (v ∈ concat sccs) as Hin.
  { rewrite (scc_partition _ _ _ Hscc). apply elem_of_seq. lia. }
  apply list_elem_of_In, in_concat in Hin as (c & Hc & Hin).
  apply list_elem_of_In, list_elem_of_lookup_1 in Hc as [i Hi]. apply list_elem_of_In in Hin.
  exists c. by rewrite (owner_eq i c v).
Qed.

(** Dependencies never lead to a later component. *)
Lemma owner_edge v w : (v < n)%nat -> has_edge edges v w -> (component_of n sccs !!! w <= component_of n sccs !!! v)%nat.
Proof.
  intros Hv He. destruct (owner_spec v Hv) as (c & Hc & Hin).
  assert (sccs = take (component_of n sccs !!! v) sccs ++ c :: drop (S (component_of n sccs !!! v)) sccs) as Hsplit
    by by rewrite take_drop_middle.
  destruct (scc_back _ _ _ Hscc _ _ _ _ _ Hsplit Hin He) as [Hw|Hw].
  - apply list_elem_of_In, in_concat in Hw as (d & Hd & Hw). apply list_elem_of_In in Hd, Hw.
    apply list_elem_of_lookup_1 in Hd as [i Hi].
    apply lookup_take_Some in Hi as [Hi Hlt]. rewrite (owner_eq i d w Hi Hw). lia.
  - by rewrite (owner_eq _ c w Hc Hw).
Qed.

Lemma owner_depends v w : (v < n)%nat -> in_range n edges -> depends edges v w ->
  (component_of n sccs !!! w <= component_of n sccs !!! v)%nat.
Proof.
  intros Hv Hr. induction 1 as [v|v u w Hvu _ IH]; [done|].
  etrans; [|by apply owner_edge]. apply IH. destruct Hvu as [d Hd]. by destruct (Hr v u d Hd).
Qed.
End owner.

(** C14: for any dependency graph the components are exactly the classes of mutually dependent
    nodes: every node is in one component, two nodes share their component exactly when each
    depends on the other, and no dependency leads to a component output later. *)
Theorem tarjan_correct (n : nat) (edges : EdgeMap) (Hr : in_range n edges) :
  let sccs := tarjan n edges in
  let owner := component_of n sccs in
  concat sccs ≡ₚ seq 0 n /\
  (forall v w, (v < n)%nat -> (w < n)%nat ->
     owner !!! v = owner !!! w <-> depends edges v w /\ depends edges w v) /\
  (forall v w, (v < n)%nat -> depends edges v w -> (owner !!! w <= owner !!! v)%nat).
Proof.
  cbn zeta. pose proof (tarjan_scc_order n edges Hr) as Hscc.
  split_and!; [apply Hscc| |].
  - intros v w Hv Hw. split.
    + intros Heq. destruct (owner_spec n edges _ Hscc v Hv) as (c & Hc & Hvc).
      destruct (owner_spec n edges _ Hscc w Hw) as (c' & Hc' & Hwc). rewrite <- Heq, Hc in Hc'.
      injection Hc' as <-. apply list_elem_of_lookup_2 in Hc.
      split; by apply (scc_connected _ _ _ Hscc c).
    + intros [Hvw Hwv]. apply Nat.le_antisymm; by eapply owner_depends.
  - intros v w Hv. by eapply owner_depends.
Qed.

Lemma tarjan_correct_witness :
  let edges := [((0, 1), Positive); ((1, 0), Negative); ((1, 2), Positive)]%nat in
  concat (tarjan 3 edges) ≡ₚ seq 0 3 /\ tarjan 3 edges = [[2]; [0; 1]]%nat.
Proof.
  intros edges. split; [|by vm_compute]. apply (tarjan_correct 3 edges).
  intros f t d Hin. unfold edges in Hin. rewrite !elem_of_cons, elem_of_nil in Hin.
  destruct_or! Hin; simplify_eq; lia.
Defined.
