(* ===== verification/Topological.v ===== *)
(** * The evaluation order is topological

    [topological] (Kahn's algorithm over the components) outputs every component exactly once,
    after all the components it depends on, whenever dependencies between components are
    acyclic. *)

From S2P Require Export Tarjan.

Section kahn.
Context (n : nat) (succ : list (gset nat)) (Hlen : length succ = n).
(** Dependents have larger numbers: [a ∈ succ !!! b] says that [a] depends on [b]. *)
Context (Hacyclic : forall a b, (b < n)%nat -> a ∈ (succ !!! b : gset nat) -> (b < a < n)%nat).

(** The dependencies of [a] that are not output yet. *)
Definition missing (out : list nat) (a : nat) : list nat :=
  filter (fun b => a ∈ (succ !!! b : gset nat) /\ b ∉ out) (seq 0 n).

Record kahn_inv (st : KahnState) : Prop := {
  ki_nodup : NoDup (k_out st);
  ki_range i : i ∈ k_out st -> (i < n)%nat;
  ki_len : length (indegree st) = n;
  ki_indegree a : (a < n)%nat -> indegree st !!! a = length (missing (k_out st) a);
  ki_ready i : i ∈ k_ready st <-> (i < n)%nat /\ (i ∉ k_out st) /\ missing (k_out st) i = [];
  ki_order out1 a out2 b : k_out st = out1 ++ a :: out2 -> (b < n)%nat ->
    a ∈ (succ !!! b : gset nat) -> b ∈ out1;
}.

Lemma elem_of_sorted_nats (s : gset nat) i : i ∈ sorted_nats s <-> i ∈ s.
Proof. unfold sorted_nats, sort_nats. rewrite sort_by_key_perm. apply elem_of_elements. Qed.

Lemma sorted_nats_nodup (s : gset nat) : NoDup (sorted_nats s).
Proof. unfold sorted_nats, sort_nats. rewrite sort_by_key_perm. apply NoDup_elements. Qed.

(** *** Releasing the dependents of an output component *)

Definition release_one (st : KahnState) (j : nat) : KahnState :=
  let d := (indegree st !!! j - 1)%nat in
  mkKahn (if (d =? 0)%nat then {[j]} ∪ k_ready st else k_ready st) (<[j := d]> (indegree st)) (k_out st).

Lemma release_list_spec l st :
  NoDup l -> (forall j, j ∈ l -> (j < length (indegree st))%nat) ->
  let st' := foldl release_one st l in
  k_out st' = k_out st /\ length (indegree st') = length (indegree st) /\
  (forall j, indegree st' !!! j = if decide (j ∈ l) then (indegree st !!! j - 1)%nat else indegree st !!! j) /\
  (forall j, j ∈ k_ready st' <-> j ∈ k_ready st \/ (j ∈ l /\ (indegree st !!! j - 1 = 0)%nat)).
Proof.
  revert st. induction l as [|x l IH]; intros st Hnd Hr; cbn.
  - split_and!; [done|done|done|]. set_solver.
  - apply NoDup_cons in Hnd as [Hx Hnd].
    assert (x < length (indegree st))%nat as Hxl by (apply Hr; by left).
    destruct (IH (release_one st x) Hnd) as (H1 & H2 & H3 & H4).
    { intros j Hj. cbn. rewrite length_insert. apply Hr. by right. }
    split_and!; [done| | |].
    + rewrite H2. cbn. by rewrite length_insert.
    + intros j. rewrite H3. cbn. destruct (decide (j = x)) as [->|Hne].
      * rewrite decide_False by done. rewrite decide_True by (by left).
        by apply list_lookup_total_insert_eq.
      * rewrite list_lookup_total_insert_ne by done.
        destruct (decide (j ∈ l)); [rewrite decide_True by (by right)|rewrite decide_False by set_solver]; done.
    + intros j. rewrite H4. cbn. rewrite elem_of_cons. destruct (decide (j = x)) as [->|Hne].
      * destruct (Nat.eqb_spec (indegree st !!! x - 1) 0); set_solver.
      * rewrite list_lookup_total_insert_ne by done.
        destruct (Nat.eqb_spec (indegree st !!! x - 1) 0); set_solver.
Qed.

Lemma missing_output out i a :
  i ∉ out -> (i < n)%nat ->
  length (missing (out ++ [i]) a) =
  if decide (a ∈ (succ !!! i : gset nat)) then (length (missing out a) - 1)%nat else length (missing out a).
Proof.
  intros Hi Hn. unfold missing. pose proof (NoDup_seq 0 n) as Hnd.
  assert (i ∈ seq 0 n) as Hin by (apply elem_of_seq; lia). revert Hnd Hin.
  assert (forall l : list nat, i ∉ l -> filter (fun b : nat => a ∈ (succ !!! b : gset nat) /\ b ∉ out ++ [i]) l =
    filter (fun b : nat => a ∈ (succ !!! b : gset nat) /\ b ∉ out) l) as Hout.
  { induction l as [|x l IH]; [done|]. intros Hx. rewrite !filter_cons, IH by set_solver.
    assert (x <> i) by set_solver.
    destruct (decide (a ∈ (succ !!! x : gset nat) /\ x ∉ out)) as [Hd|Hd].
    - by rewrite decide_True by set_solver.
    - by rewrite decide_False by set_solver. }
  induction (seq 0 n) as [|x l IH]; [by intros _ ?%elem_of_nil|].
  intros [Hx Hnd]%NoDup_cons [<-|Hin]%elem_of_cons.
  - rewrite !filter_cons, Hout by done.
    rewrite (decide_False (P := _ /\ i ∉ out ++ [i])) by set_solver.
    destruct (decide (a ∈ (succ !!! i : gset nat))) as [Ha|Ha].
    + rewrite decide_True by done. cbn. lia.
    + rewrite decide_False by naive_solver. done.
  - specialize (IH Hnd Hin). assert (x <> i) by congruence. rewrite !filter_cons.
    destruct (decide (a ∈ (succ !!! x : gset nat) /\ x ∉ out)) as [Hd|Hd].
    + rewrite (decide_True (P := _ /\ x ∉ out ++ [i])) by set_solver. cbn. rewrite IH.
      destruct (decide (a ∈ (succ !!! i : gset nat))) as [Ha|Ha]; [|done].
      assert (0 < length (filter (fun b : nat => a ∈ (succ !!! b : gset nat) /\ b ∉ out) l))%nat; [|lia].
      apply Nat.lt_nge. rewrite Nat.le_0_r. intros Hz%nil_length_inv. apply (not_elem_of_nil i).
      rewrite <- Hz. by apply list_elem_of_filter.
    + by rewrite decide_False by set_solver.
Qed.

Lemma kahn_step st i rest :
  kahn_inv st -> sorted_nats (k_ready st) = i :: rest ->
  kahn_inv (release (succ !!! i) (mkKahn (k_ready st ∖ {[i]}) (indegree st) (k_out st ++ [i]))) /\
  k_out (release (succ !!! i) (mkKahn (k_ready st ∖ {[i]}) (indegree st) (k_out st ++ [i]))) = k_out st ++ [i].
Proof.
  intros Hinv Hs. assert (i ∈ k_ready st) as Hi by (apply elem_of_sorted_nats; rewrite Hs; by left).
  apply (ki_ready st Hinv) in Hi as (Hin & Hio & Him).
  set (st0 := mkKahn _ _ _). unfold release.
  change (foldl _ st0 (sorted_nats (succ !!! i))) with (foldl release_one st0 (sorted_nats (succ !!! i))).
  destruct (release_list_spec (sorted_nats (succ !!! i)) st0) as (H1 & H2 & H3 & H4).
  { apply sorted_nats_nodup. }
  { intros j Hj%elem_of_sorted_nats. cbn. rewrite (ki_len st Hinv). by apply (Hacyclic j i). }
  set (st' := foldl release_one st0 _) in *. cbn in H1, H2. split; [|done].
  assert (forall a, (a < n)%nat -> indegree st' !!! a = length (missing (k_out st ++ [i]) a)) as Hdeg.
  { intros a Ha. rewrite H3, missing_output by done. cbn. rewrite (ki_indegree st Hinv a Ha).
    destruct (decide (a ∈ (succ !!! i : gset nat))) as [Hd|Hd].
    - by rewrite decide_True by by apply elem_of_sorted_nats.
    - by rewrite decide_False by by rewrite elem_of_sorted_nats. }
  constructor.
  - rewrite H1. apply NoDup_app. split_and!; [apply Hinv|set_solver|apply NoDup_singleton].
  - rewrite H1. intros j [Hj|Hj]%elem_of_app; [by apply Hinv|]. by apply list_elem_of_singleton in Hj as ->.
  - rewrite H2. apply Hinv.
  - intros a Ha. rewrite H1. by apply Hdeg.
  - intros j. rewrite H4, H1. cbn. rewrite elem_of_difference, elem_of_singleton, (ki_ready st Hinv), elem_of_sorted_nats.
    rewrite not_elem_of_app, list_elem_of_singleton. split.
    + intros [[(Hj & Hjo & Hjm) Hne]|[Hj Hz]].
      * split_and!; [done|done|done|]. apply nil_length_inv. rewrite missing_output by done.
        rewrite Hjm. by destruct (decide _).
      * destruct (Hacyclic j i Hin Hj) as [Hlt Hjn]. split_and!; [done| |lia|].
        -- intros Hjo. apply list_elem_of_split in Hjo as (o1 & o2 & Heq).
           apply Hio. rewrite Heq. apply elem_of_app. left. by eapply (ki_order st Hinv).
        -- apply nil_length_inv. rewrite missing_output by done. rewrite decide_True by done.
           by rewrite <- (ki_indegree st Hinv).
    + intros (Hj & (Hjo & Hne) & Hjm). destruct (decide (j ∈ (succ !!! i : gset nat))) as [Hd|Hd].
      * right. split; [done|]. apply (f_equal length) in Hjm. rewrite missing_output in Hjm by done.
        rewrite decide_True in Hjm by done. by rewrite (ki_indegree st Hinv).
      * left. split; [|done]. split_and!; [done|done|]. apply (f_equal length) in Hjm.
        rewrite missing_output in Hjm by done. rewrite decide_False in Hjm by done. by apply nil_length_inv.
  - intros out1 a out2 b. rewrite H1. intros Heq Hb Hab.
    destruct out2 as [|d out2 _] using rev_ind.
    + apply app_inj_tail in Heq as [<- <-]. destruct (decide (b ∈ k_out st)) as [?|Hbo]; [done|].
      assert (b ∈ missing (k_out st) i) as Hm.
      { apply list_elem_of_filter. split; [done|]. apply elem_of_seq. lia. }
      rewrite Him in Hm. by apply elem_of_nil in Hm.
    + rewrite app_comm_cons, app_assoc in Heq. apply app_inj_tail in Heq as [Heq _].
      by eapply (ki_order st Hinv).
Qed.

(** With nothing ready, nothing is missing: the least component left would be ready. *)
Lemma kahn_complete st : kahn_inv st -> k_ready st = ∅ -> forall i, (i < n)%nat -> i ∈ k_out st.
Proof.
  intros Hinv Hr i. induction (lt_wf i) as [i _ IH]. intros Hi.
  destruct (decide (i ∈ k_out st)) as [?|Hio]; [done|exfalso].
  assert (i ∈ k_ready st) as Hin; [|by rewrite Hr in Hin].
  apply (ki_ready st Hinv). split_and!; [done|done|].
  unfold missing. destruct (filter _ (seq 0 n)) as [|b l] eqn:E; [done|exfalso].
  assert (b ∈ filter (fun b => i ∈ (succ !!! b : gset nat) /\ b ∉ k_out st) (seq 0 n)) as Hb by (rewrite E; by left).
  apply list_elem_of_filter in Hb as [[Hib Hbo] Hb%elem_of_seq].
  apply Hbo, IH; [|lia]. apply (Hacyclic i b); [lia|done].
Qed.

Lemma kahn_loop_spec fuel st :
  kahn_inv st -> (n <= fuel + length (k_out st))%nat ->
  let st' := kahn_loop fuel succ st in
  kahn_inv st' /\ forall i, (i < n)%nat -> i ∈ k_out st'.
Proof.
  revert st. induction fuel as [|fuel IH]; intros st Hinv Hf; cbn.
  - split; [done|]. intros i Hi.
    assert (k_out st ≡ₚ seq 0 n) as ->; [|apply elem_of_seq; lia].
    apply submseteq_length_Permutation; [|rewrite length_seq; lia].
    apply NoDup_submseteq; [apply Hinv|]. intros x Hx. apply elem_of_seq. apply (ki_range st Hinv) in Hx. lia.
  - destruct (sorted_nats (k_ready st)) as [|i rest] eqn:E.
    + split; [done|]. apply kahn_complete; [done|]. apply set_eq. intros x.
      rewrite <- elem_of_sorted_nats, E. set_solver.
    + destruct (kahn_step st i rest Hinv E) as [Hinv' Hout]. apply IH; [done|].
      rewrite Hout, length_app. cbn. lia.
Qed.
End kahn.

(** ** The graph of the components *)

(** [a] depends on [b]: an edge leads from a node of [a] to a node of [b]. *)
Definition component_edge (owner : list nat) (edges : EdgeMap) (a b : nat) : Prop :=
  exists from to, has_edge edges from to /\ owner !!! from = a /\ owner !!! to = b /\ a <> b.

Section component_edges.
Context (m : nat) (owner : list nat).

Definition dependencies (succ : list (gset nat)) (a : nat) : list nat :=
  filter (fun b : nat => a ∈ (succ !!! b : gset nat)) (seq 0 m).

Lemma dependencies_insert (succ : list (gset nat)) a b c :
  length succ = m -> (b < m)%nat -> a ∉ (succ !!! b : gset nat) ->
  length (dependencies (<[b := {[a]} ∪ (succ !!! b)]> succ) c) =
  if decide (c = a) then S (length (dependencies succ c)) else length (dependencies succ c).
Proof.
  intros Hl Hb Ha. unfold dependencies. set (succ' := <[b := _]> succ).
  assert (forall x, x <> b -> succ' !!! x = succ !!! x) as Hne.
  { intros x Hx. unfold succ'. by rewrite list_lookup_total_insert_ne. }
  assert (succ' !!! b = {[a]} ∪ (succ !!! b)) as Heq.
  { unfold succ'. apply list_lookup_total_insert_eq. lia. }
  assert (forall l : list nat, b ∉ l -> length (filter (fun x : nat => c ∈ (succ' !!! x : gset nat)) l) =
    length (filter (fun x : nat => c ∈ (succ !!! x : gset nat)) l)) as Hout.
  { induction l as [|x l IH]; [done|]. intros Hx. rewrite !filter_cons, Hne by set_solver.
    specialize (IH ltac:(set_solver)). destruct (decide _); cbn; congruence. }
  pose proof (NoDup_seq 0 m) as Hnd. assert (b ∈ seq 0 m) as Hin by (apply elem_of_seq; lia).
  revert Hnd Hin. induction (seq 0 m) as [|x l IH]; [by intros _ ?%elem_of_nil|].
  intros [Hx Hnd]%NoDup_cons [<-|Hin]%elem_of_cons.
  - rewrite !filter_cons, Heq. destruct (decide (c = a)) as [->|Hca].
    + rewrite decide_True by set_solver. rewrite decide_False by done. cbn. by rewrite Hout.
    + destruct (decide (c ∈ (succ !!! b : gset nat))).
      * rewrite decide_True by set_solver. cbn. by rewrite Hout.
      * rewrite decide_False by set_solver. by rewrite Hout.
  - rewrite !filter_cons, Hne by set_solver. specialize (IH Hnd Hin).
    destruct (decide (c ∈ (succ !!! x : gset nat))); cbn; [|done].
    rewrite IH. by destruct (decide (c = a)).
Qed.

Lemma step_edges_spec l s :
  (forall from to, has_edge l from to -> (owner !!! from < m)%nat /\ (owner !!! to < m)%nat) ->
  length s.1 = m -> length s.2 = m ->
  (forall a, (a < m)%nat -> s.2 !!! a = length (dependencies s.1 a)) ->
  let s' := foldl (add_edge owner) s l in
  length s'.1 = m /\ length s'.2 = m /\
  (forall a, (a < m)%nat -> s'.2 !!! a = length (dependencies s'.1 a)) /\
  (forall a b, (b < m)%nat ->
     a ∈ (s'.1 !!! b : gset nat) <-> a ∈ (s.1 !!! b : gset nat) \/ component_edge owner l a b).
Proof.
  revert s. induction l as [|[[f t] d] l IH]; intros s Hr L1 L2 Hd; cbn.
  - split_and!; [done..|]. intros a b Hb. split; [by left|].
    intros [?|(? & ? & [? ?%elem_of_nil] & _)]; done.
  - destruct (Hr f t) as [Hf Ht]; [exists d; by left|].
    assert (forall from to, has_edge l from to -> (owner !!! from < m)%nat /\ (owner !!! to < m)%nat) as Hr'.
    { intros from to [d' H']. apply Hr. exists d'. by right. }
    assert (forall a b, component_edge owner ((f, t, d) :: l) a b <->
      (owner !!! f = a /\ owner !!! t = b /\ a <> b) \/ component_edge owner l a b) as Hce.
    { intros a b. unfold component_edge, has_edge. setoid_rewrite elem_of_cons. naive_solver. }
    destruct s as [succ indegree]. cbn [fst snd add_edge] in *.
    destruct (Nat.eqb_spec (owner !!! f) (owner !!! t)) as [Heq|Hne]; cbn [negb andb].
    + destruct (IH (succ, indegree) Hr' L1 L2 Hd) as (H1 & H2 & H3 & H4). split_and!; [done..|].
      intros a b Hb. rewrite H4, Hce by done. cbn. naive_solver.
    + case_bool_decide as Hin.
      * destruct (IH (<[owner !!! t := {[owner !!! f]} ∪ (succ !!! (owner !!! t))]> succ,
          <[owner !!! f := S (indegree !!! (owner !!! f))]> indegree)) as (H1 & H2 & H3 & H4); [done|..].
        -- cbn. by rewrite length_insert.
        -- cbn. by rewrite length_insert.
        -- cbn. intros a Ha. rewrite dependencies_insert by done.
           destruct (decide (a = owner !!! f)) as [->|Hna].
           ++ rewrite list_lookup_total_insert_eq by lia. by rewrite Hd.
           ++ rewrite list_lookup_total_insert_ne by done. by apply Hd.
        -- split_and!; [done..|]. intros a b Hb. rewrite H4, Hce by done. cbn.
           destruct (decide (b = owner !!! t)) as [->|Hnb].
           ++ rewrite list_lookup_total_insert_eq by lia. set_solver.
           ++ rewrite list_lookup_total_insert_ne by done. naive_solver.
      * destruct (IH (succ, indegree) Hr' L1 L2 Hd) as (H1 & H2 & H3 & H4). split_and!; [done..|].
        intros a b Hb. rewrite H4, Hce by done. cbn.
        destruct (decide (owner !!! f ∈ (succ !!! (owner !!! t) : gset nat))); naive_solver.
Qed.
End component_edges.

Lemma push_new_all (out l : list nat) : (forall i, i ∈ l -> i ∈ out) -> foldl push_new out l = out.
Proof.
  induction l as [|x l IH]; intros H; cbn; [done|]. unfold push_new at 2.
  rewrite decide_True by (apply H; by left). apply IH. intros i Hi. apply H. by right.
Qed.

(** The order lists every component once, after the components it depends on. *)
Definition is_evaluation_order (m : nat) (owner : list nat) (edges : EdgeMap) (order : list nat) : Prop :=
  order ≡ₚ seq 0 m /\
  forall before a after b, order = before ++ a :: after -> component_edge owner edges a b -> b ∈ before.

Lemma topological_order (sccs : list (list nat)) (owner : list nat) (edges : EdgeMap) :
  (forall from to, has_edge edges from to ->
     (owner !!! to <= owner !!! from)%nat /\ (owner !!! from < length sccs)%nat) ->
  is_evaluation_order (length sccs) owner edges (topological sccs owner edges).
Proof.
  intros He. unfold topological, component_edges. set (m := length sccs).
  destruct (step_edges_spec m owner edges (replicate m ∅, replicate m 0%nat)) as (L1 & L2 & H3 & H4).
  { intros from to H. destruct (He from to H). unfold m. lia. }
  { cbn. by rewrite length_replicate. }
  { cbn. by rewrite length_replicate. }
  { cbn. intros a Ha. rewrite lookup_total_replicate_2 by done. symmetry. unfold dependencies.
    assert (forall l : list nat, (forall b, b ∈ l -> (b < m)%nat) ->
      length (filter (fun b : nat => a ∈ ((replicate m ∅ : list (gset nat)) !!! b : gset nat)) l) = 0%nat) as Hz.
    { induction l as [|x l IH]; intros Hl; [done|]. rewrite filter_cons.
      rewrite lookup_total_replicate_2 by (apply Hl; by left). rewrite decide_False by set_solver.
      apply IH. intros b Hb. apply Hl. by right. }
    apply Hz. intros b Hb%elem_of_seq. lia. }
  destruct (foldl (add_edge owner) _ edges) as [succ indegree]. cbn [fst snd] in *.
  assert (forall a b, (b < m)%nat -> a ∈ (succ !!! b : gset nat) <-> component_edge owner edges a b) as Hs.
  { intros a b Hb. rewrite H4 by done. cbn. rewrite lookup_total_replicate_2 by done. set_solver. }
  assert (forall a b, (b < m)%nat -> a ∈ (succ !!! b : gset nat) -> (b < a < m)%nat) as Hacyc.
  { intros a b Hb Ha. apply Hs in Ha as (f & t & Hft & <- & <- & Hne); [|done].
    destruct (He f t Hft). unfold m in *. lia. }
  assert (forall a, missing m succ [] a = dependencies m succ a) as Hmiss.
  { intros a. unfold missing, dependencies. apply list_filter_iff. set_solver. }
  set (st0 := mkKahn _ indegree []).
  assert (kahn_inv m succ st0) as Hinv.
  { constructor; cbn.
    - constructor.
    - by intros i ?%elem_of_nil.
    - done.
    - intros a Ha. rewrite Hmiss. by apply H3.
    - intros i. rewrite elem_of_list_to_set, list_elem_of_filter, elem_of_seq, Hmiss. split.
      + intros [Hz Hi]. assert (i < m)%nat as Him by lia. split_and!; [done|set_solver|].
        apply nil_length_inv. by rewrite <- H3.
      + intros (Hi & _ & Hz). split; [|lia]. rewrite H3 by done. by rewrite Hz.
    - intros out1 a out2 b Hn. by destruct out1. }
  destruct (kahn_loop_spec m succ L1 Hacyc m st0 Hinv) as [Hinv' Hall]; [lia|].
  rewrite push_new_all by (intros i Hi%elem_of_seq; apply Hall; lia).
  split.
  - apply NoDup_Permutation; [apply Hinv'|apply NoDup_seq|]. intros i. rewrite elem_of_seq. split.
    + intros Hi. apply (ki_range _ _ _ Hinv') in Hi. lia.
    + intros Hi. apply Hall. lia.
  - intros before a after b Hout Hab. assert (b < m)%nat as Hb.
    { destruct Hab as (f & t & Hft & <- & <- & Hne). destruct (He f t Hft). unfold m. lia. }
    eapply (ki_order _ _ _ Hinv'); [exact Hout|done|by apply Hs].
Qed.
