(* ===== verification/DepGraph.v ===== *)
(** * The checks and the dependency graph mean what they should

    The safety check is range restriction, the arity check is agreement of all heads and uses,
    and the edges of the dependency graph are the dependencies of the rules, each with its
    strongest kind. *)

From S2P Require Export Topological.

(** ** The sorted edge map *)

#[local] Arguments dep_ltb : simpl never.

Lemma edge_compare_eq a b : edge_compare a b = Eq <-> a = b.
Proof.
  destruct a as [a1 a2], b as [b1 b2]. unfold edge_compare. cbn.
  destruct (Nat.compare_spec a1 b1); [rewrite Nat.compare_eq_iff|..]; naive_solver lia.
Qed.

Lemma elem_of_edge_insert key dep edges k d :
  (k, d) ∈ edge_insert key dep edges ->
  (k, d) ∈ edges \/ (k = key /\ d = dep).
Proof.
  induction edges as [|[k' d'] rest IH]; cbn; [set_solver|].
  destruct (edge_compare key k') eqn:E; [apply edge_compare_eq in E as ->| |].
  - rewrite !elem_of_cons. intros [[= -> ->]|?]; [|by left; right].
    case_match; [by right|by left; left].
  - rewrite elem_of_cons. intros [[= -> ->]|?]; [by right|by left].
  - rewrite !elem_of_cons. intros [[= -> ->]|Hin]; [by left; left|].
    destruct (IH Hin); [by left; right|by right].
Qed.

(** An inserted dependency is in the map at least as strong, and no other entry gets weaker. *)
Lemma edge_insert_has key dep edges :
  exists d, (key, d) ∈ edge_insert key dep edges /\ (dep_rank dep <= dep_rank d)%nat.
Proof.
  induction edges as [|[k' d'] rest IH]; cbn; [exists dep; split; [by left|done]|].
  destruct (edge_compare key k') eqn:E; [apply edge_compare_eq in E as ->| |].
  - unfold dep_ltb. destruct (Nat.ltb_spec (dep_rank d') (dep_rank dep)).
    + exists dep. split; [by left|done].
    + exists d'. split; [by left|done].
  - exists dep. split; [by left|done].
  - destruct IH as (d & H1 & H2). exists d. split; [by right|done].
Qed.

Lemma edge_insert_keeps key dep edges k d :
  (k, d) ∈ edges -> exists d', (k, d') ∈ edge_insert key dep edges /\ (dep_rank d <= dep_rank d')%nat.
Proof.
  induction edges as [|[k' d'] rest IH]; cbn; [by intros ?%elem_of_nil|].
  intros [[= -> ->]|Hin]%elem_of_cons.
  - destruct (edge_compare key k') eqn:E.
    + unfold dep_ltb. destruct (Nat.ltb_spec (dep_rank d') (dep_rank dep)).
      * exists dep. split; [by left|lia].
      * exists d'. split; [by left|done].
    + exists d'. split; [by right; left|done].
    + exists d'. split; [by left|done].
  - destruct (edge_compare key k') eqn:E.
    + exists d. split; [by right|done].
    + exists d. split; [by do 2 right|done].
    + destruct (IH Hin) as (d'' & H1 & H2). exists d''. split; [by right|done].
Qed.

Section graph.
Context {OX : Oxrdf}.
Implicit Types (program : Program) (p q : Pred).

(** A predicate with a rule. *)
Definition derived program p : Prop := exists rule, rule ∈ rules program /\ head_pred (head rule) = p.

(** A rule for [p] reads [q] in a dependency of kind [d]. *)
Definition rule_dep program p q (d : Dep) : Prop :=
  exists rule item atom, rule ∈ rules program /\ head_pred (head rule) = p /\ item ∈ body rule /\
    item_dep (aggregates (head rule)) item = Some (atom, d) /\ pred atom = q.

Definition indexes (nodes : list Pred) (index : gmap Pred nat) : Prop :=
  forall p i, index !! p = Some i <-> nodes !! i = Some p.

Lemma add_node_spec nodes index rule :
  indexes nodes index ->
  let s := add_node (nodes, index) rule in
  indexes s.1 s.2 /\ forall p, p ∈ s.1 <-> p ∈ nodes \/ p = head_pred (head rule).
Proof.
  intros Hix. cbn. set (h := head_pred (head rule)). destruct (index !! h) as [i|] eqn:E; cbn.
  - split; [done|]. apply Hix in E. apply list_elem_of_lookup_2 in E. intros p. naive_solver.
  - split; [|intros p; set_solver]. intros p i. destruct (decide (p = h)) as [->|Hne].
    + rewrite lookup_insert_eq. split.
      * intros [= <-]. by apply list_lookup_middle.
      * intros [Hi|[Hl Hi]]%lookup_app_Some; [apply Hix in Hi; congruence|].
        apply list_lookup_singleton_Some in Hi as [Hi _]. f_equal. lia.
    + rewrite lookup_insert_ne by done. rewrite (Hix p i), lookup_app_Some. split; [by left|].
      intros [?|[_ [_ Hi]%list_lookup_singleton_Some]]; congruence.
Qed.

Lemma graph_nodes_spec program :
  let '(nodes, index) := graph_nodes program in
  indexes nodes index /\ forall p, p ∈ nodes <-> derived program p.
Proof.
  unfold graph_nodes, derived.
  enough (forall rs nodes index, indexes nodes index ->
    let s := foldl add_node (nodes, index) rs in
    indexes s.1 s.2 /\ forall p, p ∈ s.1 <-> p ∈ nodes \/ exists rule, rule ∈ rs /\ head_pred (head rule) = p) as H.
  { destruct (H (rules program) [] ∅) as [H1 H2].
    - intros p i. rewrite lookup_empty, lookup_nil. done.
    - destruct (foldl _ _ _) as [nodes index]. cbn in *. split; [done|]. intros p. rewrite H2. set_solver. }
  induction rs as [|rule rs IH]; intros nodes index Hix; cbn [foldl].
  - split; [done|]. intros p. cbn. set_solver.
  - destruct (add_node_spec nodes index rule Hix) as [H1 H2].
    destruct (add_node (nodes, index) rule) as [nodes' index']. destruct (IH nodes' index' H1) as [H3 H4].
    split; [done|]. intros p. rewrite H4. cbn in H2. rewrite H2. setoid_rewrite elem_of_cons. naive_solver.
Qed.

(** *** The edges *)

(** The dependencies among the items of one rule. *)
Definition item_reads (index : gmap Pred nat) (aggregating : bool) (items : list BodyItem) (to : nat) (d : Dep) : Prop :=
  exists item atom, item ∈ items /\ item_dep aggregating item = Some (atom, d) /\ index !! pred atom = Some to.

Lemma add_items_spec index from agg items edges :
  let edges' := foldl (add_item index from agg) edges items in
  (forall k d, (k, d) ∈ edges' -> (k, d) ∈ edges \/ (k.1 = from /\ item_reads index agg items k.2 d)) /\
  (forall k d, (k, d) ∈ edges -> exists d', (k, d') ∈ edges' /\ (dep_rank d <= dep_rank d')%nat) /\
  (forall to d, item_reads index agg items to d ->
     exists d', ((from, to), d') ∈ edges' /\ (dep_rank d <= dep_rank d')%nat).
Proof.
  revert edges. induction items as [|item items IH]; intros edges; cbn [foldl].
  - split_and!; [by left|by eauto|]. intros to d (item & atom & ?%elem_of_nil & _). done.
  - destruct (IH (add_item index from agg edges item)) as (H1 & H2 & H3).
    assert (forall to d, item_reads index agg (item :: items) to d <->
      (exists atom, item_dep agg item = Some (atom, d) /\ index !! pred atom = Some to) \/
      item_reads index agg items to d) as Hr.
    { intros to d. unfold item_reads. setoid_rewrite elem_of_cons. naive_solver. }
    split_and!.
    + intros k d [Hin|[Hk Hin]]%H1; [|right; rewrite Hr; naive_solver].
      revert Hin. unfold add_item. destruct (item_dep agg item) as [[atom dep]|] eqn:Ei; [|by left].
      destruct (index !! pred atom) as [to|] eqn:Et; [|by left].
      intros [?| [-> ->]]%elem_of_edge_insert; [by left|]. right. rewrite Hr. cbn. naive_solver.
    + intros k d Hin. unfold add_item in *. destruct (item_dep agg item) as [[atom dep]|]; [|by apply H2].
      destruct (index !! pred atom) as [to|]; [|by apply H2].
      destruct (edge_insert_keeps (from, to) dep edges k d Hin) as (d1 & Hd1 & Hle).
      destruct (H2 k d1 Hd1) as (d2 & Hd2 & Hle2). exists d2. split; [done|lia].
    + intros to d [(atom & Ei & Et)|Hin]%Hr; [|by apply H3].
      unfold add_item in H2. rewrite Ei, Et in H2. unfold add_item. rewrite Ei, Et.
      destruct (edge_insert_has (from, to) d edges) as (d1 & Hd1 & Hle).
      destruct (H2 (from, to) d1 Hd1) as (d2 & Hd2 & Hle2). exists d2. split; [done|lia].
Qed.
Definition rule_reads (index : gmap Pred nat) (rs : list Rule) (from to : nat) (d : Dep) : Prop :=
  exists rule, rule ∈ rs /\ default 0%nat (index !! head_pred (head rule)) = from /\
    item_reads index (aggregates (head rule)) (body rule) to d.

Lemma rules_edges_spec index rs edges :
  let edges' := foldl (rule_edges index) edges rs in
  (forall from to d, ((from, to), d) ∈ edges' -> ((from, to), d) ∈ edges \/ rule_reads index rs from to d) /\
  (forall k d, (k, d) ∈ edges -> exists d', (k, d') ∈ edges' /\ (dep_rank d <= dep_rank d')%nat) /\
  (forall from to d, rule_reads index rs from to d ->
     exists d', ((from, to), d') ∈ edges' /\ (dep_rank d <= dep_rank d')%nat).
Proof.
  revert edges. induction rs as [|rule rs IH]; intros edges; cbn [foldl].
  - split_and!; [by left|by eauto|]. intros from to d (rule & ?%elem_of_nil & _). done.
  - destruct (IH (rule_edges index edges rule)) as (H1 & H2 & H3).
    unfold rule_edges at 1 in H1. unfold rule_edges at 1 in H2.
    destruct (add_items_spec index (default 0%nat (index !! head_pred (head rule)))
      (aggregates (head rule)) (body rule) edges) as (A1 & A2 & A3).
    assert (forall from to d, rule_reads index (rule :: rs) from to d <->
      (default 0%nat (index !! head_pred (head rule)) = from /\
       item_reads index (aggregates (head rule)) (body rule) to d) \/ rule_reads index rs from to d) as Hr.
    { intros from to d. unfold rule_reads. setoid_rewrite elem_of_cons. naive_solver. }
    split_and!.
    + intros from to d [[?|[Hf Hin]]%A1|Hin]%H1; [by left|..]; right; rewrite Hr; cbn in *; naive_solver.
    + intros k d (d1 & Hd1 & Hle)%A2. destruct (H2 k d1 Hd1) as (d2 & Hd2 & Hle2). exists d2. split; [done|lia].
    + intros from to d [[<- Hin]|Hin]%Hr; [|by apply H3].
      destruct (A3 to d Hin) as (d1 & Hd1 & Hle). destruct (H2 _ d1 Hd1) as (d2 & Hd2 & Hle2).
      exists d2. split; [done|lia].
Qed.

(** The graph of a program: its nodes are the derived predicates, and its edges are exactly the
    dependencies between them, each at least as strong as the rules require and as strong as
    some rule requires. *)
Record is_graph program (nodes : list Pred) (edges : EdgeMap) : Prop := {
  g_nodup : NoDup nodes;
  g_nodes p : p ∈ nodes <-> derived program p;
  g_range : in_range (length nodes) edges;
  g_sound i j d : ((i, j), d) ∈ edges ->
    exists p q, nodes !! i = Some p /\ nodes !! j = Some q /\ rule_dep program p q d;
  g_complete i j p q d : rule_dep program p q d -> nodes !! i = Some p -> nodes !! j = Some q ->
    exists d', ((i, j), d') ∈ edges /\ (dep_rank d <= dep_rank d')%nat;
}.

Lemma dependency_graph_spec program :
  is_graph program (dependency_graph program).1 (dependency_graph program).2.
Proof.
  unfold dependency_graph. pose proof (graph_nodes_spec program) as Hn.
  destruct (graph_nodes program) as [nodes index]. destruct Hn as [Hix Hn]. cbn.
  destruct (rules_edges_spec index (rules program) []) as (H1 & _ & H3). cbn in H1, H3.
  set (edges := foldl _ _ _) in *.
  assert (forall from to d, rule_reads index (rules program) from to d ->
    exists p q, nodes !! from = Some p /\ nodes !! to = Some q /\ rule_dep program p q d) as Hs.
  { intros from to d (rule & Hrule & Hf & item & atom & Hitem & Hd & Ht).
    assert (derived program (head_pred (head rule))) as Hp by (by exists rule).
    apply Hn, list_elem_of_lookup_1 in Hp as [i Hi]. apply Hix in Hi. rewrite Hi in Hf. cbn in Hf. subst i.
    exists (head_pred (head rule)), (pred atom). split_and!; [by apply Hix|by apply Hix|].
    by exists rule, item, atom. }
  assert (forall from to d, ((from, to), d) ∈ edges -> rule_reads index (rules program) from to d) as He.
  { intros from to d Hin. apply H1 in Hin as [?%elem_of_nil|?]; done. }
  constructor.
  - apply NoDup_alt. intros i j p Hi Hj. apply Hix in Hi, Hj. congruence.
  - done.
  - intros from to d Hin. apply He, Hs in Hin as (p & q & Hp & Hq & _). split; by eapply lookup_lt_Some.
  - intros i j d Hin. by apply Hs, He.
  - intros i j p q d (rule & item & atom & Hrule & <- & Hitem & Hd & <-) Hi Hj.
    apply Hix in Hi, Hj. apply H3. exists rule. rewrite Hi. split_and!; [done|done|].
    by exists item, atom.
Qed.
End graph.

(** ** The checks *)

Section checks.
Context {OX : Oxrdf}.
Implicit Types (program : Program) (p : Pred).

(** The atoms a program reads. *)
Definition program_atom program (a : Atom) : Prop :=
  (exists rule item, rule ∈ rules program /\ item ∈ body rule /\ item_atom item = Some a) \/
  (exists g, goal program = Some g /\ goal_atom g = a).

Lemma for_each_atom_ok f program :
  for_each_atom f program = Ok tt <-> forall a, program_atom program a -> f a = Ok tt.
Proof.
  unfold for_each_atom. rewrite bind_unit_ok. setoid_rewrite for_each_ok. setoid_rewrite Forall_forall.
  setoid_rewrite for_each_ok. setoid_rewrite Forall_forall. split.
  - intros [Hr Hg] a [(rule & item & H1 & H2 & H3)|(g & H1 & <-)].
    + specialize (Hr rule H1 item H2). by rewrite H3 in Hr.
    + by rewrite H1 in Hg.
  - intros H. split.
    + intros rule Hrule item Hitem. destruct (item_atom item) as [a|] eqn:E; [|done].
      apply H. left. by exists rule, item.
    + destruct (goal program) as [g|] eqn:E; [|done]. apply H. right. by exists g.
Qed.

(** A stored relation is read as a class or as a property. *)
Definition iri_atoms_fit program : Prop :=
  forall a n, program_atom program a -> pred a = Edb n -> length (args a) = 1%nat \/ length (args a) = 2%nat.

Lemma check_iri_atoms_ok program : check_iri_atoms program = Ok tt <-> iri_atoms_fit program.
Proof.
  unfold check_iri_atoms. rewrite for_each_atom_ok. split.
  - intros H a n Ha Hp. specialize (H a Ha). rewrite Hp in H.
    destruct (Nat.eqb_spec (length (args a)) 1), (Nat.eqb_spec (length (args a)) 2); auto. done.
  - intros H a Ha. destruct (pred a) as [n| | | |] eqn:E; try done.
    destruct (H a n Ha E) as [-> | ->]; done.
Qed.

(** *** Arities *)

Lemma head_arities_ok rs m0 m :
  head_arities rs m0 = Ok m ->
  m0 ⊆ m /\ (forall r, r ∈ rs -> m !! head_pred (head r) = Some (length (head_args (head r)))) /\
  (forall p k, m !! p = Some k -> m0 !! p = Some k \/
     exists r, r ∈ rs /\ head_pred (head r) = p /\ length (head_args (head r)) = k).
Proof.
  revert m0. induction rs as [|r rs IH]; intros m0; cbn.
  - intros [= <-]. split_and!; [done|by intros r ?%elem_of_nil|by left].
  - destruct (m0 !! head_pred (head r)) as [known|] eqn:E.
    + destruct (Nat.eqb_spec known (length (head_args (head r)))) as [->|]; [|done].
      intros (H1 & H2 & H3)%IH. split_and!; [done| |].
      * intros r' [->|Hr]%elem_of_cons; [by eapply lookup_weaken|by apply H2].
      * intros p k Hk. destruct (H3 p k Hk) as [?|(r' & ? & ? & ?)]; [by left|right].
        exists r'. split; [by right|done].
    + intros (H1 & H2 & H3)%IH.
      assert (m !! head_pred (head r) = Some (length (head_args (head r)))) as Hh.
      { eapply lookup_weaken; [|exact H1]. by rewrite lookup_insert_eq. }
      split_and!.
      * etrans; [|exact H1]. by apply insert_subseteq.
      * intros r' [->|Hr]%elem_of_cons; [done|by apply H2].
      * intros p k Hk. destruct (H3 p k Hk) as [Hm|(r' & ? & ? & ?)].
        -- destruct (decide (p = head_pred (head r))) as [->|Hne].
           ++ right. exists r. split_and!; [by left|done|]. congruence.
           ++ rewrite lookup_insert_ne in Hm by done. by left.
        -- right. exists r'. split; [by right|done].
Qed.

Lemma head_arities_total rs m0 (f : Pred -> nat) :
  (forall r, r ∈ rs -> f (head_pred (head r)) = length (head_args (head r))) ->
  (forall p k, m0 !! p = Some k -> k = f p) ->
  exists m, head_arities rs m0 = Ok m.
Proof.
  revert m0. induction rs as [|r rs IH]; intros m0 Hr Hm; cbn; [by eexists|].
  assert (f (head_pred (head r)) = length (head_args (head r))) as Hf by (apply Hr; by left).
  destruct (m0 !! head_pred (head r)) as [known|] eqn:E.
  - rewrite (Hm _ _ E), Hf, Nat.eqb_refl. apply IH; [|done]. intros r' ?. apply Hr. by right.
  - apply IH; [intros r' ?; apply Hr; by right|]. intros p k.
    destruct (decide (p = head_pred (head r))) as [->|Hne].
    + rewrite lookup_insert_eq. congruence.
    + rewrite lookup_insert_ne by done. apply Hm.
Qed.

(** The heads of a predicate agree on its arity, and so do its uses. *)
Definition arities_agree program (f : Pred -> nat) : Prop :=
  (forall r, r ∈ rules program -> f (head_pred (head r)) = length (head_args (head r))) /\
  (forall a, program_atom program a -> derived program (pred a) -> length (args a) = f (pred a)).

Lemma arities_ok program m :
  arities program = Ok m ->
  arities_agree program (fun p => default 0%nat (m !! p)) /\
  (forall p, is_Some (m !! p) <-> derived program p).
Proof.
  unfold arities. rewrite bind_ok. intros (m' & Hh & H). apply bind_unit_ok in H as [Hu [= ->]].
  apply head_arities_ok in Hh as (_ & H2 & H3).
  assert (forall p, is_Some (m !! p) <-> derived program p) as Hd.
  { intros p. split.
    - intros [k Hk]. destruct (H3 p k Hk) as [He|(r & ? & ? & _)]; [by rewrite lookup_empty in He|by exists r].
    - intros (r & Hr & <-). rewrite H2 by done. by eexists. }
  split; [|done]. split.
  - intros r Hr. by rewrite H2.
  - intros a Ha [k Hk]%Hd. rewrite Hk. cbn. rewrite for_each_atom_ok in Hu. specialize (Hu a Ha).
    rewrite Hk in Hu. destruct (k =? length (args a))%nat eqn:E; [|done]. by apply Nat.eqb_eq in E.
Qed.

Lemma arities_total program f : arities_agree program f -> exists m, arities program = Ok m.
Proof.
  intros [Hh Hu]. destruct (head_arities_total (rules program) ∅ f Hh) as [m Hm].
  { intros p k. by rewrite lookup_empty. }
  exists m. unfold arities. rewrite Hm. cbn. apply head_arities_ok in Hm as (_ & H2 & H3).
  apply bind_unit_ok. split; [|done]. apply for_each_atom_ok. intros a Ha.
  destruct (m !! pred a) as [k|] eqn:E; [|done].
  destruct (H3 _ _ E) as [He|(r & Hr & Hp & Hk)]; [by rewrite lookup_empty in He|].
  rewrite (Hu a Ha) by by exists r. rewrite <- Hp, Hh, Hk, Nat.eqb_refl by done. done.
Qed.

(** *** Safety *)

(** A positive atom of the rule has the variable as an argument. *)
Definition binds (rule : Rule) (v : string) : Prop :=
  exists a, BAtom a ∈ body rule /\ ArgVar v ∈ args a.

(** Every variable the rule outputs, negates or tests is bound by a positive atom. *)
Record rule_safe (rule : Rule) : Prop := {
  safe_head v : Plain (ArgVar v) ∈ head_args (head rule) -> binds rule v;
  safe_agg f v : Agg f v ∈ head_args (head rule) -> v <> "*" -> binds rule v;
  safe_negated a v : Negated a ∈ body rule -> ArgVar v ∈ args a -> binds rule v;
  safe_constraint c v : Constraint c ∈ body rule -> occurs v c -> binds rule v;
}.

Lemma elem_of_positive a rule : a ∈ positive rule <-> BAtom a ∈ body rule.
Proof.
  unfold positive. rewrite list_elem_of_omap. split.
  - intros ([] & ? & [= ->]). done.
  - intros H. by exists (BAtom a).
Qed.

Lemma elem_of_negated a rule : a ∈ negated rule <-> Negated a ∈ body rule.
Proof.
  unfold negated. rewrite list_elem_of_omap. split.
  - intros ([] & ? & [= ->]). done.
  - intros H. by exists (Negated a).
Qed.

Lemma elem_of_constraints c rule : c ∈ constraints rule <-> Constraint c ∈ body rule.
Proof.
  unfold constraints. rewrite list_elem_of_omap. split.
  - intros ([] & ? & [= ->]). done.
  - intros H. by exists (Constraint c).
Qed.

Lemma elem_of_bound_vars v rule : v ∈ bound_vars rule <-> binds rule v.
Proof.
  unfold bound_vars, binds. setoid_rewrite <- elem_of_positive.
  enough (forall l out, v ∈ foldl (fun out a => atom_vars a out) out l <-> v ∈ out \/ exists a, a ∈ l /\ ArgVar v ∈ args a) as H.
  { rewrite H. set_solver. }
  induction l as [|a l IH]; intros out; cbn; [set_solver|].
  rewrite IH, elem_of_atom_vars. setoid_rewrite elem_of_cons. naive_solver.
Qed.

Lemma check_rule_safety_ok rule : check_rule_safety rule = Ok tt <-> rule_safe rule.
Proof.
  unfold check_rule_safety.
  assert (forall v e, (if decide (v ∈ bound_vars rule) then Ok tt else Err e : result DatalogError unit) = Ok tt
    <-> binds rule v) as Hr.
  { intros v e. rewrite <- elem_of_bound_vars. by destruct (decide _). }
  rewrite !bind_unit_ok, !for_each_ok, !Forall_forall.
  setoid_rewrite for_each_ok. setoid_rewrite Forall_forall. setoid_rewrite Hr.
  setoid_rewrite elem_of_negated. setoid_rewrite elem_of_constraints.
  setoid_rewrite elem_of_atom_vars. setoid_rewrite elem_of_expr_vars. split.
  - intros (H1 & H2 & H3). constructor.
    + intros v Hv. specialize (H1 _ Hv). by apply Hr in H1.
    + intros f v Hv Hne. specialize (H1 _ Hv). cbn in H1.
      rewrite (proj2 (String.eqb_neq v "*") Hne) in H1. by apply Hr in H1.
    + intros a v Ha Hv. apply (H2 a Ha). by right.
    + intros c v Hc Hv. apply (H3 c Hc). by right.
  - intros [S1 S2 S3 S4]. split_and!.
    + intros [[v| |]|f v] Hv; [apply Hr; by apply S1|done|done|].
      destruct (String.eqb_spec v "*") as [|Hne]; [done|]. apply Hr. by eapply S2.
    + intros a Ha v [?%elem_of_nil|Hv]; [done|]. by eapply S3.
    + intros c Hc v [?%elem_of_nil|Hv]; [done|]. by eapply S4.
Qed.

Definition program_safe program : Prop := forall rule, rule ∈ rules program -> rule_safe rule.

Lemma check_safety_ok program : check_safety program = Ok tt <-> program_safe program.
Proof.
  unfold check_safety, program_safe. rewrite for_each_ok, Forall_forall. by setoid_rewrite check_rule_safety_ok.
Qed.
(** *** Errors *)

Lemma for_each_atom_err f program e :
  for_each_atom f program = Err e -> exists a, program_atom program a /\ f a = Err e.
Proof.
  unfold for_each_atom. intros [H|([] & _ & H)]%bind_err.
  - apply for_each_err in H as (l1 & r & l2 & Hrs & _ & H).
    apply for_each_err in H as (b1 & i & b2 & Hb & _ & H).
    destruct (item_atom i) as [a|] eqn:E; [|done]. exists a. split; [|done].
    left. exists r, i. rewrite Hrs, Hb. set_solver.
  - destruct (goal program) as [g|] eqn:E; [|done]. exists (goal_atom g). split; [|done].
    right. by exists g.
Qed.

(** A stored atom with neither one nor two arguments. *)
Definition misfit_atom program (name : string) (expected found : nat) : Prop :=
  exists a n, program_atom program a /\ pred a = Edb n /\ name = Pred.to_string (pred a) /\
    expected = 2%nat /\ found = length (args a) /\ found <> 1%nat /\ found <> 2%nat.

Lemma check_iri_atoms_err program e :
  check_iri_atoms program = Err e ->
  exists name expected found, e = DatalogError.Arity name expected found /\ misfit_atom program name expected found.
Proof.
  intros (a & Ha & H)%for_each_atom_err. destruct (pred a) as [n| | | |] eqn:E; try done.
  destruct (Nat.eqb_spec (length (args a)) 1); [done|].
  destruct (Nat.eqb_spec (length (args a)) 2); [done|].
  injection H as <-. eexists _, _, _. split; [done|]. exists a, n. by rewrite E.
Qed.

(** A head with [expected] arguments, and a head or a use of the same predicate with [found]. *)
Definition arity_clash program (name : string) (expected found : nat) : Prop :=
  exists r, r ∈ rules program /\ name = Pred.to_string (head_pred (head r)) /\
    expected = length (head_args (head r)) /\ expected <> found /\
    ((exists r', r' ∈ rules program /\ head_pred (head r') = head_pred (head r) /\
        found = length (head_args (head r'))) \/
     (exists a, program_atom program a /\ pred a = head_pred (head r) /\ found = length (args a))).

Lemma head_arities_err rs m0 e (known : Pred -> nat -> Prop) :
  (forall p k, m0 !! p = Some k -> known p k) ->
  (forall r, r ∈ rs -> known (head_pred (head r)) (length (head_args (head r)))) ->
  head_arities rs m0 = Err e ->
  exists r k, r ∈ rs /\ known (head_pred (head r)) k /\ k <> length (head_args (head r)) /\
    e = DatalogError.Arity (Pred.to_string (head_pred (head r))) k (length (head_args (head r))).
Proof.
  revert m0. induction rs as [|r rs IH]; intros m0 Hm Hr; cbn; [done|].
  assert (forall r', r' ∈ rs -> known (head_pred (head r')) (length (head_args (head r')))) as Hr'
    by (intros r' ?; apply Hr; by right).
  destruct (m0 !! head_pred (head r)) as [k|] eqn:E.
  - destruct (Nat.eqb_spec k (length (head_args (head r)))) as [|Hne].
    + intros H. destruct (IH m0 Hm Hr' H) as (r' & k' & Hin & ?). exists r', k'. split; [by right|done].
    + intros [= <-]. exists r, k. split_and!; [by left|by apply Hm|done|done].
  - intros H. edestruct (fun Hm' => IH _ Hm' Hr' H) as (r' & k' & Hin & ?).
    + intros p k. destruct (decide (p = head_pred (head r))) as [->|Hne].
      * rewrite lookup_insert_eq. intros [= <-]. apply Hr. by left.
      * rewrite lookup_insert_ne by done. apply Hm.
    + exists r', k'. split; [by right|done].
Qed.

Lemma arities_err program e :
  arities program = Err e ->
  exists name expected found, e = DatalogError.Arity name expected found /\ arity_clash program name expected found.
Proof.
  set (known := fun p k => exists r, r ∈ rules program /\ head_pred (head r) = p /\ k = length (head_args (head r))).
  unfold arities. intros [H|(m & Hm & H)]%bind_err.
  - apply (head_arities_err _ _ _ known) in H as (r & k & Hr & (r' & Hr' & Hp & ->) & Hne & ->).
    + eexists _, _, _. split; [done|]. exists r'. rewrite Hp. split_and!; [done..|]. left. by exists r.
    + intros p k. by rewrite lookup_empty.
    + intros r Hr. by exists r.
  - apply bind_err in H as [H|([] & _ & H)]; [|done]. apply for_each_atom_err in H as (a & Ha & H).
    apply head_arities_ok in Hm as (_ & _ & Hm).
    destruct (m !! pred a) as [k|] eqn:E; [|done].
    destruct (Nat.eqb_spec k (length (args a))); [done|]. injection H as <-.
    destruct (Hm _ _ E) as [He|(r & Hr & Hp & Hk)]; [by rewrite lookup_empty in He|].
    eexists _, _, _. split; [done|]. exists r. rewrite Hp. split_and!; [done..|]. right. by exists a.
Qed.

(** A rule of the named predicate uses the variable and binds it nowhere. *)
Definition unbound_variable program (name variable : string) : Prop :=
  exists r v, r ∈ rules program /\ name = Pred.to_string (head_pred (head r)) /\ variable = "?" +:+ v /\
    ~ binds r v /\
    (Plain (ArgVar v) ∈ head_args (head r) \/ (exists f, Agg f v ∈ head_args (head r)) \/
     (exists a, Negated a ∈ body r /\ ArgVar v ∈ args a) \/ (exists c, Constraint c ∈ body r /\ occurs v c)).

Lemma check_safety_err program e :
  check_safety program = Err e ->
  exists name variable, e = DatalogError.Unsafe name variable /\ unbound_variable program name variable.
Proof.
  unfold check_safety. intros (l1 & r & l2 & Hrs & _ & H)%for_each_err.
  assert (r ∈ rules program) as Hr by (rewrite Hrs; set_solver). clear l1 l2 Hrs.
  unfold check_rule_safety in H. set (name := Pred.to_string _) in *.
  assert (forall v, (if decide (v ∈ bound_vars r) then Ok tt else Err (DatalogError.Unsafe name ("?" +:+ v))
      : result DatalogError unit) = Err e -> ~ binds r v /\ e = DatalogError.Unsafe name ("?" +:+ v)) as Hreq.
  { intros v. rewrite <- elem_of_bound_vars. destruct (decide _); [done|]. by intros [= <-]. }
  assert (forall v, ~ binds r v /\ e = DatalogError.Unsafe name ("?" +:+ v) ->
    (Plain (ArgVar v) ∈ head_args (head r) \/ (exists f, Agg f v ∈ head_args (head r)) \/
     (exists a, Negated a ∈ body r /\ ArgVar v ∈ args a) \/ (exists c, Constraint c ∈ body r /\ occurs v c)) ->
    exists name variable, e = DatalogError.Unsafe name variable /\ unbound_variable program name variable) as Hout.
  { intros v [Hb ->] Hu. eexists _, _. split; [done|]. by exists r, v. }
  apply bind_err in H as [H|([] & _ & H)]; [|apply bind_err in H as [H|([] & _ & H)]].
  - apply for_each_err in H as (l1 & arg & l2 & Hl & _ & H).
    assert (arg ∈ head_args (head r)) as Harg by (rewrite Hl; set_solver).
    destruct arg as [[v| |]|f v]; try done; [apply (Hout v); [by apply Hreq|by left]|].
    destruct (String.eqb v "*"); [done|]. apply (Hout v); [by apply Hreq|]. right. left. by exists f.
  - apply for_each_err in H as (l1 & a & l2 & Hl & _ & H).
    apply for_each_err in H as (v1 & v & v2 & Hv & _ & H).
    assert (a ∈ negated r) as Ha%elem_of_negated by (rewrite Hl; set_solver).
    assert (v ∈ atom_vars a []) as Hva by (rewrite Hv; set_solver).
    apply elem_of_atom_vars in Hva as [?%elem_of_nil|Hva]; [done|].
    apply (Hout v); [by apply Hreq|]. do 2 right. left. by exists a.
  - apply for_each_err in H as (l1 & c & l2 & Hl & _ & H).
    apply for_each_err in H as (v1 & v & v2 & Hv & _ & H).
    assert (c ∈ constraints r) as Hc%elem_of_constraints by (rewrite Hl; set_solver).
    assert (v ∈ expr_vars c []) as Hvc by (rewrite Hv; set_solver).
    apply elem_of_expr_vars in Hvc as [?%elem_of_nil|Hvc]; [done|].
    apply (Hout v); [by apply Hreq|]. do 3 right. by exists c.
Qed.
End checks.
