(* ===== verification/Strata.v ===== *)
(** * Stratification is sound and complete

    What [analyse] promises its callers: every derived predicate is computed in exactly one
    stratum, after every predicate it reads, strictly after those it negates or aggregates
    over; and a program is refused as unstratified only when a predicate really depends on
    itself through a negation or an aggregate. *)

From S2P Require Export DepGraph.

Section strata.
Context {OX : Oxrdf} (program : Program) (nodes : list Pred) (edges : EdgeMap).
Context (Hg : is_graph program nodes edges).

Let n := length nodes.
Let sccs := tarjan n edges.
Let owner := component_of n sccs.
Let order := topological sccs owner edges.

Definition stratum_preds (ci : nat) : list Pred := omap (fun v => nodes !! v) (sccs !!! ci).
Definition stratum_list : list Stratum :=
  (fun ci => mkStratum (stratum_preds ci) (shape_of program (stratum_preds ci))) <$> order.

Lemma graph_sccs : is_scc_order n edges sccs.
Proof. apply tarjan_scc_order, Hg. Qed.

Lemma graph_order : is_evaluation_order (length sccs) owner edges order.
Proof.
  apply topological_order. intros from to Hft. pose proof Hft as [d Hd].
  destruct (g_range _ _ _ Hg from to d Hd) as [Hf _].
  split; [by apply (owner_edge n edges sccs graph_sccs)|].
  destruct (owner_spec n edges sccs graph_sccs from Hf) as (c & Hc & _). by eapply lookup_lt_Some.
Qed.

Lemma node_unique u v p : nodes !! u = Some p -> nodes !! v = Some p -> u = v.
Proof. apply NoDup_lookup, Hg. Qed.

Lemma owner_iff v c ci : sccs !! ci = Some c -> (v < n)%nat -> v ∈ c <-> owner !!! v = ci.
Proof.
  intros Hc Hv. split.
  - intros Hin. by apply (owner_eq n edges sccs graph_sccs ci c).
  - intros <-. destruct (owner_spec n edges sccs graph_sccs v Hv) as (c' & Hc' & Hin).
    change (component_of n sccs) with owner in Hc'. congruence.
Qed.

Lemma elem_of_stratum_preds v p ci :
  nodes !! v = Some p -> (ci < length sccs)%nat -> p ∈ stratum_preds ci <-> owner !!! v = ci.
Proof.
  intros Hv Hci. destruct (lookup_lt_is_Some_2 sccs ci Hci) as [c Hc].
  rewrite <- (owner_iff v c ci Hc) by (by eapply lookup_lt_Some).
  unfold stratum_preds. rewrite (list_lookup_total_correct _ _ _ Hc). rewrite list_elem_of_omap. split.
  - intros (u & Hu & Hup). by rewrite (node_unique v u p Hv Hup).
  - intros Hin. by exists v.
Qed.

Lemma stratum_preds_nodup ci : NoDup (stratum_preds ci).
Proof.
  unfold stratum_preds. assert (NoDup (sccs !!! ci)) as Hnd.
  { destruct (sccs !! ci) as [c|] eqn:Hc.
    - rewrite (list_lookup_total_correct _ _ _ Hc). pose proof (sccs_nodup n edges sccs graph_sccs) as Hn.
      apply list_elem_of_lookup_2, list_elem_of_In, in_split in Hc as (l1 & l2 & Hl). rewrite Hl, concat_app in Hn.
      by apply NoDup_app in Hn as (_ & _ & [? _]%NoDup_app).
    - rewrite list_lookup_total_alt, Hc. constructor. }
  induction Hnd as [|v l Hv Hnd IH]; cbn; [constructor|]. destruct (nodes !! v) as [p|] eqn:Hp; [|done].
  constructor; [|done]. rewrite list_elem_of_omap. intros (u & Hu & Hup). by rewrite (node_unique v u p Hp Hup) in Hv.
Qed.

Lemma order_range k ci : order !! k = Some ci -> (ci < length sccs)%nat.
Proof.
  intros Hk%list_elem_of_lookup_2. rewrite (proj1 graph_order) in Hk. apply elem_of_seq in Hk. lia.
Qed.

(** The stratum of a predicate is the position of its node's component in the order. *)
Lemma stratum_position v p k m :
  nodes !! v = Some p ->
  stratum_of (mkAnalysis stratum_list m) p = Some k <-> order !! k = Some (owner !!! v).
Proof.
  intros Hv. unfold stratum_of, stratum_list. cbn [strata].
  assert (forall k s, ((fun ci => mkStratum (stratum_preds ci) (shape_of program (stratum_preds ci))) <$> order) !! k = Some s ->
    exists ci, order !! k = Some ci /\ (p ∈ preds s <-> owner !!! v = ci)) as Hs.
  { intros j s. rewrite list_lookup_fmap. intros (ci & Hj & ->)%fmap_Some. exists ci.
    split; [done|]. apply elem_of_stratum_preds; [done|]. by eapply order_range. }
  split.
  - intros ([k' s] & (Hk & Hp & _)%list_find_Some & Heq)%fmap_Some. cbn in Heq. subst k'.
    destruct (Hs k s Hk) as (ci & Hci & Hiff). rewrite Hci. f_equal. symmetry. by apply Hiff.
  - intros Hk. apply fmap_Some. eexists (k, _). split; [|done]. apply list_find_Some. split_and!.
    + by rewrite list_lookup_fmap, Hk.
    + cbn. apply (elem_of_stratum_preds v); [done| |done]. by eapply order_range.
    + intros j s Hj Hlt Hps. destruct (Hs j s Hj) as (ci & Hci & Hiff). apply Hiff in Hps. subst ci.
      assert (NoDup order) as Hnd by (rewrite (proj1 graph_order); apply NoDup_seq).
      pose proof (proj1 (NoDup_alt order) Hnd j k _ Hci Hk). lia.
Qed.

Lemma stratum_exists v p m :
  nodes !! v = Some p -> exists k, stratum_of (mkAnalysis stratum_list m) p = Some k.
Proof.
  intros Hv. assert (owner !!! v ∈ order) as Hin.
  { rewrite (proj1 graph_order). apply elem_of_seq.
    destruct (owner_spec n edges sccs graph_sccs v) as (c & Hc & _); [by eapply lookup_lt_Some|].
    apply lookup_lt_Some in Hc. fold owner in Hc. lia. }
  apply list_elem_of_lookup_1 in Hin as [k Hk]. exists k. by apply (stratum_position v).
Qed.

(** A dependency between two strata goes to an earlier one. *)
Lemma stratum_edge u v i j :
  has_edge edges u v -> order !! i = Some (owner !!! u) -> order !! j = Some (owner !!! v) ->
  owner !!! u <> owner !!! v -> (j < i)%nat.
Proof.
  intros He Hi Hj Hne.
  pose proof (proj2 graph_order (take i order) (owner !!! u) (drop (S i) order) (owner !!! v)) as Hord.
  assert (owner !!! v ∈ take i order) as Hin.
  { apply Hord; [by rewrite take_drop_middle|]. by exists u, v. }
  apply list_elem_of_lookup_1 in Hin as [j' Hj']. apply lookup_take_Some in Hj' as [Hj' Hlt].
  assert (NoDup order) as Hnd by (rewrite (proj1 graph_order); apply NoDup_seq).
  pose proof (proj1 (NoDup_alt order) Hnd j j' _ Hj Hj'). lia.
Qed.

Lemma check_stratification_ok :
  check_stratification nodes sccs owner edges = Ok tt <->
  forall u v d, ((u, v), d) ∈ edges -> d <> Positive -> owner !!! u <> owner !!! v.
Proof.
  unfold check_stratification. rewrite for_each_ok, Forall_forall. split.
  - intros H u v d Hin Hd Heq. specialize (H _ Hin). cbn in H.
    rewrite bool_decide_eq_false_2 in H by done. rewrite (proj2 (Nat.eqb_eq _ _) Heq) in H. done.
  - intros H [[u v] d] Hin. destruct (bool_decide_reflect (d = Positive)) as [|Hd]; [done|]. cbn.
    rewrite (proj2 (Nat.eqb_neq _ _)); [done|]. by apply (H u v d).
Qed.

Lemma order_inj i j ci : order !! i = Some ci -> order !! j = Some ci -> i = j.
Proof. apply NoDup_lookup. rewrite (proj1 graph_order). apply NoDup_seq. Qed.

Lemma stratum_node p i m :
  stratum_of (mkAnalysis stratum_list m) p = Some i <->
  exists v, nodes !! v = Some p /\ order !! i = Some (owner !!! v).
Proof.
  split.
  - intros Hp. pose proof Hp as ([i' s] & (Hi & Hps & _)%list_find_Some & _)%fmap_Some.
    apply list_lookup_fmap_Some in Hi as (ci & -> & _). cbn in Hps.
    apply list_elem_of_omap in Hps as (v & _ & Hv). exists v. split; [done|].
    by apply (stratum_position v p i m).
  - intros (v & Hv & Hi). by apply (stratum_position v p i m).
Qed.

Lemma stratum_members i s p m :
  stratum_list !! i = Some s -> p ∈ preds s <-> stratum_of (mkAnalysis stratum_list m) p = Some i.
Proof.
  intros Hi. apply list_lookup_fmap_Some in Hi as (ci & -> & Hci). cbn [preds]. rewrite stratum_node. split.
  - intros Hp. pose proof Hp as (v & _ & Hv)%list_elem_of_omap. exists v. split; [done|].
    apply (elem_of_stratum_preds v p ci Hv) in Hp; [by rewrite Hp|by eapply order_range].
  - intros (v & Hv & Hk). apply (elem_of_stratum_preds v p ci Hv); [by eapply order_range|]. congruence.
Qed.

Lemma stratum_dep p q d i j m :
  check_stratification nodes sccs owner edges = Ok tt -> rule_dep program p q d ->
  stratum_of (mkAnalysis stratum_list m) p = Some i -> stratum_of (mkAnalysis stratum_list m) q = Some j ->
  (j <= i)%nat /\ (d <> Positive -> (j < i)%nat).
Proof.
  rewrite !stratum_node. intros Hs Hd (u & Hu & Hi) (v & Hv & Hj).
  destruct (g_complete _ _ _ Hg u v p q d Hd Hu Hv) as (d' & Hin & Hle).
  destruct (decide (owner !!! u = owner !!! v)) as [Heq|Hne].
  - split; [rewrite Heq in Hi; by rewrite (order_inj i j _ Hi Hj)|].
    intros Hnp. exfalso. apply (proj1 check_stratification_ok Hs u v d' Hin); [|done].
    destruct d, d'; cbn in *; try lia; congruence.
  - assert (j < i)%nat; [|lia]. eapply (stratum_edge u v); [by exists d'|done..].
Qed.
End strata.

(** ** Dependencies between predicates *)

Section predicates.
Context {OX : Oxrdf} (program : Program).

(** [p] is derived by a rule that reads [q], directly or not. *)
Definition pred_depends : Pred -> Pred -> Prop :=
  rtc (fun p q => derived program q /\ exists d, rule_dep program p q d).

Context (nodes : list Pred) (edges : EdgeMap) (Hg : is_graph program nodes edges).

Lemma rule_dep_derived p q d : rule_dep program p q d -> derived program p.
Proof. intros (rule & _ & _ & ? & ? & _). by exists rule. Qed.

Lemma derived_node p : derived program p <-> exists v, nodes !! v = Some p.
Proof. rewrite <- (g_nodes _ _ _ Hg). apply list_elem_of_lookup. Qed.

Lemma depends_node u p q :
  nodes !! u = Some p -> pred_depends p q -> exists v, nodes !! v = Some q /\ depends edges u v.
Proof.
  intros Hu H. revert u Hu. induction H as [p|p r q [Hr [d Hd]] _ IH]; intros u Hu.
  - exists u. split; [done|]. apply rtc_refl.
  - apply derived_node in Hr as [w Hw]. destruct (IH w Hw) as (v & Hv & Hwv).
    exists v. split; [done|]. eapply rtc_l; [|exact Hwv].
    destruct (g_complete _ _ _ Hg u w p r d Hd Hu Hw) as (d' & Hin & _). by exists d'.
Qed.

Lemma depends_pred u v p :
  nodes !! u = Some p -> depends edges u v -> exists q, nodes !! v = Some q /\ pred_depends p q.
Proof.
  intros Hu H. revert p Hu. induction H as [u|u w v [d Hd] _ IH]; intros p Hu.
  - exists p. split; [done|]. apply rtc_refl.
  - destruct (g_sound _ _ _ Hg u w d Hd) as (p' & r & Hp' & Hr & Hdep).
    assert (p' = p) as -> by congruence. destruct (IH r Hr) as (q & Hq & Hrq).
    exists q. split; [done|]. eapply rtc_l; [|exact Hrq]. split; [|by exists d].
    apply derived_node. by exists w.
Qed.

(** Two predicates share their component exactly when each depends on the other. *)
Lemma owner_mutual u v p q :
  nodes !! u = Some p -> nodes !! v = Some q ->
  component_of (length nodes) (tarjan (length nodes) edges) !!! u =
  component_of (length nodes) (tarjan (length nodes) edges) !!! v <->
  pred_depends p q /\ pred_depends q p.
Proof.
  intros Hu Hv. pose proof (graph_sccs program nodes edges Hg) as Hscc.
  assert (forall a b x y, nodes !! a = Some x -> nodes !! b = Some y -> pred_depends x y -> depends edges a b) as Hnode.
  { intros a b x y Ha Hb Hxy. destruct (depends_node a x y Ha Hxy) as (b' & Hb' & H).
    by rewrite (node_unique program nodes edges Hg b b' y Hb Hb'). }
  assert (forall a b x y, nodes !! a = Some x -> nodes !! b = Some y -> depends edges a b -> pred_depends x y) as Hpred.
  { intros a b x y Ha Hb Hab. destruct (depends_pred a b x Ha Hab) as (y' & Hy' & H). by simplify_eq. }
  split.
  - intros Heq. destruct (owner_spec _ _ _ Hscc u) as (c & Hc & Huc); [by eapply lookup_lt_Some|].
    assert (v ∈ c) as Hvc.
    { apply (owner_iff program nodes edges Hg v c _ Hc); [by eapply lookup_lt_Some|done]. }
    apply list_elem_of_lookup_2 in Hc.
    split; [apply (Hpred u v)|apply (Hpred v u)]; try done; by apply (scc_connected _ _ _ Hscc c).
  - intros [Hpq Hqp]. apply Nat.le_antisymm.
    + apply (owner_depends _ _ _ Hscc); [by eapply lookup_lt_Some|apply Hg|by eapply Hnode].
    + apply (owner_depends _ _ _ Hscc); [by eapply lookup_lt_Some|apply Hg|by eapply Hnode].
Qed.
End predicates.

(** ** What [analyse] computes *)

Section analyse.
Context {OX : Oxrdf}.
Implicit Types (program : Program) (p q : Pred).

Lemma analyse_unfold program :
  let nodes := (dependency_graph program).1 in
  let edges := (dependency_graph program).2 in
  let sccs := tarjan (length nodes) edges in
  analyse program =
  (_ ← check_iri_atoms program;
   arity ← arities program;
   _ ← check_safety program;
   _ ← check_stratification nodes sccs (component_of (length nodes) sccs) edges;
   Ok (mkAnalysis (stratum_list program nodes edges) arity)).
Proof. unfold analyse. by destruct (dependency_graph program). Qed.

Lemma analyse_ok program a :
  analyse program = Ok a <->
  iri_atoms_fit program /\ arities program = Ok (arity a) /\ program_safe program /\
  let nodes := (dependency_graph program).1 in
  let edges := (dependency_graph program).2 in
  let sccs := tarjan (length nodes) edges in
  check_stratification nodes sccs (component_of (length nodes) sccs) edges = Ok tt /\
  strata a = stratum_list program nodes edges.
Proof.
  rewrite analyse_unfold, bind_unit_ok, check_iri_atoms_ok, bind_ok. setoid_rewrite bind_unit_ok.
  setoid_rewrite check_safety_ok. setoid_rewrite bind_unit_ok. cbn zeta. split.
  - intros (H1 & ar & H2 & H3 & H4 & [= <-]). done.
  - intros (H1 & H2 & H3 & H4 & H5). split; [done|]. exists (arity a). split_and!; [done..|].
    f_equal. rewrite <- H5. by destruct a.
Qed.

(** The dependencies that may not go round a cycle. *)
Definition stratified program : Prop :=
  forall p q d, rule_dep program p q d -> d <> Positive -> ~ pred_depends program q p.

Lemma check_stratification_iff program :
  let nodes := (dependency_graph program).1 in
  let edges := (dependency_graph program).2 in
  let sccs := tarjan (length nodes) edges in
  check_stratification nodes sccs (component_of (length nodes) sccs) edges = Ok tt <-> stratified program.
Proof.
  cbn zeta. pose proof (dependency_graph_spec program) as Hg.
  set (nodes := (dependency_graph program).1) in *. set (edges := (dependency_graph program).2) in *.
  rewrite check_stratification_ok by done. unfold stratified. split.
  - intros H p q d Hpq Hd Hqp. assert (derived program p) as Hp by (by eapply rule_dep_derived).
    pose proof Hp as [u Hu]%(derived_node _ _ _ Hg).
    assert (derived program q) as [v Hv]%(derived_node _ _ _ Hg).
    { inversion Hqp as [|? r ? [_ [d' Hd']]]; subst; [done|]. by eapply rule_dep_derived. }
    destruct (g_complete _ _ _ Hg u v p q d Hpq Hu Hv) as (d' & Hin & Hle).
    apply (H u v d' Hin); [by destruct d, d'; cbn in *; try lia; congruence|].
    apply (owner_mutual program nodes edges Hg u v p q Hu Hv). split; [|done].
    apply rtc_once. split; [apply (derived_node _ _ _ Hg); by exists v|by exists d].
  - intros H u v d Hin Hd Heq. destruct (g_sound _ _ _ Hg u v d Hin) as (p & q & Hp & Hq & Hpq).
    apply (H p q d Hpq Hd). by apply (owner_mutual program nodes edges Hg u v p q Hp Hq).
Qed.
End analyse.

(** ** The guarantees *)

(** C12: [analyse] accepts exactly the programs whose stored atoms have one or two arguments,
    whose heads and uses agree on every derived predicate's arity, whose rules bind every
    variable they output, negate or test, and in which no predicate depends on itself through
    a negation or an aggregate. *)
Theorem analyse_accepts {OX : Oxrdf} (program : Program) :
  (exists a, analyse program = Ok a) <->
  iri_atoms_fit program /\ (exists f, arities_agree program f) /\ program_safe program /\ stratified program.
Proof.
  setoid_rewrite analyse_ok. cbn zeta. rewrite <- (check_stratification_iff program). cbn zeta. split.
  - intros (a & H1 & H2 & H3 & H4 & _). apply arities_ok in H2 as [H2 _]. by split_and!; [|eexists| |].
  - intros (H1 & [f Hf] & H3 & H4). destruct (arities_total program f Hf) as [m Hm].
    eexists (mkAnalysis _ m). cbn. by split_and!.
Qed.

(** The strata of an accepted program. *)
Lemma analysis_strata {OX : Oxrdf} (program : Program) (a : Analysis) :
  analyse program = Ok a ->
  (forall p, derived program p <-> exists i, stratum_of a p = Some i) /\
  (forall i s p, strata a !! i = Some s -> p ∈ preds s <-> stratum_of a p = Some i) /\
  (forall p q d i j, rule_dep program p q d -> stratum_of a p = Some i -> stratum_of a q = Some j ->
     (j <= i)%nat /\ (d <> Positive -> (j < i)%nat)) /\
  (forall p q i j, stratum_of a p = Some i -> stratum_of a q = Some j ->
     i = j <-> pred_depends program p q /\ pred_depends program q p) /\
  (forall r, r ∈ rules program -> arity a !! head_pred (head r) = Some (length (head_args (head r)))).
Proof.
  intros H. apply analyse_ok in H. cbn zeta in H. destruct H as (_ & Har & _ & Hs & Hst).
  pose proof (dependency_graph_spec program) as Hg.
  set (nodes := (dependency_graph program).1) in *. set (edges := (dependency_graph program).2) in *.
  destruct a as [st m]. cbn [strata arity] in *. subst st. split_and!.
  - intros p. rewrite (derived_node program nodes edges Hg). split.
    + intros [v Hv]. by apply (stratum_exists program nodes edges Hg v).
    + intros [i Hi]. apply (stratum_node program nodes edges Hg) in Hi as (v & Hv & _). by exists v.
  - intros i s p. by apply stratum_members.
  - intros p q d i j Hd. by apply stratum_dep.
  - intros p q i j (u & Hu & Hi)%(stratum_node program nodes edges Hg)
      (v & Hv & Hj)%(stratum_node program nodes edges Hg).
    rewrite <- (owner_mutual program nodes edges Hg u v p q Hu Hv). split.
    + intros ->. congruence.
    + intros Heq. rewrite Heq in Hi. by apply (order_inj program nodes edges Hg i j _ Hi Hj).
  - intros r Hr. unfold arities in Har. apply bind_ok in Har as (m' & Hm & Har).
    apply bind_unit_ok in Har as [_ [= ->]]. apply head_arities_ok in Hm as (_ & Hm & _). by apply Hm.
Qed.

Lemma analysis_nodup {OX : Oxrdf} (program : Program) (a : Analysis) s :
  analyse program = Ok a -> s ∈ strata a -> NoDup (preds s).
Proof.
  intros H. apply analyse_ok in H. cbn zeta in H. destruct H as (_ & _ & _ & _ & ->).
  intros (ci & -> & _)%list_elem_of_fmap. apply (stratum_preds_nodup program), dependency_graph_spec.
Qed.

(** C11: in an accepted program every derived predicate is computed in exactly one stratum, after
    or with the predicates it reads, and strictly after those it negates or aggregates over;
    two predicates share a stratum exactly when each depends on the other; and the recorded
    arities are those of the heads. *)
Theorem analyse_stratifies {OX : Oxrdf} (program : Program) (a : Analysis) (H : analyse program = Ok a) :
  (forall p, derived program p <-> exists i, stratum_of a p = Some i) /\
  (forall i s p, strata a !! i = Some s -> p ∈ preds s <-> stratum_of a p = Some i) /\
  (forall p q d i j, rule_dep program p q d -> stratum_of a p = Some i -> stratum_of a q = Some j ->
     (j <= i)%nat /\ (d <> Positive -> (j < i)%nat)) /\
  (forall p q i j, stratum_of a p = Some i -> stratum_of a q = Some j ->
     i = j <-> pred_depends program p q /\ pred_depends program q p) /\
  (forall r, r ∈ rules program -> arity a !! head_pred (head r) = Some (length (head_args (head r)))).
Proof. by apply analysis_strata. Qed.

(** A set of mutually dependent predicates, two of which are linked by a negation or an
    aggregate. *)
Definition genuine_cycle {OX : Oxrdf} (program : Program) (kind : string) (component : list string) : Prop :=
  exists p q d ps,
    rule_dep program p q d /\ p ∈ ps /\ q ∈ ps /\ component = Pred.to_string <$> ps /\
    ((d = Negative /\ kind = "negation") \/ (d = Aggregating /\ kind = "aggregation")) /\
    (forall r, r ∈ ps <-> pred_depends program p r /\ pred_depends program r p).

Lemma check_stratification_err {OX : Oxrdf} (program : Program) e :
  let nodes := (dependency_graph program).1 in
  let edges := (dependency_graph program).2 in
  let sccs := tarjan (length nodes) edges in
  check_stratification nodes sccs (component_of (length nodes) sccs) edges = Err e ->
  exists kind component, e = DatalogError.Unstratified kind component /\ genuine_cycle program kind component.
Proof.
  cbn zeta. pose proof (dependency_graph_spec program) as Hg.
  set (nodes := (dependency_graph program).1) in *. set (edges := (dependency_graph program).2) in *.
  set (sccs := tarjan _ _). set (owner := component_of _ sccs).
  unfold check_stratification. intros (l1 & [[u v] d] & l2 & Hl & _ & H)%for_each_err.
  assert (((u, v), d) ∈ edges) as Hin by (rewrite Hl; set_solver).
  destruct (bool_decide_reflect (d = Positive)) as [|Hd]; [done|]. cbn [orb] in H.
  destruct (Nat.eqb_spec (owner !!! u) (owner !!! v)) as [Heq|]; [|done]. cbn [negb] in H.
  injection H as <-. destruct (g_sound _ _ _ Hg u v d Hin) as (p & q & Hu & Hv & Hpq).
  eexists _, _. split; [done|].
  destruct (owner_spec _ _ _ (graph_sccs program nodes edges Hg) u) as (c & Hc & Huc); [by eapply lookup_lt_Some|].
  assert (forall w x, nodes !! w = Some x -> w ∈ c <-> pred_depends program p x /\ pred_depends program x p) as Hw.
  { intros w x Hx. rewrite (owner_iff program nodes edges Hg w c _ Hc) by (by eapply lookup_lt_Some).
    rewrite <- (owner_mutual program nodes edges Hg u w p x Hu Hx). done. }
  assert (forall w, w ∈ c -> is_Some (nodes !! w)) as Hnode.
  { intros w Hwc. apply lookup_lt_is_Some_2. assert (w ∈ seq 0 (length nodes)) as Hseq; [|apply elem_of_seq in Hseq; lia].
    rewrite <- (scc_partition _ _ _ (graph_sccs program nodes edges Hg)).
    apply list_elem_of_In, in_concat. exists c. split; apply list_elem_of_In; [by eapply list_elem_of_lookup_2|done]. }
  assert (forall x, x ∈ omap (fun w => nodes !! w) c <-> pred_depends program p x /\ pred_depends program x p) as Hps.
  { intros x. rewrite list_elem_of_omap. split.
    - intros (w & Hwc & Hx). by apply (Hw w x).
    - intros [H1 H2]. destruct (depends_node program nodes edges Hg u p x Hu H1) as (w & Hx & _).
      exists w. split; [by apply (Hw w x)|done]. }
  exists p, q, d, (omap (fun w => nodes !! w) c). split_and!; [done| | | | |done].
  - apply Hps. split; apply rtc_refl.
  - apply Hps. by apply (owner_mutual program nodes edges Hg u v p q Hu Hv).
  - rewrite (list_lookup_total_correct _ _ _ Hc). clear -Hnode. induction c as [|w c IH]; [done|].
    cbn. destruct (Hnode w) as [x ->]; [by left|]. cbn. f_equal. apply IH. intros w' ?. apply Hnode. by right.
  - destruct d; [done|left|right]; done.
Qed.

(** C13: every refusal names a real defect: a stored atom of the wrong shape, a head and another
    head or use of the same predicate with different numbers of arguments, a rule and a variable
    it uses without binding it, or a genuine cycle through the reported negation or aggregation,
    with all its predicates. Nothing else is ever reported. *)
Theorem analyse_errors {OX : Oxrdf} (program : Program) (e : DatalogError) (H : analyse program = Err e) :
  match e with
  | DatalogError.Arity name expected found =>
      misfit_atom program name expected found \/ arity_clash program name expected found
  | DatalogError.Unsafe name variable => unbound_variable program name variable
  | DatalogError.Unstratified kind component => genuine_cycle program kind component
  | _ => False
  end.
Proof.
  rewrite analyse_unfold in H. apply bind_err in H as [H|([] & _ & H)].
  { apply check_iri_atoms_err in H as (? & ? & ? & -> & H). by left. }
  apply bind_err in H as [H|(m & _ & H)].
  { apply arities_err in H as (? & ? & ? & -> & H). by right. }
  apply bind_err in H as [H|([] & _ & H)].
  { by apply check_safety_err in H as (? & ? & -> & H). }
  apply bind_err in H as [H|([] & _ & H)]; [|done].
  by apply check_stratification_err in H as (? & ? & -> & H).
Qed.

(** ** Recursion shapes *)

Section shapes.
Context {OX : Oxrdf} (program : Program) (ps : list Pred).

(** A rule of the component with at least [k] recursive atoms. *)
Definition some_rule (k : nat) (rs : list Rule) : Prop :=
  exists r, r ∈ rs /\ head_pred (head r) ∈ ps /\ (k <= recursive_atoms ps r)%nat.

Lemma shape_steps rs s :
  let s' := foldl (shape_step ps) s rs in
  (s'.1 = true <-> s.1 = true \/ some_rule 1 rs) /\ (s'.2 = true <-> s.2 = true \/ some_rule 2 rs).
Proof.
  assert (forall k r rs, some_rule k (r :: rs) <->
    (head_pred (head r) ∈ ps /\ (k <= recursive_atoms ps r)%nat) \/ some_rule k rs) as Hc.
  { intros k r l. unfold some_rule. setoid_rewrite elem_of_cons. naive_solver. }
  revert s. induction rs as [|r rs IH]; intros [rec nl]; cbn [foldl].
  - unfold some_rule. split; (split; [by left|]); intros [?|(r & ?%elem_of_nil & _)]; done.
  - destruct (IH (shape_step ps (rec, nl) r)) as [H1 H2]. rewrite H1, H2, !Hc. cbn [shape_step fst snd].
    destruct (decide (head_pred (head r) ∈ ps)) as [Hin|Hin]; cbn [fst snd]; [|naive_solver].
    rewrite !orb_true_iff, !Nat.ltb_lt. clear -Hin. split; naive_solver lia.
Qed.

Lemma shape_of_cases :
  match shape_of program ps with
  | NonRecursive => ~ some_rule 1 (rules program)
  | Linear => some_rule 1 (rules program) /\ ~ some_rule 2 (rules program) /\ (length ps <= 1)%nat
  | LinearMutual => some_rule 1 (rules program) /\ ~ some_rule 2 (rules program) /\ (1 < length ps)%nat
  | NonLinear => some_rule 2 (rules program)
  end.
Proof.
  unfold shape_of. destruct (shape_steps (rules program) (false, false)) as [H1 H2].
  destruct (foldl _ _ _) as [rec nl]. cbn [fst snd] in *.
  assert (some_rule 2 (rules program) -> some_rule 1 (rules program)) as H21.
  { intros (r & ? & ? & ?). exists r. split_and!; [done|done|lia]. }
  destruct rec; cbn [negb]; [|intros Hs; by apply proj2 in H1; discriminate H1; right].
  destruct nl; [by destruct (proj1 H2 eq_refl)|].
  assert (some_rule 1 (rules program)) by by destruct (proj1 H1 eq_refl).
  assert (~ some_rule 2 (rules program)) by (intros Hs; apply proj2 in H2; discriminate H2; by right).
  by destruct (Nat.ltb_spec 1 (length ps)).
Qed.

Lemma recursive_atoms_pos r :
  (1 <= recursive_atoms ps r)%nat <-> exists a, BAtom a ∈ body r /\ pred a ∈ ps.
Proof.
  unfold recursive_atoms. setoid_rewrite <- elem_of_positive. split.
  - intros H. destruct (filter _ (positive r)) as [|a l] eqn:E; [cbn in H; lia|].
    assert (a ∈ filter (fun a => pred a ∈ ps) (positive r)) as Ha by (rewrite E; by left).
    apply list_elem_of_filter in Ha as [? ?]. by exists a.
  - intros (a & Ha & Hp). apply Nat.le_succ_l, Nat.neq_0_lt_0. intros Hz%nil_length_inv.
    apply (not_elem_of_nil a). rewrite <- Hz. by apply list_elem_of_filter.
Qed.
End shapes.

(** The strata of an accepted program carry the shape their rules have: without recursion
    when no rule of the stratum reads the stratum in any way, linear when some rule does and
    none has two recursive atoms (mutual exactly when the stratum has several predicates), and
    non-linear when some rule has two. *)
Theorem strata_shapes {OX : Oxrdf} (program : Program) (a : Analysis) (H : analyse program = Ok a) :
  forall s, s ∈ strata a ->
  (is_recursive s = false <->
     forall p q d, p ∈ preds s -> q ∈ preds s -> ~ rule_dep program p q d) /\
  match shape s with
  | NonRecursive => ~ some_rule (preds s) 1 (rules program)
  | Linear => some_rule (preds s) 1 (rules program) /\ ~ some_rule (preds s) 2 (rules program) /\
      (length (preds s) <= 1)%nat
  | LinearMutual => some_rule (preds s) 1 (rules program) /\ ~ some_rule (preds s) 2 (rules program) /\
      (1 < length (preds s))%nat
  | NonLinear => some_rule (preds s) 2 (rules program)
  end.
Proof.
  apply analyse_ok in H. cbn zeta in H. destruct H as (_ & _ & _ & Hs & Hst).
  pose proof (dependency_graph_spec program) as Hg. intros s Hin. rewrite Hst in Hin.
  apply list_elem_of_lookup_1 in Hin as [i Hi].
  assert (forall p q d, p ∈ preds s -> q ∈ preds s -> rule_dep program p q d -> d = Positive) as Hpos.
  { intros p q d Hp Hq Hd. destruct (decide (d = Positive)) as [|Hne]; [done|exfalso].
    apply (stratum_members program _ _ Hg i s _ ∅ Hi) in Hp, Hq.
    destruct (stratum_dep program _ _ Hg p q d i i ∅ Hs Hd Hp Hq) as [_ Hlt]. specialize (Hlt Hne). lia. }
  apply list_lookup_fmap_Some in Hi as (ci & -> & _). set (ps := stratum_preds _ _ ci) in *. cbn [preds shape] in *.
  split; [|apply shape_of_cases]. unfold is_recursive. cbn [shape]. rewrite negb_false_iff, bool_decide_eq_true.
  pose proof (shape_of_cases program ps) as Hsh.
  assert (shape_of program ps = NonRecursive <-> ~ some_rule ps 1 (rules program)) as ->.
  { split; [intros E; by rewrite E in Hsh|]. intros Hn. destruct (shape_of program ps); [done|naive_solver..|].
    destruct Hn. destruct Hsh as (r & ? & ? & ?). exists r. split_and!; [done|done|lia]. }
  split.
  - intros Hn p q d Hp Hq Hd. pose proof (Hpos p q d Hp Hq Hd) as ->. apply Hn.
    destruct Hd as (r & item & atom & Hr & <- & Hitem & Hdep & <-). exists r. split_and!; [done|done|].
    apply recursive_atoms_pos. destruct item as [b|b|]; [|done..]. injection Hdep as [= -> _]. by exists atom.
  - intros Hn (r & Hr & Hh & (b & Hb & Hq)%recursive_atoms_pos).
    eapply (Hn _ _ _ Hh Hq). exists r, (BAtom b), b. split_and!; done.
Qed.

(** ** An example: ancestors, and the people who are not their own ancestor *)

Module Sample.
#[local] Existing Instance ConcreteRdf.oxrdf.
Definition x : Arg := ArgVar "x".
Definition y : Arg := ArgVar "y".
Definition z : Arg := ArgVar "z".
Definition atom (p : Pred) (l : list Arg) : Atom := mkAtom p l (mkSpan 0 0) None.
Definition rule (p : Pred) (l : list Arg) (b : list BodyItem) : Rule :=
  mkRule (mkHead p (Plain <$> l) (mkSpan 0 0)) b.
Definition ancestor : Pred := Idb "ancestor".
Definition parent : Pred := Edb "http://example.org/parent".
Definition rooted : Pred := Idb "rooted".
Definition program : Program := mkProgram [
  rule rooted [x] [BAtom (atom parent [x; y]); Negated (atom ancestor [x; x])];
  rule ancestor [x; y] [BAtom (atom parent [x; y])];
  rule ancestor [x; z] [BAtom (atom parent [x; y]); BAtom (atom ancestor [y; z])]] None None.
Definition result : list Stratum := [mkStratum [ancestor] Linear; mkStratum [rooted] NonRecursive].
Definition cyclic : Program := mkProgram [
  rule rooted [x] [BAtom (atom parent [x; y]); Negated (atom rooted [y])]] None None.
End Sample.

Lemma sample_analysis :
  exists a, @analyse ConcreteRdf.oxrdf Sample.program = Ok a /\ strata a = Sample.result.
Proof.
  assert (strata <$> @analyse ConcreteRdf.oxrdf Sample.program = Ok Sample.result) as H by by vm_compute.
  apply fmap_ok in H as (a & Ha & Hs). by exists a.
Qed.

Lemma analyse_stratifies_witness :
  exists a, @analyse ConcreteRdf.oxrdf Sample.program = Ok a /\
  exists i, stratum_of a Sample.rooted = Some i.
Proof.
  destruct sample_analysis as (a & H & Hs). exists a. split; [exact H|].
  apply (proj1 (analyse_stratifies Sample.program a H)).
  eexists. split; [left|]. done.
Defined.

Lemma strata_shapes_witness :
  exists a, @analyse ConcreteRdf.oxrdf Sample.program = Ok a /\
  some_rule (OX := ConcreteRdf.oxrdf) [Sample.ancestor] 1 (rules Sample.program).
Proof.
  destruct sample_analysis as (a & H & Hs). exists a. split; [exact H|].
  apply (strata_shapes Sample.program a H (mkStratum [Sample.ancestor] Linear)). rewrite Hs. left.
Defined.

Lemma analyse_errors_witness :
  @analyse ConcreteRdf.oxrdf Sample.cyclic = Err (DatalogError.Unstratified "negation" ["rooted"]) /\
  genuine_cycle (OX := ConcreteRdf.oxrdf) Sample.cyclic "negation" ["rooted"].
Proof.
  assert (@analyse ConcreteRdf.oxrdf Sample.cyclic = Err (DatalogError.Unstratified "negation" ["rooted"])) as H
    by by vm_compute.
  split; [exact H|]. exact (analyse_errors Sample.cyclic _ H).
Defined.
