(* ===== verification/Lexer.v ===== *)
(** * The tokenizer of Datalog programs ([crates/oxilite-datalog/src/lexer.rs])

    The lexer state is the input from its position on, with the line and column. Each reader
    consumes a prefix; a slice [src[start..pos]] is the consumed prefix itself. A Rust [String]
    built with [push(b as char)] is kept as its characters, all below 256, until [fix_utf8]
    turns them into bytes again. The theorems are in [LexerFacts]. *)

From S2P Require Export F64 Ast.

(** ** Tokens *)

Module Tok.
Inductive t :=
  | Var (v : string)
  | Wildcard
  | Name (n : string)
  | Iri (i : string)
  | Curie (prefix local : string)
  | Str (value : string) (lang : option string) (datatype : option t)
  | Int (v : Z)
  | Num (v : f64)
  | Implies | Query | AtPrefix | AtVersion
  | LParen | RParen | Comma | Dot
  | Eq | Ne | Lt | Le | Gt | Ge
  | Plus | Minus | Star | Slash
  | And | Or | Bang.

(** The derived [PartialEq]. *)
Fixpoint eqb (a b : t) : bool :=
  match a, b with
  | Var v, Var w | Name v, Name w | Iri v, Iri w => String.eqb v w
  | Curie p l, Curie q m => String.eqb p q && String.eqb l m
  | Str v l d, Str w m e =>
      String.eqb v w && bool_decide (l = m) &&
      match d, e with Some d, Some e => eqb d e | None, None => true | _, _ => false end
  | Int v, Int w => v =? w
  | Num v, Num w => F64.eqb v w
  | Wildcard, Wildcard | Implies, Implies | Query, Query | AtPrefix, AtPrefix
  | AtVersion, AtVersion | LParen, LParen | RParen, RParen | Comma, Comma | Dot, Dot
  | Eq, Eq | Ne, Ne | Lt, Lt | Le, Le | Gt, Gt | Ge, Ge | Plus, Plus | Minus, Minus
  | Star, Star | Slash, Slash | And, And | Or, Or | Bang, Bang => true
  | _, _ => false
  end.
End Tok.
Abbreviation Tok := Tok.t.

Record Spanned := mkSpanned { tok : Tok; tok_span : Span }.

(** ** UTF-8 *)

(** The length of the valid sequence the bytes start with, or of the invalid prefix to replace
    ([core::str::Utf8Chunks]). *)
Definition is_cont (c : ascii) : bool := (128 <=? byte_val c) && (byte_val c <? 192).
Definition in_range_byte (lo hi : Z) (c : ascii) : bool := (lo <=? byte_val c) && (byte_val c <=? hi).

(** [second_ok] is the range of the second byte, [n] the number of continuation bytes after it. *)
Definition utf8_multi (second_ok : ascii -> bool) (n : nat) (s : string) : bool * nat :=
  match s with
  | String c2 r =>
      if negb (second_ok c2) then (false, 1%nat)
      else match n, r with
           | O, _ => (true, 2%nat)
           | S n, String c3 r =>
               if negb (is_cont c3) then (false, 2%nat)
               else match n, r with
                    | O, _ => (true, 3%nat)
                    | S _, String c4 _ => if is_cont c4 then (true, 4%nat) else (false, 3%nat)
                    | S _, EmptyString => (false, 3%nat)
                    end
           | S _, EmptyString => (false, 2%nat)
           end
  | EmptyString => (false, 1%nat)
  end.

Definition utf8_sequence (c : ascii) (s : string) : bool * nat :=
  let b := byte_val c in
  if b <? 128 then (true, 1%nat)
  else if b <? 194 then (false, 1%nat)
  else if b <? 224 then utf8_multi is_cont 0 s
  else if b =? 224 then utf8_multi (in_range_byte 160 191) 1 s
  else if b =? 237 then utf8_multi (in_range_byte 128 159) 1 s
  else if b <? 240 then utf8_multi is_cont 1 s
  else if b =? 240 then utf8_multi (in_range_byte 144 191) 2 s
  else if b <? 244 then utf8_multi is_cont 2 s
  else if b =? 244 then utf8_multi (in_range_byte 128 143) 2 s
  else (false, 1%nat).

Definition replacement : string := String (byte_of 239) (String (byte_of 191) (String (byte_of 189) "")).

(** [String::from_utf8_lossy]; [skip] bytes of a sequence remain, copied when [keep]. *)
Fixpoint utf8_lossy (skip : nat) (keep : bool) (s : string) : string :=
  match s with
  | EmptyString => EmptyString
  | String c s =>
      match skip with
      | S skip => if keep then String c (utf8_lossy skip keep s) else utf8_lossy skip keep s
      | O =>
          let '(valid, n) := utf8_sequence c s in
          if valid : bool then String c (utf8_lossy (n - 1) true s)
          else replacement +:+ utf8_lossy (n - 1) false s
      end
  end.
Definition from_utf8_lossy (s : string) : string := utf8_lossy 0 true s.

(** [String::push(b as char)] for a byte [b]: the UTF-8 encoding of the character. *)
Definition encode_char (c : ascii) : string :=
  if byte_val c <? 128 then String c ""
  else String (byte_of (192 + Z.shiftr (byte_val c) 6)) (String (byte_of (128 + Z.land (byte_val c) 63)) "").
Fixpoint encode_chars (s : string) : string :=
  match s with EmptyString => EmptyString | String c s => encode_char c +:+ encode_chars s end.

Definition is_ascii (c : ascii) : bool := byte_val c <? 128.

(** [fix_utf8], from the characters the string is made of. *)
Definition fix_utf8 (chars : string) : string :=
  if all_chars is_ascii chars then chars else from_utf8_lossy chars.

(** ** The lexer *)

Record Lexer := mkLexer { lx_rest : string; lx_span : Span }.

Definition Lexer_new (src : string) : Lexer := mkLexer src (mkSpan 1 1).

Definition wrap_u32 (z : Z) : Z := z mod 2 ^ 32.

Definition LF : ascii := "010"%char.
Definition CR : ascii := "013"%char.
Definition TAB : ascii := "009"%char.
Definition DQUOTE : ascii := "034"%char.

Definition advance (b : ascii) (sp : Span) : Span :=
  if Ascii.eqb b LF then mkSpan (wrap_u32 (line sp + 1)) 1
  else mkSpan (line sp) (wrap_u32 (column sp + 1)).

Definition head_byte (s : string) : option ascii :=
  match s with String b _ => Some b | EmptyString => None end.
Definition peek (lx : Lexer) : option ascii := head_byte (lx_rest lx).
Definition peek_at (n : nat) (lx : Lexer) : option ascii := String.get n (lx_rest lx).

Definition bump (lx : Lexer) : Lexer :=
  match lx_rest lx with
  | String b r => mkLexer r (advance b (lx_span lx))
  | EmptyString => lx
  end.

(** White space and comments; [comment] is the inner loop, up to the end of the line. *)
Fixpoint skip_trivia_from (comment : bool) (s : string) (sp : Span) : Lexer :=
  match s with
  | EmptyString => mkLexer s sp
  | String b r =>
      if comment then skip_trivia_from (negb (Ascii.eqb b LF)) r (advance b sp)
      else if is_ascii_whitespace b then skip_trivia_from false r (advance b sp)
      else if Ascii.eqb b "%" || Ascii.eqb b "#" then skip_trivia_from true r (advance b sp)
      else mkLexer s sp
  end.
Definition skip_trivia (lx : Lexer) : Lexer := skip_trivia_from false (lx_rest lx) (lx_span lx).

(** *** Names *)

Definition is_name_start (b : ascii) : bool := is_ascii_alphabetic b || Ascii.eqb b "_".
Definition is_name_byte (b : ascii) : bool :=
  is_ascii_alphanumeric b || Ascii.eqb b "_" || Ascii.eqb b "-" || Ascii.eqb b ".".

Fixpoint name_loop (s : string) (sp : Span) : string * Lexer :=
  match s with
  | EmptyString => (EmptyString, mkLexer s sp)
  | String b r =>
      if (Ascii.eqb b "." && negb (is_name_byte (default " "%char (head_byte r)))) || negb (is_name_byte b)
      then (EmptyString, mkLexer s sp)
      else let '(n, lx) := name_loop r (advance b sp) in (String b n, lx)
  end.

Definition read_name (span : Span) (lx : Lexer) : result DatalogError (string * Lexer) :=
  let '(n, lx) := name_loop (lx_rest lx) (lx_span lx) in
  if String.eqb n "" then Err (DatalogError.parse span "expected a name") else Ok (n, lx).

(** *** IRIs *)

(** From the byte after the [<]; [first] when that is the byte to inspect. *)
Fixpoint iri_follows (first : bool) (s : string) : bool :=
  match s with
  | EmptyString => false
  | String b r =>
      if Ascii.eqb b ">" then negb first
      else if is_ascii_whitespace b || Ascii.eqb b "<" then false
      else iri_follows false r
  end.
Definition is_iri_start (lx : Lexer) : bool := iri_follows true (lx_rest (bump lx)).

(** Up to the closing [>]: the bytes before it and the state after it. *)
Fixpoint iri_loop (s : string) (sp : Span) : option (string * Lexer) :=
  match s with
  | EmptyString => None
  | String b r =>
      if Ascii.eqb b ">" then Some (EmptyString, mkLexer r (advance b sp))
      else '(i, lx) ← iri_loop r (advance b sp); Some (String b i, lx)
  end.

(** Every byte is pushed as a character: the string returned is their UTF-8 encoding. *)
Definition read_iri (span : Span) (lx : Lexer) : result DatalogError (Tok * Lexer) :=
  let lx := bump lx in
  '(i, lx) ← ok_or (iri_loop (lx_rest lx) (lx_span lx)) (DatalogError.parse span "unterminated IRI");
  Ok (Tok.Iri (encode_chars i), lx).

(** *** Numbers *)

Fixpoint number_loop (s : string) (sp : Span) (float : bool) : string * Lexer * bool :=
  match s with
  | EmptyString => (EmptyString, mkLexer s sp, float)
  | String b r =>
      if is_ascii_digit b then
        let '(n, lx, float) := number_loop r (advance b sp) float in (String b n, lx, float)
      else if Ascii.eqb b "." && match head_byte r with Some d => is_ascii_digit d | None => false end then
        let '(n, lx, float) := number_loop r (advance b sp) true in (String b n, lx, float)
      else if Ascii.eqb b "e" || Ascii.eqb b "E" then
        match r with
        | String sg r' =>
            if Ascii.eqb sg "+" || Ascii.eqb sg "-" then
              let '(n, lx, float) := number_loop r' (advance sg (advance b sp)) true in
              (String b (String sg n), lx, float)
            else
              let '(n, lx, float) := number_loop r (advance b sp) true in (String b n, lx, float)
        | EmptyString => (String b EmptyString, mkLexer r (advance b sp), true)
        end
      else (EmptyString, mkLexer s sp, float)
  end.

Definition read_number (span : Span) (lx : Lexer) : result DatalogError (Tok * Lexer) :=
  let '(text, lx, float) := number_loop (lx_rest lx) (lx_span lx) false in
  let num :=
    v ← ok_or (F64.parse text) (DatalogError.parse span ("invalid number `" +:+ text +:+ "`"));
    Ok (Tok.Num v, lx) in
  if float then num
  else match parse_i64 text with
       | Some v => Ok (Tok.Int v, lx)
       | None => num
       end.

(** *** Strings *)

Definition unescape (e : ascii) : option ascii :=
  if Ascii.eqb e "n" then Some LF
  else if Ascii.eqb e "t" then Some TAB
  else if Ascii.eqb e "r" then Some CR
  else if Ascii.eqb e DQUOTE || Ascii.eqb e "'" || Ascii.eqb e "\" then Some e
  else None.

(** The loop up to the closing quote: the characters of the value. *)
Fixpoint string_loop (quote : ascii) (span : Span) (s : string) (sp : Span)
  : result DatalogError (string * Lexer) :=
  match s with
  | EmptyString => Err (DatalogError.parse span "unterminated string")
  | String b r =>
      if Ascii.eqb b "\" then
        match r with
        | EmptyString => Err (DatalogError.parse span "unterminated escape")
        | String e r =>
            c ← ok_or (unescape e)
              (DatalogError.parse span ("unknown escape `\" +:+ encode_char e +:+ "`"));
            '(v, lx) ← string_loop quote span r (advance e (advance b sp));
            Ok (String c v, lx)
        end
      else if Ascii.eqb b quote then Ok (EmptyString, mkLexer r (advance b sp))
      else '(v, lx) ← string_loop quote span r (advance b sp); Ok (String b v, lx)
  end.

Definition read_datatype (lx : Lexer) : result DatalogError (Tok * Lexer) :=
  let dt_span := lx_span lx in
  match peek lx with
  | Some b =>
      if Ascii.eqb b "<" then read_iri dt_span lx
      else if Ascii.eqb b ":" then
        '(l, lx) ← read_name dt_span (bump lx); Ok (Tok.Curie "" l, lx)
      else if is_name_start b then
        '(prefix, lx) ← read_name dt_span lx;
        if bool_decide (peek lx = Some ":"%char) then
          '(l, lx) ← read_name dt_span (bump lx); Ok (Tok.Curie prefix l, lx)
        else Ok (Tok.Name prefix, lx)
      else Err (DatalogError.parse dt_span "expected a datatype IRI")
  | None => Err (DatalogError.parse dt_span "expected a datatype IRI")
  end.

Definition read_string (span : Span) (quote : ascii) (lx : Lexer) : result DatalogError (Tok * Lexer) :=
  let lx := bump lx in
  '(chars, lx) ← string_loop quote span (lx_rest lx) (lx_span lx);
  let value := fix_utf8 chars in
  if bool_decide (peek lx = Some "@"%char) then
    '(lang, lx) ← read_name span (bump lx); Ok (Tok.Str value (Some lang) None, lx)
  else if bool_decide (peek lx = Some "^"%char) && bool_decide (peek_at 1 lx = Some "^"%char) then
    '(dt, lx) ← read_datatype (bump (bump lx)); Ok (Tok.Str value None (Some dt), lx)
  else Ok (Tok.Str value None None, lx).

(** *** One token *)

(** [bump], then one more when the next byte is [b]: the longer token [t2]. *)
Definition one_or_two (b : ascii) (t1 t2 : Tok) (lx : Lexer) : result DatalogError (Tok * Lexer) :=
  let lx := bump lx in
  if bool_decide (peek lx = Some b) then Ok (t2, bump lx) else Ok (t1, lx).

Definition read_word (span : Span) (lx : Lexer) : result DatalogError (Tok * Lexer) :=
  '(name, lx) ← read_name span lx;
  if bool_decide (peek lx = Some ":"%char) && negb (bool_decide (peek_at 1 lx = Some "-"%char)) then
    let lx := bump lx in
    if is_name_start (default " "%char (peek lx)) then
      '(l, lx) ← read_name span lx; Ok (Tok.Curie name l, lx)
    else Ok (Tok.Curie name "", lx)
  else Ok (Tok.Name name, lx).

Definition read_directive (span : Span) (lx : Lexer) : result DatalogError (Tok * Lexer) :=
  '(word, lx) ← read_name span (bump lx);
  if String.eqb word "prefix" || String.eqb word "base" then Ok (Tok.AtPrefix, lx)
  else if String.eqb word "version" then Ok (Tok.AtVersion, lx)
  else Err (DatalogError.parse span ("unknown directive @" +:+ word)).

(** The [match b] of [tokenize]. *)
Definition read_token (b : ascii) (lx : Lexer) : result DatalogError (Tok * Lexer) :=
  let span := lx_span lx in
  let eqb (c : ascii) := Ascii.eqb b c in
  if eqb "?"%char then
    if bool_decide (peek_at 1 lx = Some "-"%char) then Ok (Tok.Query, bump (bump lx))
    else '(v, lx) ← read_name span (bump lx); Ok (Tok.Var v, lx)
  else if eqb "$"%char then '(v, lx) ← read_name span (bump lx); Ok (Tok.Var v, lx)
  else if eqb "<"%char then
    if bool_decide (peek_at 1 lx = Some "="%char) then Ok (Tok.Le, bump (bump lx))
    else if is_iri_start lx then read_iri span lx
    else Ok (Tok.Lt, bump lx)
  else if eqb ">"%char then one_or_two "=" Tok.Gt Tok.Ge lx
  else if eqb "="%char then one_or_two "=" Tok.Eq Tok.Eq lx
  else if eqb "!"%char then one_or_two "=" Tok.Bang Tok.Ne lx
  else if eqb ":"%char then
    if bool_decide (peek_at 1 lx = Some "-"%char) then Ok (Tok.Implies, bump (bump lx))
    else '(l, lx) ← read_name span (bump lx); Ok (Tok.Curie "" l, lx)
  else if eqb "@"%char then read_directive span lx
  else if eqb "&"%char then one_or_two "&" Tok.And Tok.And lx
  else if eqb "|"%char then one_or_two "|" Tok.Or Tok.Or lx
  else if eqb DQUOTE || eqb "'"%char then read_string span b lx
  else if eqb "("%char then Ok (Tok.LParen, bump lx)
  else if eqb ")"%char then Ok (Tok.RParen, bump lx)
  else if eqb ","%char then Ok (Tok.Comma, bump lx)
  else if eqb "."%char then Ok (Tok.Dot, bump lx)
  else if eqb "+"%char then Ok (Tok.Plus, bump lx)
  else if eqb "-"%char then Ok (Tok.Minus, bump lx)
  else if eqb "*"%char then Ok (Tok.Star, bump lx)
  else if eqb "/"%char then Ok (Tok.Slash, bump lx)
  else if is_ascii_digit b then read_number span lx
  else if eqb "_"%char && negb (is_name_byte (default " "%char (peek_at 1 lx))) then Ok (Tok.Wildcard, bump lx)
  else if is_name_start b then read_word span lx
  else Err (DatalogError.parse span ("unexpected character `" +:+ encode_char b +:+ "`")).

(** Every iteration consumes a byte at least: one unit of fuel each. *)
Fixpoint tokenize_loop (fuel : nat) (lx : Lexer) : fueled DatalogError (list Spanned) :=
  match fuel with
  | O => OutOfFuel
  | S fuel =>
      let lx := skip_trivia lx in
      match peek lx with
      | None => Returned []
      | Some b =>
          '(t, lx') ← run (read_token b lx);
          ts ← tokenize_loop fuel lx';
          Returned (mkSpanned t (lx_span lx) :: ts)
      end
  end.

Definition tokenize (lx : Lexer) : fueled DatalogError (list Spanned) :=
  tokenize_loop (S (String.length (lx_rest lx))) lx.
