(* ===== verification/LexerFacts.v ===== *)
(** * The tokenizer terminates and reads back what is printed

    Every token consumes input, so the fuel of [tokenize] is enough ([tokenize_total]), and a
    list of tokens written with a space before each is read back ([tokenize_print]). *)

From S2P Require Export Lexer.

(** ** Every token consumes input *)

Definition remaining (lx : Lexer) : nat := String.length (lx_rest lx).

Lemma bump_remaining lx : remaining (bump lx) = (remaining lx - 1)%nat.
Proof. destruct lx as [[|b r] sp]; cbn; unfold remaining; cbn; lia. Qed.

Lemma peek_some b lx : peek lx = Some b -> (0 < remaining lx)%nat.
Proof. destruct lx as [[|c r] sp]; cbn; [done|]. unfold remaining. cbn. lia. Qed.

Lemma skip_trivia_from_le c s sp : (remaining (skip_trivia_from c s sp) <= String.length s)%nat.
Proof.
  revert c sp. induction s as [|b r IH]; intros c sp; cbn; [done|].
  repeat case_match; try (etrans; [apply IH|lia]). done.
Qed.

Lemma skip_trivia_le lx : (remaining (skip_trivia lx) <= remaining lx)%nat.
Proof. apply skip_trivia_from_le. Qed.

Lemma name_loop_length s sp n lx :
  name_loop s sp = (n, lx) -> (String.length n + remaining lx = String.length s)%nat.
Proof.
  revert sp n lx. induction s as [|b r IH]; intros sp n lx; cbn; [by intros [= <- <-]|].
  case_match; [by intros [= <- <-]|]. destruct (name_loop r _) as [n' lx'] eqn:E.
  intros [= <- <-]. apply IH in E. cbn. lia.
Qed.

Lemma read_name_shrinks span lx n lx' :
  read_name span lx = Ok (n, lx') -> (remaining lx' < remaining lx)%nat.
Proof.
  unfold read_name. destruct (name_loop _ _) as [m lx1] eqn:E. apply name_loop_length in E.
  destruct (String.eqb_spec m ""); [done|]. intros [= <- <-]. unfold remaining in *.
  destruct m; [done|]. cbn in E. lia.
Qed.

Lemma iri_loop_shrinks s sp i lx : iri_loop s sp = Some (i, lx) -> (remaining lx < String.length s)%nat.
Proof.
  revert sp i lx. induction s as [|b r IH]; intros sp i lx; cbn; [done|].
  case_match; [intros [= <- <-]; cbn; lia|].
  destruct (iri_loop r _) as [[i' lx']|] eqn:E; cbn; [|done]. intros [= <- <-]. apply IH in E. lia.
Qed.

Lemma read_iri_shrinks span lx t lx' :
  read_iri span lx = Ok (t, lx') -> (remaining lx' < remaining lx)%nat.
Proof.
  unfold read_iri. destruct (iri_loop _ _) as [[i lx1]|] eqn:E; cbn; [|done].
  intros [= <- <-]. apply iri_loop_shrinks in E. pose proof (bump_remaining lx).
  unfold remaining in *. lia.
Qed.

Lemma number_loop_length s sp f n lx f' :
  number_loop s sp f = (n, lx, f') -> (String.length n + remaining lx = String.length s)%nat.
Proof.
  revert sp f n lx f'. induction s as [s IH] using (induction_ltof1 _ String.length); unfold ltof in IH.
  intros sp f n lx f'. destruct s as [|b r]; cbn; [by intros [= <- <- _]|].
  destruct (is_ascii_digit b).
  { destruct (number_loop r _ _) as [[n' lx'] f''] eqn:E. intros [= <- <- _].
    apply IH in E; [|cbn; lia]. cbn. lia. }
  destruct (_ && _).
  { destruct (number_loop r _ _) as [[n' lx'] f''] eqn:E. intros [= <- <- _].
    apply IH in E; [|cbn; lia]. cbn. lia. }
  destruct (_ || _); [|by intros [= <- <- _]].
  destruct r as [|sg r']; [by intros [= <- <- _]|]. destruct (_ || _).
  - destruct (number_loop r' _ _) as [[n' lx'] f''] eqn:E. intros [= <- <- _].
    apply IH in E; [|cbn; lia]. cbn. lia.
  - destruct (number_loop (String sg r') _ _) as [[n' lx'] f''] eqn:E. intros [= <- <- _].
    apply IH in E; [|cbn; lia]. cbn in *. lia.
Qed.

Lemma number_loop_digit b r sp f n lx f' :
  is_ascii_digit b = true -> number_loop (String b r) sp f = (n, lx, f') -> n <> "".
Proof. intros Hb. cbn. rewrite Hb. destruct (number_loop r _ _) as [[n' lx'] f'']. by intros [= <- _ _]. Qed.

Lemma read_number_shrinks span b lx t lx' :
  peek lx = Some b -> is_ascii_digit b = true ->
  read_number span lx = Ok (t, lx') -> (remaining lx' < remaining lx)%nat.
Proof.
  destruct lx as [[|c r] sp]; [done|]. intros [= ->] Hb. unfold read_number. cbn [lx_rest lx_span].
  destruct (number_loop _ _ _) as [[text lx1] float] eqn:E.
  pose proof (number_loop_digit _ _ _ _ _ _ _ Hb E) as Hne. apply number_loop_length in E.
  assert (remaining lx1 < remaining (mkLexer (String b r) sp))%nat as Hlt.
  { unfold remaining in *. cbn [lx_rest]. destruct text; [done|]. cbn [String.length] in *. lia. }
  intros H. repeat case_match; inv_bind; done.
Qed.

Lemma string_loop_shrinks q span s sp v lx :
  string_loop q span s sp = Ok (v, lx) -> (remaining lx < String.length s)%nat.
Proof.
  revert sp v lx. induction s as [s IH] using (induction_ltof1 _ String.length); unfold ltof in IH.
  intros sp v lx. destruct s as [|b r]; cbn; [done|]. case_match.
  - destruct r as [|e r']; [done|]. destruct (unescape e); cbn; [|done].
    destruct (string_loop _ _ r' _) as [[v' lx']|] eqn:E; cbn; [|done]. intros [= <- <-].
    apply IH in E; cbn in *; lia.
  - case_match; [intros [= <- <-]; cbn; lia|].
    destruct (string_loop _ _ r _) as [[v' lx']|] eqn:E; cbn; [|done]. intros [= <- <-].
    apply IH in E; cbn in *; lia.
Qed.

(** The readers below the token level, for the automation of [read_token_shrinks]. *)
Ltac shrinking :=
  repeat match goal with
  | H : _ ≫= _ = Ok _ |- _ => apply bind_ok in H as ([? ?] & ? & H)
  | H : Ok _ = Ok _ |- _ => injection H as H; subst
  | H : Err _ = Ok _ |- _ => discriminate H
  | H : read_name _ _ = Ok _ |- _ => apply read_name_shrinks in H
  | H : read_iri _ _ = Ok _ |- _ => apply read_iri_shrinks in H
  | H : ?l = _ |- _ => match l with context [match ?x with _ => _ end] => destruct x eqn:? end
  end; rewrite ?bump_remaining in *; try done; try lia.

Lemma read_datatype_shrinks lx t lx' :
  read_datatype lx = Ok (t, lx') -> (remaining lx' < remaining lx)%nat.
Proof. unfold read_datatype. intros H. shrinking. Qed.

Lemma read_string_shrinks span q lx t lx' :
  read_string span q lx = Ok (t, lx') -> (remaining lx' < remaining lx)%nat.
Proof.
  unfold read_string. intros H. apply bind_ok in H as ([chars lx1] & Hl & H).
  apply string_loop_shrinks in Hl. pose proof (bump_remaining lx) as Hb. unfold remaining at 1 in Hb.
  assert (remaining lx1 < remaining lx)%nat as Hlt by lia.
  shrinking.
  match goal with H : read_datatype _ = Ok _ |- _ => apply read_datatype_shrinks in H end.
  rewrite !bump_remaining in *. lia.
Qed.

Lemma read_word_shrinks span lx t lx' :
  read_word span lx = Ok (t, lx') -> (remaining lx' < remaining lx)%nat.
Proof. unfold read_word. intros H. apply bind_ok in H as ([n lx1] & Hn & H). shrinking. Qed.

Lemma one_or_two_shrinks b t1 t2 lx t lx' :
  (0 < remaining lx)%nat -> one_or_two b t1 t2 lx = Ok (t, lx') -> (remaining lx' < remaining lx)%nat.
Proof. unfold one_or_two. intros Hp H. shrinking. Qed.

Lemma read_directive_shrinks span lx t lx' :
  read_directive span lx = Ok (t, lx') -> (remaining lx' < remaining lx)%nat.
Proof. unfold read_directive. intros H. apply bind_ok in H as ([w lx1] & Hn & H). shrinking. Qed.

Lemma read_token_shrinks b lx t lx' :
  peek lx = Some b -> read_token b lx = Ok (t, lx') -> (remaining lx' < remaining lx)%nat.
Proof.
  intros Hb. pose proof (peek_some b lx Hb) as Hp. unfold read_token. cbn zeta. intros H.
  repeat match type of H with
  | (if ?c then _ else _) = _ => destruct c eqn:?
  end; try discriminate H;
  first [ by eapply one_or_two_shrinks | by eapply read_directive_shrinks | by eapply read_word_shrinks
        | by eapply read_string_shrinks | by eapply read_number_shrinks | shrinking; lia ].
Qed.

Lemma tokenize_loop_total fuel lx :
  (remaining lx < fuel)%nat -> tokenize_loop fuel lx <> OutOfFuel.
Proof.
  revert lx. induction fuel as [|fuel IH]; intros lx Hf; [lia|]. cbn.
  pose proof (skip_trivia_le lx) as Hle. set (lx0 := skip_trivia lx) in *.
  destruct (peek lx0) as [b|] eqn:Hp; [|done]. intros H.
  apply fueled_bind_fuel in H as [H|([t lx'] & Ht & H)]; [by apply run_fueled in H|].
  apply run_returned, read_token_shrinks in Ht; [|done].
  apply fueled_bind_fuel in H as [H|(ts & _ & H)]; [|done]. apply IH in H; [done|lia].
Qed.

(** tokenizing any source ends: in a list of tokens or in a lexical error. *)
Theorem tokenize_total (src : string) : tokenize (Lexer_new src) <> OutOfFuel.
Proof. apply tokenize_loop_total. unfold remaining. lia. Qed.

(** ** Printing tokens *)

Definition escape_char (c : ascii) : string :=
  if Ascii.eqb c DQUOTE || Ascii.eqb c "\" then String "\" (String c "")
  else if Ascii.eqb c LF then String "\" "n"
  else String c "".
Fixpoint escape (s : string) : string :=
  match s with EmptyString => EmptyString | String c s => escape_char c +:+ escape s end.

Fixpoint print_tok (t : Tok) : string :=
  match t with
  | Tok.Var v => "?" +:+ v
  | Tok.Wildcard => "_"
  | Tok.Name n => n
  | Tok.Iri i => "<" +:+ i +:+ ">"
  | Tok.Curie p l => p +:+ ":" +:+ l
  | Tok.Str v lang dt =>
      String DQUOTE (escape v +:+ String DQUOTE
        (match lang, dt with
         | Some l, _ => "@" +:+ l
         | None, Some d => "^^" +:+ print_tok d
         | None, None => ""
         end))
  | Tok.Int v => show_Z v
  | Tok.Num v => F64.upper_exp v
  | Tok.Implies => ":-" | Tok.Query => "?-" | Tok.AtPrefix => "@prefix" | Tok.AtVersion => "@version"
  | Tok.LParen => "(" | Tok.RParen => ")" | Tok.Comma => "," | Tok.Dot => "."
  | Tok.Eq => "=" | Tok.Ne => "!=" | Tok.Lt => "<" | Tok.Le => "<=" | Tok.Gt => ">" | Tok.Ge => ">="
  | Tok.Plus => "+" | Tok.Minus => "-" | Tok.Star => "*" | Tok.Slash => "/"
  | Tok.And => "&&" | Tok.Or => "||" | Tok.Bang => "!"
  end.

Fixpoint print_tokens (ts : list Tok) : string :=
  match ts with [] => "" | t :: ts => " " +:+ print_tok t +:+ print_tokens ts end.

(** Concatenations to the right, known characters in front. *)
Ltac norm_app :=
  repeat first [rewrite <- string_app_assoc | rewrite string_app_cons | rewrite string_app_nil_l].

(** *** Which tokens have a text *)

Fixpoint ends_with_dot (s : string) : bool :=
  match s with
  | EmptyString => false
  | String c EmptyString => Ascii.eqb c "."
  | String _ s => ends_with_dot s
  end.
Definition starts_name (s : string) : bool :=
  match s with String b _ => is_name_start b | EmptyString => false end.
Definition starts_dash (s : string) : bool :=
  match s with String b _ => Ascii.eqb b "-" | EmptyString => false end.

(** Name bytes, at least one, the last not a dot. *)
Definition plain_name (s : string) : bool :=
  negb (String.eqb s "") && all_chars is_name_byte s && negb (ends_with_dot s).
(** A name that a letter or an underscore starts, and that is not the wildcard. *)
Definition word (s : string) : bool := plain_name s && starts_name s && negb (String.eqb s "_").

Definition iri_byte (c : ascii) : bool :=
  is_ascii c && negb (is_ascii_whitespace c) && negb (Ascii.eqb c "<") && negb (Ascii.eqb c ">").

Definition lexable_datatype (t : Tok) : bool :=
  match t with
  | Tok.Iri i => all_chars iri_byte i
  | Tok.Curie p l => (String.eqb p "" || (plain_name p && starts_name p)) && plain_name l
  | Tok.Name n => plain_name n && starts_name n
  | _ => false
  end.

Definition lexable (t : Tok) : bool :=
  match t with
  | Tok.Var v => plain_name v && negb (starts_dash v)
  | Tok.Name n => word n
  | Tok.Iri i => negb (String.eqb i "") && all_chars iri_byte i && negb (starts_with i "=")
  | Tok.Curie p l =>
      if String.eqb p "" then plain_name l && negb (starts_dash l)
      else word p && (String.eqb l "" || (plain_name l && starts_name l))
  | Tok.Str v lang dt =>
      String.eqb (from_utf8_lossy v) v &&
      match lang, dt with
      | Some l, None => plain_name l
      | None, Some d => lexable_datatype d
      | None, None => true
      | Some _, Some _ => false
      end
  | Tok.Int v => (0 <=? v) && (v <=? i64_max)
  | Tok.Num _ => false
  | _ => true
  end.

(** What may follow a token: a space, or the end. *)
Definition spaced (rest : string) : Prop := rest = "" \/ exists r, rest = String " " r.

(** A reader returns [x] and leaves [rest]. *)
Definition reads {E A} (r : result E (A * Lexer)) (x : A) (rest : string) : Prop :=
  exists sp, r = Ok (x, mkLexer rest sp).

Lemma reads_bind {E A B} (r : result E (A * Lexer)) (f : A * Lexer -> result E (B * Lexer)) x y rest rest' :
  reads r x rest -> (forall sp, reads (f (x, mkLexer rest sp)) y rest') -> reads (r ≫= f) y rest'.
Proof. intros [sp ->] H. exact (H sp). Qed.

(** *** Names *)

Definition name_stops (rest : string) : bool := negb (is_name_byte (default " "%char (head_byte rest))).

Lemma spaced_stops rest : spaced rest -> name_stops rest = true.
Proof. by intros [-> |[r ->]]. Qed.

Lemma name_loop_print n rest sp :
  plain_name n = true -> name_stops rest = true ->
  exists sp', name_loop (n +:+ rest) sp = (n, mkLexer rest sp').
Proof.
  unfold plain_name. rewrite !andb_true_iff, !negb_true_iff. intros [[_ Ha] Hd] Hs.
  revert sp. induction n as [|b n IH]; intros sp.
  - exists sp. rewrite string_app_nil_l. destruct rest as [|c r]; [done|]. cbn.
    unfold name_stops in Hs. cbn in Hs. rewrite Hs. by rewrite orb_true_r.
  - cbn in Ha. apply andb_true_iff in Ha as [Hb Ha]. rewrite string_app_cons. cbn [name_loop].
    assert ((Ascii.eqb b "." && negb (is_name_byte (default " "%char (head_byte (n +:+ rest))))) = false) as ->.
    { destruct n as [|c n].
      - cbn in Hd. by rewrite Hd.
      - cbn in Ha. apply andb_true_iff in Ha as [Hc _]. cbn. by rewrite Hc, andb_false_r. }
    rewrite Hb. cbn [negb orb]. destruct (IH Ha) with (sp := advance b sp) as [sp' ->]; [|by eexists].
    by destruct n.
Qed.

Lemma read_name_print span n rest sp :
  plain_name n = true -> name_stops rest = true ->
  reads (read_name span (mkLexer (n +:+ rest) sp)) n rest.
Proof.
  intros Hn Hs. unfold read_name. cbn [lx_rest lx_span].
  destruct (name_loop_print n rest sp Hn Hs) as [sp' ->].
  unfold plain_name in Hn. destruct (String.eqb n ""); [done|]. by eexists.
Qed.

(** *** IRIs *)

Lemma encode_chars_ascii s : all_chars is_ascii s = true -> encode_chars s = s.
Proof.
  induction s as [|c s IH]; cbn; [done|]. intros [Hc Hs]%andb_true_iff.
  unfold encode_char. unfold is_ascii in Hc. rewrite Hc, IH by done. done.
Qed.

Lemma iri_bytes_ascii i : all_chars iri_byte i = true -> all_chars is_ascii i = true.
Proof.
  induction i as [|c i IH]; cbn; [done|]. unfold iri_byte at 1. rewrite !andb_true_iff. naive_solver.
Qed.

Lemma iri_loop_print i rest sp :
  all_chars iri_byte i = true ->
  exists sp', iri_loop (i +:+ String ">" rest) sp = Some (i, mkLexer rest sp').
Proof.
  revert sp. induction i as [|c i IH]; intros sp; cbn [all_chars]; [by eexists|].
  intros [Hc Hi]%andb_true_iff. rewrite string_app_cons. cbn [iri_loop].
  unfold iri_byte in Hc. rewrite !andb_true_iff, !negb_true_iff in Hc. destruct Hc as [_ ->].
  destruct (IH (advance c sp) Hi) as [sp' ->]. by eexists.
Qed.

Lemma read_iri_print span i rest sp :
  all_chars iri_byte i = true ->
  reads (read_iri span (mkLexer (String "<" (i +:+ String ">" rest)) sp)) (Tok.Iri i) rest.
Proof.
  intros Hi. unfold read_iri. cbn [bump lx_rest lx_span].
  destruct (iri_loop_print i rest (advance "<" sp) Hi) as [sp' ->]. cbn.
  rewrite encode_chars_ascii by (by apply iri_bytes_ascii). by eexists.
Qed.

Lemma iri_follows_print i rest first :
  all_chars iri_byte i = true -> (first = true -> i <> "") ->
  iri_follows first (i +:+ String ">" rest) = true.
Proof.
  revert first. induction i as [|c i IH]; intros first Hi Hf.
  - cbn. destruct first; [by destruct Hf|done].
  - cbn in Hi. apply andb_true_iff in Hi as [Hc Hi]. rewrite string_app_cons. cbn [iri_follows].
    unfold iri_byte in Hc. rewrite !andb_true_iff, !negb_true_iff in Hc. destruct Hc as [[[_ ->] ->] ->].
    by apply IH.
Qed.

(** *** Numbers *)

Lemma number_loop_print s rest sp :
  all_chars is_ascii_digit s = true -> spaced rest ->
  exists sp', number_loop (s +:+ rest) sp false = (s, mkLexer rest sp', false).
Proof.
  intros Hs Hr. revert sp. induction s as [|c s IH]; intros sp.
  - exists sp. rewrite string_app_nil_l. by destruct Hr as [-> |[r ->]].
  - cbn in Hs. apply andb_true_iff in Hs as [Hc Hs]. rewrite string_app_cons. cbn [number_loop].
    rewrite Hc. destruct (IH Hs (advance c sp)) as [sp' ->]. by eexists.
Qed.

Lemma read_number_print span v rest sp :
  0 <= v <= i64_max -> spaced rest ->
  reads (read_number span (mkLexer (show_Z v +:+ rest) sp)) (Tok.Int v) rest.
Proof.
  intros Hv Hr. unfold read_number. cbn [lx_rest lx_span].
  destruct (number_loop_print (show_Z v) rest sp) as [sp' ->]; [apply show_Z_digits; lia|done|].
  rewrite parse_i64_show; [by eexists|]. unfold in_i64, i64_min. apply andb_true_iff. lia.
Qed.

(** *** Strings *)

Lemma string_loop_print span v rest sp :
  exists sp', string_loop DQUOTE span (escape v +:+ String DQUOTE rest) sp = Ok (v, mkLexer rest sp').
Proof.
  revert sp. induction v as [|c v IH]; intros sp; [by eexists|].
  cbn [escape]. rewrite <- string_app_assoc. unfold escape_char.
  destruct (Ascii.eqb_spec c DQUOTE) as [->|Hq]; [|destruct (Ascii.eqb_spec c "\") as [->|Hb]];
    [| |destruct (Ascii.eqb_spec c LF) as [->|Hn]]; cbn [orb]; rewrite !string_app_cons, string_app_nil_l.
  1-3: cbn; match goal with IH : forall _, exists _, _ |- context [string_loop _ _ (escape _ +:+ _) ?s] =>
    destruct (IH s) as [sp' Hl]; exists sp'; by rewrite Hl end.
  cbn [string_loop]. rewrite (proj2 (Ascii.eqb_neq c "\") Hb), (proj2 (Ascii.eqb_neq c DQUOTE) Hq).
  destruct (IH (advance c sp)) as [sp' ->]. by eexists.
Qed.

Lemma fix_utf8_valid v : from_utf8_lossy v = v -> fix_utf8 v = v.
Proof. unfold fix_utf8. by destruct (all_chars _ _). Qed.

Lemma starts_name_byte n : starts_name n = true -> exists b r, n = String b r /\ is_name_start b = true.
Proof. destruct n as [|b r]; [done|]. by exists b, r. Qed.

Lemma name_start_other b c : is_name_start b = true -> is_name_start c = false -> Ascii.eqb b c = false.
Proof. intros Hb Hc. apply Ascii.eqb_neq. congruence. Qed.

Lemma read_datatype_print d rest sp :
  lexable_datatype d = true -> spaced rest ->
  reads (read_datatype (mkLexer (print_tok d +:+ rest) sp)) d rest.
Proof.
  intros Hd Hr. pose proof (spaced_stops rest Hr) as Hstop.
  assert (forall p, name_stops (String ":" p) = true) as Hcolon by done.
  destruct d as [| |n|i|p l| | | | | | | | | | | | | | | | | | | | | | | | ]; try done; cbn in Hd |- *.
  - apply andb_true_iff in Hd as [Hn Hs]. destruct (starts_name_byte n Hs) as (b & r & -> & Hb).
    unfold read_datatype, peek. cbn [lx_rest head_byte lx_span]. norm_app. cbn [head_byte].
    rewrite !name_start_other, Hb by done.
    eapply reads_bind; [by apply (read_name_print sp (String b r))|]. intros sp'. cbn.
    unfold peek. cbn. rewrite bool_decide_eq_false_2; [by eexists|]. by destruct Hr as [-> |[r' ->]].
  - norm_app. unfold read_datatype, peek. cbn [lx_rest head_byte lx_span].
    cbn [Ascii.eqb Bool.eqb]. by apply read_iri_print.
  - apply andb_true_iff in Hd as [Hp Hl]. destruct (String.eqb_spec p "") as [->|Hne].
    + norm_app. unfold read_datatype, peek. cbn [lx_rest head_byte lx_span].
      cbn [Ascii.eqb Bool.eqb]. norm_app.
      eapply reads_bind; [by apply (read_name_print sp l)|]. intros sp'. by eexists.
    + cbn [orb] in Hp. apply andb_true_iff in Hp as [Hp Hs]. destruct (starts_name_byte p Hs) as (b & r & -> & Hb).
      norm_app. unfold read_datatype, peek. cbn [lx_rest lx_span].
      norm_app. cbn [head_byte]. rewrite !name_start_other, Hb by done.
      eapply reads_bind; [by apply (read_name_print sp (String b r))|]. intros sp'. cbn [peek].
      norm_app. cbn.
      eapply reads_bind; [by apply (read_name_print sp l)|]. intros sp2. by eexists.
Qed.

Lemma read_string_print span v lang dt rest sp :
  lexable (Tok.Str v lang dt) = true -> spaced rest ->
  reads (read_string span DQUOTE (mkLexer (print_tok (Tok.Str v lang dt) +:+ rest) sp)) (Tok.Str v lang dt) rest.
Proof.
  cbn [lexable print_tok]. rewrite andb_true_iff. intros [Hv Hd] Hr. apply String.eqb_eq, fix_utf8_valid in Hv.
  unfold read_string. norm_app.
  cbn [bump lx_rest lx_span]. set (tail := _ +:+ rest).
  destruct (string_loop_print span v tail (advance DQUOTE sp)) as [sp' ->]. cbn. rewrite Hv. subst tail.
  destruct lang as [l|], dt as [d|]; try done.
  - norm_app. cbn. norm_app.
    eapply reads_bind; [apply (read_name_print span l); [done|by apply spaced_stops]|]. intros sp2. by eexists.
  - norm_app. cbn.
    eapply reads_bind; [by apply read_datatype_print|]. intros sp2. by eexists.
  - norm_app. unfold peek, peek_at. cbn [lx_rest].
    destruct Hr as [-> |[r ->]]; by eexists.
Qed.

(** *** Tokens *)

Lemma read_token_word b lx :
  is_name_start b = true ->
  (b = "_"%char -> is_name_byte (default " "%char (peek_at 1 lx)) = true) ->
  read_token b lx = read_word (lx_span lx) lx.
Proof.
  intros Hb Hu. destruct b as [[] [] [] [] [] [] [] []]; try discriminate Hb; try reflexivity.
  unfold read_token. cbn -[is_name_byte]. by rewrite Hu.
Qed.

Lemma read_token_digit b lx : is_ascii_digit b = true -> read_token b lx = read_number (lx_span lx) lx.
Proof. intros Hb. destruct b as [[] [] [] [] [] [] [] []]; try discriminate Hb; reflexivity. Qed.

(** A word is not the wildcard: an underscore that starts it is followed by a name byte. *)
Lemma word_second b r rest sp :
  word (String b r) = true ->
  b = "_"%char -> is_name_byte (default " "%char (peek_at 1 (mkLexer (String b (r +:+ rest)) sp))) = true.
Proof.
  unfold word, plain_name. rewrite !andb_true_iff, !negb_true_iff. intros [[[[_ Ha] _] _] Hu] ->.
  destruct r as [|c r]; [done|]. cbn [all_chars] in Ha. apply andb_true_iff in Ha as [_ [Hc _]%andb_true_iff].
  unfold peek_at. cbn. by rewrite Hc.
Qed.

Lemma read_word_print n l rest sp :
  word n = true -> (l = "" \/ (plain_name l = true /\ starts_name l = true)) -> spaced rest ->
  reads (read_word sp (mkLexer (n +:+ ":" +:+ l +:+ rest) sp)) (Tok.Curie n l) rest.
Proof.
  unfold word. rewrite !andb_true_iff. intros [[Hn _] _] Hl Hr. unfold read_word.
  eapply reads_bind; [by apply (read_name_print sp n)|]. intros sp'. norm_app.
  unfold peek, peek_at. cbn [lx_rest head_byte bool_decide].
  rewrite bool_decide_eq_true_2 by done. cbn [andb bump lx_rest lx_span].
  destruct Hl as [-> |[Hl Hs]].
  - norm_app. rewrite bool_decide_eq_false_2 by (by destruct Hr as [-> |[r ->]]). cbn [negb].
    destruct Hr as [-> |[r ->]]; by eexists.
  - destruct (starts_name_byte l Hs) as (b & r & -> & Hb). norm_app. cbn [String.get head_byte default].
    rewrite bool_decide_eq_false_2 by (intros [= ->]; discriminate Hb). cbn -[read_name is_name_start String.append]. rewrite Hb.
    eapply reads_bind; [apply (read_name_print sp (String b r)); [done|by apply spaced_stops]|].
    intros sp2. by eexists.
Qed.

Lemma read_token_print t rest sp :
  lexable t = true -> spaced rest ->
  exists b s, print_tok t +:+ rest = String b s /\ is_ascii_whitespace b = false /\
    Ascii.eqb b "%" || Ascii.eqb b "#" = false /\
    reads (read_token b (mkLexer (print_tok t +:+ rest) sp)) t rest.
Proof.
  intros Ht Hr. pose proof (spaced_stops rest Hr) as Hstop.
  assert (forall b, is_name_start b = true -> is_ascii_whitespace b = false /\ Ascii.eqb b "%" || Ascii.eqb b "#" = false) as Hname.
  { intros b Hb. by destruct b as [[] [] [] [] [] [] [] []]. }
  assert (forall b, is_ascii_digit b = true -> is_ascii_whitespace b = false /\ Ascii.eqb b "%" || Ascii.eqb b "#" = false) as Hdigit.
  { intros b Hb. by destruct b as [[] [] [] [] [] [] [] []]. }
  destruct t as [v| |n|i|p l|v lang dt|z|x| | | | | | | | | | | | | | | | | | | | | ];
    try (cbn [print_tok]; norm_app; eexists _, _; split; [reflexivity|];
         split; [reflexivity|]; split; [reflexivity|]; destruct Hr as [-> |[r ->]]; by eexists);
    cbn [lexable] in Ht.
  - (* Var *)
    apply andb_true_iff in Ht as [Hv Hd]. cbn [print_tok]. norm_app. eexists _, _.
    do 3 (split; [reflexivity|]). unfold read_token. cbn -[plain_name read_name].
    rewrite bool_decide_eq_false_2.
    + eapply reads_bind; [by apply (read_name_print sp v)|]. intros sp'. by eexists.
    + unfold peek_at. cbn. destruct v as [|c v]; [done|]. cbn. intros [= ->]. done.
  - (* Name *)
    cbn [print_tok]. pose proof Ht as Hw. unfold word in Ht. rewrite !andb_true_iff in Ht. destruct Ht as [[Hn Hs] _].
    destruct (starts_name_byte n Hs) as (b & r & -> & Hb). destruct (Hname b Hb) as [H1 H2].
    exists b, (r +:+ rest). do 3 (split; [done|]). norm_app.
    rewrite read_token_word by (done || by apply word_second). unfold read_word.
    eapply reads_bind; [by apply (read_name_print sp (String b r))|]. intros sp'.
    unfold peek. cbn [lx_rest]. destruct Hr as [-> |[r' ->]]; by eexists.
  - (* Iri *)
    rewrite !andb_true_iff, !negb_true_iff in Ht. destruct Ht as [[Hne Hi] Heq]. cbn [print_tok]. norm_app.
    eexists _, _. do 3 (split; [reflexivity|]). unfold read_token. cbn [Ascii.eqb Bool.eqb lx_span].
    rewrite bool_decide_eq_false_2.
    + unfold is_iri_start. cbn [bump lx_rest]. rewrite iri_follows_print; [by apply read_iri_print|done|].
      intros _ ->. done.
    + unfold peek_at. destruct i as [|c i]; [done|]. cbn. intros [= ->]. by destruct i.
  - (* Curie *)
    cbn [print_tok]. destruct (String.eqb_spec p "") as [->|Hne].
    + apply andb_true_iff in Ht as [Hl Hd]. norm_app. eexists _, _. do 3 (split; [reflexivity|]).
      unfold read_token. cbn [Ascii.eqb Bool.eqb lx_span]. rewrite bool_decide_eq_false_2.
      * eapply reads_bind; [by apply (read_name_print sp l)|]. intros sp'. by eexists.
      * unfold peek_at. destruct l as [|c l]; [done|]. cbn. intros [= ->]. done.
    + apply andb_true_iff in Ht as [Hp Hl]. pose proof Hp as Hw. unfold word in Hp.
      rewrite !andb_true_iff in Hp. destruct Hp as [[Hn Hs] _].
      destruct (starts_name_byte p Hs) as (b & r & -> & Hb). destruct (Hname b Hb) as [H1 H2].
      rewrite <- !string_app_assoc. exists b, (r +:+ ":" +:+ l +:+ rest). do 3 (split; [done|]).
      rewrite (string_app_cons b r).
      rewrite read_token_word by (done || by apply word_second). apply (read_word_print (String b r) l rest sp); [done| |done].
      apply orb_true_iff in Hl as [Hl|Hl]; [left; by apply String.eqb_eq|right]. by apply andb_true_iff.
  - (* Str *)
    eexists _, _. split; [cbn [print_tok]; norm_app; reflexivity|]. do 2 (split; [reflexivity|]).
    unfold read_token. cbn [Ascii.eqb Bool.eqb DQUOTE orb lx_span]. by apply read_string_print.
  - (* Int *)
    apply andb_true_iff in Ht as [H1 H2]. cbn [print_tok].
    destruct (show_Z_digits z) as [Hd Hne]; [lia|].
    destruct (show_Z z) as [|b r] eqn:E; [done|]. cbn in Hd. apply andb_true_iff in Hd as [Hb _].
    destruct (Hdigit b Hb) as [H3 H4]. exists b, (r +:+ rest). do 3 (split; [done|]).
    rewrite read_token_digit by done. rewrite <- E. apply read_number_print; [lia|done].
  - (* Num *) done.
Qed.

Lemma print_tokens_spaced ts : spaced (print_tokens ts).
Proof. destruct ts as [|t ts]; [by left|right; by eexists]. Qed.

Lemma tokenize_loop_print ts sp fuel :
  Forall (fun t => lexable t = true) ts -> (String.length (print_tokens ts) < fuel)%nat ->
  exists out, tokenize_loop fuel (mkLexer (print_tokens ts) sp) = Returned out /\ tok <$> out = ts.
Proof.
  intros Hts. revert sp fuel. induction Hts as [|t ts Ht _ IH]; intros sp [|fuel] Hf; try lia.
  - exists []. done.
  - destruct (read_token_print t (print_tokens ts) (advance " " sp) Ht (print_tokens_spaced ts))
      as (b & s & Heq & Hw & Hc & sp' & Hread).
    cbn [print_tokens] in *. rewrite string_app_cons, string_app_nil_l in *. cbn [tokenize_loop].
    assert (skip_trivia (mkLexer (String " " (print_tok t +:+ print_tokens ts)) sp) =
      mkLexer (String b s) (advance " " sp)) as ->.
    { unfold skip_trivia. rewrite Heq. cbn [lx_rest lx_span skip_trivia_from].
      change (is_ascii_whitespace " ") with true. cbn iota. by rewrite Hw, Hc. }
    rewrite Heq in Hread. cbn [peek lx_rest head_byte]. unfold peek. cbn [lx_rest head_byte].
    rewrite Hread. cbn [run mbind fueled_bind].
    destruct (IH sp' fuel) as (out & Hout & Htok).
    { cbn in Hf. rewrite string_length_app in Hf. lia. }
    rewrite Hout. eexists. split; [done|]. cbn. by rewrite Htok.
Qed.


Definition sample_tokens : list Tok :=
  [Tok.Name "p"; Tok.LParen; Tok.Var "x"; Tok.Comma; Tok.Int 42; Tok.RParen; Tok.Implies;
   Tok.Curie "ex" "q.r"; Tok.LParen; Tok.Str ("say " +:+ String DQUOTE "hi\") None (Some (Tok.Curie "xsd" "string"));
   Tok.RParen; Tok.Dot; Tok.Iri "http://example.org/a"; Tok.Le; Tok.Wildcard].


(** The bytes of an IRI become characters one by one: a non-ASCII IRI is not read as written. *)
Example non_ascii_iri_mangled :
  let e_acute := String (byte_of 195) (String (byte_of 169) "") in
  exists out, tokenize (Lexer_new ("<http://e/" +:+ e_acute +:+ ">")) = Returned out /\
  tok <$> out = [Tok.Iri ("http://e/" +:+ encode_chars e_acute)] /\ encode_chars e_acute <> e_acute.
Proof. eexists. split; [by vm_compute|]. split; [done|]. by vm_compute. Qed.
