(* ===== verification/Parse.v ===== *)
(** * The parser of Datalog programs ([crates/oxilite-datalog/src/parser.rs])

    Recursive descent over the token list: a parser takes the state (tokens, position, declared
    prefixes) and returns a value with the state after it. Recursion is bounded by fuel: every
    loop and every nested expression consumes a token, so the number of tokens left is enough
    ([ParseFacts] proves that it never runs out). The [Debug] form of a string, which error
    messages quote, depends on Unicode tables and is a parameter. *)

From S2P Require Export Lexer.

Module Parser.
Section parser.
Context {OX : Oxrdf} {SD : StrDebug}.

Record State := mkState { toks : list Spanned; pos : nat; prefixes : gmap string string }.

Definition parser (A : Type) : Type := State -> fueled DatalogError (A * State).

(** Lifts a computation that does not move. *)
Definition pure_result {A} (r : result DatalogError A) : parser A :=
  fun p => a ← run r; Returned (a, p).

(** ** The token stream *)

Definition peek (p : State) : option Tok := tok <$> toks p !! pos p.
Definition peek_at (n : nat) (p : State) : option Tok := tok <$> toks p !! (pos p + n)%nat.

Definition span (p : State) : Span :=
  match toks p !! pos p with
  | Some s => tok_span s
  | None => default default_span (tok_span <$> last (toks p))
  end.

Definition skip (p : State) : State := mkState (toks p) (S (pos p)) (prefixes p).
(** [bump]: [None] at the end, without moving. *)
Definition bump (p : State) : option Tok * State :=
  match peek p with Some t => (Some t, skip p) | None => (None, p) end.

Definition is_tok (want : Tok) (o : option Tok) : bool :=
  match o with Some t => Tok.eqb t want | None => false end.

Definition eat (want : Tok) (p : State) : bool * State :=
  if is_tok want (peek p) then (true, skip p) else (false, p).

(** The derived [Debug] of tokens. *)
Fixpoint debug_tok (t : Tok) : string :=
  match t with
  | Tok.Var v => "Var(" +:+ debug_str v +:+ ")"
  | Tok.Wildcard => "Wildcard"
  | Tok.Name n => "Name(" +:+ debug_str n +:+ ")"
  | Tok.Iri i => "Iri(" +:+ debug_str i +:+ ")"
  | Tok.Curie p l => "Curie(" +:+ debug_str p +:+ ", " +:+ debug_str l +:+ ")"
  | Tok.Str v l d =>
      "Str { value: " +:+ debug_str v +:+
      ", lang: " +:+ match l with Some l => "Some(" +:+ debug_str l +:+ ")" | None => "None" end +:+
      ", datatype: " +:+ match d with Some d => "Some(" +:+ debug_tok d +:+ ")" | None => "None" end +:+ " }"
  | Tok.Int v => "Int(" +:+ show_Z v +:+ ")"
  | Tok.Num v => "Num(" +:+ F64.debug v +:+ ")"
  | Tok.Implies => "Implies" | Tok.Query => "Query"
  | Tok.AtPrefix => "AtPrefix" | Tok.AtVersion => "AtVersion"
  | Tok.LParen => "LParen" | Tok.RParen => "RParen" | Tok.Comma => "Comma" | Tok.Dot => "Dot"
  | Tok.Eq => "Eq" | Tok.Ne => "Ne" | Tok.Lt => "Lt" | Tok.Le => "Le" | Tok.Gt => "Gt" | Tok.Ge => "Ge"
  | Tok.Plus => "Plus" | Tok.Minus => "Minus" | Tok.Star => "Star" | Tok.Slash => "Slash"
  | Tok.And => "And" | Tok.Or => "Or" | Tok.Bang => "Bang"
  end.

Definition describe (p : State) : string :=
  match peek p with None => "end of program" | Some t => debug_tok t end.

Definition parse_error {A} (sp : Span) (message : string) : fueled DatalogError A :=
  Raised (DatalogError.parse sp message).

Definition expect (want : Tok) (what : string) : parser unit := fun p =>
  let '(ok, p) := eat want p in
  if ok : bool then Returned (tt, p)
  else parse_error (span p) ("expected " +:+ what +:+ ", found " +:+ describe p).

(** The tokens left: the fuel of every loop. *)
Definition left_ (p : State) : nat := length (toks p) - pos p.

(** [loop { out.push(item()?); if !self.eat(&Tok::Comma) { break; } }]. *)
Fixpoint comma_list {A} (fuel : nat) (item : parser A) (p : State)
  : fueled DatalogError (list A * State) :=
  match fuel with
  | O => OutOfFuel
  | S fuel =>
      '(a, p) ← item p;
      let '(more, p) := eat Tok.Comma p in
      if more : bool then '(l, p) ← comma_list fuel item p; Returned (a :: l, p)
      else Returned ([a], p)
  end.

(** ** Terms *)

Definition iri (i : string) (sp : Span) : result DatalogError NamedNode :=
  map_err (DatalogError.parse sp) (named_node_new i).

Definition curie (p : State) (prefix local : string) (sp : Span) : result DatalogError NamedNode :=
  base ← ok_or (prefixes p !! prefix) (DatalogError.UnknownPrefix prefix);
  map_err (DatalogError.parse sp) (named_node_new (base +:+ local)).

(** Canonical [xsd:double]. *)
Definition format_double (v : f64) : string :=
  if F64.eqb v (F64.trunc v) && F64.is_finite v && F64.ltb (F64.abs v) (F64.of_Z (10 ^ 15))
  then F64.fixed1_integral v +:+ "E0"
  else F64.upper_exp v.

Definition integer_term (v : Z) : Term := TermLiteral (new_typed_literal (show_Z v) xsd.INTEGER).
Definition double_term (v : f64) : Term := TermLiteral (new_typed_literal (format_double v) xsd.DOUBLE).

Definition string_term (p : State) (sp : Span) (value : string) (lang : option string)
    (datatype : option Tok) : result DatalogError Term :=
  match lang with
  | Some lang => TermLiteral <$> map_err (DatalogError.parse sp) (new_language_tagged_literal value lang)
  | None =>
      match datatype with
      | None => Ok (TermLiteral (new_simple_literal value))
      | Some dt =>
          dt ← match dt with
               | Tok.Iri i => iri i sp
               | Tok.Curie pre l => curie p pre l sp
               | Tok.Name n => curie p "xsd" n sp
               | _ => Err (DatalogError.parse sp "expected a datatype")
               end;
          Ok (TermLiteral (new_typed_literal value dt))
      end
  end.

Definition term : parser Term := fun p =>
  let sp := span p in
  let '(t, p) := bump p in
  match t with
  | Some (Tok.Iri i) => pure_result (TermNamedNode <$> iri i sp) p
  | Some (Tok.Curie pre l) => pure_result (TermNamedNode <$> curie p pre l sp) p
  | Some (Tok.Int v) => Returned (integer_term v, p)
  | Some (Tok.Num v) => Returned (double_term v, p)
  | Some Tok.Minus =>
      let '(t, p) := bump p in
      match t with
      | Some (Tok.Int v) => Returned (integer_term (- v), p)
      | Some (Tok.Num v) => Returned (double_term (F64.neg v), p)
      | _ => parse_error sp "expected a number after `-`"
      end
  | Some (Tok.Str value lang datatype) => pure_result (string_term p sp value lang datatype) p
  | Some (Tok.Name n) =>
      if String.eqb n "true" || String.eqb n "false"
      then Returned (TermLiteral (new_typed_literal n xsd.BOOLEAN), p)
      else parse_error sp "expected a term"
  | _ => parse_error sp "expected a term"
  end.

Definition arg : parser Arg := fun p =>
  let sp := span p in
  match peek p with
  | Some (Tok.Var v) => Returned (ArgVar v, skip p)
  | Some Tok.Wildcard => Returned (Wildcard, skip p)
  | _ =>
      match term p with
      | Returned (t, p) => Returned (ArgConst t, p)
      | Raised (DatalogError.Parse _ message) => parse_error sp message
      | Raised e => Raised e
      | OutOfFuel => OutOfFuel
      end
  end.

(** ** Predicates, heads and atoms *)

Definition pred_ : parser Pred := fun p =>
  let sp := span p in
  let '(t, p) := bump p in
  match t with
  | Some (Tok.Iri i) => pure_result (Edb <$> iri i sp) p
  | Some (Tok.Curie pre l) => pure_result (Edb <$> curie p pre l sp) p
  | Some (Tok.Name n) =>
      if String.eqb n "triple" || String.eqb n "quad" then Returned (PTriple (String.eqb n "quad"), p)
      else if String.eqb n "nearest" then Returned (Nearest true, p)
      else match HistoryRel.from_name n with
           | Some h => Returned (PHistory h, p)
           | None => Returned (Idb n, p)
           end
  | _ => parse_error sp "expected a predicate"
  end.

Definition agg_fn (name : string) : option AggFn :=
  let u := to_ascii_uppercase name in
  if String.eqb u "COUNT" then Some Count
  else if String.eqb u "SUM" then Some Sum
  else if String.eqb u "MIN" then Some Min
  else if String.eqb u "MAX" then Some Max
  else if String.eqb u "AVG" then Some Avg
  else if String.eqb u "SAMPLE" then Some Sample
  else if String.eqb u "GROUP_CONCAT" || String.eqb u "CONCAT_AGG" then Some GroupConcat
  else None.

(** The aggregate a head argument starts with: a known name before a parenthesis. *)
Definition agg_start (p : State) : option AggFn :=
  match peek p with
  | Some (Tok.Name n) => if is_tok Tok.LParen (peek_at 1 p) then agg_fn n else None
  | _ => None
  end.

Definition head_arg : parser HeadArg := fun p =>
  match agg_start p with
  | Some func =>
      let p := skip (skip p) in
      let distinct :=
        match peek p with Some (Tok.Name n) => eq_ignore_ascii_case n "distinct" | _ => false end in
      let p := if distinct then skip p else p in
      let sp := span p in
      let '(t, p) := bump p in
      var ← match t with
            | Some (Tok.Var v) => Returned v
            | Some Tok.Star => Returned "*"
            | _ => parse_error sp "an aggregate takes one variable"
            end;
      '(_, p) ← expect Tok.RParen "`)` closing the aggregate" p;
      Returned (Agg (if distinct && bool_decide (func = Count) then CountDistinct else func) var, p)
  | None => '(a, p) ← arg p; Returned (Plain a, p)
  end.

Definition head_ : parser Head := fun p =>
  let sp := span p in
  '(q, p) ← pred_ p;
  '(_, p) ← expect Tok.LParen "`(` after the head predicate" p;
  '(l, p) ← comma_list (S (left_ p)) head_arg p;
  '(_, p) ← expect Tok.RParen "`)` closing the head" p;
  Returned (mkHead q l sp, p).

(** The arity picks the form of [triple] and [nearest]. *)
Definition pick_form (q : Pred) (n : nat) : Pred :=
  match q with
  | PTriple _ => PTriple (n =? 4)%nat
  | Nearest _ => Nearest (negb (n =? 4)%nat)
  | _ => q
  end.

(** [… at "REF"], [… at ?c]. *)
Definition at_clause : parser (option At) := fun p =>
  match peek p with
  | Some (Tok.Name n) =>
      if String.eqb n "at" then
        let p := skip p in
        let at_span := span p in
        '(a, p) ← arg p;
        match a with
        | ArgVar v => Returned (Some (AtVar v), p)
        | ArgConst (TermLiteral l) => Returned (Some (AtVersion (lit_value l)), p)
        | _ => parse_error at_span ("`at` takes a version string (" +:+ String DQUOTE ("HEAD~1" +:+ String DQUOTE ") or a commit variable"))
        end
      else Returned (None, p)
  | _ => Returned (None, p)
  end.

(** The form's arity is fixed, unless the name may be the program's own relation. *)
Definition check_arity (q : Pred) (n : nat) : result DatalogError unit :=
  match Pred.arity q with
  | Some want =>
      if negb (n =? want)%nat && negb (match q with PHistory _ | Nearest _ => true | _ => false end)
      then Err (DatalogError.Arity (Pred.to_string q) want n) else Ok tt
  | None => Ok tt
  end.

Definition atom : parser Atom := fun p =>
  let sp := span p in
  '(q, p) ← pred_ p;
  '(_, p) ← expect Tok.LParen "`(` after the predicate" p;
  '(l, p) ← comma_list (S (left_ p)) arg p;
  '(_, p) ← expect Tok.RParen "`)` closing the atom" p;
  '(at_, p) ← at_clause p;
  let q := pick_form q (length l) in
  _ ← run (check_arity q (length l));
  match at_, q with
  | None, _ | Some _, Edb _ | Some _, PTriple _ => Returned (mkAtom q l sp at_, p)
  | Some _, _ =>
      parse_error sp "`at` applies to atoms that read the store (an IRI predicate or triple/quad)"
  end.

(** ** Expressions, lowest precedence first *)

Definition or_op (t : Tok) : option BinOp := match t with Tok.Or => Some OOr | _ => None end.
Definition and_op (t : Tok) : option BinOp := match t with Tok.And => Some OAnd | _ => None end.
Definition cmp_op (t : Tok) : option BinOp :=
  match t with
  | Tok.Eq => Some OEq | Tok.Ne => Some ONe | Tok.Lt => Some OLt
  | Tok.Le => Some OLe | Tok.Gt => Some OGt | Tok.Ge => Some OGe
  | _ => None
  end.
Definition add_op (t : Tok) : option BinOp :=
  match t with Tok.Plus => Some OAdd | Tok.Minus => Some OSub | _ => None end.
Definition mul_op (t : Tok) : option BinOp :=
  match t with Tok.Star => Some OMul | Tok.Slash => Some ODiv | _ => None end.

(** The loops of [or_expr], [and_expr], [add_expr] and [mul_expr]. *)
Fixpoint chain (fuel : nat) (op_of : Tok -> option BinOp) (operand : parser Expr) (lhs : Expr) (p : State)
  : fueled DatalogError (Expr * State) :=
  match fuel with
  | O => OutOfFuel
  | S fuel =>
      match peek p ≫= op_of with
      | Some op =>
          '(rhs, p) ← operand (skip p);
          chain fuel op_of operand (EBinary op lhs rhs) p
      | None => Returned (lhs, p)
      end
  end.

Definition left_assoc (op_of : Tok -> option BinOp) (operand : parser Expr) : parser Expr := fun p =>
  '(lhs, p) ← operand p; chain (S (left_ p)) op_of operand lhs p.

Section levels.
Context (unary_expr : parser Expr).

Definition mul_expr : parser Expr := left_assoc mul_op unary_expr.
Definition add_expr : parser Expr := left_assoc add_op mul_expr.
Definition cmp_expr : parser Expr := fun p =>
  '(lhs, p) ← add_expr p;
  match peek p ≫= cmp_op with
  | Some op => '(rhs, p) ← add_expr (skip p); Returned (EBinary op lhs rhs, p)
  | None => Returned (lhs, p)
  end.
Definition and_expr : parser Expr := left_assoc and_op cmp_expr.
Definition or_expr : parser Expr := left_assoc or_op and_expr.

Definition call_args : parser (list Expr) := fun p =>
  '(l, p) ← (if is_tok Tok.RParen (peek p) then Returned ([], p)
             else comma_list (S (left_ p)) or_expr p);
  '(_, p) ← expect Tok.RParen "`)` closing the function call" p;
  Returned (l, p).

Definition primary_expr : parser Expr := fun p =>
  let '(open, p') := eat Tok.LParen p in
  if open : bool then
    '(e, p) ← or_expr p';
    '(_, p) ← expect Tok.RParen "`)` closing the expression" p;
    Returned (e, p)
  else
    let call := is_tok Tok.LParen (peek_at 1 p) in
    let constant := '(t, p) ← term p; Returned (EConst t, p) in
    let host (name : result DatalogError NamedNode) :=
      name ← run name;
      '(l, p) ← call_args (skip (skip p));
      Returned (ECall name l, p) in
    match peek p with
    | Some (Tok.Var v) => Returned (EVar v, skip p)
    | Some (Tok.Name n) =>
        if call then '(l, p) ← call_args (skip (skip p)); Returned (ECall (to_ascii_uppercase n) l, p)
        else constant
    | Some (Tok.Curie pre l) => if call then host (curie (skip p) pre l (span p)) else constant
    | Some (Tok.Iri i) => if call then host (iri i (span p)) else constant
    | _ => constant
    end.
End levels.

(** A number directly after a minus is left to [term]. *)
Definition is_number (o : option Tok) : bool :=
  match o with Some (Tok.Int _) | Some (Tok.Num _) => true | _ => false end.

(** One unit of fuel per nested operator, parenthesis or call. *)
Fixpoint unary_expr (fuel : nat) (p : State) : fueled DatalogError (Expr * State) :=
  match fuel with
  | O => OutOfFuel
  | S fuel =>
      if is_tok Tok.Bang (peek p) then '(e, p) ← unary_expr fuel (skip p); Returned (ENot e, p)
      else if is_tok Tok.Minus (peek p) && negb (is_number (peek_at 1 p)) then
        '(e, p) ← unary_expr fuel (skip p); Returned (ENeg e, p)
      else primary_expr (unary_expr fuel) p
  end.

Definition expr : parser Expr := fun p => or_expr (unary_expr (S (left_ p))) p.

(** ** Bodies, rules, programs *)

(** Names that are functions in a constraint, not predicates. *)
Definition FUNCTIONS : list string :=
  ["REGEX"; "STR"; "STRLEN"; "SUBSTR"; "UCASE"; "LCASE"; "STRSTARTS"; "STRENDS"; "CONTAINS";
   "STRBEFORE"; "STRAFTER"; "CONCAT"; "ABS"; "CEIL"; "FLOOR"; "ROUND"; "YEAR"; "MONTH"; "DAY";
   "HOURS"; "MINUTES"; "SECONDS"; "DATATYPE"; "LANG"; "ISIRI"; "ISURI"; "ISLITERAL"; "ISNUMERIC";
   "ISBLANK"; "BOUND"; "IF"; "COALESCE"; "SAMETERM"; "STRDT"; "STRLANG"].
Definition is_function (name : string) : bool :=
  existsb (fun f => eq_ignore_ascii_case f name) FUNCTIONS.

Definition is_operator (t : Tok) : bool :=
  match t with
  | Tok.Eq | Tok.Ne | Tok.Lt | Tok.Le | Tok.Gt | Tok.Ge | Tok.Plus | Tok.Minus | Tok.Star
  | Tok.Slash | Tok.And | Tok.Or => true
  | _ => false
  end.

(** From the opening parenthesis: does the group end just before an operator? *)
Fixpoint group_then_operator (depth : nat) (ts : list Spanned) : bool :=
  match ts with
  | [] => false
  | t :: ts =>
      match tok t with
      | Tok.LParen => group_then_operator (S depth) ts
      | Tok.RParen =>
          if (depth - 1 =? 0)%nat then match ts with t :: _ => is_operator (tok t) | [] => false end
          else group_then_operator (depth - 1) ts
      | _ => group_then_operator depth ts
      end
  end.
Definition call_then_operator (offset : nat) (p : State) : bool :=
  group_then_operator 0 (drop (pos p + offset) (toks p)).

Definition looks_like_atom (offset : nat) (p : State) : bool :=
  is_tok Tok.LParen (peek_at (offset + 1) p) &&
  match peek_at offset p with
  | Some (Tok.Iri _) | Some (Tok.Curie _ _) => negb (call_then_operator (offset + 1) p)
  | Some (Tok.Name n) => negb (is_function n)
  | _ => false
  end.

(** [not], or [!] before an atom. *)
Definition is_negation (p : State) : bool :=
  match peek p with
  | Some (Tok.Name n) => String.eqb n "not"
  | Some Tok.Bang => looks_like_atom 1 p
  | _ => false
  end.

Definition body_item : parser BodyItem := fun p =>
  let neg := is_negation p in
  let p := if neg then skip p else p in
  if neg || looks_like_atom 0 p then
    '(a, p) ← atom p; Returned (if neg then Negated a else BAtom a, p)
  else '(e, p) ← expr p; Returned (Constraint e, p).

Definition body_ : parser (list BodyItem) := fun p => comma_list (S (left_ p)) body_item p.

Definition rule : parser Rule := fun p =>
  '(h, p) ← head_ p;
  let '(implies, p) := eat Tok.Implies p in
  '(b, p) ← (if implies : bool then body_ p else Returned ([], p));
  '(_, p) ← expect Tok.Dot "`.` at the end of the rule" p;
  Returned (mkRule h b, p).

Definition directive : parser unit := fun p =>
  let p := skip p in
  let sp := span p in
  let '(t, p) := bump p in
  '(name, p) ← match t with
               | Some (Tok.Curie pre l) =>
                   if String.eqb l "" then Returned (pre, p) else parse_error sp "expected a prefix name"
               | Some (Tok.Name n) => Returned (n, (eat Tok.Eq p).2)
               | _ => parse_error sp "expected a prefix name"
               end;
  let '(t, p) := bump p in
  i ← match t with
      | Some (Tok.Iri i) => Returned i
      | _ => parse_error sp "expected an IRI after the prefix"
      end;
  '(_, p) ← expect Tok.Dot "`.` after the @prefix directive" p;
  Returned (tt, mkState (toks p) (pos p) (<[name := i]> (prefixes p))).

(** The items of a goal: one atom, and constraints. *)
Fixpoint goal_items (items : list BodyItem) (at_end : Span) (found : option Atom) (cs : list Expr)
  : result DatalogError (option Atom * list Expr) :=
  match items with
  | [] => Ok (found, cs)
  | BAtom a :: items =>
      match found with
      | None => goal_items items at_end (Some a) cs
      | Some _ => Err (DatalogError.parse at_end "a goal is one atom, optionally followed by constraints")
      end
  | Constraint e :: items => goal_items items at_end found (cs ++ [e])
  | Negated _ :: _ => Err (DatalogError.parse at_end "a goal is one atom, optionally followed by constraints")
  end.

Definition goal_ : parser Goal_ := fun p =>
  '(items, p) ← body_ (skip p);
  '(_, p) ← expect Tok.Dot "`.` after the goal" p;
  '(a, cs) ← run (goal_items items (span p) None []);
  a ← run (ok_or a (DatalogError.parse (span p) "a goal needs an atom"));
  Returned (mkGoal a cs, p).

Definition version_message : string :=
  "expected a version string after @version, e.g. @version " +:+
  String DQUOTE ("HEAD~1" +:+ String DQUOTE " .").

Definition version_directive : parser string := fun p =>
  let p := skip p in
  let sp := span p in
  let '(t, p) := bump p in
  value ← match t with
          | Some (Tok.Str value _ _) => Returned value
          | _ => parse_error sp version_message
          end;
  '(_, p) ← expect Tok.Dot "`.` after the @version directive" p;
  Returned (value, p).

(** One iteration of the loop of [program]. *)
Definition statement (prog : Program) (p : State) : fueled DatalogError (Program * State) :=
  match peek p with
  | Some Tok.AtPrefix => '(_, p) ← directive p; Returned (prog, p)
  | Some Tok.AtVersion =>
      '(v, p) ← version_directive p; Returned (mkProgram (rules prog) (goal prog) (Some v), p)
  | Some Tok.Query =>
      '(g, p) ← goal_ p; Returned (mkProgram (rules prog) (Some g) (version prog), p)
  | _ => '(r, p) ← rule p; Returned (mkProgram (rules prog ++ [r]) (goal prog) (version prog), p)
  end.

Fixpoint program_loop (fuel : nat) (prog : Program) (p : State) : fueled DatalogError Program :=
  match fuel with
  | O => OutOfFuel
  | S fuel =>
      if (pos p <? length (toks p))%nat then
        '(prog, p) ← statement prog p; program_loop fuel prog p
      else Returned prog
  end.
Definition program (p : State) : fueled DatalogError Program :=
  program_loop (S (left_ p)) (mkProgram [] None None) p.

(** ** Built-in names a program may redefine *)

(** Rewrites the predicates of heads and atoms, checking each atom. *)
Definition map_item (f : Atom -> result DatalogError Atom) (i : BodyItem) : result DatalogError BodyItem :=
  match i with
  | BAtom a => BAtom <$> f a
  | Negated a => Negated <$> f a
  | Constraint e => Ok (Constraint e)
  end.

Definition rename (fix_ : Pred -> Pred) (on_atom : Atom -> result DatalogError Atom) (prog : Program)
  : result DatalogError Program :=
  rs ← try_map (fun r =>
         let h := head r in
         b ← try_map (map_item on_atom) (body r);
         Ok (mkRule (mkHead (fix_ (head_pred h)) (head_args h) (head_span h)) b)) (rules prog);
  g ← match goal prog with
      | Some g => a ← on_atom (goal_atom g); Ok (Some (mkGoal a (goal_constraints g)))
      | None => Ok None
      end;
  Ok (mkProgram rs g (version prog)).

Definition with_pred (a : Atom) (q : Pred) : Atom := mkAtom q (args a) (atom_span a) (at_ a).

Definition history_defined (prog : Program) : list HistoryRel :=
  omap (fun r => match head_pred (head r) with PHistory h => Some h | _ => None end) (rules prog).

Definition history_fix (prog : Program) (q : Pred) : Pred :=
  match q with
  | PHistory h => if decide (h ∈ history_defined prog) then Idb (HistoryRel.name h) else q
  | _ => q
  end.

Definition history_names (prog : Program) : result DatalogError Program :=
  rename (history_fix prog) (fun a =>
    let q := history_fix prog (pred a) in
    match q with
    | PHistory h =>
        if (length (args a) =? HistoryRel.arity h)%nat then Ok (with_pred a q)
        else Err (DatalogError.Arity (Pred.to_string q) (HistoryRel.arity h) (length (args a)))
    | _ => Ok (with_pred a q)
    end) prog.

Definition nearest_defined (prog : Program) : bool :=
  existsb (fun r => match head_pred (head r) with Nearest _ => true | _ => false end) (rules prog).

Definition nearest_fix (prog : Program) (q : Pred) : Pred :=
  match q with Nearest _ => if nearest_defined prog then Idb "nearest" else q | _ => q end.

Definition nearest_names (prog : Program) : result DatalogError Program :=
  rename (nearest_fix prog) (fun a =>
    match pred a with
    | Nearest _ =>
        if negb (nearest_defined prog) && negb ((length (args a) =? 4)%nat || (length (args a) =? 5)%nat)
        then Err (DatalogError.Arity (Pred.to_string (pred a)) 5 (length (args a)))
        else Ok (with_pred a (nearest_fix prog (pred a)))
    | q => Ok (with_pred a q)
    end) prog.

Definition default_prefixes : gmap string string :=
  list_to_map [("xsd", "http://www.w3.org/2001/XMLSchema#");
               ("rdf", "http://www.w3.org/1999/02/22-rdf-syntax-ns#");
               ("rdfs", "http://www.w3.org/2000/01/rdf-schema#");
               ("owl", "http://www.w3.org/2002/07/owl#")].

Definition parse (src : string) : fueled DatalogError Program :=
  tokens ← tokenize (Lexer_new src);
  prog ← program (mkState tokens 0 default_prefixes);
  prog ← run (history_names prog);
  run (nearest_names prog).
End parser.
End Parser.
