(* ===== verification/ParseFacts.v ===== *)
(** * Parsing ends

    Every loop of the parser and every nested expression consumes a token, so the fuel of the
    model never runs out, whatever the source ([parse_total]). *)

From S2P Require Export LexerFacts Parse.

Import Parser.

Section total.
Context {OX : Oxrdf} {SD : StrDebug}.
Implicit Types (p : State).

(** A computation that does not run out of fuel, and whose final state satisfies [Q]. *)
Definition ends {A} (Q : State -> Prop) (r : fueled DatalogError (A * State)) : Prop :=
  match r with Returned (_, p) => Q p | Raised _ => True | OutOfFuel => False end.

Lemma ends_bind {A B} (Q R : State -> Prop) (r : fueled DatalogError (A * State))
    (f : A * State -> fueled DatalogError (B * State)) :
  ends Q r -> (forall a p, Q p -> ends R (f (a, p))) -> ends R (r ≫= f).
Proof. destruct r as [[a p]| |]; cbn; auto. Qed.

Lemma ends_run {A B} (R : State -> Prop) (r : result DatalogError A)
    (f : A -> fueled DatalogError (B * State)) :
  (forall a, ends R (f a)) -> ends R (run r ≫= f).
Proof. destruct r; cbn; auto. Qed.

Lemma ends_pure {A B} (R : State -> Prop) (r : fueled DatalogError A)
    (f : A -> fueled DatalogError (B * State)) :
  r <> OutOfFuel -> (forall a, ends R (f a)) -> ends R (r ≫= f).
Proof. destruct r; cbn; auto. Qed.

Lemma ends_weaken {A} (Q R : State -> Prop) (r : fueled DatalogError (A * State)) :
  ends Q r -> (forall p, Q p -> R p) -> ends R r.
Proof. destruct r as [[a p]| |]; cbn; auto. Qed.

(** No more tokens left than in [p], and fewer. *)
Definition upto p p' : Prop := (left_ p' <= left_ p)%nat.
Definition past p p' : Prop := (left_ p' < left_ p)%nat.

Lemma peek_left p t : peek p = Some t -> (0 < left_ p)%nat.
Proof.
  unfold peek, left_. intros (s & Hs & _)%fmap_Some. apply lookup_lt_Some in Hs. lia.
Qed.

Lemma skip_left p : left_ (skip p) = (left_ p - 1)%nat.
Proof. unfold left_, skip. cbn. lia. Qed.

Lemma bump_left p : left_ (bump p).2 = match (bump p).1 with Some _ => (left_ p - 1)%nat | None => left_ p end.
Proof. unfold bump. destruct (peek p) eqn:E; cbn; [apply skip_left|done]. Qed.

Lemma bump_some p t p' : bump p = (Some t, p') -> past p p'.
Proof.
  unfold bump, past. destruct (peek p) eqn:E; [|done]. intros [= -> <-]. apply peek_left in E.
  rewrite skip_left. lia.
Qed.

Lemma bump_upto p o p' : bump p = (o, p') -> upto p p'.
Proof.
  unfold bump, upto. destruct (peek p); intros [= _ <-]; [rewrite skip_left; lia|done].
Qed.

Lemma eat_true p t p' : eat t p = (true, p') -> past p p'.
Proof.
  unfold eat, past, is_tok. destruct (peek p) eqn:E; [|done]. destruct (Tok.eqb _ _); [|done].
  intros [= <-]. apply peek_left in E. rewrite skip_left. lia.
Qed.

Lemma eat_upto p t b p' : eat t p = (b, p') -> upto p p'.
Proof. unfold eat, upto. case_match; intros [= _ <-]; [rewrite skip_left; lia|done]. Qed.

Lemma expect_ends t what p : ends (upto p) (expect t what p).
Proof.
  unfold expect. destruct (eat t p) as [[] p'] eqn:E; [|done]. cbn. by apply eat_upto in E.
Qed.

(** Case analysis on the tokens read, with what they say about the tokens left. *)
Ltac token_cases :=
  repeat match goal with
  | |- ends _ (let '(_, _) := bump ?p in _) =>
      let E := fresh "E" in destruct (bump p) as [[?|] ?] eqn:E;
      [pose proof (bump_some _ _ _ E)|pose proof (bump_upto _ _ _ E)]; clear E
  | |- ends _ (match ?x with _ => _ end) => destruct x eqn:?
  | |- ends _ (Returned _) => cbn [ends]
  | |- ends _ (parse_error _ _) => exact I
  | |- ends _ (Raised _) => exact I
  | |- ends _ (pure_result _ _) => unfold pure_result; apply ends_run; intros
  end.
Ltac bounds := unfold upto, past in *; rewrite ?skip_left in *; try lia.

Definition good {A} (f : parser A) : Prop := forall p, ends (upto p) (f p).

Lemma term_good p : ends (past p) (term p).
Proof. unfold term. cbn zeta. token_cases; bounds; done. Qed.

Lemma arg_good : good arg.
Proof.
  intros p. unfold arg. cbn zeta.
  assert (ends (upto p) (match term p with
    | Returned (t, p) => Returned (ArgConst t, p)
    | Raised (DatalogError.Parse _ message) => parse_error (span p) message
    | Raised e => Raised e
    | OutOfFuel => OutOfFuel end)) as H.
  { pose proof (term_good p) as Ht. destruct (term p) as [[t p']|[]|]; cbn in *; try done. bounds. }
  destruct (peek p) as [[]|]; try exact H; cbn; bounds.
Qed.

Lemma pred_good p : ends (past p) (pred_ p).
Proof. unfold pred_. cbn zeta. token_cases; bounds; done. Qed.

Lemma comma_list_good {A} (item : parser A) n fuel p :
  (forall p', (left_ p' < n)%nat -> ends (upto p') (item p')) ->
  (left_ p < n)%nat -> (left_ p < fuel)%nat -> ends (upto p) (comma_list fuel item p).
Proof.
  intros Hi. revert p. induction fuel as [|fuel IH]; intros p Hn Hf; [lia|]. cbn [comma_list].
  eapply ends_bind; [by apply Hi|]. intros a p1 H1.
  destruct (eat Tok.Comma p1) as [[] p2] eqn:E; [apply eat_true in E|apply eat_upto in E].
  - eapply ends_bind; [apply IH; bounds|]. intros l p3 H3. cbn. bounds.
  - cbn. bounds.
Qed.

Lemma args_good {A} (item : parser A) :
  good item -> forall p, ends (upto p) (comma_list (S (left_ p)) item p).
Proof. intros Hi p. apply (comma_list_good item (S (left_ p))); [auto|lia..]. Qed.

(** [x ← f p; …] for a parser whose end is known. *)
Ltac step_by H := eapply ends_bind; [apply H|]; intros ? ? ?; cbn beta iota.

Lemma head_arg_good : good head_arg.
Proof.
  intros p. unfold head_arg. destruct (agg_start p) as [func|] eqn:Ea; cbn zeta.
  - set (p1 := if _ : bool then _ else _). assert (upto p p1) as H1.
    { subst p1. case_match; bounds. }
    destruct (bump p1) as [o p2] eqn:E. apply bump_upto in E.
    apply ends_pure; [by destruct o as [[]|]|]. intros var.
    step_by expect_ends. cbn. bounds.
  - step_by arg_good. cbn. bounds.
Qed.

Lemma head_good p : ends (past p) (head_ p).
Proof.
  unfold head_. step_by pred_good. step_by expect_ends. step_by (args_good head_arg head_arg_good).
  step_by expect_ends. cbn. bounds.
Qed.

Lemma at_clause_good : good at_clause.
Proof.
  intros p. unfold at_clause.
  destruct (peek p) as [[]|]; try (cbn; bounds; done). case_match; [|cbn; bounds].
  step_by arg_good. token_cases; bounds.
Qed.

Lemma atom_good p : ends (past p) (atom p).
Proof.
  unfold atom. step_by pred_good. step_by expect_ends. step_by (args_good arg arg_good).
  step_by expect_ends. step_by at_clause_good. apply ends_run. intros _. token_cases; bounds.
Qed.

(** *** Expressions *)

Definition good_below {A} (n : nat) (f : parser A) : Prop :=
  forall p, (left_ p < n)%nat -> ends (upto p) (f p).

Lemma chain_good n op_of operand fuel lhs p :
  good_below n operand -> (left_ p < n)%nat -> (left_ p < fuel)%nat ->
  ends (upto p) (chain fuel op_of operand lhs p).
Proof.
  intros Ho. revert lhs p. induction fuel as [|fuel IH]; intros lhs p Hn Hf; [lia|]. cbn [chain].
  destruct (peek p ≫= op_of) as [op|] eqn:E; [|cbn; bounds].
  apply bind_Some in E as (t & Ht & _). apply peek_left in Ht.
  eapply ends_bind; [apply Ho; bounds|]. intros rhs p2 H2. cbn beta iota.
  eapply ends_weaken; [apply IH; bounds|]. intros p3 H3. bounds.
Qed.

Lemma left_assoc_good n op_of operand : good_below n operand -> good_below n (left_assoc op_of operand).
Proof.
  intros Ho p Hp. unfold left_assoc. eapply ends_bind; [by apply Ho|]. intros lhs p1 H1. cbn beta iota.
  eapply ends_weaken; [eapply (chain_good n); [done|bounds..]|]. intros p2 H2. bounds.
Qed.

Section levels.
Context (n : nat) (u : parser Expr) (Hu : good_below n u).

Lemma add_good : good_below n (add_expr u).
Proof. by do 2 apply left_assoc_good. Qed.

Lemma cmp_good : good_below n (cmp_expr u).
Proof.
  intros p Hp. unfold cmp_expr. eapply ends_bind; [by apply add_good|]. intros lhs p1 H1. cbn beta iota.
  destruct (peek p1 ≫= cmp_op); [|cbn; bounds].
  eapply ends_bind; [apply add_good; bounds|]. intros rhs p2 H2. cbn. bounds.
Qed.

Lemma or_good : good_below n (or_expr u).
Proof. do 2 apply left_assoc_good. apply cmp_good. Qed.

Lemma call_args_good : good_below n (call_args u).
Proof.
  intros p Hp. unfold call_args. eapply (ends_bind (upto p)).
  - case_match; [cbn; bounds|]. by apply (comma_list_good _ n); [apply or_good|..|lia].
  - intros l p1 H1. cbn beta iota. step_by expect_ends. cbn. bounds.
Qed.
End levels.

(** The operand of an operator, a parenthesis or a call starts after the current token. *)
Lemma primary_good n u p : good_below n u -> (left_ p < S n)%nat -> ends (upto p) (primary_expr u p).
Proof.
  intros Hu Hp. unfold primary_expr.
  destruct (eat Tok.LParen p) as [[] p1] eqn:E.
  { apply eat_true in E. eapply ends_bind; [apply (or_good n u Hu); bounds|]. intros e p2 H2. cbn beta iota.
    step_by expect_ends. cbn. bounds. }
  assert (ends (upto p) ('(t, p0) ← term p; Returned (EConst t, p0))) as Hconst.
  { step_by term_good. cbn. bounds. }
  assert (forall t, peek p = Some t -> forall name : string, ends (upto p)
    ('(l, p0) ← call_args u (skip (skip p)); Returned (ECall name l, p0))) as Hcall.
  { intros t Ht name. apply peek_left in Ht.
    eapply ends_bind; [apply (call_args_good n u Hu); bounds|]. intros l p2 H2. cbn. bounds. }
  cbn zeta. destruct (peek p) as [t|] eqn:Et; [|exact Hconst].
  destruct t; try exact Hconst.
  - cbn. apply peek_left in Et. bounds.
  - case_match; [by eapply Hcall|exact Hconst].
  - case_match; [|exact Hconst]. apply ends_run. intros name. by eapply Hcall.
  - case_match; [|exact Hconst]. apply ends_run. intros name. by eapply Hcall.
Qed.

Lemma is_tok_peek t p : is_tok t (peek p) = true -> (0 < left_ p)%nat.
Proof. destruct (peek p) eqn:E; [|done]. intros _. by eapply peek_left. Qed.

Lemma unary_good fuel : good_below fuel (unary_expr fuel).
Proof.
  induction fuel as [|fuel IH]; intros p Hp; [lia|]. cbn [unary_expr].
  destruct (is_tok Tok.Bang (peek p)) eqn:E1.
  { apply is_tok_peek in E1. eapply ends_bind; [apply IH; bounds|]. intros e p1 H1. cbn. bounds. }
  destruct (is_tok Tok.Minus (peek p) && _) eqn:E2.
  { apply andb_true_iff in E2 as [E2%is_tok_peek _]. eapply ends_bind; [apply IH; bounds|].
    intros e p1 H1. cbn. bounds. }
  by apply (primary_good fuel).
Qed.

Lemma expr_good : good expr.
Proof. intros p. unfold expr. apply (or_good (S (left_ p)) _ (unary_good _)). lia. Qed.

(** *** Programs *)

Lemma body_item_good : good body_item.
Proof.
  intros p. unfold body_item. cbn zeta. set (neg := is_negation p).
  destruct neg; cbn [orb].
  - step_by atom_good. cbn. bounds.
  - case_match; [step_by atom_good; cbn; bounds|]. step_by expr_good. cbn. bounds.
Qed.

Lemma body_good : good body_.
Proof. intros p. unfold body_. apply args_good, body_item_good. Qed.

Lemma rule_good p : ends (past p) (rule p).
Proof.
  unfold rule. step_by head_good.
  match goal with |- context [eat Tok.Implies ?q] => destruct (eat Tok.Implies q) as [imp p1] eqn:E end.
  apply eat_upto in E. eapply (ends_bind (upto p1)).
  - destruct imp; [apply body_good|cbn; bounds].
  - intros b p2 H2. cbn beta iota. step_by expect_ends. cbn. bounds.
Qed.

Lemma directive_good p : (0 < left_ p)%nat -> ends (past p) (directive p).
Proof.
  intros Hp. unfold directive. cbn zeta. destruct (bump (skip p)) as [t p1] eqn:E. apply bump_upto in E.
  eapply (ends_bind (upto p1)).
  - destruct t as [[]|]; try exact I.
    + destruct (eat Tok.Eq p1) as [b p2] eqn:E2. apply eat_upto in E2. cbn. bounds.
    + case_match; [cbn; bounds|exact I].
  - intros name p2 H2. cbn beta iota. destruct (bump p2) as [i p3] eqn:E3. apply bump_upto in E3.
    apply ends_pure; [by destruct i as [[]|]|]. intros iri. step_by expect_ends. cbn.
    unfold left_ in *. cbn in *. bounds. unfold left_ in *. cbn in *. lia.
Qed.

Lemma goal_good p : (0 < left_ p)%nat -> ends (past p) (goal_ p).
Proof.
  intros Hp. unfold goal_. step_by body_good. step_by expect_ends.
  apply ends_run. intros [oa cs]. cbn beta iota. apply ends_run. intros g. cbn. bounds.
Qed.

Lemma version_good p : (0 < left_ p)%nat -> ends (past p) (version_directive p).
Proof.
  intros Hp. unfold version_directive. cbn zeta. destruct (bump (skip p)) as [t p1] eqn:E. apply bump_upto in E.
  apply ends_pure; [by destruct t as [[]|]|]. intros v. step_by expect_ends. cbn. bounds.
Qed.

Lemma statement_good prog p : ends (past p) (statement prog p).
Proof.
  unfold statement.
  assert (ends (past p) ('(r, p0) ← rule p; Returned (mkProgram (rules prog ++ [r]) (goal prog) (version prog), p0))) as Hr.
  { step_by rule_good. cbn. bounds. }
  destruct (peek p) as [t|] eqn:E; [|exact Hr]. apply peek_left in E. destruct t; try exact Hr.
  - eapply ends_bind; [by apply goal_good|]. intros g p1 H1. cbn. bounds.
  - eapply ends_bind; [by apply directive_good|]. intros g p1 H1. cbn. bounds.
  - eapply ends_bind; [by apply version_good|]. intros g p1 H1. cbn. bounds.
Qed.

Lemma program_loop_total fuel prog p : (left_ p < fuel)%nat -> program_loop fuel prog p <> OutOfFuel.
Proof.
  revert prog p. induction fuel as [|fuel IH]; intros prog p Hf; [lia|]. cbn [program_loop].
  case_match; [|done]. pose proof (statement_good prog p) as Hs.
  destruct (statement prog p) as [[prog' p']| |]; cbn in *; [|done|done]. apply IH. bounds.
Qed.
End total.

(** C16: parsing any source ends: in a program or in an error. *)
Theorem parse_total {OX : Oxrdf} {SD : StrDebug} (src : string) : parse src <> OutOfFuel.
Proof.
  unfold parse. intros [H|(ts & _ & H)]%fueled_bind_fuel.
  { revert H. apply tokenize_loop_total. unfold remaining. lia. }
  apply fueled_bind_fuel in H as [H|(prog & _ & H)].
  { revert H. apply program_loop_total. lia. }
  apply fueled_bind_fuel in H as [H|(prog' & _ & H)]; by apply run_fueled in H.
Qed.
