(* ===== verification/DatalogSql.v ===== *)
(** * Compiling Datalog to SQL ([crates/oxilite-datalog/src/sql.rs])

    A checked program becomes the text of one SQL statement: a member of a [WITH RECURSIVE]
    list per derived relation (one tagged member for a mutually recursive component), and seed
    and step statements for a component that must be iterated. The compiler is a state monad
    over the names, constants, notes and aliases handed out so far, whose errors are the
    crate's or a panic. [SqlPlan] says what the text means,
    [SqlCompile] proves that it means the program. *)

From S2P Require Export Version Vector Program.

(** ** SQL of the history and of inferences ([version.rs], [reason.rs], [compiler/mod.rs]) *)

Definition expr_int_base : Z := Tag.base Integer + INT_OFFSET.

Definition as_of_sql (t : string) : string :=
  "(SELECT l.s AS s, l.p AS p, l.o AS o, l.g AS g FROM quad_log l WHERE l.tx <= " +:+ t +:+ " AND l.op = 1 " +:+
  "AND NOT EXISTS (SELECT 1 FROM quad_log r WHERE r.s = l.s AND r.p = l.p AND r.o = l.o AND r.g = l.g " +:+
  "AND r.tx > l.tx AND r.tx <= " +:+ t +:+ "))".

Definition activity_filter (state : VersionState) (k : string) : string :=
  match history state with
  | History.None_ => "1"
  | _ => "(" +:+ k +:+ ".kind <> 0 OR EXISTS (SELECT 1 FROM commits c WHERE c.tx = " +:+ k +:+ ".t))"
  end.

Definition commits_rel_sql (state : VersionState) : string :=
  let int := show_Z expr_int_base in
  "(SELECT k.t + " +:+ int +:+ " AS c, (SELECT max(j.t) FROM ticks j WHERE j.t < k.t AND " +:+
  activity_filter state "j" +:+ ") + " +:+ int +:+ " AS parent, " +:+
  "k.time_id AS time, k.author_id AS author FROM ticks k WHERE " +:+ activity_filter state "k" +:+ ")".

Definition changes_rel_sql (added : bool) : string :=
  "(SELECT s, p, o, g, tx + " +:+ show_Z expr_int_base +:+ " AS c FROM quad_log WHERE op = " +:+
  (if added then "1" else "0") +:+ ")".

Definition branches_rel_sql (main : Z) : string :=
  "(SELECT " +:+ show_Z main +:+ " AS name, max(t) + " +:+ show_Z expr_int_base +:+ " AS c FROM ticks)".

Definition with_inferences (asserted : string) : string :=
  "(SELECT s, p, o, g FROM " +:+ asserted +:+ " UNION ALL SELECT i.s, i.p, i.o, i.g FROM quads_inf i " +:+
  "WHERE NOT EXISTS (SELECT 1 FROM " +:+ asserted +:+
  " a WHERE a.s = i.s AND a.p = i.p AND a.o = i.o AND a.g = i.g))".

(** ** Options and results *)

Definition int_zero : Z := Tag.base Integer + INT_OFFSET.
Definition int_lo : Z := Tag.base Integer.
Definition int_hi : Z := Z.lor (Tag.base Integer) PAYLOAD_MASK.

Definition MAX_FIXPOINT_ARITY : nat := 6.
Definition DATALOG_PRODUCER : string := "datalog".

Record Options {OX : Oxrdf} := mkOptions {
  o_union_default_graph : bool;
  o_include_inferred : bool;
  o_max_iterations : nat;
  o_producer : string;
  o_as_of : option string;
  o_as_of_tick : option Z;
  o_versions : gmap string Z;
  o_history : option VersionState;
  o_vector_indexes : list VectorIndex;
  o_functions : Functions;
}.
Arguments mkOptions {OX}.

Definition Options_default {OX : Oxrdf} : Options :=
  mkOptions false false 100 DATALOG_PRODUCER None None ∅ None [] None.

Record FixpointPhase := mkPhase { ph_preds : list string; ph_seed : list string; ph_step : list string }.

Record Fixpoint_ := mkFixpoint { run_id : Z; phases : list FixpointPhase; max_iterations : nat }.

Definition fixpoint_is_empty (f : Fixpoint_) : bool := match phases f with [] => true | _ => false end.
Definition cleanup (f : Fixpoint_) : string :=
  "DELETE FROM datalog_work WHERE run = " +:+ show_Z (run_id f).
Definition count (f : Fixpoint_) : string :=
  "SELECT COUNT(*) FROM datalog_work WHERE run = " +:+ show_Z (run_id f).

Record Compiled {OX : Oxrdf} := mkCompiled {
  c_sql : string;
  c_variables : list string;
  c_constants : gmap Z Term;
  c_notes : list string;
  c_fixpoint : Fixpoint_;
}.
Arguments mkCompiled {OX}.

(** [new_run]: the process id, the clock and a counter are the host's. *)
Definition new_run (pid clock n : Z) : Z :=
  let rotated := Z.lor (Z.shiftl clock 17 mod 2 ^ 64) (Z.shiftr clock 47) in
  Z.shiftr (Z.lxor (Z.lxor ((pid * 0x9E3779B97F4A7C15) mod 2 ^ 64) rotated) ((n * 0x51) mod 2 ^ 64)) 1.

Definition LF : string := String "010" "".

Definition prelude_of (members : list string) : string :=
  match members with
  | [] => ""
  | _ => "WITH RECURSIVE " +:+ join ("," +:+ LF) members +:+ LF
  end.

(** [{list:?}] of strings. *)
Definition debug_list `{StrDebug} (l : list string) : string := "[" +:+ join ", " (debug_str <$> l) +:+ "]".

(** ** The compiler's state *)

Record Compiler {OX : Oxrdf} := mkCompiler {
  k_names : gmap Pred string;
  k_fixpoint_rel : gmap Pred nat;
  k_constants : gmap Z Term;
  k_notes : list string;
  k_counter : nat;
}.
Arguments mkCompiler {OX}.

(** How compiling stops short: the crate's error, or a panic. *)
Inductive CompileFault := Refused (e : DatalogError) | Panicked (msg : string).

Definition comp {OX : Oxrdf} (A : Type) : Type := Compiler -> result CompileFault (A * Compiler).
#[global] Instance comp_ret {OX : Oxrdf} : MRet comp := fun A a s => Ok (a, s).
#[global] Instance comp_bind {OX : Oxrdf} : MBind comp := fun A B f m s =>
  match m s with Ok (a, s) => f a s | Err e => Err e end.
#[global] Instance comp_fmap {OX : Oxrdf} : FMap comp := fun A B f m s =>
  match m s with Ok (a, s) => Ok (f a, s) | Err e => Err e end.

Section comp.
Context {OX : Oxrdf}.
Definition refuse {A} (e : DatalogError) : comp A := fun _ => Err (Refused e).
Definition panic {A} (msg : string) : comp A := fun _ => Err (Panicked msg).
Definition get_or {A} (o : option A) (e : DatalogError) : comp A :=
  match o with Some a => mret a | None => refuse e end.
(** Indexing a map or a vector. *)
Definition index {A} (o : option A) : comp A :=
  match o with Some a => mret a | None => panic "index out of bounds" end.
Definition gets {A} (f : Compiler -> A) : comp A := fun s => Ok (f s, s).
Definition modify (f : Compiler -> Compiler) : comp unit := fun s => Ok (tt, f s).

Fixpoint mapC {A B} (f : A -> comp B) (l : list A) : comp (list B) :=
  match l with
  | [] => mret []
  | x :: l => y ← f x; ys ← mapC f l; mret (y :: ys)
  end.
(** A [for] loop over a state of its own. *)
Fixpoint foldC {A S} (f : S -> A -> comp S) (s : S) (l : list A) : comp S :=
  match l with
  | [] => mret s
  | x :: l => s ← f s x; foldC f s l
  end.

Definition note (n : string) : comp unit :=
  modify (fun k => mkCompiler (k_names k) (k_fixpoint_rel k) (k_constants k) (k_notes k ++ [n]) (k_counter k)).
Definition name_pred (p : Pred) (n : string) : comp unit :=
  modify (fun k => mkCompiler (<[p := n]> (k_names k)) (k_fixpoint_rel k) (k_constants k) (k_notes k) (k_counter k)).
Definition add_fixpoint_rel (p : Pred) (n : nat) : comp unit :=
  modify (fun k => mkCompiler (k_names k) (<[p := n]> (k_fixpoint_rel k)) (k_constants k) (k_notes k) (k_counter k)).

Definition show_nat (n : nat) : string := show_Z (Z.of_nat n).

Definition alias : comp string :=
  _ ← modify (fun k => mkCompiler (k_names k) (k_fixpoint_rel k) (k_constants k) (k_notes k) (S (k_counter k)));
  n ← gets k_counter;
  mret ("r" +:+ show_nat n).
End comp.

(** ** What a rule body has bound so far *)

Record Frame := mkFrame { froms : list string; wheres : list string; binding : gmap string string }.
Definition Frame_default : Frame := mkFrame [] [] ∅.
Definition push_from (f : Frame) (s : string) : Frame := mkFrame (froms f ++ [s]) (wheres f) (binding f).
Definition push_wheres (f : Frame) (l : list string) : Frame := mkFrame (froms f) (wheres f ++ l) (binding f).
Definition bind_var (f : Frame) (v col : string) : Frame := mkFrame (froms f) (wheres f) (<[v := col]> (binding f)).

(** The byte [\u{1}] delimits the placeholder of [at ?v]. *)
Definition SOH : ascii := byte_of 1.
Definition at_placeholder (v : string) : string := String SOH ("at:" +:+ v +:+ String SOH "").

(** [str::find] of a string. *)
Fixpoint find_str (s p : string) : option nat :=
  if starts_with s p then Some O
  else match s with EmptyString => None | String _ s => S <$> find_str s p end.

(** The [while let] loop: a replacement removes two delimiters and adds none, so the length of
    the condition is enough fuel ([SqlText.resolve_where_enough]). *)
Fixpoint resolve_where (fuel : nat) (b : gmap string string) (w : string) : result CompileFault string :=
  match find_str w (String SOH "at:") with
  | None => Ok w
  | Some start =>
      match fuel with
      | O => Ok w
      | S fuel =>
          let tail := String.substring (start + 4) (String.length w - (start + 4)) w in
          match find_byte (Ascii.eqb SOH) tail with
          | None => Err (Panicked "closed placeholder")
          | Some n =>
              let var := String.substring 0 n tail in
              match b !! var with
              | None => Err (Refused (DatalogError.Unsafe "at" ("?" +:+ var)))
              | Some bound =>
                  resolve_where fuel b
                    (String.substring 0 start w +:+ "(" +:+ bound +:+ " - " +:+ show_Z expr_int_base +:+ ")" +:+
                     String.substring (n + 1) (String.length tail - (n + 1)) tail)
              end
          end
      end
  end.

Definition resolve_at (f : Frame) : result CompileFault Frame :=
  ws ← try_map (fun w => resolve_where (String.length w) (binding f) w) (wheres f);
  Ok (mkFrame (froms f) ws (binding f)).

(** ** Compiled expressions *)

Definition tag_test (id : string) (t : Tag) : string :=
  "((" +:+ id +:+ ") BETWEEN " +:+ show_Z (Tag.base t) +:+ " AND " +:+
  show_Z (Z.lor (Tag.base t) PAYLOAD_MASK) +:+ ")".

Definition sql_string (s : string) : string := quote_str "" s.

Definition numeric (id : string) : string :=
  "(CASE WHEN (" +:+ id +:+ ") BETWEEN " +:+ show_Z int_lo +:+ " AND " +:+ show_Z int_hi +:+
  " THEN (" +:+ id +:+ ") - " +:+ show_Z int_zero +:+
  " ELSE (SELECT COALESCE(num, ts) FROM terms WHERE id = (" +:+ id +:+ ")) END)".

Definition lexical (id : string) : string :=
  "(CASE WHEN (" +:+ id +:+ ") BETWEEN " +:+ show_Z int_lo +:+ " AND " +:+ show_Z int_hi +:+
  " THEN CAST((" +:+ id +:+ ") - " +:+ show_Z int_zero +:+
  " AS TEXT) ELSE (SELECT lex FROM terms WHERE id = (" +:+ id +:+ ")) END)".

Module Val.
Inductive t :=
  | Id (s : string)
  | Const (id lex : string)
  | Num (s : string)
  | Bool (s : string)
  | Text (s : string).

Definition raw (v : t) : string :=
  match v with Id s | Num s | Bool s | Text s => s | Const id _ => id end.

Definition is_term (v : t) : bool := match v with Id _ | Const _ _ => true | _ => false end.

Definition as_num (v : t) : string :=
  match v with
  | Id s | Const s _ => numeric s
  | Text s => "CAST(" +:+ s +:+ " AS REAL)"
  | Num s | Bool s => s
  end.

Definition as_text (v : t) : string :=
  match v with
  | Id s => lexical s
  | Const _ lex => sql_string lex
  | Text s => s
  | Num s | Bool s => "CAST(" +:+ s +:+ " AS TEXT)"
  end.

Definition as_bool (v : t) : string :=
  match v with
  | Bool s => s
  | Id s | Const s _ => "((" +:+ s +:+ ") = " +:+ show_Z (boolean_id true) +:+ ")"
  | Num s => "((" +:+ s +:+ ") <> 0)"
  | Text s => "((" +:+ s +:+ ") <> '')"
  end.
End Val.

(** ** Splitting a SELECT *)

Fixpoint split_projection_from (depth : Z) (in_str : bool) (s : string) : string * string :=
  match s with
  | EmptyString => ("", "")
  | String c r =>
      if negb in_str && (depth =? 0) && Ascii.eqb c " " &&
         String.eqb (to_ascii_uppercase (String.substring 0 6 s)) " FROM "
      then ("", s)
      else
        let in_str' := if Ascii.eqb c "'" then negb in_str else in_str in
        let depth' := if in_str then depth
                      else if Ascii.eqb c "(" then depth + 1
                      else if Ascii.eqb c ")" then depth - 1 else depth in
        let '(a, b) := split_projection_from depth' in_str' r in (String c a, b)
  end.
Definition split_projection (s : string) : string * string := split_projection_from 0 false s.

Definition nulls (n : nat) : string := String.concat "" (replicate n ", NULL").

Definition pad_select (select : string) (tag arity width : nat) : result CompileFault string :=
  match strip_prefix select "SELECT " with
  | None => Err (Panicked "every arm is built as a SELECT")
  | Some rest =>
      if (arity =? width)%nat then Ok ("SELECT " +:+ show_nat tag +:+ ", " +:+ rest)
      else
        let '(proj, tail) := split_projection rest in
        Ok ("SELECT " +:+ show_nat tag +:+ ", " +:+ proj +:+ nulls (width - arity) +:+ tail)
  end.

Section compiler.
Context {OX : Oxrdf} {XX : Xxh3} {SD : StrDebug} {TD : TermDisplay} `{Lowercase}.
Context (program : Program) (analysis : Analysis) (caps : Capabilities) (options : Options) (run_no : Z).

Definition lift {A} (r : result CompileFault A) : comp A :=
  fun k => match r with Ok a => Ok (a, k) | Err e => Err e end.

Definition assign_stratum (n : nat) (s : Stratum) : comp nat :=
  foldC (fun n p => _ ← name_pred p ("dl" +:+ show_nat n); mret (S n)) n (preds s).
Definition assign_names : comp unit :=
  _ ← foldC assign_stratum 0%nat (strata analysis); mret tt.

Definition arity_of (p : Pred) : nat :=
  match arity analysis !! p with Some n => n | None => default 0%nat (Pred.arity p) end.

Definition is_derived (p : Pred) : bool := bool_decide (is_Some (arity analysis !! p)).

Definition quad_source : string :=
  match o_as_of_tick options with
  | Some t => as_of_sql (show_Z t)
  | None => if o_include_inferred options then with_inferences "quads" else "quads"
  end.

Definition register_const (t : Term) : comp Z :=
  let id := term_id t in
  _ ← modify (fun k => mkCompiler (k_names k) (k_fixpoint_rel k) (<[id := t]> (k_constants k)) (k_notes k)
        (k_counter k));
  mret id.

(** ** Sources *)

Definition require_log : comp unit :=
  match o_history options with
  | Some s => match history s with
              | History.None_ => refuse (DatalogError.Unsupported
                  "this store keeps no change log: raise its versioning level to `log`")
              | _ => mret tt
              end
  | None => refuse (DatalogError.Unsupported
                  "this store keeps no change log: raise its versioning level to `log`")
  end.

(** The table an atom reading the store reads, with the conditions of an [at]. *)
Definition atom_source (a : Atom) (al : string) : comp (string * list string) :=
  match at_ a with
  | None => mret (quad_source, [])
  | Some at_ =>
      if o_include_inferred options then refuse (DatalogError.Unsupported
        "inferences describe the current state only; they cannot be combined with `at`")
      else match at_ with
      | AtVersion r =>
          tick ← get_or (o_versions options !! r) (DatalogError.Unsupported ("version " +:+ r +:+
            " was not resolved: run the program through a store with a change log"));
          mret (as_of_sql (show_Z tick), [])
      | AtVar v =>
          _ ← require_log;
          let t := at_placeholder v in
          mret ("quad_log",
            [al +:+ ".op = 1 AND " +:+ al +:+ ".tx <= " +:+ t +:+ " AND NOT EXISTS (SELECT 1 FROM quad_log r " +:+
             "WHERE r.s = " +:+ al +:+ ".s AND r.p = " +:+ al +:+ ".p AND r.o = " +:+ al +:+ ".o AND r.g = " +:+
             al +:+ ".g AND r.tx > " +:+ al +:+ ".tx AND r.tx <= " +:+ t +:+ ")"])
      end
  end.

Definition Source : Type := string * list string * list string.

Definition history_source (h : HistoryRel) : comp Source :=
  let refused := refuse (DatalogError.Unsupported (HistoryRel.name h +:+ "/" +:+ show_nat (HistoryRel.arity h) +:+
    " reads the history: this store keeps none (versioning level `off`)")) in
  match o_history options with
  | None => refused
  | Some state =>
      if has_ticks state then
        match h with
        | Commit => mret (commits_rel_sql state, ["c"; "parent"; "time"; "author"], [])
        | Added | Removed =>
            _ ← require_log;
            mret (changes_rel_sql (bool_decide (h = Added)), ["s"; "p"; "o"; "g"; "c"], [])
        | Branch =>
            main ← register_const (TermLiteral (new_simple_literal "main"));
            mret (branches_rel_sql main, ["name"; "c"], [])
        end
      else refused
  end.

Definition numbered (n : nat) : list string := (fun i => "c" +:+ show_nat i) <$> seq 0 n.

Definition nearest_source (a : Atom) (rank : bool) : comp Source :=
  let form := Pred.to_string (pred a) in
  if negb (vectors caps) then refuse (DatalogError.Unsupported (form +:+
    " needs a backend with vector functions, such as Turso (oxilite-turso)"))
  else
  let constant i what : comp Term :=
    arg ← index (args a !! i);
    match arg with
    | ArgConst t => mret t
    | _ => refuse (DatalogError.Unsupported (form +:+ ": the " +:+ what +:+ " must be a constant"))
    end in
  name_t ← constant 0%nat "index name";
  query_t ← constant 1%nat "query (a vector string or a node IRI)";
  k_t ← constant 2%nat "k";
  name ← match name_t with
         | TermLiteral l => mret (lit_value l)
         | _ => refuse (DatalogError.Unsupported (form +:+ ": the index name must be a string"))
         end;
  idx ← get_or (vector.find (o_vector_indexes options) name)
    (DatalogError.Unsupported ("there is no built vector index named " +:+ name));
  query ← match query_t with
          | TermLiteral l => mret (vector.QVector (lit_value l))
          | TermNamedNode n => mret (vector.QNode (TermNamedNode n))
          | _ => refuse (DatalogError.Unsupported (form +:+
              ": the query must be a vector string or a node IRI"))
          end;
  k ← get_or (match k_t with TermLiteral l => parse_u64 (lit_value l) | _ => None end)
    (DatalogError.Unsupported (form +:+ ": k must be a positive integer"));
  knn ← lift (map_err (fun e => Refused (DatalogError.Store e)) (vector.knn_ranked_sql idx query k));
  n ← register_const name_t;
  q ← register_const query_t;
  kk ← register_const k_t;
  let select := show_Z n +:+ " AS c0, " +:+ show_Z q +:+ " AS c1, " +:+ show_Z kk +:+ " AS c2, knn.s AS c3" +:+
    (if rank then ", " +:+ show_Z int_zero +:+ " + knn.r AS c4" else "") in
  _ ← note (form +:+ " searches vector index " +:+ vx_name idx +:+ " (" +:+ Metric.name (vx_metric idx) +:+
    ", k = " +:+ show_Z k +:+ ")");
  mret ("(SELECT " +:+ select +:+ " FROM (" +:+ knn +:+ ") AS knn)", numbered (if rank then 5 else 4), []).

(** A mutually recursive member being compiled: its name and its component. *)
Definition SccCtx : Type := string * Stratum.

Definition position (p : Pred) (ps : list Pred) : option nat := fst <$> list_find (fun q => q = p) ps.

Definition default_graph_only (al : string) : list string :=
  if o_union_default_graph options then [] else [al +:+ ".g = 0"].

Definition source_of (a : Atom) (al : string) (scc : option SccCtx) : comp Source :=
  if is_derived (pred a) then
    let cols := numbered (arity_of (pred a)) in
    rels ← gets k_fixpoint_rel;
    match rels !! pred a with
    | Some rel => mret ("datalog_work", cols,
        [al +:+ ".run = " +:+ show_Z run_no; al +:+ ".rel = " +:+ show_nat rel])
    | None =>
        match (match scc with Some (n, s) => t ← position (pred a) (preds s); Some (n, t) | None => None end) with
        | Some (n, t) => mret (n, cols, [al +:+ ".tag = " +:+ show_nat t])
        | None =>
            names ← gets k_names;
            n ← get_or (names !! pred a) (DatalogError.UnknownGoal (Pred.to_string (pred a)));
            mret (n, cols, [])
        end
    end
  else match pred a with
  | PHistory h => history_source h
  | Nearest rank => nearest_source a rank
  | Edb iri =>
      id ← register_const (TermNamedNode iri);
      let unary := (length (args a) =? 1)%nat in
      let extra := (if unary then [al +:+ ".p = " +:+ show_Z rdf_type_id; al +:+ ".o = " +:+ show_Z id]
                    else [al +:+ ".p = " +:+ show_Z id]) ++ default_graph_only al in
      '(source, more) ← atom_source a al;
      mret (source, if unary then ["s"] else ["s"; "o"], extra ++ more)
  | PTriple graph =>
      '(source, more) ← atom_source a al;
      mret (source, ["s"; "p"; "o"] ++ (if graph then ["g"] else []),
        (if graph then [] else default_graph_only al) ++ more)
  | Idb name => refuse (DatalogError.UnknownGoal name)
  end.

(** ** One rule *)

Definition bind_arg (al : string) (columns : list string) (f : Frame) (ia : nat * Arg) : comp Frame :=
  c ← index (columns !! ia.1);
  let col := al +:+ "." +:+ c in
  match ia.2 with
  | Wildcard => mret f
  | ArgVar v => mret match binding f !! v with
                     | Some prev => push_wheres f [col +:+ " = " +:+ prev]
                     | None => bind_var f v col
                     end
  | ArgConst t => id ← register_const t; mret (push_wheres f [col +:+ " = " +:+ show_Z id])
  end.

Definition enumerate {A} (l : list A) : list (nat * A) := zip (seq 0 (length l)) l.

Definition bind_atom (a : Atom) (f : Frame) (scc : option SccCtx) : comp Frame :=
  al ← alias;
  '(source, columns, extra) ← source_of a al scc;
  foldC (bind_arg al columns) (push_wheres (push_from f (source +:+ " " +:+ al)) extra) (enumerate (args a)).

Definition negated_arg (al : string) (columns : list string) (f : Frame)
    (s : list string * gmap string string) (ia : nat * Arg) : comp (list string * gmap string string) :=
  c ← index (columns !! ia.1);
  let col := al +:+ "." +:+ c in
  match ia.2 with
  | Wildcard => mret s
  | ArgVar v => mret match binding f !! v with
                     | Some outer => (s.1 ++ [col +:+ " = " +:+ outer], s.2)
                     | None => match s.2 !! v with
                               | Some prev => (s.1 ++ [col +:+ " = " +:+ prev], s.2)
                               | None => (s.1, <[v := col]> s.2)
                               end
                     end
  | ArgConst t => id ← register_const t; mret (s.1 ++ [col +:+ " = " +:+ show_Z id], s.2)
  end.

Definition where_clause (conds : list string) : string :=
  match conds with [] => "" | _ => " WHERE " +:+ join " AND " conds end.

Definition negated_sql (a : Atom) (f : Frame) (scc : option SccCtx) : comp string :=
  al ← alias;
  '(source, columns, extra) ← source_of a al scc;
  '(conds, _) ← foldC (negated_arg al columns f) (extra, ∅) (enumerate (args a));
  mret ("NOT EXISTS (SELECT 1 FROM " +:+ source +:+ " " +:+ al +:+ where_clause conds +:+ ")").

Definition head_term (arg : Arg) (f : Frame) (h : Head) : comp string :=
  match arg with
  | ArgVar v => get_or (binding f !! v) (DatalogError.Unsafe (Pred.to_string (head_pred h)) ("?" +:+ v))
  | ArgConst t => id ← register_const t; mret (show_Z id)
  | Wildcard => refuse (DatalogError.Unsafe (Pred.to_string (head_pred h)) "_")
  end.

Definition aggregate (func : AggFn) (var : string) (f : Frame) (h : Head) : comp string :=
  let zero := show_Z int_zero in
  if String.eqb var "*" then
    match func with
    | Count | CountDistinct => mret ("(COUNT(*) + " +:+ zero +:+ ")")
    | _ => refuse (DatalogError.unsupported (agg_name func +:+ "(*) is only defined for COUNT"))
    end
  else
    col ← get_or (binding f !! var)
      (DatalogError.Unsafe (Pred.to_string (head_pred h)) ("?" +:+ var));
    match func with
    | Count => mret ("(COUNT(" +:+ col +:+ ") + " +:+ zero +:+ ")")
    | CountDistinct => mret ("(COUNT(DISTINCT " +:+ col +:+ ") + " +:+ zero +:+ ")")
    | Sum => mret ("(CAST(SUM(" +:+ numeric col +:+ ") AS INTEGER) + " +:+ zero +:+ ")")
    | Min | Sample => mret ("MIN(" +:+ col +:+ ")")
    | Max => mret ("MAX(" +:+ col +:+ ")")
    | Avg | GroupConcat => refuse (DatalogError.unsupported (agg_name func +:+
        " produces a value that has no inline term id; compute it in the goal projection instead"))
    end.
(** ** Constraints *)

(** The lexical form of a term ([STR]); a triple term is printed. *)
Definition lexical_form (t : Term) : string :=
  match t with
  | TermNamedNode n => n
  | TermBlankNode b => b
  | TermLiteral l => lit_value l
  | other => term_to_string other
  end.

Definition numeric_literal (t : Term) : option string :=
  match t with
  | TermLiteral l =>
      _ ← numeric_rank (lit_datatype l);
      v ← F64.parse (lit_value l);
      Some (if F64.eqb v (F64.trunc v) && F64.ltb (F64.abs v) (F64.of_Z (9 * 10 ^ 15))
            then show_Z (F64.to_i64 v) else F64.display v)
  | _ => None
  end.

Definition binary (op : BinOp) (l r : Val.t) : Val.t :=
  let num o := "(" +:+ Val.as_num l +:+ " " +:+ o +:+ " " +:+ Val.as_num r +:+ ")" in
  let equal o := if Val.is_term l && Val.is_term r
                 then "(" +:+ Val.raw l +:+ " " +:+ o +:+ " " +:+ Val.raw r +:+ ")" else num o in
  match op with
  | OAnd => Val.Bool ("((" +:+ Val.as_bool l +:+ ") AND (" +:+ Val.as_bool r +:+ "))")
  | OOr => Val.Bool ("((" +:+ Val.as_bool l +:+ ") OR (" +:+ Val.as_bool r +:+ "))")
  | ODiv => Val.Num ("(" +:+ Val.as_num l +:+ " * 1.0 / NULLIF(" +:+ Val.as_num r +:+ ", 0))")
  | OAdd => Val.Num (num "+")
  | OSub => Val.Num (num "-")
  | OMul => Val.Num (num "*")
  | OEq => Val.Bool (equal "=")
  | ONe => Val.Bool (equal "<>")
  | OLt => Val.Bool (num "<")
  | OLe => Val.Bool (num "<=")
  | OGt => Val.Bool (num ">")
  | OGe => Val.Bool (num ">=")
  end.

Definition call_sql (name : string) (a : list Val.t) : result DatalogError Val.t :=
  let need i := ok_or (a !! i) (DatalogError.unsupported (name +:+ " needs more arguments")) in
  let text i := Val.as_text <$> need i in
  let num i := Val.as_num <$> need i in
  if String.eqb name "ABS" then n ← num 0%nat; Ok (Val.Num ("ABS(" +:+ n +:+ ")"))
  else if String.eqb name "CEIL" then n ← num 0%nat; Ok (Val.Num ("CAST(CEIL(" +:+ n +:+ ") AS INTEGER)"))
  else if String.eqb name "FLOOR" then n ← num 0%nat; Ok (Val.Num ("CAST(FLOOR(" +:+ n +:+ ") AS INTEGER)"))
  else if String.eqb name "ROUND" then n ← num 0%nat; Ok (Val.Num ("CAST(ROUND(" +:+ n +:+ ") AS INTEGER)"))
  else if String.eqb name "STRLEN" then t ← text 0%nat; Ok (Val.Num ("LENGTH(" +:+ t +:+ ")"))
  else if String.eqb name "UCASE" then t ← text 0%nat; Ok (Val.Text ("UPPER(" +:+ t +:+ ")"))
  else if String.eqb name "LCASE" then t ← text 0%nat; Ok (Val.Text ("LOWER(" +:+ t +:+ ")"))
  else if String.eqb name "STR" then t ← text 0%nat; Ok (Val.Text t)
  else if String.eqb name "CONCAT" then Ok (Val.Text ("(" +:+ join " || " (Val.as_text <$> a) +:+ ")"))
  else if String.eqb name "SUBSTR" then
    let len := match a !! 2%nat with Some v => ", " +:+ Val.as_num v | None => "" end in
    t ← text 0%nat; n ← num 1%nat; Ok (Val.Text ("SUBSTR(" +:+ t +:+ ", " +:+ n +:+ len +:+ ")"))
  else if String.eqb name "CONTAINS" then
    x ← text 0%nat; y ← text 1%nat; Ok (Val.Bool ("(INSTR(" +:+ x +:+ ", " +:+ y +:+ ") > 0)"))
  else if String.eqb name "STRSTARTS" then
    x ← text 0%nat; y ← text 1%nat; Ok (Val.Bool ("(SUBSTR(" +:+ x +:+ ", 1, LENGTH(" +:+ y +:+ ")) = " +:+ y +:+ ")"))
  else if String.eqb name "STRENDS" then
    x ← text 0%nat; y ← text 1%nat; Ok (Val.Bool ("(SUBSTR(" +:+ x +:+ ", -LENGTH(" +:+ y +:+ ")) = " +:+ y +:+ ")"))
  else if String.eqb name "STRBEFORE" then
    x ← text 0%nat; y ← text 1%nat;
    Ok (Val.Text ("SUBSTR(" +:+ x +:+ ", 1, INSTR(" +:+ x +:+ ", " +:+ y +:+ ") - 1)"))
  else if String.eqb name "STRAFTER" then
    x ← text 0%nat; y ← text 1%nat;
    Ok (Val.Text ("SUBSTR(" +:+ x +:+ ", INSTR(" +:+ x +:+ ", " +:+ y +:+ ") + LENGTH(" +:+ y +:+ "))"))
  else if String.eqb name "ISNUMERIC" then n ← num 0%nat; Ok (Val.Bool ("(" +:+ n +:+ " IS NOT NULL)"))
  else if String.eqb name "BOUND" then v ← need 0%nat; Ok (Val.Bool ("(" +:+ Val.raw v +:+ " IS NOT NULL)"))
  else if String.eqb name "SAMETERM" then
    v ← need 0%nat; w ← need 1%nat; Ok (Val.Bool ("(" +:+ Val.raw v +:+ " = " +:+ Val.raw w +:+ ")"))
  else if String.eqb name "ISIRI" || String.eqb name "ISURI" then
    v ← need 0%nat; Ok (Val.Bool (tag_test (Val.raw v) Iri))
  else if String.eqb name "ISBLANK" then v ← need 0%nat; Ok (Val.Bool (tag_test (Val.raw v) TBlankNode))
  else if String.eqb name "ISLITERAL" then
    v ← need 0%nat;
    Ok (Val.Bool ("(NOT (" +:+ tag_test (Val.raw v) Iri +:+ ") AND NOT (" +:+ tag_test (Val.raw v) TBlankNode +:+ "))"))
  else if String.eqb name "REGEX" then
    if negb (udf caps) then Err (DatalogError.unsupported
      "REGEX needs the oxilite user-defined functions, which this backend does not provide")
    else
      let flags := match a !! 2%nat with Some f => Val.as_text f | None => "''" end in
      x ← text 0%nat; y ← text 1%nat;
      Ok (Val.Bool ("oxilite_regex(" +:+ x +:+ ", " +:+ y +:+ ", " +:+ flags +:+ ")"))
  else if String.eqb name "IF" then
    c ← need 0%nat; x ← num 1%nat; y ← num 2%nat;
    Ok (Val.Num ("(CASE WHEN " +:+ Val.as_bool c +:+ " THEN " +:+ x +:+ " ELSE " +:+ y +:+ " END)"))
  else if String.eqb name "COALESCE" then Ok (Val.Num ("COALESCE(" +:+ join ", " (Val.as_num <$> a) +:+ ")"))
  else Err (DatalogError.unsupported ("the function " +:+ name +:+ " is not available in a Datalog constraint")).

Fixpoint expr (e : Expr) (f : Frame) : comp Val.t :=
  match e with
  | EVar v => Val.Id <$> get_or (binding f !! v) (DatalogError.Unsafe "constraint" ("?" +:+ v))
  | EConst t =>
      match numeric_literal t with
      | Some n => mret (Val.Num n)
      | None => id ← register_const t; mret (Val.Const (show_Z id) (lexical_form t))
      end
  | ENeg e => a ← expr e f; mret (Val.Num ("(-" +:+ Val.as_num a +:+ ")"))
  | ENot e => a ← expr e f; mret (Val.Bool ("(NOT (" +:+ Val.as_bool a +:+ "))"))
  | EBinary op l r => l ← expr l f; r ← expr r f; mret (binary op l r)
  | ECall name es =>
      a ← (fix go es := match es with [] => mret [] | e :: es => x ← expr e f; xs ← go es; mret (x :: xs) end) es;
      lift (map_err Refused (call_sql name a))
  end.

(** ** The SELECT of a rule *)

Definition bind_item (scc : option SccCtx) (f : Frame) (i : BodyItem) : comp Frame :=
  match i with BAtom a => bind_atom a f scc | _ => mret f end.

Definition check_item (scc : option SccCtx) (f : Frame) (i : BodyItem) : comp Frame :=
  match i with
  | Negated a => s ← negated_sql a f scc; mret (push_wheres f [s])
  | Constraint e => v ← expr e f; mret (push_wheres f ["(" +:+ Val.as_bool v +:+ ")"])
  | BAtom _ => mret f
  end.

(** The projection and, in an aggregating rule, the columns it is grouped by. *)
Definition project_arg (h : Head) (f : Frame) (s : list string * list string) (a : HeadArg)
  : comp (list string * list string) :=
  match a with
  | Plain a => t ← head_term a f h; mret (s.1 ++ [t], if aggregates h then s.2 ++ [t] else s.2)
  | Agg func var => t ← aggregate func var f h; mret (s.1 ++ [t], s.2)
  end.

Definition select_text (projection : list string) (f : Frame) (group : list string) : string :=
  "SELECT " +:+ join ", " projection +:+
  match froms f with
  | [] => where_clause (wheres f)
  | _ => " FROM " +:+ join ", " (froms f) +:+ where_clause (wheres f) +:+
         match group with [] => "" | _ => " GROUP BY " +:+ join ", " group end
  end.

Definition rule_select (rule : Rule) (scc : option SccCtx) : comp string :=
  f ← foldC (bind_item scc) Frame_default (body rule);
  f ← foldC (check_item scc) f (body rule);
  '(projection, group) ← foldC (project_arg (head rule) f) ([], []) (head_args (head rule));
  f ← lift (resolve_at f);
  mret (select_text projection f group).

(** ** The rules of a relation *)

Definition recursive_in (inside : list Pred) (r : Rule) : bool :=
  existsb (fun a => bool_decide (pred a ∈ inside)) (positive r).

(** The rules without recursion first. *)
Definition rule_selects (p : Pred) (scc : option SccCtx) : comp (list string) :=
  let rs := rules_for program p in
  let inside := match scc with Some (_, s) => preds s | None => [p] end in
  anchors ← mapC (fun r => rule_select r scc) (List.filter (fun r => negb (recursive_in inside r)) rs);
  steps ← mapC (fun r => rule_select r scc) (List.filter (recursive_in inside) rs);
  mret (anchors ++ steps).

Definition UNION : string := LF +:+ "UNION" +:+ LF.

Definition union_of_rules (p : Pred) : comp string :=
  selects ← rule_selects p None;
  mret match selects with
       | [] => "SELECT " +:+ match arity_of p with
                             | O => "1"
                             | n => join ", " (replicate n "NULL")
                             end +:+ " WHERE 0"
       | _ => join UNION selects
       end.

Definition columns_of (p : Pred) : string := join ", " (numbered (arity_of p)).

(** [name(c0, c1, …) AS (body)]. *)
Definition member (p : Pred) (body : string) : comp string :=
  names ← gets k_names;
  n ← index (names !! p);
  mret (n +:+ "(" +:+ columns_of p +:+ ") AS (" +:+ LF +:+ body +:+ LF +:+ ")").

(** ** Components *)

Definition insert_into_work (prelude : string) (rel n : nat) (select : string) : string :=
  prelude +:+ "INSERT OR IGNORE INTO datalog_work (run, rel, " +:+ join ", " (numbered n) +:+ ") SELECT " +:+
  show_Z run_no +:+ ", " +:+ show_nat rel +:+ ", * FROM (" +:+ select +:+ ")".

Definition register_rel (base : nat) (ip : nat * Pred) : comp unit :=
  let n := arity_of ip.2 in
  if (MAX_FIXPOINT_ARITY <? n)%nat then refuse (DatalogError.unsupported ("`" +:+ Pred.to_string ip.2 +:+
    "` has arity " +:+ show_nat n +:+ "; a component evaluated by iteration may be at most " +:+
    show_nat MAX_FIXPOINT_ARITY +:+ " wide"))
  else add_fixpoint_rel ip.2 (base + ip.1).

Definition fixpoint_rule (s : Stratum) (prelude : string) (rel n : nat) (ss : list string * list string) (r : Rule)
  : comp (list string * list string) :=
  select ← rule_select r None;
  let sql := insert_into_work prelude rel n select in
  mret (if recursive_in (preds s) r then (ss.1, ss.2 ++ [sql]) else (ss.1 ++ [sql], ss.2)).

Definition fixpoint_pred (s : Stratum) (prelude : string) (ss : list string * list string) (p : Pred)
  : comp (list string * list string) :=
  rels ← gets k_fixpoint_rel;
  rel ← index (rels !! p);
  foldC (fixpoint_rule s prelude rel (arity_of p)) ss (rules_for program p).

(** The members and the phases of the earlier components. *)
Definition Built : Type := list string * list FixpointPhase.

Definition fixpoint_stratum (s : Stratum) (b : Built) : comp Built :=
  let names := Pred.to_string <$> preds s in
  _ ← note (debug_list names +:+ ": non-linear recursion, evaluated by iteration — one request per round");
  base ← gets (fun k => size (k_fixpoint_rel k));
  _ ← mapC (register_rel base) (enumerate (preds s));
  '(seed, step) ← foldC (fixpoint_pred s (prelude_of b.1)) ([], []) (preds s);
  mret (b.1, b.2 ++ [mkPhase names seed step]).

(** The arms of one predicate of a mutually recursive component. *)
Definition tagged_arms (scc : string) (s : Stratum) (width : nat) (tp : nat * Pred) : comp (list string) :=
  selects ← rule_selects tp.2 (Some (scc, s));
  lift (try_map (fun x => pad_select x tp.1 (arity_of tp.2) width) selects).

(** A predicate's rows, read back out of the tagged relation. *)
Definition untagged (scc : string) (tp : nat * Pred) : comp string :=
  names ← gets k_names;
  n ← index (names !! tp.2);
  mret (n +:+ "(" +:+ columns_of tp.2 +:+ ") AS (SELECT " +:+ columns_of tp.2 +:+ " FROM " +:+ scc +:+
    " WHERE tag = " +:+ show_nat tp.1 +:+ ")").

Definition mutual (idx : nat) (s : Stratum) (out : list string) : comp (list string) :=
  let names := debug_list (Pred.to_string <$> preds s) in
  if negb (compound_recursive_cte caps) then refuse (DatalogError.unsupported ("mutual recursion between " +:+
    names +:+ " needs a recursive CTE with several recursive terms, which this backend's SQLite does not " +:+
    "support (3.34.0 or later is required)"))
  else
  let scc := "scc" +:+ show_nat idx in
  let width := list_max (arity_of <$> preds s) in
  _ ← note (names +:+ ": mutual recursion, one tagged WITH RECURSIVE member");
  arms ← mapC (tagged_arms scc s width) (enumerate (preds s));
  views ← mapC (untagged scc) (enumerate (preds s));
  mret (out ++ [scc +:+ "(" +:+ join ", " ("tag" :: numbered width) +:+ ") AS (" +:+ LF +:+
    join UNION (concat arms) +:+ LF +:+ ")"] ++ views).

Definition plain_member (p : Pred) : comp string := body ← union_of_rules p; member p body.

Definition stratum (b : Built) (ip : nat * Stratum) : comp Built :=
  let s := ip.2 in
  match shape s with
  | NonRecursive => ms ← mapC plain_member (preds s); mret (b.1 ++ ms, b.2)
  | Linear =>
      p ← index (preds s !! 0%nat);
      _ ← note (Pred.to_string p +:+ ": linear recursion, one WITH RECURSIVE member");
      m ← plain_member p; mret (b.1 ++ [m], b.2)
  | LinearMutual => out ← mutual ip.1 s b.1; mret (out, b.2)
  | NonLinear => fixpoint_stratum s b
  end.

(** ** The goal and the whole program *)

Definition project_goal (f : Frame) (iv : nat * string) : comp string :=
  col ← index (binding f !! iv.2);
  mret (col +:+ " AS v" +:+ show_nat iv.1).

Definition goal_constraint (f : Frame) (e : Expr) : comp Frame :=
  v ← expr e f; mret (push_wheres f ["(" +:+ Val.as_bool v +:+ ")"]).

Definition goal_select (g : Goal_) : comp (string * list string) :=
  f ← bind_atom (goal_atom g) Frame_default None;
  f ← foldC goal_constraint f (goal_constraints g);
  f ← lift (resolve_at f);
  let variables := atom_vars (goal_atom g) [] in
  projection ← mapC (project_goal f) (enumerate variables);
  let projection := match projection with [] => ["1 AS v0"] | _ => projection end in
  mret ("SELECT DISTINCT " +:+ join ", " projection +:+ " FROM " +:+ join ", " (froms f) +:+
    where_clause (wheres f), variables).

Definition compile_program (g : Goal_) : comp (string * list string * list FixpointPhase) :=
  _ ← assign_names;
  '(members, phs) ← foldC stratum ([], []) (enumerate (strata analysis));
  '(select, variables) ← goal_select g;
  mret (prelude_of members +:+ select, variables, phs).

Definition compile_for (g : Goal_) : result CompileFault Compiled :=
  '(text, variables, phs, k) ← compile_program g (mkCompiler ∅ ∅ ∅ [] 0);
  Ok (mkCompiled text variables (k_constants k) (k_notes k)
        (mkFixpoint run_no phs (o_max_iterations options))).

Definition compile : result CompileFault Compiled :=
  g ← ok_or (goal program) (Refused DatalogError.NoGoal);
  compile_for g.
End compiler.
