(* ===== verification/Model.v ===== *)
(** * The meaning of a Datalog program

    The declarative semantics the compiler is measured against: relations are sets of tuples of
    term ids; a rule derives the tuples of its head under the assignments that satisfy its
    body; the model of a stratified program adds, stratum by stratum, the least relations
    closed under the stratum's rules. What a constraint means on ids is a parameter. The model
    is shown to be one: it satisfies every rule and holds nothing the rules do not derive
    ([ModelFacts]). *)

From S2P Require Export Encoding Strata.

Section model.
Context {OX : Oxrdf} {XX : Xxh3}.

(** When a constraint holds of the ids of its variables. *)
Context (sat : Expr -> (string -> option Z) -> Prop).

Definition Interp : Type := Pred -> list Z -> Prop.
Definition Assign : Type := string -> Z.
Implicit Types (I J : Interp) (θ : Assign).

Definition arg_matches θ (a : Arg) (z : Z) : Prop :=
  match a with ArgVar v => z = θ v | Wildcard => True | ArgConst t => z = term_id t end.

Definition atom_holds I θ (a : Atom) : Prop :=
  exists tup, I (pred a) tup /\ Forall2 (arg_matches θ) (args a) tup.

Definition item_holds I θ (i : BodyItem) : Prop :=
  match i with
  | BAtom a => atom_holds I θ a
  | Negated a => ~ atom_holds I θ a
  | Constraint e => sat e (fun v => Some (θ v))
  end.

(** A head without aggregates; a wildcard has no value. *)
Definition head_value θ (a : HeadArg) (z : Z) : Prop :=
  match a with
  | Plain (ArgVar v) => z = θ v
  | Plain (ArgConst t) => z = term_id t
  | Plain Wildcard | Agg _ _ => False
  end.

Definition rule_derives I (r : Rule) (tup : list Z) : Prop :=
  exists θ, Forall (item_holds I θ) (body r) /\ Forall2 (head_value θ) (head_args (head r)) tup.

(** [J] is closed under the rules of the predicates [ps]. *)
Definition closed (program : Program) (ps : list Pred) J : Prop :=
  forall r tup, r ∈ rules program -> head_pred (head r) ∈ ps -> rule_derives J r tup -> J (head_pred (head r)) tup.

Definition agree_outside (ps : list Pred) I J : Prop := forall p tup, p ∉ ps -> I p tup <-> J p tup.

(** The least relations for [ps] over [I] that are closed under the rules of [ps]. *)
Definition stratum_model (program : Program) I (ps : list Pred) : Interp := fun p tup =>
  ((p ∉ ps) /\ I p tup) \/
  (p ∈ ps /\ (forall J, agree_outside ps I J -> closed program ps J -> J p tup)).

(** Stored quads as relations: a predicate that rules define is not read from the store. *)
Definition edb (union : bool) (Q : Z -> Z -> Z -> Z -> Prop) (program : Program) : Interp := fun p tup =>
  ~ derived program p /\
  match p, tup with
  | Edb iri, [s] => exists g, Q s rdf_type_id (named_node_id iri) g /\ (union = false -> g = 0)
  | Edb iri, [s; o] => exists g, Q s (named_node_id iri) o g /\ (union = false -> g = 0)
  | PTriple false, [s; p; o] => exists g, Q s p o g /\ (union = false -> g = 0)
  | PTriple true, [s; p; o; g] => Q s p o g
  | _, _ => False
  end.

Definition program_model (program : Program) (strata_preds : list (list Pred)) I : Interp :=
  foldl (stratum_model program) I strata_preds.

Definition goal_holds I θ (g : Goal_) : Prop :=
  atom_holds I θ (goal_atom g) /\ Forall (fun e => sat e (fun v => Some (θ v))) (goal_constraints g).

(** The answers: the values of the goal's variables, in order of first occurrence. *)
Definition goal_answer I (g : Goal_) (tup : list Z) : Prop :=
  exists θ, goal_holds I θ g /\ tup = θ <$> atom_vars (goal_atom g) [].
End model.
