(* ===== verification/ModelFacts.v ===== *)
(** * Facts about the Datalog semantics

    Rules without negation on a stratum are monotone in it, so the stratum's relations are
    closed under its rules, are the least that are, and hold tuples of the heads' length. *)

From S2P Require Export Model.

Section facts.
Context {OX : Oxrdf} {XX : Xxh3}.
Context (sat : Expr -> (string -> option Z) -> Prop) (program : Program).
Implicit Types (I J M : Interp) (ps : list Pred).

Lemma rule_derives_mono I J r tup :
  (forall a t, BAtom a ∈ body r -> I (pred a) t -> J (pred a) t) ->
  (forall a t, Negated a ∈ body r -> J (pred a) t -> I (pred a) t) ->
  rule_derives sat I r tup -> rule_derives sat J r tup.
Proof.
  intros Hp Hn (θ & Hb & Hh). exists θ. split; [|done]. rewrite Forall_forall in Hb |- *.
  intros i Hi. specialize (Hb i Hi). destruct i as [a|a|e]; [| |done].
  - destruct Hb as (t & Ht & Hm). exists t. split; [by apply (Hp a)|done].
  - intros (t & Ht & Hm). apply Hb. exists t. split; [by apply (Hn a)|done].
Qed.

Lemma rule_derives_length I r tup : rule_derives sat I r tup -> length tup = length (head_args (head r)).
Proof. intros (θ & _ & Hh). symmetry. by eapply Forall2_length. Qed.

(** No rule of [ps] negates [ps]. *)
Definition negation_free ps : Prop :=
  forall r a, r ∈ rules program -> head_pred (head r) ∈ ps -> Negated a ∈ body r -> pred a ∉ ps.

Lemma stratum_model_outside M ps p tup : p ∉ ps -> stratum_model sat program M ps p tup <-> M p tup.
Proof. intros Hp. unfold stratum_model. tauto. Qed.

Lemma stratum_model_inside M ps p tup :
  p ∈ ps -> stratum_model sat program M ps p tup <->
  (forall J, agree_outside ps M J -> closed sat program ps J -> J p tup).
Proof. intros Hp. unfold stratum_model. tauto. Qed.

Lemma stratum_model_closed M ps : negation_free ps -> closed sat program ps (stratum_model sat program M ps).
Proof.
  intros Hneg r tup Hr Hh Hd. apply stratum_model_inside; [done|]. intros J Ho Hc. apply Hc; [done|done|].
  revert Hd. apply rule_derives_mono.
  - intros a t _. destruct (decide (pred a ∈ ps)) as [Hin|Hin].
    + rewrite stratum_model_inside by done. intros H. by apply H.
    + rewrite stratum_model_outside by done. by apply Ho.
  - intros a t Ha Ht. assert (pred a ∉ ps) as Hin by by eapply Hneg.
    apply stratum_model_outside; [done|]. by apply (Ho _ t).
Qed.

(** A derived tuple has the length of the heads of its predicate. *)
Lemma stratum_model_length M ps p tup (ar : Pred -> nat) :
  (forall r, r ∈ rules program -> length (head_args (head r)) = ar (head_pred (head r))) ->
  p ∈ ps -> stratum_model sat program M ps p tup -> length tup = ar p.
Proof.
  intros Har Hp H. rewrite stratum_model_inside in H by done.
  set (J := fun q t => ((q ∉ ps) /\ M q t) \/ (q ∈ ps /\ length t = ar q)).
  destruct (H J) as [[? _]|[_ ?]]; [| |done|done].
  - intros q t Hq. unfold J. tauto.
  - intros r t Hr Hh Hd. right. split; [done|]. rewrite <- Har by done. by eapply rule_derives_length.
Qed.

Lemma program_model_snoc I pss ps :
  program_model sat program (pss ++ [ps]) I = stratum_model sat program (program_model sat program pss I) ps.
Proof. unfold program_model. by rewrite foldl_app. Qed.
End facts.
