(* ===== verification/Accepted.v ===== *)
(** * Accepted programs

    What the compiler relies on in an analysis [analyse] accepts: the derived predicates and
    their arities, the strata each predicate reads, and the shape a stratum's rules have. *)

From S2P Require Export ModelFacts.

Section accepted.
Context {OX : Oxrdf} {XX : Xxh3} (program : Program) (a : Analysis) (H : analyse program = Ok a).
Implicit Types (p q : Pred) (r : Rule) (s : Stratum).

Lemma accepted_derived p : is_Some (arity a !! p) <-> derived program p.
Proof. apply analyse_ok in H as (_ & Har & _). by apply arities_ok in Har as [_ Har]. Qed.

Lemma accepted_head r : r ∈ rules program -> arity a !! head_pred (head r) = Some (length (head_args (head r))).
Proof. apply (analysis_strata program a H). Qed.

Lemma accepted_atom b :
  program_atom program b -> derived program (pred b) -> arity a !! pred b = Some (length (args b)).
Proof.
  intros Hb Hd. pose proof (proj2 (accepted_derived _) Hd) as [k Hk].
  apply analyse_ok in H as (_ & Har & _). apply arities_ok in Har as [[_ Har] _].
  rewrite (Har b Hb Hd), Hk. done.
Qed.

Lemma accepted_iri : iri_atoms_fit program.
Proof. by apply analyse_ok in H as (? & _). Qed.

Lemma accepted_safe : program_safe program.
Proof. by apply analyse_ok in H as (_ & _ & ? & _). Qed.

(** *** Strata *)

Lemma stratum_at p i s : strata a !! i = Some s -> p ∈ preds s <-> stratum_of a p = Some i.
Proof. apply (analysis_strata program a H). Qed.

Lemma derived_stratum p : derived program p <-> exists i s, strata a !! i = Some s /\ p ∈ preds s.
Proof.
  destruct (analysis_strata program a H) as (Hd & Hs & _). rewrite Hd. split.
  - intros [i Hi]. pose proof Hi as Hi'. unfold stratum_of in Hi'.
    destruct (list_find _ (strata a)) as [[j s]|] eqn:E; [|done]. cbn in Hi'. injection Hi' as ->.
    apply list_find_Some in E as (Hj & Hp & _). by exists i, s.
  - intros (i & s & Hi & Hp). exists i. by apply (Hs i s).
Qed.

Lemma stratum_unique p i j s s' :
  strata a !! i = Some s -> strata a !! j = Some s' -> p ∈ preds s -> p ∈ preds s' -> i = j.
Proof. intros Hi Hj Hp Hp'. apply (stratum_at p i s Hi) in Hp. apply (stratum_at p j s' Hj) in Hp'. congruence. Qed.

Lemma stratum_nodup i s : strata a !! i = Some s -> NoDup (preds s).
Proof. intros Hs. apply (analysis_nodup program a); [done|by eapply list_elem_of_lookup_2]. Qed.

Lemma stratum_derived i s p : strata a !! i = Some s -> p ∈ preds s -> derived program p.
Proof. intros Hi Hp. apply derived_stratum. by exists i, s. Qed.

(** A stratum reads itself and the strata before it, and negates only the strata before it. *)
Lemma stratum_reads i s r b (q : Atom) d :
  strata a !! i = Some s -> r ∈ rules program -> head_pred (head r) ∈ preds s -> b ∈ body r ->
  item_dep (aggregates (head r)) b = Some (q, d) -> derived program (pred q) ->
  exists j s', strata a !! j = Some s' /\ pred q ∈ preds s' /\ (j <= i)%nat /\ (d <> Positive -> (j < i)%nat).
Proof.
  intros Hi Hr Hh Hb Hd Hq. pose proof (analysis_strata program a H) as (_ & _ & Hdep & _).
  pose proof Hq as (j & s' & Hj & Hp)%derived_stratum. exists j, s'. split; [done|]. split; [done|].
  apply (Hdep (head_pred (head r)) (pred q)).
  - exists r, b, q. by split_and!.
  - by apply (stratum_at _ i s).
  - by apply (stratum_at _ j s').
Qed.

Lemma stratum_negation_free i s : strata a !! i = Some s -> negation_free program (preds s).
Proof.
  intros Hi r b Hr Hh Hb Hin.
  destruct (stratum_reads i s r (Negated b) b Negative) as (j & s' & Hj & Hp & _ & Hlt); [done..| |].
  { by eapply stratum_derived. }
  pose proof (stratum_unique _ _ _ _ _ Hi Hj Hin Hp). specialize (Hlt ltac:(done)). lia.
Qed.

Lemma stratum_shape i s : strata a !! i = Some s -> shape s = shape_of program (preds s).
Proof.
  intros Hi. apply analyse_ok in H as (_ & _ & _ & Hst). cbn zeta in Hst. destruct Hst as [_ Hst].
  rewrite Hst in Hi. unfold stratum_list in Hi. apply list_lookup_fmap_Some in Hi as (ci & -> & _). done.
Qed.

(** A stratum without recursion holds one predicate at most. *)
Lemma non_recursive_single i s : strata a !! i = Some s -> shape s = NonRecursive -> (length (preds s) <= 1)%nat.
Proof.
  intros Hi Hsh. rewrite (stratum_shape i s Hi) in Hsh. pose proof (shape_of_cases program (preds s)) as Hc.
  rewrite Hsh in Hc. pose proof (stratum_nodup i s Hi) as Hnd.
  destruct (preds s) as [|p [|q l]] eqn:E; [cbn; lia..|]. exfalso. apply Hc.
  assert (p <> q) as Hpq by (apply NoDup_cons in Hnd as [Hp _]; set_solver).
  destruct (analysis_strata program a H) as (_ & _ & Hdep & Hmut & _).
  assert (stratum_of a p = Some i) as Hsp by (apply (stratum_at _ i s Hi); rewrite E; by left).
  assert (stratum_of a q = Some i) as Hsq by (apply (stratum_at _ i s Hi); rewrite E; by right; left).
  destruct (proj1 (Hmut p q i i Hsp Hsq) eq_refl) as [Hd Hd'].
  inversion Hd as [|? p1 ? Hstep Hrest]; subst; [done|]. destruct Hstep as [Hp [d Hrd]].
  assert (derived program p1) as Hp1.
  { inversion Hrest as [|? ? ? [? _]]; subst; [|done]. eapply stratum_derived; [done|]. rewrite E. by right; left. }
  pose proof Hp1 as (j & s' & Hj & Hin)%derived_stratum. apply (stratum_at _ j s' Hj) in Hin.
  assert (i = j) as <-.
  { apply (Hmut p p1 i j Hsp Hin). split; [apply rtc_once; split; [done|by exists d]|by etrans]. }
  apply (Hdep p p1 d i i Hrd Hsp) in Hin as Hlt. destruct Hlt as [_ Hlt].
  destruct (decide (d = Positive)) as [->|Hne]; [|specialize (Hlt Hne); lia].
  destruct Hrd as (r & b & c & Hr & <- & Hb & Hbd & <-). exists r. split_and!; [done|by left|].
  apply recursive_atoms_pos. destruct b as [b|b|]; [|done..]. injection Hbd as [= -> _]. exists c. split; [done|].
  rewrite <- E. by apply (stratum_at _ i s Hi).
Qed.
End accepted.
