(* ===== verification/SqlPlan.v ===== *)
(** * What the compiled SQL means

    A syntax of the SELECT statements, recursive table lists and insertions the Datalog compiler
    writes, its printing, and its meaning as relations: a row gives a column an id or NULL, a
    comparison with NULL does not hold, and a member of [WITH RECURSIVE] is the least set of
    rows closed under its arms (SQL's [UNION] recursion). A database gives each source its
    rows, by the text the statement names it with. What a constraint means on ids is a
    parameter, the same as in [Model]. *)

From S2P Require Export DatalogSql Model.

Definition Row : Type := string -> option Z.
Definition Db : Type := string -> Row -> Prop.
(** The current row of each alias. *)
Definition Env : Type := nat -> Row.

(** ** Syntax *)

Record Col := mkCol { col_alias : nat; col_name : string }.
Inductive Operand := OCol (c : Col) | OId (z : Z) | ONull.
Definition Equality : Type := Col * Operand.

Inductive Cond {OX : Oxrdf} :=
  | CEq (e : Equality)
  | CNotExists (source : string) (alias : nat) (conds : list Equality)
  | CHolds (e : Expr) (b : gmap string Col).

Record Select {OX : Oxrdf} := mkSelect {
  s_projection : list Operand;
  s_from : list (string * nat);
  s_where : list Cond;
}.
Arguments mkSelect {OX}.

(** A table of the list: the union of its arms, or the rows of a tag of a tagged table. *)
Inductive Member {OX : Oxrdf} :=
  | MTable (name : string) (cols : list string) (arms : list Select)
  | MView (name : string) (cols : list string) (scc : string) (tag : nat).

(** [INSERT OR IGNORE INTO datalog_work]: the rows of [i_select] under the number [i_rel]. *)
Record Insert {OX : Oxrdf} := mkInsert {
  i_members : list Member;
  i_rel : nat;
  i_cols : list string;
  i_select : Select;
}.
Arguments mkInsert {OX}.

Record Phase {OX : Oxrdf} := mkPhasePlan { p_rels : list nat; p_seed : list Insert; p_step : list Insert }.
Arguments mkPhasePlan {OX}.

(** The whole statement: columns [v0, v1, …] of one SELECT DISTINCT over the tables. *)
Record Query {OX : Oxrdf} := mkQuery { q_members : list Member; q_select : Select }.
Arguments mkQuery {OX}.

(** ** Printing *)

Definition print_alias (n : nat) : string := "r" +:+ show_nat n.
Definition print_col (c : Col) : string := print_alias (col_alias c) +:+ "." +:+ col_name c.
Definition print_operand (o : Operand) : string :=
  match o with OCol c => print_col c | OId z => show_Z z | ONull => "NULL" end.
Definition print_equality (e : Equality) : string := print_col e.1 +:+ " = " +:+ print_operand e.2.
Definition print_from (s : string * nat) : string := s.1 +:+ " " +:+ print_alias s.2.

Section print.
Context {OX : Oxrdf} {XX : Xxh3} {TD : TermDisplay}.
Context (caps : Capabilities) (run_no : Z).

Definition blank_compiler : Compiler := mkCompiler ∅ ∅ ∅ [] 0.

(** The text of a constraint over the columns its variables are bound to. *)
Definition print_holds (e : Expr) (b : gmap string string) : string :=
  match expr caps e (mkFrame [] [] b) blank_compiler with
  | Ok (v, _) => "(" +:+ Val.as_bool v +:+ ")"
  | Err _ => ""
  end.

Definition print_cond (c : Cond) : string :=
  match c with
  | CEq e => print_equality e
  | CNotExists source al conds =>
      "NOT EXISTS (SELECT 1 FROM " +:+ print_from (source, al) +:+
      where_clause (print_equality <$> conds) +:+ ")"
  | CHolds e b => print_holds e (print_col <$> b)
  end.

Definition print_select (s : Select) : string :=
  "SELECT " +:+ join ", " (print_operand <$> s_projection s) +:+
  match s_from s with
  | [] => where_clause (print_cond <$> s_where s)
  | l => " FROM " +:+ join ", " (print_from <$> l) +:+ where_clause (print_cond <$> s_where s)
  end.

Definition print_member (m : Member) : string :=
  match m with
  | MTable n cols arms =>
      n +:+ "(" +:+ join ", " cols +:+ ") AS (" +:+ LF +:+ join UNION (print_select <$> arms) +:+ LF +:+ ")"
  | MView n cols scc tag =>
      n +:+ "(" +:+ join ", " cols +:+ ") AS (SELECT " +:+ join ", " cols +:+ " FROM " +:+ scc +:+
      " WHERE tag = " +:+ show_nat tag +:+ ")"
  end.

Definition print_insert (i : Insert) : string :=
  prelude_of (print_member <$> i_members i) +:+ "INSERT OR IGNORE INTO datalog_work (run, rel, " +:+
  join ", " (i_cols i) +:+ ") SELECT " +:+ show_Z run_no +:+ ", " +:+ show_nat (i_rel i) +:+
  ", * FROM (" +:+ print_select (i_select i) +:+ ")".

Definition print_goal (s : Select) : string :=
  "SELECT DISTINCT " +:+
  join ", " ((fun io => print_operand io.2 +:+ " AS v" +:+ show_nat io.1) <$> enumerate (s_projection s)) +:+
  " FROM " +:+ join ", " (print_from <$> s_from s) +:+ where_clause (print_cond <$> s_where s).

Definition print_query (q : Query) : string :=
  prelude_of (print_member <$> q_members q) +:+ print_goal (q_select q).
End print.

(** ** Meaning *)

Section meaning.
Context {OX : Oxrdf} (sat : Expr -> (string -> option Z) -> Prop) (run_no : Z).
Implicit Types (db : Db) (ρ : Env) (T : list (option Z) -> Prop).

Definition set_row ρ (n : nat) (r : Row) : Env := fun m => if decide (m = n) then r else ρ m.
Definition set_table db (name : string) (rows : Row -> Prop) : Db :=
  fun s => if decide (s = name) then rows else db s.

Definition col_value ρ (c : Col) : option Z := ρ (col_alias c) (col_name c).
Definition operand_value ρ (o : Operand) : option Z :=
  match o with OCol c => col_value ρ c | OId z => Some z | ONull => None end.

(** [=]: both sides are the same id, neither is NULL. *)
Definition equality_holds ρ (e : Equality) : Prop :=
  exists z, col_value ρ e.1 = Some z /\ operand_value ρ e.2 = Some z.

Definition cond_holds db ρ (c : Cond) : Prop :=
  match c with
  | CEq e => equality_holds ρ e
  | CNotExists source al conds =>
      ~ exists r, db source r /\ Forall (equality_holds (set_row ρ al r)) conds
  | CHolds e b => sat e (fun v => c ← b !! v; col_value ρ c)
  end.

Definition select_rows db (s : Select) (t : list (option Z)) : Prop :=
  exists ρ, Forall (fun f => db f.1 (ρ f.2)) (s_from s) /\ Forall (cond_holds db ρ) (s_where s) /\
    t = operand_value ρ <$> s_projection s.

(** The rows of a table with these columns and these tuples. *)
Definition table (cols : list string) T : Row -> Prop := fun r => T (r <$> cols).

Definition arms_closed db (name : string) (cols : list string) (arms : list Select) T : Prop :=
  forall s t, s ∈ arms -> select_rows (set_table db name (table cols T)) s t -> T t.

Definition member_rows db (name : string) (cols : list string) (arms : list Select) (t : list (option Z)) : Prop :=
  forall T, arms_closed db name cols arms T -> T t.

Definition add_member db (m : Member) : Db :=
  match m with
  | MTable n cols arms => set_table db n (table cols (member_rows db n cols arms))
  | MView n cols scc tag => set_table db n
      (fun r => exists r', db scc r' /\ r' "tag" = Some (Z.of_nat tag) /\ r <$> cols = r' <$> cols)
  end.

Definition with_members db (ms : list Member) : Db := foldl add_member db ms.

(** *** The work table *)

(** The rows of the run, by relation number. *)
Definition Work : Type := nat -> list (option Z) -> Prop.

Definition work_table (W : Work) : Row -> Prop := fun r =>
  exists rel t, W rel t /\ r "run" = Some run_no /\ r "rel" = Some (Z.of_nat rel) /\
    r <$> numbered (length t) = t.

Definition with_work db (W : Work) : Db := set_table db "datalog_work" (work_table W).

Definition insert_closed db (W : Work) (i : Insert) : Prop :=
  forall t, select_rows (with_members (with_work db W) (i_members i)) (i_select i) t -> W (i_rel i) t.

(** The relations [rels] from [S], the others from [W]. *)
Definition overlay (rels : list nat) (W S : Work) : Work := fun rel t =>
  (rel ∈ rels /\ S rel t) \/ ((rel ∉ rels) /\ W rel t).

(** Running a phase: the least contents of its relations closed under its insertions; the
    other relations keep theirs. *)
Definition run_phase db (W : Work) (p : Phase) : Work :=
  overlay (p_rels p) W (fun rel t => forall S : Work,
    (forall i, i ∈ p_seed p ++ p_step p -> insert_closed db (overlay (p_rels p) W S) i) -> S rel t).

Definition empty_work : Work := fun _ _ => False.
Definition run_phases db (ps : list Phase) : Work := foldl (run_phase db) empty_work ps.

(** The rows of the query, once the phases have run. *)
Definition query_rows db (ps : list Phase) (q : Query) (t : list (option Z)) : Prop :=
  select_rows (with_members (with_work db (run_phases db ps)) (q_members q)) (q_select q) t.
End meaning.
