(* ===== verification/SqlText.v ===== *)
(** * Texts of the compiled SQL

    The compiler's monad, split into steps, and the texts it writes: none contains the byte that
    delimits the placeholder of [at] unless a constant does, so that [resolve_at] leaves the
    conditions of a rule without [at] alone; column references are words; compiling an
    expression depends on the bindings of the frame only ([expr_facts]). *)

From S2P Require Export SqlPlan.

(** ** The compiler monad *)

Section comp_lemmas.
Context {OX : Oxrdf}.

Lemma comp_bind_ok {A B} (m : comp A) (f : A -> comp B) k b k' :
  (m ≫= f) k = Ok (b, k') <-> exists a k1, m k = Ok (a, k1) /\ f a k1 = Ok (b, k').
Proof.
  unfold mbind, comp_bind. destruct (m k) as [[a k1]|e]; split; [eauto|naive_solver|done|naive_solver].
Qed.

Lemma comp_fmap_ok {A B} (f : A -> B) (m : comp A) k b k' :
  (f <$> m) k = Ok (b, k') <-> exists a, m k = Ok (a, k') /\ b = f a.
Proof. unfold fmap, comp_fmap. destruct (m k) as [[a k1]|e]; naive_solver. Qed.

Lemma comp_ret_ok {A} (a b : A) k k' : (mret a : comp A) k = Ok (b, k') <-> a = b /\ k = k'.
Proof. unfold mret, comp_ret. naive_solver. Qed.

Lemma get_or_ok {A} (o : option A) e k a k' : get_or o e k = Ok (a, k') <-> o = Some a /\ k = k'.
Proof. destruct o; unfold get_or, mret, comp_ret, refuse; naive_solver. Qed.

Lemma index_ok {A} (o : option A) k a k' : index o k = Ok (a, k') <-> o = Some a /\ k = k'.
Proof. destruct o; unfold index, mret, comp_ret, panic; naive_solver. Qed.

Lemma gets_ok {A} (f : Compiler -> A) k a k' : gets f k = Ok (a, k') <-> a = f k /\ k = k'.
Proof. unfold gets. naive_solver. Qed.

Lemma modify_ok (f : Compiler -> Compiler) k u k' : modify f k = Ok (u, k') <-> u = tt /\ k' = f k.
Proof. unfold modify. destruct u. naive_solver. Qed.

Lemma lift_ok {A} (r : result CompileFault A) k a k' : lift r k = Ok (a, k') <-> r = Ok a /\ k = k'.
Proof. unfold lift. destruct r; naive_solver. Qed.

(** What compiling a rule leaves alone. *)
Definition same_names (k k' : Compiler) : Prop :=
  k_names k' = k_names k /\ k_fixpoint_rel k' = k_fixpoint_rel k.

#[global] Instance same_names_preorder : PreOrder same_names.
Proof. split; [done|]. intros a b c [] []. split; congruence. Qed.
End comp_lemmas.

(** Splits a successful computation into its steps. *)
Ltac inv_comp :=
  repeat match goal with
  | H : (_ ≫= _) _ = Ok (_, _) |- _ => apply comp_bind_ok in H as (? & ? & ? & H)
  | H : (_ <$> _) _ = Ok (_, _) |- _ => apply comp_fmap_ok in H as (? & H & ?)
  | H : (mret _) _ = Ok (_, _) |- _ => apply comp_ret_ok in H as [? ?]
  | H : get_or _ _ _ = Ok (_, _) |- _ => apply get_or_ok in H as [H ?]
  | H : index _ _ = Ok (_, _) |- _ => apply index_ok in H as [H ?]
  | H : gets _ _ = Ok (_, _) |- _ => apply gets_ok in H as [? ?]
  | H : modify _ _ = Ok (_, _) |- _ => apply modify_ok in H as [? ?]
  | H : lift _ _ = Ok (_, _) |- _ => apply lift_ok in H as [H ?]
  | H : (let '(_, _) := ?x in _) _ = Ok (_, _) |- _ => destruct x
  | H : refuse _ _ = Ok _ |- _ => discriminate H
  | H : panic _ _ = Ok _ |- _ => discriminate H
  end; simplify_eq.

(** ** Texts without the delimiter of [at] *)

Definition clean (s : string) : bool := all_chars (fun c => negb (Ascii.eqb c SOH)) s.

Lemma clean_app a b : clean (a +:+ b) = clean a && clean b.
Proof. apply all_chars_app. Qed.

Lemma clean_cons c s : clean (String c s) = negb (Ascii.eqb c SOH) && clean s.
Proof. done. Qed.

Lemma clean_join sep l : clean sep = true -> Forall (fun s => clean s = true) l -> clean (join sep l) = true.
Proof.
  intros Hs Hl. induction Hl as [|x l Hx Hl IH]; [done|]. destruct l as [|y l]; [done|].
  change (join sep (x :: y :: l)) with (x +:+ sep +:+ join sep (y :: l)). by rewrite !clean_app, Hx, Hs, IH.
Qed.

Lemma show_Z_number z : all_chars (fun c => is_ascii_digit c || Ascii.eqb c "-") (show_Z z) = true.
Proof.
  destruct z as [|p|p]; [done| |].
  - eapply all_chars_impl; [|apply (show_Z_digits (Zpos p)); lia]. intros c ->. done.
  - change (show_Z (Zneg p)) with (String "-" (show_Z (Zpos p))). cbn [all_chars].
    eapply all_chars_impl; [|apply (show_Z_digits (Zpos p)); lia]. intros c ->. done.
Qed.

(** The characters of a column reference. *)
Definition word_char (c : ascii) : bool := is_ascii_alphanumeric c || existsb (Ascii.eqb c) ["."; "-"; "_"]%char.
Definition word (s : string) : bool := all_chars word_char s.

Lemma word_app a b : word (a +:+ b) = word a && word b.
Proof. apply all_chars_app. Qed.

Lemma show_Z_word z : word (show_Z z) = true.
Proof.
  eapply all_chars_impl; [|apply show_Z_number]. intros c. unfold word_char, is_ascii_alphanumeric. cbn [existsb].
  destruct (is_ascii_digit c); [by rewrite orb_true_r|]. cbn. intros ->. by rewrite !orb_true_r.
Qed.

Lemma word_char_not (c d : ascii) : word_char d = false -> word_char c = true -> Ascii.eqb c d = false.
Proof. intros Hd Hc. apply Ascii.eqb_neq. intros ->. congruence. Qed.

Lemma word_clean s : word s = true -> clean s = true.
Proof. apply all_chars_impl. intros c Hc. by rewrite (word_char_not c SOH). Qed.

Lemma show_Z_clean z : clean (show_Z z) = true.
Proof. apply word_clean, show_Z_word. Qed.

Lemma show_nat_word n : word (show_nat n) = true.
Proof. apply show_Z_word. Qed.

Lemma show_nat_inj m n : show_nat m = show_nat n -> m = n.
Proof. unfold show_nat, show_Z. intros ?%(inj pretty). lia. Qed.

Lemma find_str_clean w p : clean w = true -> find_str w (String SOH p) = None.
Proof.
  induction w as [|c w IH]; [done|]. cbn [clean all_chars find_str starts_with].
  intros [Hc Hw]%andb_true_iff. apply negb_true_iff in Hc. rewrite Ascii.eqb_sym, Hc. cbn [andb]. by rewrite IH.
Qed.

Lemma resolve_where_clean n b w : clean w = true -> resolve_where n b w = Ok w.
Proof. intros Hw. destruct n; cbn [resolve_where]; by rewrite find_str_clean. Qed.

Lemma resolve_at_clean f : Forall (fun w => clean w = true) (wheres f) -> resolve_at f = Ok f.
Proof.
  intros Hf. unfold resolve_at.
  assert (try_map (fun w => resolve_where (String.length w) (binding f) w) (wheres f) = Ok (wheres f)) as ->.
  { apply try_map_ok. induction Hf as [|w l Hw _ IH]; constructor; [by apply resolve_where_clean|done]. }
  cbn. by destruct f.
Qed.

(** *** Enough fuel for [resolve_where] *)

(** The delimiters in a text. *)
Fixpoint delimiters (s : string) : nat :=
  match s with EmptyString => O | String c s => ((if Ascii.eqb SOH c then 1 else 0) + delimiters s)%nat end.

Lemma delimiters_app a b : delimiters (a +:+ b) = (delimiters a + delimiters b)%nat.
Proof. induction a as [|c a IH]; [done|]. cbn [String.append delimiters]. rewrite IH. lia. Qed.

Lemma delimiters_clean s : clean s = true -> delimiters s = O.
Proof.
  induction s as [|c s IH]; [done|]. cbn [clean all_chars delimiters]. intros [Hc Hs]%andb_true_iff.
  apply negb_true_iff in Hc. rewrite Ascii.eqb_sym, Hc. by apply IH.
Qed.

Lemma delimiters_length s : (delimiters s <= String.length s)%nat.
Proof. induction s as [|c s IH]; [done|]. cbn [delimiters String.length]. destruct (Ascii.eqb SOH c); lia. Qed.

Lemma substring_whole s : String.substring 0 (String.length s) s = s.
Proof. induction s as [|c s IH]; cbn; congruence. Qed.

(** The text before and after the opening of a placeholder. *)
Lemma placeholder_opening w start : find_str w (String SOH "at:") = Some start ->
  delimiters w = S (delimiters (String.substring 0 start w) +
    delimiters (String.substring (start + 4) (String.length w - (start + 4)) w)).
Proof.
  revert start. induction w as [|c w IH]; intros start; cbn [find_str].
  - done.
  - destruct (starts_with (String c w) (String SOH "at:")) eqn:Hw.
    + intros [= <-]. do 3 (destruct w as [|? w]; [by cbn in Hw; rewrite ?andb_false_r in Hw|]).
      cbn [starts_with] in Hw. rewrite !andb_true_iff, !Ascii.eqb_eq in Hw. destruct Hw as (<- & <- & <- & <- & _).
      cbn. by rewrite Nat.sub_0_r, substring_whole.
    + destruct (find_str w _) as [k|] eqn:Hk; [|done]. intros [= <-]. specialize (IH k eq_refl).
      cbn [delimiters Nat.add String.substring String.length Nat.sub]. lia.
Qed.

(** The text before and after the end of a placeholder. *)
Lemma placeholder_end t n : find_byte (Ascii.eqb SOH) t = Some n ->
  delimiters t = S (delimiters (String.substring (n + 1) (String.length t - (n + 1)) t)).
Proof.
  revert n. induction t as [|c t IH]; intros n; cbn [find_byte]; [done|].
  destruct (Ascii.eqb SOH c) eqn:Hc.
  - intros [= <-]. cbn [delimiters Nat.add String.substring String.length Nat.sub]. rewrite Hc, Nat.sub_0_r, substring_whole. done.
  - destruct (find_byte _ t) as [k|] eqn:Hk; [|done]. intros [= <-]. specialize (IH k eq_refl).
    cbn [delimiters Nat.add String.substring String.length Nat.sub]. rewrite Hc. lia.
Qed.

(** The loop ends before its fuel: what it returns holds no placeholder. *)
Lemma resolve_where_ends n b w r : (forall v c, b !! v = Some c -> clean c = true) ->
  (delimiters w <= n)%nat -> resolve_where n b w = Ok r -> find_str r (String SOH "at:") = None.
Proof.
  intros Hb. revert w. induction n as [|n IH]; intros w Hn; cbn [resolve_where];
    destruct (find_str w _) as [start|] eqn:Hw; try by intros [= <-].
  - apply placeholder_opening in Hw. lia.
  - apply placeholder_opening in Hw.
    destruct (find_byte _ _) as [k|] eqn:Hk; [|done]. apply placeholder_end in Hk.
    destruct (b !! _) as [c|] eqn:Hc; [|done]. apply IH. rewrite !delimiters_app.
    rewrite (delimiters_clean c) by eauto. rewrite (delimiters_clean (show_Z _)) by apply show_Z_clean.
    change (delimiters "(") with O. change (delimiters " - ") with O. change (delimiters ")") with O. lia.
Qed.

Corollary resolve_where_enough b w r : (forall v c, b !! v = Some c -> clean c = true) ->
  resolve_where (String.length w) b w = Ok r -> find_str r (String SOH "at:") = None.
Proof. intros Hb. apply resolve_where_ends; [done|apply delimiters_length]. Qed.

(** *** Texts of expressions *)

Lemma all_chars_substring p i n s : all_chars p s = true -> all_chars p (String.substring i n s) = true.
Proof.
  revert i n. induction s as [|c s IH]; intros [|i] [|n]; cbn; try done.
  - intros [Hc Hs]%andb_true_iff. rewrite Hc. cbn. by apply IH.
  - intros [Hc Hs]%andb_true_iff. by apply IH.
  - intros [Hc Hs]%andb_true_iff. by apply IH.
Qed.

Lemma zeros_word n : word (F64.zeros n) = true.
Proof. induction n as [|n IH]; [done|]. exact IH. Qed.

Lemma display_word x : word (F64.display x) = true.
Proof.
  assert (forall b t, word t = true -> word (F64.with_sign b t) = true) as Hs by by intros [] t Ht.
  destruct x as [s|s| |s m e]; cbn; [by apply Hs|by apply Hs|done|].
  destruct (F64.shortest m e) as [[d n] k]. apply Hs. unfold F64.positional.
  destruct (k <=? 0); [by rewrite !word_app, zeros_word, show_Z_word|].
  destruct (k <? n); [|by rewrite !word_app, zeros_word, show_Z_word].
  rewrite !word_app. unfold word at 1 3. rewrite !all_chars_substring by apply show_Z_word. done.
Qed.

Lemma hex_bytes_clean s : clean (hex_bytes s) = true.
Proof.
  assert (forall d, 0 <= d < 16 -> negb (Ascii.eqb (upper_hex_digit d) SOH) = true) as Hd.
  { intros d Hd. assert (d = 0 \/ d = 1 \/ d = 2 \/ d = 3 \/ d = 4 \/ d = 5 \/ d = 6 \/ d = 7 \/ d = 8 \/ d = 9 \/
      d = 10 \/ d = 11 \/ d = 12 \/ d = 13 \/ d = 14 \/ d = 15) by lia. naive_solver. }
  induction s as [|c s IH]; [done|]. cbn [hex_bytes]. rewrite clean_app, IH, andb_true_r.
  unfold hex_byte, clean. cbn [all_chars]. pose proof (byte_val_range c).
  rewrite !Hd; [done|by apply Z.mod_pos_bound|]. split; [apply Z.div_pos; lia|apply Z.div_lt_upper_bound; lia].
Qed.

Lemma sql_string_clean s : clean s = true -> clean (sql_string s) = true.
Proof.
  intros Hs. unfold sql_string, quote_str. destruct (contains_char s (byte_of 0)).
  { by rewrite !clean_app, hex_bytes_clean. }
  rewrite !clean_app. enough (clean (double_quotes s) = true) as -> by done.
  induction s as [|c s IH]; [done|]. cbn [clean all_chars] in Hs. apply andb_true_iff in Hs as [Hc Hs].
  cbn [double_quotes]. destruct (Ascii.eqb c "'"); cbn [clean all_chars]; rewrite Hc; cbn; by apply IH.
Qed.

Definition clean_val (v : Val.t) : Prop :=
  match v with
  | Val.Id s | Val.Num s | Val.Bool s | Val.Text s => clean s = true
  | Val.Const id lex => clean id = true /\ clean lex = true
  end.

Lemma clean_val_texts v : clean_val v ->
  clean (Val.raw v) = true /\ clean (Val.as_num v) = true /\ clean (Val.as_text v) = true /\ clean (Val.as_bool v) = true.
Proof.
  assert (forall s, clean s = true -> clean (numeric s) = true /\ clean (lexical s) = true) as Hn.
  { intros s Hs. unfold numeric, lexical. by rewrite !clean_app, !Hs, !show_Z_clean. }
  destruct v as [s|id lex|s|s|s]; cbn; [intros Hs|intros [Hs Hl]|intros Hs..];
    pose proof (Hn _ Hs) as [? ?]; split_and!; try done; rewrite ?clean_app, ?Hs, ?show_Z_clean; try done.
  by apply sql_string_clean.
Qed.

Section expr_clean.
Context {OX : Oxrdf} {XX : Xxh3} {TD : TermDisplay}.
Context (caps : Capabilities).

Lemma tag_test_clean id t : clean id = true -> clean (tag_test id t) = true.
Proof. intros H. unfold tag_test. by rewrite !clean_app, H, !show_Z_clean. Qed.

(** Knows the arguments of a call, and solves the cleanliness of a text built from them. *)
#[local] Ltac clean_call Ha :=
  inv_bind;
  repeat match goal with
  | E : _ <$> ok_or _ _ = Ok _ |- _ => apply fmap_ok in E as (? & E & ?)
  end; inv_bind;
  repeat match goal with
  | |- context [match ?o with Some _ => _ | None => _ end] => let E := fresh in destruct o eqn:E
  end;
  repeat match goal with
  | E : _ !! _ = Some ?x |- _ =>
      lazymatch goal with
      | _ : clean (Val.raw x) = true |- _ => fail
      | _ => destruct (clean_val_texts x (proj1 (Forall_lookup _ _) Ha _ _ E)) as (? & ? & ? & ?)
      end
  end;
  cbn [clean_val];
  repeat first
    [ rewrite clean_app | rewrite clean_cons
    | match goal with E : clean ?x = true |- context [clean ?x] => rewrite E end
    | rewrite tag_test_clean by done ];
  done.

Lemma call_sql_clean name a v : Forall clean_val a -> call_sql caps name a = Ok v -> clean_val v.
Proof.
  intros Ha H. unfold call_sql in H. cbv zeta in H.
  assert (forall f, (forall x, clean_val x -> clean (f x) = true) -> Forall (fun t => clean t = true) (f <$> a)) as Hmap.
  { intros f Hf. apply Forall_fmap. eapply Forall_impl; [exact Ha|]. exact Hf. }
  repeat match type of H with
  | (if String.eqb name "CONCAT" then _ else _) = _ =>
      destruct (String.eqb name "CONCAT");
      [injection H as <-; cbn [clean_val]; repeat first [rewrite clean_app | rewrite clean_cons];
       rewrite clean_join; [done|done|];
       apply Hmap; intros x Hx; by apply clean_val_texts|]
  | (if String.eqb name "COALESCE" then _ else _) = _ =>
      destruct (String.eqb name "COALESCE");
      [injection H as <-; cbn [clean_val]; repeat first [rewrite clean_app | rewrite clean_cons];
       rewrite clean_join; [done|done|];
       apply Hmap; intros x Hx; by apply clean_val_texts|done]
  | (if String.eqb name "REGEX" then _ else _) = _ =>
      destruct (String.eqb name "REGEX"); [destruct (negb (udf caps)); [done|]; clean_call Ha|]
  | (if ?b then _ else _) = _ => destruct b; [clean_call Ha|]
  end.
Qed.
End expr_clean.

(** *** Expressions *)

Section expr_lemmas.
Context {OX : Oxrdf} {XX : Xxh3} {TD : TermDisplay} (caps : Capabilities).

Lemma register_const_ok t k z k' :
  register_const t k = Ok (z, k') -> z = term_id t /\ k_counter k' = k_counter k /\ same_names k k'.
Proof. unfold register_const. intros H. inv_comp. done. Qed.

(** The constants of the expression do not contain the delimiter of [at]. *)
Fixpoint plain_expr (e : Expr) : bool :=
  match e with
  | EVar _ => true
  | EConst t => clean (lexical_form t)
  | EBinary _ l r => plain_expr l && plain_expr r
  | ENot e | ENeg e => plain_expr e
  | ECall _ es => (fix go es := match es with [] => true | e :: es => plain_expr e && go es end) es
  end.

Lemma plain_call name es : plain_expr (ECall name es) = true <-> Forall (fun e => plain_expr e = true) es.
Proof.
  cbn. induction es as [|e es IH]; [done|]. rewrite Forall_cons, <- IH. by rewrite andb_true_iff.
Qed.

(** What compiling an expression to [v] tells, in a frame and a state. *)
Record expr_fact (e : Expr) (f : Frame) (k : Compiler) (v : Val.t) (k' : Compiler) : Prop := {
  ef_counter : k_counter k' = k_counter k;
  ef_names : same_names k k';
  ef_any f2 k2 : binding f2 = binding f -> exists k2', expr caps e f2 k2 = Ok (v, k2');
  ef_bound x : occurs x e -> is_Some (binding f !! x);
  ef_clean : plain_expr e = true -> (forall x s, binding f !! x = Some s -> clean s = true) -> clean_val v;
}.

Lemma numeric_literal_word t n : numeric_literal t = Some n -> word n = true.
Proof.
  unfold numeric_literal. destruct t as [| |l|]; try done. destruct (numeric_rank _); [|done]. cbn.
  destruct (F64.parse _) as [v|]; [|done]. cbn. intros [= <-].
  destruct (_ && _); [apply show_Z_word|apply display_word].
Qed.

Lemma binary_clean op l r : clean_val l -> clean_val r -> clean_val (binary op l r).
Proof.
  intros (? & ? & ? & ?)%clean_val_texts (? & ? & ? & ?)%clean_val_texts.
  destruct op; unfold binary; cbv zeta; cbn [clean_val]; try (destruct (Val.is_term l && Val.is_term r));
    repeat first
    [ rewrite clean_app | rewrite clean_cons
    | match goal with E : clean ?x = true |- context [clean ?x] => rewrite E end ]; done.
Qed.

Definition call_args (f : Frame) : list Expr -> comp (list Val.t) :=
  fix go es := match es with [] => mret [] | e :: es => x ← expr caps e f; xs ← go es; mret (x :: xs) end.

Lemma call_args_fact es f :
  Forall (fun e => forall k v k', expr caps e f k = Ok (v, k') -> expr_fact e f k v k') es ->
  forall k vs k', call_args f es k = Ok (vs, k') ->
  k_counter k' = k_counter k /\ same_names k k' /\
  (forall f2 k2, binding f2 = binding f -> exists k2', call_args f2 es k2 = Ok (vs, k2')) /\
  (forall e x, e ∈ es -> occurs x e -> is_Some (binding f !! x)) /\
  (Forall (fun e => plain_expr e = true) es -> (forall x s, binding f !! x = Some s -> clean s = true) ->
     Forall clean_val vs).
Proof.
  intros Hes. induction Hes as [|e es He _ IH]; intros k vs k' H; cbn [call_args] in H.
  { inv_comp. split_and!; [done..| |by intros ? ? ?%elem_of_nil|by constructor].
    intros f2 k2 _. by eexists. }
  inv_comp. match goal with E : expr _ _ _ _ = _ |- _ => destruct (He _ _ _ E) as [Hc1 Hn1 Ha1 Hb1 Hl1] end.
  match goal with E : call_args _ _ _ = _ |- _ => destruct (IH _ _ _ E) as (Hc2 & Hn2 & Ha2 & Hb2 & Hl2) end.
  split_and!; [congruence|by etrans|..].
  - intros f2 k2 Hf. destruct (Ha1 f2 k2 Hf) as [k3 E1]. destruct (Ha2 f2 k3 Hf) as [k4 E2].
    exists k4. cbn [call_args]. apply comp_bind_ok. eexists _, _. split; [exact E1|].
    apply comp_bind_ok. eexists _, _. split; [exact E2|]. done.
  - intros e' y [-> | ?]%elem_of_cons Hy; [by apply Hb1|by eapply Hb2].
  - intros [Hp1 Hp2]%Forall_cons Hf. constructor; [by apply Hl1|by apply Hl2].
Qed.

Lemma expr_facts e f k v k' : expr caps e f k = Ok (v, k') -> expr_fact e f k v k'.
Proof.
  revert k v k'. induction e as [x|t|op l r IHl IHr|e IH|e IH|name es IH] using expr_induction; intros k v k' H.
  - cbn [expr] in H. inv_comp. constructor; [done..| | |].
    + intros f2 k2 Hf. exists k2. cbn [expr]. rewrite Hf, H. done.
    + intros y ->. rewrite H. by eexists.
    + intros _ Hf. cbn. by eapply Hf.
  - cbn [expr] in H. destruct (numeric_literal t) as [n|] eqn:Hn.
    + inv_comp. constructor; [done..| |done|].
      * intros f2 k2 _. exists k2. cbn [expr]. by rewrite Hn.
      * intros _ _. cbn. by apply word_clean, (numeric_literal_word t).
    + inv_comp. match goal with E : register_const _ _ = _ |- _ => apply register_const_ok in E as (-> & Hc & Hs) end.
      constructor; [done|done| |done|].
      * intros f2 k2 _. eexists. cbn [expr]. rewrite Hn. done.
      * intros Hp _. cbn in *. by rewrite show_Z_clean.
  - cbn [expr] in H. inv_comp.
    match goal with E : expr _ l _ _ = _ |- _ => destruct (IHl _ _ _ E) as [Hc1 Hn1 Ha1 Hb1 Hl1] end.
    match goal with E : expr _ r _ _ = _ |- _ => destruct (IHr _ _ _ E) as [Hc2 Hn2 Ha2 Hb2 Hl2] end.
    constructor; [congruence|by etrans|..].
    + intros f2 k2 Hf. destruct (Ha1 f2 k2 Hf) as [k3 E1]. destruct (Ha2 f2 k3 Hf) as [k4 E2].
      exists k4. cbn [expr]. apply comp_bind_ok. eexists _, _. split; [exact E1|].
      apply comp_bind_ok. eexists _, _. split; [exact E2|]. done.
    + intros y [Hy|Hy]; [by apply Hb1|by apply Hb2].
    + cbn [plain_expr]. intros [Hp1 Hp2]%andb_true_iff Hf. apply binary_clean; [by apply Hl1|by apply Hl2].
  - cbn [expr] in H. inv_comp.
    match goal with E : expr _ e _ _ = _ |- _ => destruct (IH _ _ _ E) as [Hc1 Hn1 Ha1 Hb1 Hl1] end.
    constructor; [done|done| |done|].
    + intros f2 k2 Hf. destruct (Ha1 f2 k2 Hf) as [k3 E1]. exists k3. cbn [expr].
      apply comp_bind_ok. eexists _, _. split; [exact E1|]. done.
    + intros Hp Hf. destruct (clean_val_texts _ (Hl1 Hp Hf)) as (? & ? & ? & E4). cbn [clean_val]. by rewrite !clean_app, E4.
  - cbn [expr] in H. inv_comp.
    match goal with E : expr _ e _ _ = _ |- _ => destruct (IH _ _ _ E) as [Hc1 Hn1 Ha1 Hb1 Hl1] end.
    constructor; [done|done| |done|].
    + intros f2 k2 Hf. destruct (Ha1 f2 k2 Hf) as [k3 E1]. exists k3. cbn [expr].
      apply comp_bind_ok. eexists _, _. split; [exact E1|]. done.
    + intros Hp Hf. destruct (clean_val_texts _ (Hl1 Hp Hf)) as (? & E2 & ? & ?). cbn [clean_val]. by rewrite !clean_app, E2.
  - change (expr caps (ECall name es) f) with
      (a ← call_args f es; lift (map_err Refused (call_sql caps name a))) in H. inv_comp.
    match goal with E : call_args _ _ _ = _ |- _ =>
      destruct (call_args_fact es f (Forall_impl _ _ _ IH (fun e He k v k' => He k v k')) _ _ _ E) as (Hc & Hn & Ha & Hb & Hl)
    end.
    destruct (call_sql caps name x) as [w|] eqn:Hcall; cbn [map_err] in *; simplify_eq.
    constructor; [done|done|..].
    + intros f2 k2 Hf. destruct (Ha f2 k2 Hf) as [k3 E1]. exists k3.
      change (expr caps (ECall name es) f2) with
        (a ← call_args f2 es; lift (map_err Refused (call_sql caps name a))).
      apply comp_bind_ok. eexists _, _. split; [exact E1|]. by rewrite Hcall.
    + intros y Hy. cbn in Hy. clear -Hy Hb. induction es as [|e es IHes]; [done|]. destruct Hy as [Hy|Hy].
      * apply (Hb e); [by left|done].
      * apply IHes; [|done]. intros e' z He'. apply Hb. by right.
    + intros Hp Hf. eapply call_sql_clean; [|exact Hcall]. apply Hl; [by apply plain_call in Hp|done].
Qed.
End expr_lemmas.
