(* ===== verification/SqlRule.v ===== *)
(** * The SELECT of a rule derives what the rule derives

    Compiling a rule (or the goal) prints a SELECT of [SqlPlan]; in a database that represents
    an interpretation of the predicates the rule reads, its rows are the tuples the rule
    derives ([rule_select_plan]). The fragment is the rules without aggregates, [at], history
    or vector atoms ([plain_rule]); a constraint may be any expression. *)

From S2P Require Export SqlText.

(** ** Sources *)

(** The source of an atom: its table, its columns, and the columns it fixes. *)
Record PSource := mkPSource { ps_source : string; ps_cols : list string; ps_extra : list (string * Z) }.

Definition extra_holds (r : Row) (l : list (string * Z)) : Prop := Forall (fun cz => r cz.1 = Some cz.2) l.

(** The rows of the source are the tuples of a relation. *)
Record means_source (db : Db) (R : list Z -> Prop) (s : PSource) : Prop := {
  ms_rows tup : length tup = length (ps_cols s) ->
    R tup <-> exists r, db (ps_source s) r /\ extra_holds r (ps_extra s) /\ r <$> ps_cols s = Some <$> tup;
  ms_not_null r : db (ps_source s) r -> extra_holds r (ps_extra s) ->
    exists tup, r <$> ps_cols s = Some <$> tup;
}.

(** Every tuple of the relation is among the rows. *)
Definition has_rows (db : Db) (R : list Z -> Prop) (s : PSource) : Prop :=
  forall tup, length tup = length (ps_cols s) -> R tup ->
  exists r, db (ps_source s) r /\ extra_holds r (ps_extra s) /\ r <$> ps_cols s = Some <$> tup.

Lemma means_has_rows db R s : means_source db R s -> has_rows db R s.
Proof. intros [Hrows _] tup Hlen HR. by apply Hrows. Qed.

Section rule.
Context {OX : Oxrdf} {XX : Xxh3} {SD : StrDebug} {TD : TermDisplay} {LC : Lowercase}.
Context (program : Program) (analysis : Analysis) (caps : Capabilities) (options : Options) (run_no : Z).
Context (names : gmap Pred string) (rels : gmap Pred nat) (scc : option SccCtx).
Implicit Types (k : Compiler) (a : Atom).

Definition at_names k : Prop := k_names k = names /\ k_fixpoint_rel k = rels.

(** [s] is the source the compiler picks for a predicate, at the current names. *)
Definition plan_source (p : Pred) (nargs : nat) : option PSource :=
  if is_derived analysis p then
    let cols := numbered (arity_of analysis p) in
    match rels !! p with
    | Some rel => Some (mkPSource "datalog_work" cols [("run", run_no); ("rel", Z.of_nat rel)])
    | None =>
        match (match scc with Some (n, s) => t ← position p (preds s); Some (n, t) | None => None end) with
        | Some (n, t) => Some (mkPSource n cols [("tag", Z.of_nat t)])
        | None => n ← names !! p; Some (mkPSource n cols [])
        end
    end
  else
    let dg := if o_union_default_graph options then [] else [("g", 0)] in
    match p with
    | Edb iri =>
        let unary := (nargs =? 1)%nat in
        Some (mkPSource (quad_source options) (if unary then ["s"] else ["s"; "o"])
          ((if unary then [("p", rdf_type_id); ("o", named_node_id iri)] else [("p", named_node_id iri)]) ++ dg))
    | PTriple graph => Some (mkPSource (quad_source options) (["s"; "p"; "o"] ++ if graph then ["g"] else [])
                         (if graph then [] else dg))
    | _ => None
    end.

(** An atom of the fragment. *)
Definition plain_atom a : Prop :=
  at_ a = None /\ (is_derived analysis (pred a) = true \/ match pred a with Edb _ | PTriple _ => True | _ => False end).

Definition print_extra (al : string) (cz : string * Z) : string := al +:+ "." +:+ cz.1 +:+ " = " +:+ show_Z cz.2.

Lemma source_of_plan a al k src cols extra k' :
  at_names k -> plain_atom a ->
  source_of analysis caps options run_no a al scc k = Ok ((src, cols, extra), k') ->
  exists s, plan_source (pred a) (length (args a)) = Some s /\ src = ps_source s /\ cols = ps_cols s /\
    extra = print_extra al <$> ps_extra s /\ k_counter k' = k_counter k /\ same_names k k'.
Proof.
  intros Hk [Hat Hp] H. unfold source_of in H. unfold plan_source.
  destruct (is_derived analysis (pred a)).
  { inv_comp. rewrite (proj2 Hk) in *. destruct (rels !! pred a) as [rel|]; [inv_comp; eexists; by split_and!|].
    destruct (match scc with Some _ => _ | None => _ end) as [[n t]|]; inv_comp; [eexists; by split_and!|].
    rewrite (proj1 Hk) in *. match goal with E : names !! _ = _ |- _ => rewrite E end. eexists. by split_and!. }
  destruct Hp as [|Hp]; [done|]. unfold atom_source in H. rewrite Hat in H.
  destruct (pred a) as [iri| |graph| |]; try done.
  - inv_comp. apply register_const_ok in H0 as (-> & Hc & Hs). unfold default_graph_only.
    eexists. split; [done|]. split_and!; [done|by destruct (_ =? _)%nat| |done|done].
    rewrite app_nil_r. by destruct (_ =? _)%nat, (o_union_default_graph options).
  - inv_comp. unfold default_graph_only. eexists. split; [done|]. split_and!; [done|done| |done|done].
    rewrite app_nil_r. by destruct graph, (o_union_default_graph options).
Qed.

Lemma quad_source_clean : clean (quad_source options) = true.
Proof.
  unfold quad_source. destruct (o_as_of_tick options) as [t|]; [|by destruct (o_include_inferred options)].
  unfold as_of_sql. by rewrite !clean_app, show_Z_clean.
Qed.
(** ** Frames *)

(** What a rule body has bound, before printing. *)
Record PFrame := mkPFrame { pf_from : list (string * nat); pf_where : list Cond; pf_bind : gmap string Col }.

Definition print_frame (pf : PFrame) : Frame :=
  mkFrame (print_from <$> pf_from pf) (print_cond caps <$> pf_where pf) (print_col <$> pf_bind pf).

Context (sat : Expr -> (string -> option Z) -> Prop).
Context (sat_ext : forall e f g, (forall v, occurs v e -> f v = g v) -> sat e f -> sat e g).

(** The assignment gives the bound variables the values of their columns. *)
Definition agrees (ρ : Env) (b : gmap string Col) (θ : Assign) : Prop :=
  forall v c, b !! v = Some c -> col_value ρ c = Some (θ v).

(** The arguments [l], by position, match the current row of the alias [n]. *)
Definition row_matches (ρ : Env) (θ : Assign) (n : nat) (cols : list string) (l : list (nat * Arg)) : Prop :=
  forall i arg, (i, arg) ∈ l -> exists c z, cols !! i = Some c /\ ρ n c = Some z /\ arg_matches θ arg z.

(** A condition on the row of [n], with bound columns or ids on the other side. *)
Definition equality_of (n : nat) (cols : list string) (b : gmap string Col) (e : Equality) : Prop :=
  col_alias e.1 = n /\ col_name e.1 ∈ cols /\
  match e.2 with OCol c => exists v, b !! v = Some c | OId _ => True | ONull => False end.

(** What the arguments of an atom add to a frame: bindings [b'] and conditions [new]. *)
Record args_plan (n : nat) (cols : list string) (l : list (nat * Arg)) (b b' : gmap string Col) (new : list Equality)
  : Prop := {
  ap_sub : b ⊆ b';
  ap_dom v : is_Some (b' !! v) <-> is_Some (b !! v) \/ exists i, (i, ArgVar v) ∈ l;
  ap_new v c : b' !! v = Some c -> b !! v = Some c \/ (col_alias c = n /\ col_name c ∈ cols);
  ap_conds : Forall (equality_of n cols b') new;
  ap_sound ρ θ : agrees ρ b' θ -> Forall (fun c => is_Some (ρ n c)) cols -> Forall (equality_holds ρ) new ->
    row_matches ρ θ n cols l;
  ap_complete ρ θ : agrees ρ b θ -> row_matches ρ θ n cols l -> agrees ρ b' θ /\ Forall (equality_holds ρ) new;
}.

Lemma row_matches_cons ρ θ n cols i arg l :
  row_matches ρ θ n cols ((i, arg) :: l) <->
  (exists c z, cols !! i = Some c /\ ρ n c = Some z /\ arg_matches θ arg z) /\ row_matches ρ θ n cols l.
Proof.
  unfold row_matches. setoid_rewrite elem_of_cons. split.
  - intros H. split; [|intros; apply H; by right]. apply (H i arg). by left.
  - intros [H1 H2] j x [[= -> ->]|Hin]; [done|by apply H2].
Qed.

(** One more argument in front. *)
Lemma args_plan_cons n cols i arg l b b1 b2 new1 new2 c :
  cols !! i = Some c ->
  b ⊆ b1 ->
  (forall v, is_Some (b1 !! v) <-> is_Some (b !! v) \/ arg = ArgVar v) ->
  (forall v d, b1 !! v = Some d -> b !! v = Some d \/ (col_alias d = n /\ col_name d ∈ cols)) ->
  Forall (equality_of n cols b1) new1 ->
  (forall ρ θ z, agrees ρ b1 θ -> Forall (equality_holds ρ) new1 -> ρ n c = Some z -> arg_matches θ arg z) ->
  (forall ρ θ z, agrees ρ b θ -> ρ n c = Some z -> arg_matches θ arg z ->
     agrees ρ b1 θ /\ Forall (equality_holds ρ) new1) ->
  args_plan n cols l b1 b2 new2 ->
  args_plan n cols ((i, arg) :: l) b b2 (new1 ++ new2).
Proof.
  intros Hc Hsub Hdom Hnew Hconds Hs Hcm [Psub Pdom Pnew Pconds Ps Pcm]. constructor.
  - by etrans.
  - intros v. rewrite Pdom, Hdom. setoid_rewrite elem_of_cons. split; [naive_solver|].
    intros [?|(j & [[= _ ->]|?])]; naive_solver.
  - intros v d [Hd|?]%Pnew; [by apply Hnew|by right].
  - apply Forall_app. split; [|done]. eapply Forall_impl; [exact Hconds|]. intros [x [d|z|]] (? & ? & He); cbn in *; [|done..].
    split_and!; [done|done|]. destruct He as [v Hv]. exists v. by eapply lookup_weaken.
  - intros ρ θ Ha Hrow [H1 H2]%Forall_app. apply row_matches_cons. split; [|by apply Ps].
    pose proof (proj1 (Forall_forall _ _) Hrow c (list_elem_of_lookup_2 _ _ _ Hc)) as [z Hz].
    exists c, z. split_and!; [done|done|]. eapply (Hs ρ); [|done|done]. intros v d Hd. apply Ha. by eapply lookup_weaken.
  - intros ρ θ Ha [(c' & z & Hc' & Hz & Hm) Hl]%row_matches_cons. simplify_eq.
    destruct (Hcm ρ θ z Ha Hz Hm) as [Ha1 H1]. destruct (Pcm ρ θ Ha1 Hl) as [Ha2 H2].
    split; [done|]. by apply Forall_app.
Qed.

Lemma bind_args_plan n cols l pf k f' k' :
  foldC (bind_arg (print_alias n) cols) (print_frame pf) l k = Ok (f', k') ->
  exists pf' new, f' = print_frame pf' /\ pf_from pf' = pf_from pf /\
    pf_where pf' = pf_where pf ++ (CEq <$> new) /\ args_plan n cols l (pf_bind pf) (pf_bind pf') new /\
    k_counter k' = k_counter k /\ same_names k k'.
Proof.
  revert pf k. induction l as [|[i arg] l IH]; intros pf k H; cbn [foldC] in H.
  { inv_comp. exists pf, []. rewrite app_nil_r. split_and!; [done..| |done|done].
    constructor; try done.
    - intros v. split; [by left|]. by intros [?|[? ?%elem_of_nil]].
    - intros v c ?. by left.
    - intros ρ θ _ _ _ i arg ?%elem_of_nil. done. }
  inv_comp. unfold bind_arg in H0. cbn [fst snd] in H0. inv_comp.
  rename x1 into c. destruct arg as [v| |t].
  - inv_comp. cbn [print_frame binding] in H. rewrite lookup_fmap in H.
    destruct (pf_bind pf !! v) as [prev|] eqn:Hv; cbn [fmap option_fmap option_map] in H.
    + set (e := (mkCol n c, OCol prev)).
      replace (push_wheres _ _) with (print_frame (mkPFrame (pf_from pf) (pf_where pf ++ [CEq e]) (pf_bind pf))) in H
        by (unfold push_wheres, print_frame; cbn; by rewrite fmap_app).
      apply IH in H as (pf' & new & -> & Hf & Hw & Hp & Hk & Hn). exists pf', (e :: new). cbn in Hf, Hw, Hp.
      split_and!; [done|done|by rewrite Hw, <- app_assoc| |done|done].
      eapply (args_plan_cons n cols i (ArgVar v) l (pf_bind pf) (pf_bind pf) _ [e] new); [done|done|..|exact Hp].
      * intros w. split; [by left|]. intros [?|[= <-]]; [done|by eexists].
      * intros w d ?. by left.
      * constructor; [|done]. split_and!; [done|by eapply list_elem_of_lookup_2|]. by exists v.
      * intros ρ θ z Ha [(y & Hy1 & Hy2) _]%Forall_cons Hz. cbn in *. rewrite (Ha v prev Hv) in Hy2.
        unfold col_value in Hy1. cbn in Hy1. congruence.
      * intros ρ θ z Ha Hz ->. split; [done|]. constructor; [|done]. exists (θ v). cbn. split; [done|by apply Ha].
    + replace (bind_var _ _ _) with (print_frame (mkPFrame (pf_from pf) (pf_where pf) (<[v := mkCol n c]> (pf_bind pf)))) in H
        by (unfold bind_var, print_frame; cbn; by rewrite fmap_insert).
      apply IH in H as (pf' & new & -> & Hf & Hw & Hp & Hk & Hn). exists pf', new. cbn in Hf, Hw, Hp.
      split_and!; [done|done|done| |done|done].
      eapply (args_plan_cons n cols i (ArgVar v) l (pf_bind pf) _ _ [] new); [done| | | | | | |exact Hp].
      * by apply insert_subseteq.
      * intros w. rewrite lookup_insert_is_Some'. split; [intros [->|?]; [by right|by left]|].
        intros [?|[= <-]]; [by right|by left].
      * intros w d [[<- <-]|[? ?]]%lookup_insert_Some; [|by left]. right. split; [done|by eapply list_elem_of_lookup_2].
      * done.
      * intros ρ θ z Ha _ Hz. specialize (Ha v (mkCol n c)). rewrite lookup_insert_eq in Ha.
        specialize (Ha eq_refl). unfold col_value in Ha. cbn in *. congruence.
      * intros ρ θ z Ha Hz ->. split; [|done]. intros w d [[<- <-]|[? ?]]%lookup_insert_Some; [done|by apply Ha].
  - inv_comp. apply IH in H as (pf' & new & -> & Hf & Hw & Hp & Hk & Hn). exists pf', new.
    split_and!; [done|done|done| |done|done].
    eapply (args_plan_cons n cols i Wildcard l (pf_bind pf) _ _ [] new); [done|done| | | | | |exact Hp]; try done.
    + intros w. split; [by left|]. by intros [?|?].
    + intros w d ?. by left.
  - inv_comp. match goal with E : register_const _ _ = _ |- _ => apply register_const_ok in E as (-> & Hk0 & Hn0) end.
    set (e := (mkCol n c, OId (term_id t))).
    replace (push_wheres _ _) with (print_frame (mkPFrame (pf_from pf) (pf_where pf ++ [CEq e]) (pf_bind pf))) in H
      by (unfold push_wheres, print_frame; cbn; by rewrite fmap_app).
    apply IH in H as (pf' & new & -> & Hf & Hw & Hp & Hk & Hn). exists pf', (e :: new). cbn in Hf, Hw, Hp.
    split_and!; [done|done|by rewrite Hw, <- app_assoc| |congruence|by etrans].
    eapply (args_plan_cons n cols i (ArgConst t) l (pf_bind pf) (pf_bind pf) _ [e] new); [done|done|..|exact Hp].
    + intros w. split; [by left|]. by intros [?|?].
    + intros w d ?. by left.
    + constructor; [|done]. split_and!; [done|by eapply list_elem_of_lookup_2|done].
    + intros ρ θ z Ha [(y & Hy1 & Hy2) _]%Forall_cons Hz. cbn in *. unfold col_value in Hy1. cbn in Hy1. congruence.
    + intros ρ θ z Ha Hz ->. split; [done|]. constructor; [|done]. exists (term_id t). done.
Qed.

(** *** One atom *)

Lemma set_row_eq ρ n r : set_row ρ n r n = r.
Proof. unfold set_row. by rewrite decide_True. Qed.
Lemma set_row_ne ρ n m r : m <> n -> set_row ρ n r m = ρ m.
Proof. intros ?. unfold set_row. by rewrite decide_False. Qed.

Lemma elem_of_enumerate {A} (l : list A) i x : (i, x) ∈ enumerate l <-> l !! i = Some x.
Proof.
  unfold enumerate. rewrite list_elem_of_lookup. split.
  - intros [j Hj]. apply lookup_zip_Some in Hj as [Hj Hx]. apply lookup_seq in Hj as [-> _]. done.
  - intros Hx. exists i. apply lookup_zip_Some. split; [|done]. apply lookup_seq. split; [done|by eapply lookup_lt_Some].
Qed.

Lemma row_not_null (r : Row) cols (tup : list Z) :
  r <$> cols = Some <$> tup -> Forall (fun c => is_Some (r c)) cols.
Proof.
  intros Hr. apply Forall_lookup. intros i c Hc. assert ((r <$> cols) !! i = (Some <$> tup) !! i) as E by by rewrite Hr.
  rewrite !list_lookup_fmap, Hc in E. cbn in E. destruct (tup !! i); naive_solver.
Qed.

Lemma row_matches_tuple ρ θ n cols tup l :
  ρ n <$> cols = Some <$> tup -> length l = length cols ->
  row_matches ρ θ n cols (enumerate l) <-> Forall2 (arg_matches θ) l tup.
Proof.
  intros Hr Hlen. assert (forall i c z, cols !! i = Some c -> ρ n c = Some z <-> tup !! i = Some z) as Hi.
  { intros i c z Hc. assert ((ρ n <$> cols) !! i = (Some <$> tup) !! i) as E by by rewrite Hr.
    rewrite !list_lookup_fmap, Hc in E. cbn in E. destruct (tup !! i); naive_solver. }
  assert (length tup = length cols) as Ht by (apply (f_equal length) in Hr; by rewrite !length_fmap in Hr).
  unfold row_matches. setoid_rewrite elem_of_enumerate. rewrite Forall2_same_length_lookup. split.
  - intros H. split; [lia|]. intros i x z Hx Hz. destruct (H i x Hx) as (c & z' & Hc & Hz' & Hm).
    apply (Hi i c z' Hc) in Hz'. by simplify_eq.
  - intros [_ H] i x Hx. destruct (lookup_lt_is_Some_2 cols i) as [c Hc]; [rewrite <- Hlen; by eapply lookup_lt_Some|].
    destruct (lookup_lt_is_Some_2 tup i) as [z Hz]; [rewrite Ht, <- Hlen; by eapply lookup_lt_Some|].
    exists c, z. split_and!; [done|by apply (Hi i c)|by eapply H].
Qed.

(** The truth of a condition depends on the rows of the aliases up to [N]. *)
Definition cond_stable (N : nat) (c : Cond) : Prop :=
  forall db ρ ρ', (forall n, (n <= N)%nat -> ρ n = ρ' n) -> cond_holds sat db ρ c -> cond_holds sat db ρ' c.

Record frame_shape (N : nat) (L : list Atom) (pf : PFrame) : Prop := {
  fs_from : Forall (fun f => (f.2 <= N)%nat) (pf_from pf);
  fs_stable : Forall (cond_stable N) (pf_where pf);
  fs_clean : Forall (fun c => clean (print_cond caps c) = true) (pf_where pf);
  fs_bind v c : pf_bind pf !! v = Some c -> (col_alias c <= N)%nat /\ word (col_name c) = true;
  fs_dom v : is_Some (pf_bind pf !! v) <-> exists a, a ∈ L /\ ArgVar v ∈ args a;
  fs_length : length (pf_from pf) = length L;
  fs_empty : L = [] -> pf_where pf = [];
}.

Definition frame_sol (db : Db) (ρ : Env) (pf : PFrame) : Prop :=
  Forall (fun f => db f.1 (ρ f.2)) (pf_from pf) /\ Forall (cond_holds sat db ρ) (pf_where pf).

(** The solutions of the frame are assignments that satisfy the atoms [L]; every such
    assignment is one of its solutions. *)
Record frame_sound (db : Db) (I : Interp) (L : list Atom) (pf : PFrame) : Prop := {
  fm_bound ρ v c : frame_sol db ρ pf -> pf_bind pf !! v = Some c -> is_Some (col_value ρ c);
  fm_sound ρ θ : frame_sol db ρ pf -> agrees ρ (pf_bind pf) θ -> Forall (atom_holds I θ) L;
}.
Definition frame_complete (db : Db) (I : Interp) (L : list Atom) (pf : PFrame) : Prop :=
  forall θ, Forall (atom_holds I θ) L -> exists ρ, frame_sol db ρ pf /\ agrees ρ (pf_bind pf) θ.

Definition extra_equality (n : nat) (cz : string * Z) : Equality := (mkCol n cz.1, OId cz.2).

Lemma print_extra_equality n cz : print_extra (print_alias n) cz = print_equality (extra_equality n cz).
Proof. unfold print_extra, print_equality, print_col. cbn [extra_equality fst snd col_alias col_name print_operand]. by rewrite <- !string_app_assoc. Qed.

Lemma extra_equalities ρ n l :
  Forall (equality_holds ρ) (extra_equality n <$> l) <-> extra_holds (ρ n) l.
Proof.
  unfold extra_holds. rewrite Forall_fmap. apply Forall_iff. intros [c z]. unfold equality_holds, col_value. cbn.
  split; [naive_solver|by exists z].
Qed.

Lemma equality_stable N ρ ρ' e :
  (forall n, (n <= N)%nat -> ρ n = ρ' n) -> (col_alias e.1 <= N)%nat ->
  match e.2 with OCol c => (col_alias c <= N)%nat | _ => True end ->
  equality_holds ρ e -> equality_holds ρ' e.
Proof.
  intros Hρ H1 H2 (z & Hz & Hz'). exists z. unfold col_value in *. rewrite <- Hρ by done. split; [done|].
  destruct e.2; cbn in *; [|done..]. unfold col_value in *. by rewrite <- Hρ.
Qed.

Lemma alias_ok k al k' :
  alias k = Ok (al, k') -> al = print_alias (S (k_counter k)) /\ k_counter k' = S (k_counter k) /\ same_names k k'.
Proof. unfold alias. intros H. inv_comp. done. Qed.

Lemma numbered_words n : Forall (fun c => word c = true) (numbered n).
Proof. unfold numbered. apply Forall_fmap, Forall_true. intros i. cbn. apply show_nat_word. Qed.

Lemma plan_source_words p n s :
  plan_source p n = Some s ->
  Forall (fun c => word c = true) (ps_cols s) /\ Forall (fun cz => word cz.1 = true) (ps_extra s).
Proof.
  unfold plan_source. destruct (is_derived analysis p).
  { pose proof (numbered_words (arity_of analysis p)) as Hw.
    destruct (rels !! p); [intros [= <-]; cbn; by repeat constructor|].
    destruct (match scc with Some _ => _ | None => _ end) as [[m t]|]; [intros [= <-]; cbn; by repeat constructor|].
    destruct (names !! p); intros [= <-]; cbn; by repeat constructor. }
  destruct p as [iri| |[]| |]; [|done|..|done|done]; intros [= <-]; cbn;
    destruct (o_union_default_graph options), (n =? 1)%nat; cbn; split; by repeat constructor.
Qed.

Lemma word_equality n cols b e :
  Forall (fun c => word c = true) cols -> (forall v c, b !! v = Some c -> word (col_name c) = true) ->
  equality_of n cols b e -> clean (print_equality e) = true.
Proof.
  intros Hcols Hb (_ & H1 & H2). pose proof (proj1 (Forall_forall _ _) Hcols _ H1) as Hw.
  assert (forall c, word (col_name c) = true -> clean (print_col c) = true) as Hc.
  { intros c Hc. apply word_clean. unfold print_col, print_alias. by rewrite !word_app, show_nat_word, Hc. }
  unfold print_equality. rewrite !clean_app, (Hc _ Hw). cbn [andb]. destruct e.2 as [c|z|]; [|apply show_Z_clean|done].
  destruct H2 as [v Hv]. apply Hc. by eapply Hb.
Qed.

Lemma extra_clean n cz : word cz.1 = true -> clean (print_equality (extra_equality n cz)) = true.
Proof.
  intros Hc. unfold print_equality, print_col, print_alias, extra_equality. cbn [fst snd col_alias col_name print_operand].
  by rewrite !clean_app, show_Z_clean, (word_clean (show_nat _)), (word_clean cz.1) by (done || apply show_nat_word).
Qed.

(** The shape after an atom: its source under the next alias, its conditions and bindings. *)
Lemma atom_shape N L pf a s b' new :
  frame_shape N L pf ->
  Forall (fun c => word c = true) (ps_cols s) -> Forall (fun cz => word cz.1 = true) (ps_extra s) ->
  args_plan (S N) (ps_cols s) (enumerate (args a)) (pf_bind pf) b' new ->
  frame_shape (S N) (L ++ [a])
    (mkPFrame (pf_from pf ++ [(ps_source s, S N)])
       (pf_where pf ++ (CEq <$> (extra_equality (S N) <$> ps_extra s)) ++ (CEq <$> new)) b').
Proof.
  intros [Hf Hst Hcl Hb Hd Hl _] Hcols Hextra [Psub Pdom Pnew Pconds _ _].
  assert (forall v c, b' !! v = Some c -> (col_alias c <= S N)%nat /\ word (col_name c) = true) as Hb'.
  { intros v c [Hc|[-> Hc]]%Pnew; [destruct (Hb v c Hc); split; [lia|done]|].
    split; [lia|]. by apply (proj1 (Forall_forall _ _) Hcols). }
  constructor; cbn.
  - apply Forall_app. split; [|by repeat constructor]. eapply Forall_impl; [exact Hf|]. cbn. lia.
  - rewrite !Forall_app, !Forall_fmap. split_and!.
    + eapply Forall_impl; [exact Hst|]. intros c Hc db ρ ρ' Hρ. apply Hc. intros n Hn. apply Hρ. lia.
    + apply Forall_true. intros cz db ρ ρ' Hρ. by apply (equality_stable (S N)).
    + eapply Forall_impl; [exact Pconds|]. intros e (He1 & _ & He2) db ρ ρ' Hρ.
      apply (equality_stable (S N)); [done|lia|]. destruct e.2 as [c| |]; [|done..].
      destruct He2 as [v Hv]. by destruct (Hb' v c Hv).
  - rewrite !Forall_app, !Forall_fmap. split_and!; [done| |].
    + eapply Forall_impl; [exact Hextra|]. intros cz. apply extra_clean.
    + eapply Forall_impl; [exact Pconds|]. intros e He. cbn. eapply (word_equality (S N)); [exact Hcols| |exact He].
      intros v c Hv. by destruct (Hb' v c Hv).
  - done.
  - intros v. rewrite Pdom, Hd. setoid_rewrite elem_of_enumerate. setoid_rewrite elem_of_app.
    setoid_rewrite list_elem_of_singleton. split.
    + intros [(x & ? & ?)|(i & Hi)]; [naive_solver|]. exists a. split; [by right|]. by eapply list_elem_of_lookup_2.
    + intros (x & [? | ->] & Hx); [left; by exists x|]. right. by apply list_elem_of_lookup_1.
  - rewrite !length_app. cbn. lia.
  - by destruct L.
Qed.

Section atom_frame.
Context (N : nat) (L : list Atom) (pf : PFrame) (a : Atom) (s : PSource) (b' : gmap string Col) (new : list Equality).
Context (Hsh : frame_shape N L pf) (Hlen : length (args a) = length (ps_cols s)).
Context (Hp : args_plan (S N) (ps_cols s) (enumerate (args a)) (pf_bind pf) b' new).

Definition atom_frame : PFrame :=
  mkPFrame (pf_from pf ++ [(ps_source s, S N)])
    (pf_where pf ++ (CEq <$> (extra_equality (S N) <$> ps_extra s)) ++ (CEq <$> new)) b'.

Lemma atom_frame_sol db ρ :
  frame_sol db ρ atom_frame <-> frame_sol db ρ pf /\ db (ps_source s) (ρ (S N)) /\
    extra_holds (ρ (S N)) (ps_extra s) /\ Forall (equality_holds ρ) new.
Proof.
  unfold frame_sol. cbn [atom_frame pf_from pf_where].
  rewrite <- extra_equalities, !Forall_app, Forall_singleton, !Forall_fmap. unfold compose. cbn. tauto.
Qed.

Lemma atom_sound db I :
  means_source db (I (pred a)) s -> frame_sound db I L pf -> frame_sound db I (L ++ [a]) atom_frame.
Proof.
  intros [Hrows Hnn] [Hbd Hsd]. constructor.
  - intros ρ v c (Hs & Hdb & Hex & _)%atom_frame_sol [Hc|[Hn Hc]]%(ap_new _ _ _ _ _ _ Hp); [by apply (Hbd ρ v)|].
    destruct (Hnn _ Hdb Hex) as [tup Htup%row_not_null]. unfold col_value. rewrite Hn.
    by apply (proj1 (Forall_forall _ _) Htup).
  - intros ρ θ (Hs & Hdb & Hex & Hnew)%atom_frame_sol Ha. apply Forall_app. split.
    { apply (Hsd ρ); [done|]. intros v c Hv. apply Ha. by eapply lookup_weaken; [|apply Hp]. }
    constructor; [|done]. destruct (Hnn _ Hdb Hex) as [tup Htup]. exists tup.
    assert (length tup = length (ps_cols s)) as Ht by (apply (f_equal length) in Htup; by rewrite !length_fmap in Htup).
    split; [apply Hrows; [done|by eexists]|].
    apply (row_matches_tuple ρ θ (S N) (ps_cols s)); [done|done|]. apply (ap_sound _ _ _ _ _ _ Hp); [done| |done].
    by eapply row_not_null.
Qed.

Lemma atom_complete db I :
  has_rows db (I (pred a)) s -> frame_complete db I L pf -> frame_complete db I (L ++ [a]) atom_frame.
Proof.
  destruct Hsh as [Hf Hst _ Hb _ _ _]. intros Hrows Hcp θ [HL [(tup & HI & Hm) _]%Forall_cons]%Forall_app.
  assert (length tup = length (ps_cols s)) as Ht by (rewrite <- Hlen; symmetry; by eapply Forall2_length).
  apply Hrows in HI as (r & Hdb & Hex & Hr); [|done]. destruct (Hcp θ HL) as (ρ & [Hs1 Hs2] & Ha).
  set (ρ' := set_row ρ (S N) r). assert (forall n, (n <= N)%nat -> ρ n = ρ' n) as Hold.
  { intros n Hn. unfold ρ'. by rewrite set_row_ne by lia. }
  assert (ρ' (S N) = r) as Hnewr by apply set_row_eq.
  assert (agrees ρ' (pf_bind pf) θ) as Ha'.
  { intros v c Hv. rewrite <- (Ha v c Hv). unfold col_value. rewrite <- Hold; [done|]. by eapply Hb. }
  destruct (ap_complete _ _ _ _ _ _ Hp ρ' θ Ha') as [Hb' Hnew].
  { apply (row_matches_tuple ρ' θ _ _ tup); [by rewrite Hnewr|done|done]. }
  exists ρ'. split; [|done]. apply atom_frame_sol. rewrite Hnewr. split_and!; [|done..]. split.
  - rewrite Forall_forall in Hs1, Hf |- *. intros f Hin. rewrite <- Hold; [by apply Hs1|by apply Hf].
  - rewrite Forall_forall in Hs2, Hst |- *. intros c Hin. apply (Hst c Hin db ρ); [done|by apply Hs2].
Qed.
End atom_frame.

Lemma bind_atom_plan L pf a k f' k' :
  at_names k -> plain_atom a -> frame_shape (k_counter k) L pf ->
  (forall s, plan_source (pred a) (length (args a)) = Some s -> length (args a) = length (ps_cols s)) ->
  bind_atom analysis caps options run_no a (print_frame pf) scc k = Ok (f', k') ->
  exists s pf', plan_source (pred a) (length (args a)) = Some s /\ f' = print_frame pf' /\
    frame_shape (k_counter k') (L ++ [a]) pf' /\ same_names k k' /\
    forall db I,
      (means_source db (I (pred a)) s -> frame_sound db I L pf -> frame_sound db I (L ++ [a]) pf') /\
      (has_rows db (I (pred a)) s -> frame_complete db I L pf -> frame_complete db I (L ++ [a]) pf').
Proof.
  intros Hk Ha Hsh Hlen H. unfold bind_atom in H. inv_comp. apply alias_ok in H0 as (-> & Hc1 & Hn1).
  assert (at_names x0) as Hk1 by (destruct Hk, Hn1; split; congruence).
  match goal with E : source_of _ _ _ _ _ _ _ _ = _ |- _ => apply source_of_plan in E as (ps & Hs & -> & -> & -> & Hc2 & Hn2) end;
    [|done|done].
  set (N := k_counter k) in *.
  replace (push_wheres _ _) with (print_frame (mkPFrame (pf_from pf ++ [(ps_source ps, S N)])
    (pf_where pf ++ (CEq <$> (extra_equality (S N) <$> ps_extra ps))) (pf_bind pf))) in H.
  2:{ unfold push_wheres, push_from, print_frame. cbn. rewrite !fmap_app. f_equal. f_equal.
      rewrite <- !list_fmap_compose. apply list_fmap_ext. intros i cz _. cbn. symmetry. apply print_extra_equality. }
  apply bind_args_plan in H as (pf' & new & -> & Hf & Hw & Hp & Hc3 & Hn3). cbn in Hf, Hw, Hp.
  exists ps, pf'. destruct pf' as [fr wh b']. cbn in Hf, Hw, Hp. subst fr wh. rewrite <- app_assoc.
  destruct (plan_source_words _ _ _ Hs) as [Hwc Hwe].
  split_and!; [done|done| |by etrans; [|etrans]|].
  - replace (k_counter k') with (S N) by lia. by apply atom_shape.
  - intros db I. split; [apply atom_sound; [by apply Hlen|done]|apply atom_complete; [done|by apply Hlen|done]].
Qed.

(** *** All the positive atoms *)

(** The arguments of the atom fill the columns of its source. *)
Definition fits a : Prop :=
  forall s, plan_source (pred a) (length (args a)) = Some s -> length (args a) = length (ps_cols s).

(** The database represents the interpretation of the predicate of the atom. *)
Definition represents (db : Db) (I : Interp) a : Prop :=
  forall s, plan_source (pred a) (length (args a)) = Some s -> means_source db (I (pred a)) s.

(** The tuples of the predicate of the atom are among the rows of its source. *)
Definition reaches (db : Db) (I : Interp) a : Prop :=
  forall s, plan_source (pred a) (length (args a)) = Some s -> has_rows db (I (pred a)) s.

Definition item_positive (i : BodyItem) : option Atom := match i with BAtom a => Some a | _ => None end.

Lemma bind_items_plan l L pf k f' k' :
  at_names k -> frame_shape (k_counter k) L pf ->
  (forall a, BAtom a ∈ l -> plain_atom a /\ fits a) ->
  foldC (bind_item analysis caps options run_no scc) (print_frame pf) l k = Ok (f', k') ->
  exists pf', f' = print_frame pf' /\ frame_shape (k_counter k') (L ++ omap item_positive l) pf' /\ same_names k k' /\
    forall db I,
      ((forall a, BAtom a ∈ l -> represents db I a) -> frame_sound db I L pf ->
       frame_sound db I (L ++ omap item_positive l) pf') /\
      ((forall a, BAtom a ∈ l -> reaches db I a) -> frame_complete db I L pf ->
       frame_complete db I (L ++ omap item_positive l) pf').
Proof.
  revert L pf k. induction l as [|i l IH]; intros L pf k Hk Hsh Hl H; cbn [foldC] in H.
  { inv_comp. exists pf. cbn. rewrite app_nil_r. by split_and!. }
  inv_comp. assert (forall a, BAtom a ∈ l -> plain_atom a /\ fits a) as Hl' by (intros a Ha; apply Hl; by right).
  destruct i as [a|a|e]; cbn [bind_item] in *; cbn [omap list_omap item_positive].
  - match goal with E : bind_atom _ _ _ _ _ _ _ _ = _ |- _ => rename E into Ea end.
    destruct (Hl a (list_elem_of_here _ _)) as [Hp Hf].
    apply (bind_atom_plan L) in Ea as (s & pf1 & Hs & -> & Hsh1 & Hn1 & Hsem1); [|done..].
    eapply (IH (L ++ [a])) in H as (pf' & -> & Hsh' & Hn' & Hsem'); [|destruct Hk, Hn1; split; congruence|done|done].
    exists pf'. rewrite <- app_assoc in Hsh'. split_and!; [done|done|by etrans|].
    intros db I. rewrite cons_middle, app_assoc. destruct (Hsem' db I) as [Hs' Hc'], (Hsem1 db I) as [Hs1 Hc1].
    split; intros Hr Hsem; [apply Hs'|apply Hc']; try (intros b Hb; apply Hr; by right);
      [apply Hs1|apply Hc1]; [by apply Hr; [left|]|done|by apply Hr; [left|]|done].
  - inv_comp. apply (IH L) in H as (pf' & -> & Hsh' & Hn' & Hsem'); [|done..].
    exists pf'. split_and!; [done..|]. intros db I. destruct (Hsem' db I) as [Hs' Hc'].
    split; intros Hr; [apply Hs'|apply Hc']; intros b Hb; apply Hr; by right.
  - inv_comp. apply (IH L) in H as (pf' & -> & Hsh' & Hn' & Hsem'); [|done..].
    exists pf'. split_and!; [done..|]. intros db I. destruct (Hsem' db I) as [Hs' Hc'].
    split; intros Hr; [apply Hs'|apply Hc']; intros b Hb; apply Hr; by right.
Qed.

(** *** Negation *)

Lemma negated_args_plan n cols F b l conds loc k out k' :
  binding F = print_col <$> b -> (forall i v, (i, ArgVar v) ∈ l -> is_Some (b !! v)) ->
  foldC (negated_arg (print_alias n) cols F) (conds, loc) l k = Ok (out, k') ->
  exists new, out.1 = conds ++ (print_equality <$> new) /\ Forall (equality_of n cols b) new /\
    k_counter k' = k_counter k /\ same_names k k' /\
    forall ρ θ, agrees ρ b θ -> Forall (fun c => is_Some (ρ n c)) cols ->
      Forall (equality_holds ρ) new <-> row_matches ρ θ n cols l.
Proof.
  intros HF. revert conds loc k. induction l as [|[i arg] l IH]; intros conds loc k Hb H; cbn [foldC] in H.
  { inv_comp. exists []. cbn. rewrite app_nil_r. split_and!; [done..|]. intros ρ θ _ _. split; [|done].
    intros _ i arg ?%elem_of_nil. done. }
  assert (forall j v, (j, ArgVar v) ∈ l -> is_Some (b !! v)) as Hb' by (intros j v Hin; apply (Hb j v); by right).
  inv_comp. match goal with E : negated_arg _ _ _ _ _ _ = _ |- _ => unfold negated_arg in E; cbn [fst snd] in E end.
  inv_comp. match goal with E : cols !! i = Some ?y |- _ => rename y into c end.
  assert (forall (ρ : Env), Forall (fun c => is_Some (ρ n c)) cols -> exists z, ρ n c = Some z) as Hz.
  { intros ρ Hr. apply (proj1 (Forall_forall _ _) Hr). by eapply list_elem_of_lookup_2. }
  destruct arg as [v| |t].
  - destruct (Hb i v (list_elem_of_here _ _)) as [d Hd].
    inv_comp. rewrite HF, lookup_fmap, Hd in *. cbn [fmap option_fmap option_map] in *.
    apply IH in H as (new & Hout & Hnew & Hc & Hn & Hsem); [|done].
    exists ((mkCol n c, OCol d) :: new). split_and!; [by rewrite Hout, <- app_assoc| |done|done|].
    + constructor; [|done]. split_and!; [done|by eapply list_elem_of_lookup_2|by exists v].
    + intros ρ θ Ha Hr. rewrite Forall_cons, row_matches_cons, (Hsem ρ θ) by done. apply and_iff_compat_r.
      destruct (Hz ρ Hr) as [z Ez]. unfold equality_holds, col_value at 1. cbn. rewrite (Ha v d Hd). cbn. split.
      * intros (y & Hy & [= <-]). exists c, z. split_and!; [done|done|]. cbn. congruence.
      * intros (c' & z' & Hc' & Hz' & Hm). cbn in Hm. simplify_eq. by exists (θ v).
  - inv_comp. apply IH in H as (new & Hout & Hnew & Hc & Hn & Hsem); [|done].
    exists new. split_and!; [done..|]. intros ρ θ Ha Hr. rewrite row_matches_cons, (Hsem ρ θ) by done.
    split; [|by intros [_ ?]]. intros H. split; [|done]. destruct (Hz ρ Hr) as [z Ez]. by exists c, z.
  - inv_comp. match goal with E : register_const _ _ = _ |- _ => apply register_const_ok in E as (-> & Hc0 & Hn0) end.
    apply IH in H as (new & Hout & Hnew & Hc & Hn & Hsem); [|done].
    exists ((mkCol n c, OId (term_id t)) :: new). split_and!; [by rewrite Hout, <- app_assoc| |congruence|by etrans|].
    + constructor; [|done]. by split_and!; [done|eapply list_elem_of_lookup_2|].
    + intros ρ θ Ha Hr. rewrite Forall_cons, row_matches_cons, (Hsem ρ θ) by done. apply and_iff_compat_r.
      destruct (Hz ρ Hr) as [z Ez]. unfold equality_holds, col_value at 1. cbn. split.
      * intros (y & Hy & [= <-]). exists c, z. split_and!; [done|done|]. cbn. congruence.
      * intros (c' & z' & Hc' & Hz' & Hm). cbn in Hm. simplify_eq. by exists (term_id t).
Qed.

(** *** Conditions *)

Context (Hnames : forall p n, names !! p = Some n -> clean n = true).
Context (Hscc : match scc with Some (n, _) => clean n = true | None => True end).

Lemma plan_source_clean p n s : plan_source p n = Some s -> clean (ps_source s) = true.
Proof.
  unfold plan_source. destruct (is_derived analysis p).
  { destruct (rels !! p); [by intros [= <-]|].
    destruct scc as [[m st]|]; [destruct (position p (preds st)); cbn; [by intros [= <-]|]|];
      cbn; destruct (names !! p) eqn:E; intros [= <-]; by apply (Hnames p). }
  destruct p; [|done|..|done|done]; intros [= <-]; apply quad_source_clean.
Qed.

(** A frame's bindings, seen from the next alias. *)
Definition bound_below (N : nat) (b : gmap string Col) : Prop :=
  forall v c, b !! v = Some c -> (col_alias c <= N)%nat /\ word (col_name c) = true.

(** The items other than positive atoms, with the variables they need. *)
Definition item_fits (b : gmap string Col) (i : BodyItem) : Prop :=
  match i with
  | BAtom _ => True
  | Negated a => plain_atom a /\ fits a /\ forall v, ArgVar v ∈ args a -> is_Some (b !! v)
  | Constraint e => plain_expr e = true
  end.

Definition filter_holds (I : Interp) (θ : Assign) (i : BodyItem) : Prop :=
  match i with BAtom _ => True | _ => item_holds sat I θ i end.

Lemma clean_bindings N b : bound_below N b -> forall x s, (print_col <$> b) !! x = Some s -> clean s = true.
Proof.
  intros Hb x s (c & <- & Hc)%lookup_fmap_Some. apply word_clean. unfold print_col, print_alias.
  rewrite !word_app, show_nat_word. by destruct (Hb x c Hc) as [_ ->].
Qed.

Lemma constraint_plan b e f k v k' :
  binding f = print_col <$> b -> bound_below (k_counter k) b -> plain_expr e = true ->
  expr caps e f k = Ok (v, k') ->
  "(" +:+ Val.as_bool v +:+ ")" = print_cond caps (CHolds e b) /\ clean (print_cond caps (CHolds e b)) = true /\
  k_counter k' = k_counter k /\ same_names k k' /\
  forall db ρ θ, agrees ρ b θ -> cond_holds sat db ρ (CHolds e b) <-> sat e (fun v => Some (θ v)).
Proof.
  intros Hf Hb Hp H. destruct (expr_facts caps e f k v k' H) as [Hc Hn Hany Hbd Hcl].
  destruct (Hany (mkFrame [] [] (print_col <$> b)) blank_compiler) as [k2 E]; [done|].
  assert (print_cond caps (CHolds e b) = "(" +:+ Val.as_bool v +:+ ")") as Ht by (cbn; unfold print_holds; by rewrite E).
  rewrite Ht. split_and!; [done| |done|done|].
  { destruct (clean_val_texts v) as (_ & _ & _ & Hv).
    - apply Hcl; [done|]. rewrite Hf. by apply (clean_bindings (k_counter k)).
    - by rewrite !clean_app, Hv. }
  intros db ρ θ Ha. cbn. assert (forall x, occurs x e -> (b !! x ≫= fun c => col_value ρ c) = Some (θ x)) as Hx.
  { intros x Hx%Hbd. rewrite Hf, lookup_fmap in Hx. destruct (b !! x) as [c|] eqn:Hxc; [|by destruct Hx].
    by apply (Ha x c). }
  split; apply sat_ext; intros x Ho; [by apply Hx|symmetry; by apply Hx].
Qed.

Lemma negated_plan b a f k t k' :
  at_names k -> binding f = print_col <$> b -> bound_below (k_counter k) b -> item_fits b (Negated a) ->
  negated_sql analysis caps options run_no a f scc k = Ok (t, k') ->
  exists c, t = print_cond caps c /\ clean t = true /\ (k_counter k <= k_counter k')%nat /\ same_names k k' /\
    forall db I ρ θ, agrees ρ b θ -> represents db I a -> cond_holds sat db ρ c <-> ~ atom_holds I θ a.
Proof.
  intros Hk Hf Hb (Hp & Hfit & Hv) H. unfold negated_sql in H. inv_comp.
  match goal with E : alias _ = _ |- _ => apply alias_ok in E as (-> & Hc1 & Hn1) end.
  match goal with E : source_of _ _ _ _ _ _ _ ?k = _ |- _ =>
    assert (at_names k) as Hk1 by (destruct Hk, Hn1; split; congruence);
    apply source_of_plan in E as (ps & Hs & -> & -> & -> & Hc2 & Hn2); [|done|done]
  end.
  match goal with E : foldC _ _ _ _ = _ |- _ => rename E into Eargs end.
  apply (negated_args_plan _ _ _ b) in Eargs as (new & Hout & Hnew & Hc3 & Hn3 & Hsem); [|done|].
  2:{ intros i v Hin%elem_of_enumerate%list_elem_of_lookup_2. by apply Hv. }
  cbn in Hout. destruct (plan_source_words _ _ _ Hs) as [Hw He]. set (N := S (k_counter k)) in *.
  assert (Forall (fun e => clean (print_equality e) = true) ((extra_equality N <$> ps_extra ps) ++ new)) as Hcl.
  { apply Forall_app. split.
    - apply Forall_fmap. eapply Forall_impl; [exact He|]. intros cz. apply extra_clean.
    - eapply Forall_impl; [exact Hnew|]. intros e. apply (word_equality N (ps_cols ps)); [done|].
      intros v c Hvc. by destruct (Hb v c Hvc). }
  exists (CNotExists (ps_source ps) N ((extra_equality N <$> ps_extra ps) ++ new)).
  match type of Hout with ?l = _ => assert (l = print_equality <$> ((extra_equality N <$> ps_extra ps) ++ new)) as Hl end.
  { rewrite Hout. etrans; [|symmetry; apply fmap_app]. f_equal. etrans; [|apply list_fmap_compose].
    apply list_fmap_ext. intros j cz _. exact (print_extra_equality N cz). }
  rewrite Hl. split_and!; [cbn [print_cond]; unfold print_from; cbn [fst snd]; by rewrite <- !string_app_assoc
    | |lia|by etrans; [|etrans]|].
  { rewrite !clean_app, (plan_source_clean _ _ _ Hs). unfold print_alias. rewrite !clean_app, (word_clean (show_nat _)) by apply show_nat_word.
    assert (forall l, Forall (fun w => clean w = true) l -> clean (where_clause l) = true) as Hwc.
    { intros [|w ws] Hws; [done|]. unfold where_clause. by rewrite clean_app, clean_join. }
    rewrite Hwc; [done|]. by apply Forall_fmap. }
  intros db I ρ θ Ha Hr. specialize (Hr ps Hs). destruct Hr as [Hrows Hnn]. cbn [cond_holds]. apply not_iff_compat.
  specialize (Hfit ps Hs).
  assert (forall r, agrees (set_row ρ N r) b θ) as Har.
  { intros r v c Hvc. rewrite <- (Ha v c Hvc). unfold col_value. rewrite set_row_ne; [done|].
    destruct (Hb v c Hvc). lia. }
  split.
  - intros (r & Hdb & [Hex%extra_equalities Hnw]%Forall_app). rewrite set_row_eq in Hex.
    destruct (Hnn r Hdb Hex) as [tup Htup]. exists tup.
    assert (length tup = length (ps_cols ps)) as Ht by (apply (f_equal length) in Htup; by rewrite !length_fmap in Htup).
    split; [apply Hrows; [done|by exists r]|].
    apply (row_matches_tuple (set_row ρ N r) θ N (ps_cols ps)); [by rewrite set_row_eq|done|].
    apply Hsem; [done| |done]. rewrite set_row_eq. by eapply row_not_null.
  - intros (tup & HI & Hm).
    assert (length tup = length (ps_cols ps)) as Ht by (rewrite <- Hfit; symmetry; by eapply Forall2_length).
    apply Hrows in HI as (r & Hdb & Hex & Htup); [|done]. exists r. split; [done|]. apply Forall_app. split.
    { apply extra_equalities. by rewrite set_row_eq. }
    apply (Hsem (set_row ρ N r) θ); [done| |].
    + rewrite set_row_eq. by eapply row_not_null.
    + apply (row_matches_tuple (set_row ρ N r) θ N (ps_cols ps) tup); [by rewrite set_row_eq|done|done].
Qed.

(** The negations and constraints of a body add conditions that hold where they do. *)
Lemma check_items_plan l pf k f' k' :
  at_names k -> bound_below (k_counter k) (pf_bind pf) -> (forall i, i ∈ l -> item_fits (pf_bind pf) i) ->
  foldC (check_item analysis caps options run_no scc) (print_frame pf) l k = Ok (f', k') ->
  exists new, f' = print_frame (mkPFrame (pf_from pf) (pf_where pf ++ new) (pf_bind pf)) /\
    Forall (fun c => clean (print_cond caps c) = true) new /\ same_names k k' /\ (l = [] -> new = []) /\
    forall db I ρ θ, agrees ρ (pf_bind pf) θ -> (forall a, Negated a ∈ l -> represents db I a) ->
      Forall (cond_holds sat db ρ) new <-> Forall (filter_holds I θ) l.
Proof.
  revert pf k. induction l as [|i l IH]; intros pf k Hk Hb Hl H; cbn [foldC] in H.
  { inv_comp. exists []. rewrite app_nil_r. by destruct pf. }
  inv_comp. assert (forall i, i ∈ l -> item_fits (pf_bind pf) i) as Hl' by (intros j Hj; apply Hl; by right).
  match goal with E : check_item _ _ _ _ _ _ _ _ = _ |- _ => rename E into Ei end.
  assert (forall c, x = print_frame (mkPFrame (pf_from pf) (pf_where pf ++ [c]) (pf_bind pf)) ->
    clean (print_cond caps c) = true -> (k_counter k <= k_counter x0)%nat -> same_names k x0 ->
    (forall db I ρ θ, agrees ρ (pf_bind pf) θ -> (forall a, Negated a ∈ i :: l -> represents db I a) ->
      cond_holds sat db ρ c <-> filter_holds I θ i) ->
    exists new, f' = print_frame (mkPFrame (pf_from pf) (pf_where pf ++ new) (pf_bind pf)) /\
      Forall (fun c => clean (print_cond caps c) = true) new /\ same_names k k' /\ (i :: l = [] -> new = []) /\
      forall db I ρ θ, agrees ρ (pf_bind pf) θ -> (forall a, Negated a ∈ i :: l -> represents db I a) ->
        Forall (cond_holds sat db ρ) new <-> Forall (filter_holds I θ) (i :: l)) as Hstep.
  { intros c -> Hcl Hc Hn Hsem. apply IH in H as (new & -> & Hnew & Hn' & _ & Hsem');
      [|destruct Hk, Hn; split; congruence|intros v d Hv; destruct (Hb v d Hv); split; [lia|done]|done].
    exists (c :: new). cbn [pf_from pf_where pf_bind]. rewrite <- app_assoc. split_and!; [done|by constructor|by etrans|done|].
    intros db I ρ θ Ha Hr. rewrite !Forall_cons, (Hsem db I) by done. apply and_iff_compat_l. apply Hsem'; [done|].
    intros a Hin. apply Hr. by right. }
  specialize (Hl i (list_elem_of_here _ _)). destruct i as [a|a|e]; cbn [check_item] in Ei.
  - inv_comp. apply IH in H as (new & -> & Hnew & Hn' & Hnil & Hsem'); [|done..].
    exists new. split_and!; [done..|].
    intros db I ρ θ Ha Hr. rewrite Forall_cons. cbn [filter_holds].
    rewrite (Hsem' db I ρ θ); [tauto|done|]. intros b Hin. apply Hr. by right.
  - inv_comp. match goal with E : negated_sql _ _ _ _ _ _ _ _ = _ |- _ =>
      apply (negated_plan (pf_bind pf)) in E as (c & -> & Hcl & Hc & Hn & Hsem); [|done..] end.
    apply (Hstep c); [|done|done|done|].
    + unfold push_wheres, print_frame. cbn. by rewrite fmap_app.
    + intros db I ρ θ Ha Hr. apply Hsem; [done|]. apply Hr. by left.
  - inv_comp. match goal with E : expr _ _ _ _ = _ |- _ =>
      apply (constraint_plan (pf_bind pf)) in E as (Ht & Hcl & Hc & Hn & Hsem); [|done..] end.
    apply (Hstep (CHolds e (pf_bind pf))); [|done|lia|done|].
    + unfold push_wheres, print_frame. cbn [pf_from pf_where pf_bind]. by rewrite Ht, fmap_app.
    + intros db I ρ θ Ha Hr. by apply Hsem.
Qed.

(** *** The head *)

Definition plain_head_arg (a : HeadArg) : bool := match a with Plain _ => true | Agg _ _ => false end.

(** A projected value: a bound column or an id. *)
Definition projected (b : gmap string Col) (o : Operand) : Prop :=
  match o with OCol c => exists v, b !! v = Some c | OId _ => True | ONull => False end.

Lemma head_plan (h : Head) b f l out k res k' :
  aggregates h = false -> forallb plain_head_arg l = true -> binding f = print_col <$> b ->
  foldC (project_arg h f) out l k = Ok (res, k') ->
  exists ops, res = (out.1 ++ (print_operand <$> ops), out.2) /\ Forall (projected b) ops /\
    length ops = length l /\ same_names k k' /\
    forall ρ θ tup, agrees ρ b θ -> Forall2 (head_value θ) l tup <-> (operand_value ρ <$> ops) = Some <$> tup.
Proof.
  intros Hagg Hl Hf. revert out k Hl. induction l as [|a l IH]; intros out k Hl H; cbn [foldC] in H.
  { inv_comp. exists []. cbn. rewrite app_nil_r. split_and!; [by destruct res|done..|].
    intros ρ θ tup _. split; [by intros ->%Forall2_nil_inv_l|]. by destruct tup. }
  destruct a as [a|]; [|done]. inv_comp.
  match goal with E : project_arg _ _ _ _ _ = _ |- _ => unfold project_arg in E; rewrite Hagg in E end. inv_comp.
  match goal with E : head_term _ _ _ _ = _ |- _ => unfold head_term in E; rename E into Ea end.
  assert (forall o k1, x1 = print_operand o -> projected b o -> same_names k k1 -> k1 = x0 ->
    (forall ρ θ, agrees ρ b θ -> exists z, operand_value ρ o = Some z /\ forall y, head_value θ (Plain a) y <-> y = z) ->
    exists ops, res = (out.1 ++ (print_operand <$> ops), out.2) /\ Forall (projected b) ops /\
      length ops = length (Plain a :: l) /\ same_names k k' /\
      forall ρ θ tup, agrees ρ b θ -> Forall2 (head_value θ) (Plain a :: l) tup <-> (operand_value ρ <$> ops) = Some <$> tup)
    as Hstep.
  { intros o k1 -> Ho Hn -> Hv. apply IH in H as (ops & -> & Hops & Hlen & Hn' & Hsem); [|done].
    exists (o :: ops). cbn [fst snd fmap list_fmap length]. rewrite <- app_assoc.
    split_and!; [done|by constructor|by f_equal|by etrans|].
    intros ρ θ tup Ha. destruct (Hv ρ θ Ha) as (z & Hz & Hy). rewrite Hz. split.
    - intros (y & tup' & ->%Hy & ->%(Hsem ρ θ) & ->)%Forall2_cons_inv_l; [done|done].
    - destruct tup as [|y tup]; [done|]. intros [= <- Ht]. constructor; [by apply Hy|]. by apply (Hsem ρ θ). }
  destruct a as [v| |t]; inv_comp.
  - match goal with E : binding f !! v = _ |- _ => rewrite Hf in E; apply lookup_fmap_Some in E as (c & <- & Hc) end.
    eapply (Hstep (OCol c)); [done|by exists v|done|done|].
    intros ρ θ Ha. exists (θ v). split; [by apply Ha|done].
  - match goal with E : register_const _ _ = _ |- _ => apply register_const_ok in E as (-> & Hc0 & Hn0) end.
    eapply (Hstep (OId (term_id t))); [done|done|done|done|]. intros ρ θ _. by exists (term_id t).
Qed.

(** ** A rule *)

Lemma frame_start N : frame_shape N [] (mkPFrame [] [] ∅).
Proof.
  constructor; cbn; try done.
  intros v. rewrite lookup_empty. split; [by intros [? ?]|]. by intros (a & ?%elem_of_nil & _).
Qed.

Lemma frame_start_sound db I : frame_sound db I [] (mkPFrame [] [] ∅).
Proof. by constructor. Qed.

Lemma frame_start_complete db I : frame_complete db I [] (mkPFrame [] [] ∅).
Proof. intros θ _. exists (fun _ _ => None). by split_and!. Qed.

Lemma frame_default : Frame_default = print_frame (mkPFrame [] [] ∅).
Proof. unfold print_frame. cbn. by rewrite fmap_empty. Qed.

Lemma items_split I θ l :
  Forall (item_holds sat I θ) l <-> Forall (atom_holds I θ) (omap item_positive l) /\ Forall (filter_holds I θ) l.
Proof.
  induction l as [|i l IH]; [by split|]. rewrite !Forall_cons, IH.
  destruct i as [a|a|e]; cbn [omap list_omap item_positive]; rewrite ?Forall_cons; cbn [filter_holds item_holds]; tauto.
Qed.

Lemma elem_of_positives a (l : list BodyItem) : a ∈ omap item_positive l <-> BAtom a ∈ l.
Proof.
  rewrite list_elem_of_omap. split; [|intros H; by exists (BAtom a)].
  intros ([b| |] & Hi & [= <-]). done.
Qed.

(** The rules the theorem speaks of. *)
Record plain_rule (r : Rule) : Prop := {
  pr_head : aggregates (head r) = false;
  pr_atoms a : BAtom a ∈ body r \/ Negated a ∈ body r -> plain_atom a /\ fits a;
  pr_exprs e : Constraint e ∈ body r -> plain_expr e = true;
  pr_safe a v : Negated a ∈ body r -> ArgVar v ∈ args a -> exists b, BAtom b ∈ body r /\ ArgVar v ∈ args b;
}.

(** The solutions of the atoms and the filters of a body, from a frame for its atoms. *)
Section body_solutions.
Context (db : Db) (I : Interp) (l : list BodyItem) (pf : PFrame) (new : list Cond) (ops : list Operand) (hs : list HeadArg).
Context (Hnew : forall ρ θ, agrees ρ (pf_bind pf) θ -> Forall (cond_holds sat db ρ) new <-> Forall (filter_holds I θ) l).
Context (Hhead : forall ρ θ tup, agrees ρ (pf_bind pf) θ ->
  Forall2 (head_value θ) hs tup <-> (operand_value ρ <$> ops) = Some <$> tup).

Definition body_derives (tup : list Z) : Prop :=
  exists θ, Forall (item_holds sat I θ) l /\ Forall2 (head_value θ) hs tup.

Lemma body_sound t :
  frame_sound db I (omap item_positive l) pf -> Forall (projected (pf_bind pf)) ops ->
  select_rows sat db (mkSelect ops (pf_from pf) (pf_where pf ++ new)) t ->
  exists tup, t = Some <$> tup /\ body_derives tup.
Proof.
  intros [Hbd Hsd] Hops (ρ & Hf & [Hw Hn]%Forall_app & ->). cbn [s_from s_where s_projection] in *.
  set (θ := fun v => default 0 (pf_bind pf !! v ≫= col_value ρ)).
  assert (agrees ρ (pf_bind pf) θ) as Ha.
  { intros v c Hc. destruct (Hbd ρ v c) as [z Hz]; [done|done|]. unfold θ. by rewrite Hc; cbn; rewrite Hz. }
  assert (exists tup, (operand_value ρ <$> ops) = Some <$> tup) as [tup Htup].
  { clear -Hops Ha. induction Hops as [|o ops Ho _ [tup IH]]; [by exists []|]. cbn. rewrite IH.
    destruct o as [c|z|]; [|by exists (z :: tup)|done]. destruct Ho as [v Hv]. exists (θ v :: tup). cbn. by rewrite (Ha v c Hv). }
  exists tup. split; [done|]. exists θ. split; [|by apply (Hhead ρ)].
  apply items_split. split; [by apply (Hsd ρ)|by apply (Hnew ρ)].
Qed.

Lemma body_complete tup :
  frame_complete db I (omap item_positive l) pf -> body_derives tup ->
  select_rows sat db (mkSelect ops (pf_from pf) (pf_where pf ++ new)) (Some <$> tup).
Proof.
  intros Hcp (θ & [Ha Hfl]%items_split & Hh). destruct (Hcp θ Ha) as (ρ & [Hf Hw] & Hag).
  exists ρ. split; [done|]. split; [apply Forall_app; split; [done|by apply (Hnew ρ θ)]|].
  symmetry. by apply (Hhead ρ θ).
Qed.
End body_solutions.

(** A statement of the plan syntax that is the SELECT of a rule. *)
Record select_of (r : Rule) (text : string) (s : Select) : Prop := {
  so_text : text = print_select caps s;
  so_width : length (s_projection s) = length (head_args (head r));
  so_words : Forall (fun o => o <> ONull /\ word (print_operand o) = true) (s_projection s);
  so_from : length (s_from s) = length (omap item_positive (body r));
  so_fact : body r = [] -> s_where s = [];
  so_sound db I t : (forall a, BAtom a ∈ body r \/ Negated a ∈ body r -> represents db I a) ->
    select_rows sat db s t -> exists tup, t = Some <$> tup /\ rule_derives sat I r tup;
  so_complete db I tup : (forall a, BAtom a ∈ body r -> reaches db I a) ->
    (forall a, Negated a ∈ body r -> represents db I a) ->
    rule_derives sat I r tup -> select_rows sat db s (Some <$> tup);
}.

Lemma projected_word N b o : bound_below N b -> projected b o -> o <> ONull /\ word (print_operand o) = true.
Proof.
  intros Hb Ho. split; [by intros ->|]. destruct o as [c|z|]; [|apply show_Z_word|done]. destruct Ho as [v Hv]. cbn [print_operand].
  unfold print_col, print_alias. rewrite !word_app, show_nat_word. by destruct (Hb v c Hv) as [_ ->].
Qed.

Lemma plain_head h : aggregates h = false -> forallb plain_head_arg (head_args h) = true.
Proof.
  unfold aggregates. induction (head_args h) as [|a l IH]; [done|]. cbn. destruct a; [|done]. apply IH.
Qed.

Lemma resolve_plan pf :
  Forall (fun c => clean (print_cond caps c) = true) (pf_where pf) -> resolve_at (print_frame pf) = Ok (print_frame pf).
Proof. intros H. apply resolve_at_clean. by apply Forall_fmap. Qed.

Lemma rule_select_plan r k text k' :
  at_names k -> plain_rule r ->
  rule_select analysis caps options run_no r scc k = Ok (text, k') ->
  same_names k k' /\ exists s, select_of r text s.
Proof.
  intros Hk [Hagg Hatoms Hexprs Hsafe] H. unfold rule_select in H. rewrite frame_default in H. inv_comp.
  match goal with E : foldC (bind_item _ _ _ _ _) _ _ _ = _ |- _ =>
    apply (bind_items_plan _ []) in E as (pf & -> & Hsh & Hn1 & Hsem); [|done|apply frame_start|intros; apply Hatoms; by left] end.
  cbn [app] in Hsh, Hsem.
  match goal with E : foldC (check_item _ _ _ _ _) _ _ _ = _ |- _ =>
    apply check_items_plan in E as (new & -> & Hcl & Hn2 & Hnil & Hnew) end.
  2:{ destruct Hk, Hn1; split; congruence. }
  2:{ intros v c. apply (fs_bind _ _ _ Hsh). }
  2:{ intros [a|a|e] Hi; cbn; [done| |by apply Hexprs]. destruct (Hatoms a (or_intror Hi)) as [Hp Hf].
      split_and!; [done|done|]. intros v Hv. apply (fs_dom _ _ _ Hsh). setoid_rewrite elem_of_positives. by eapply Hsafe. }
  match goal with E : foldC (project_arg _ _) _ _ _ = _ |- _ =>
    apply (head_plan _ (pf_bind pf)) in E as (ops & [= -> ->] & Hops & Hlen & Hn3 & Hhead);
      [|done|by apply plain_head|done] end.
  cbn [fst snd app] in *.
  match goal with E : resolve_at _ = _ |- _ => rewrite resolve_plan in E; [injection E as <-|] end.
  2:{ cbn. apply Forall_app. split; [apply Hsh|done]. }
  split; [by etrans; [|etrans]|].
  exists (mkSelect ops (pf_from pf) (pf_where pf ++ new)). constructor; cbn [s_projection s_from s_where].
  - unfold select_text, print_select. cbn [print_frame froms wheres s_projection s_from s_where].
    destruct (pf_from pf) as [|f fs]; [done|]. cbn [fmap list_fmap]. by rewrite string_app_nil_r.
  - done.
  - eapply Forall_impl; [exact Hops|]. intros o. eapply projected_word. intros v c. apply (fs_bind _ _ _ Hsh).
  - apply Hsh.
  - intros E. rewrite Hnil by done. rewrite app_nil_r. apply (fs_empty _ _ _ Hsh). by rewrite E.
  - intros db I t Hr. apply body_sound; [|done| |done].
    + intros ρ θ Ha. apply Hnew; [done|]. intros a Hin. apply Hr. by right.
    + apply Hsem; [|apply frame_start_sound]. intros a Ha. apply Hr. by left.
  - intros db I tup Hr Hneg. apply (body_complete db I (body r)); [|done|].
    + intros ρ θ Ha. by apply Hnew.
    + apply Hsem; [done|apply frame_start_complete].
Qed.
End rule.

(** ** The goal *)

Section goal.
Context {OX : Oxrdf} {XX : Xxh3} {SD : StrDebug} {TD : TermDisplay} {LC : Lowercase}.
Context (analysis : Analysis) (caps : Capabilities) (options : Options) (run_no : Z).
Context (names : gmap Pred string) (rels : gmap Pred nat).
Context (sat : Expr -> (string -> option Z) -> Prop).
Context (sat_ext : forall e f g, (forall v, occurs v e -> f v = g v) -> sat e f -> sat e g).
Context (Hnames : forall p n, names !! p = Some n -> clean n = true).

Definition goal_items (g : Goal_) : list BodyItem := BAtom (goal_atom g) :: (Constraint <$> goal_constraints g).

Lemma goal_constraints_fold f l k :
  foldC (goal_constraint caps) f l k = foldC (check_item analysis caps options run_no None) f (Constraint <$> l) k.
Proof.
  revert f k. induction l as [|e l IH]; [done|]. intros f k. cbn. unfold mbind, comp_bind, goal_constraint.
  cbn [check_item]. unfold mbind, comp_bind. destruct (expr caps e f k) as [[v k1]|]; [|done]. apply IH.
Qed.

Lemma positives_of_constraints (l : list Expr) : omap item_positive (Constraint <$> l) = [].
Proof. by induction l. Qed.

Lemma goal_answer_items I g tup :
  goal_answer sat I g tup <-> exists θ, Forall (item_holds sat I θ) (goal_items g) /\
    Forall2 (head_value θ) ((fun v => Plain (ArgVar v)) <$> atom_vars (goal_atom g) []) tup.
Proof.
  apply exist_proper. intros θ. unfold goal_holds, goal_items. rewrite Forall_cons, Forall_fmap. cbn [item_holds].
  apply and_iff_compat_l. clear. revert tup. induction (atom_vars (goal_atom g) []) as [|v l IH]; intros tup.
  { split; [by intros ->|by intros ->%Forall2_nil_inv_l]. }
  cbn. split; [intros ->; constructor; [done|by apply IH]|].
  intros (z & tup' & Hz & Ht & ->)%Forall2_cons_inv_l. cbn in Hz. subst. f_equal. by apply IH.
Qed.

(** A projection without columns is answered with the constant row. *)
Lemma select_one db fr wh t :
  t = [Some 1] /\ select_rows sat db (mkSelect [] fr wh) [] <-> select_rows sat db (mkSelect [OId 1] fr wh) t.
Proof.
  unfold select_rows. cbn. split.
  - intros (-> & ρ & ? & ? & _). by exists ρ.
  - intros (ρ & ? & ? & ->). split; [done|]. by exists ρ.
Qed.

Definition goal_column (io : nat * Operand) : string := print_operand io.2 +:+ " AS v" +:+ show_nat io.1.

Lemma project_goal_plan f b l m k out k' :
  binding f = print_col <$> b ->
  mapC (project_goal f) (zip (seq m (length l)) l) k = Ok (out, k') ->
  exists ops, out = goal_column <$> zip (seq m (length ops)) ops /\ Forall (projected b) ops /\
    length ops = length l /\ same_names k k' /\
    forall ρ θ tup, agrees ρ b θ ->
      Forall2 (head_value θ) ((fun v => Plain (ArgVar v)) <$> l) tup <-> (operand_value ρ <$> ops) = Some <$> tup.
Proof.
  intros Hf. revert m k out. induction l as [|v l IH]; intros m k out H; cbn in H.
  { inv_comp. exists []. split_and!; [done..|]. intros ρ θ tup _. split; [by intros ->%Forall2_nil_inv_l|]. by destruct tup. }
  inv_comp. match goal with E : project_goal _ _ _ = _ |- _ => unfold project_goal in E; cbn [fst snd] in E end. inv_comp.
  match goal with E : binding f !! v = _ |- _ => rewrite Hf in E; apply lookup_fmap_Some in E as (c & <- & Hc) end.
  match goal with E : mapC _ _ _ = _ |- _ => apply IH in E as (ops & -> & Hops & Hlen & Hn & Hsem) end.
  exists (OCol c :: ops). split_and!; [done|constructor; [by exists v|done]|cbn; lia|done|].
  intros ρ θ tup Ha. cbn [fmap list_fmap]. cbn [operand_value]. rewrite (Ha v c Hc). split.
  - intros (y & tup' & Hy & ->%(Hsem ρ θ) & ->)%Forall2_cons_inv_l; [|done]. cbn in Hy. by subst.
  - destruct tup as [|y tup]; [done|]. intros [= <- Ht]. constructor; [done|]. by apply (Hsem ρ θ).
Qed.

(** A goal without variables answers with the row [1] when it holds. *)
Definition answer_row (g : Goal_) (tup : list Z) : list Z :=
  match atom_vars (goal_atom g) [] with [] => [1] | _ => tup end.

Lemma goal_select_plan g k text vars k' :
  at_names names rels k ->
  plain_atom analysis (goal_atom g) -> fits analysis options run_no names rels None (goal_atom g) ->
  forallb plain_expr (goal_constraints g) = true ->
  goal_select analysis caps options run_no g k = Ok ((text, vars), k') ->
  vars = atom_vars (goal_atom g) [] /\ exists s, text = print_goal caps s /\
    forall db I, represents analysis options run_no names rels None db I (goal_atom g) ->
    forall t, select_rows sat db s t <-> exists tup, t = Some <$> answer_row g tup /\ goal_answer sat I g tup.
Proof.
  intros Hk Ha Hf Hc H. unfold goal_select in H. rewrite (frame_default caps) in H. inv_comp.
  match goal with E : bind_atom _ _ _ _ _ _ _ _ = _ |- _ =>
    apply (bind_atom_plan analysis caps options run_no names rels None sat [])
      in E as (ps & pf & Hs & -> & Hsh & Hn1 & Hsem); [|done|done|apply frame_start|done] end.
  match goal with E : foldC (goal_constraint _) _ _ _ = _ |- _ => rewrite goal_constraints_fold in E;
    apply (check_items_plan analysis caps options run_no names rels None sat sat_ext Hnames I) in E
      as (new & -> & Hcl & Hn2 & _ & Hnew) end.
  2:{ destruct Hk, Hn1. split; congruence. }
  2:{ intros v c. apply (fs_bind _ _ _ _ _ Hsh). }
  2:{ intros i (e & -> & He)%list_elem_of_fmap. cbn. apply (proj1 (forallb_forall _ _) Hc). by apply list_elem_of_In. }
  match goal with E : resolve_at _ = _ |- _ => rewrite resolve_plan in E; [injection E as <-|] end.
  2:{ cbn. apply Forall_app. split; [apply Hsh|done]. }
  match goal with E : mapC _ _ _ = _ |- _ => apply (project_goal_plan _ (pf_bind pf)) in E
    as (ops & -> & Hops & Hlen & Hn3 & Hhead); [|done] end.
  split; [done|]. set (ops' := match ops with [] => [OId 1] | _ => ops end).
  exists (mkSelect ops' (pf_from pf) (pf_where pf ++ new)). split.
  { unfold print_goal. cbn [s_projection s_from s_where print_frame froms wheres]. do 3 f_equal. by destruct ops. }
  intros db I Hr t.
  assert (forall t, select_rows sat db (mkSelect ops (pf_from pf) (pf_where pf ++ new)) t <->
    exists tup, t = Some <$> tup /\ goal_answer sat I g tup) as Hrows.
  { intros t'. setoid_rewrite goal_answer_items.
    assert (forall ρ θ, agrees ρ (pf_bind pf) θ ->
      Forall (cond_holds sat db ρ) new <-> Forall (filter_holds sat I θ) (goal_items g)) as Hf'.
    { intros ρ θ Ha'. unfold goal_items. rewrite Forall_cons, (Hnew db I ρ θ Ha'); [cbn; tauto|].
      by intros a (e & ? & ?)%list_elem_of_fmap. }
    specialize (Hr ps Hs). destruct (Hsem db I) as [Hsd Hcp]. split.
    - apply (body_sound sat db I (goal_items g) pf new ops _ Hf' Hhead); [|done].
      cbn. rewrite positives_of_constraints. apply Hsd; [done|apply frame_start_sound].
    - intros (tup & -> & Hb). apply (body_complete sat db I (goal_items g) pf new ops _ Hf' Hhead); [|done].
      cbn. rewrite positives_of_constraints. apply Hcp; [by apply means_has_rows|apply frame_start_complete]. }
  unfold answer_row, ops'. destruct (atom_vars (goal_atom g) []) as [|v vs] eqn:Hvars; destruct ops as [|o ops]; try done.
  rewrite <- (select_one db (pf_from pf) (pf_where pf ++ new)), Hrows. split.
  - intros (-> & tup & Htup & Hg). by exists tup.
  - intros (tup & -> & Hg). split; [done|]. exists tup. split; [|done]. destruct Hg as (θ & _ & ->). by rewrite Hvars.
Qed.
End goal.
