(* ===== verification/SqlLayer.v ===== *)
(** * The least rows of a stratum

    However the compiler stores the relations of a stratum — a recursive table each, one tagged
    table, or the work table — the least rows closed under the SELECTs of its rules are the
    codes of the least relations closed under the rules ([least_rows]). *)

From S2P Require Export SqlRule ModelFacts.

Lemma means_source_ext db R R' s :
  (forall tup, length tup = length (ps_cols s) -> R tup <-> R' tup) -> means_source db R s -> means_source db R' s.
Proof. intros HR [Hrows Hnn]. constructor; [|done]. intros tup Hl. by rewrite <- HR, Hrows. Qed.

Lemma means_source_db db db' R s :
  (forall r, db (ps_source s) r <-> db' (ps_source s) r) -> means_source db R s -> means_source db' R s.
Proof.
  intros Hdb [Hrows Hnn]. constructor.
  - intros tup Hl. rewrite (Hrows tup Hl). by setoid_rewrite Hdb.
  - intros r Hr. apply Hnn. by apply Hdb.
Qed.

Section least.
Context {OX : Oxrdf} {XX : Xxh3} {SD : StrDebug} {TD : TermDisplay} {LC : Lowercase}.
Context (program : Program) (analysis : Analysis) (caps : Capabilities) (options : Options) (run_no : Z).
Context (names : gmap Pred string) (rels : gmap Pred nat) (scc : option SccCtx).
Context (sat : Expr -> (string -> option Z) -> Prop).
Context (M : Interp) (ps : list Pred).
Context (Harity : forall r, r ∈ rules program -> length (head_args (head r)) = arity_of analysis (head_pred (head r))).
Context (Hneg : negation_free program ps).

(** The codes [X] of the tuples of the stratum, and what a set of codes puts in the database. *)
Context {X : Type} (enc : Pred -> list Z -> X) (out : Rule -> list (option Z) -> X) (dbf : (X -> Prop) -> Db).
Context (arm : Rule -> Select -> Prop).

#[local] Abbreviation represents := (represents analysis options run_no names rels scc).
#[local] Abbreviation reaches := (reaches analysis options run_no names rels scc).

Definition fitting (p : Pred) (tup : list Z) : Prop := p ∈ ps /\ length tup = arity_of analysis p.

(** The interpretation a set of codes stands for. *)
Definition decoded (S : X -> Prop) : Interp := fun p tup =>
  (p ∈ ps /\ length tup = arity_of analysis p /\ S (enc p tup)) \/ ((p ∉ ps) /\ M p tup).

Definition encoded (S : X -> Prop) : Prop := forall x, S x -> exists p tup, fitting p tup /\ x = enc p tup.

Context (Henc : forall p q tup tup', fitting p tup -> fitting q tup' -> enc p tup = enc q tup' -> p = q /\ tup = tup').
Context (Hout : forall r tup, out r (Some <$> tup) = enc (head_pred (head r)) tup).
Context (Harm : forall r s, arm r s -> r ∈ rules program /\ head_pred (head r) ∈ ps /\
  exists text, select_of analysis caps options run_no names rels scc sat r text s).
Context (Hall : forall r, r ∈ rules program -> head_pred (head r) ∈ ps -> exists s, arm r s).
Context (Houtside : forall S r a, r ∈ rules program -> head_pred (head r) ∈ ps -> BAtom a ∈ body r \/ Negated a ∈ body r ->
  pred a ∉ ps -> represents (dbf S) M a).
Context (Hinside : forall S r a, r ∈ rules program -> head_pred (head r) ∈ ps -> BAtom a ∈ body r -> pred a ∈ ps ->
  reaches (dbf S) (decoded S) a /\ (encoded S -> represents (dbf S) (decoded S) a)).

Definition rows_closed (S : X -> Prop) : Prop :=
  forall r s t, arm r s -> select_rows sat (dbf S) s t -> S (out r t).

Lemma outside_represents S r a :
  r ∈ rules program -> head_pred (head r) ∈ ps -> BAtom a ∈ body r \/ Negated a ∈ body r -> pred a ∉ ps ->
  represents (dbf S) (decoded S) a.
Proof.
  intros Hr Hh Ha Hp s Hs. eapply means_source_ext; [|by eapply Houtside]. intros tup _. unfold decoded. tauto.
Qed.

Lemma arm_sound S r s t :
  encoded S -> arm r s -> select_rows sat (dbf S) s t ->
  exists tup, t = Some <$> tup /\ rule_derives sat (decoded S) r tup.
Proof.
  intros HS Ha. destruct (Harm r s Ha) as (Hr & Hh & text & Hsel). apply (so_sound _ _ _ _ _ _ _ _ _ _ _ Hsel).
  intros a Hin. destruct (decide (pred a ∈ ps)) as [Hp|Hp]; [|by apply (outside_represents S r)].
  destruct Hin as [Hin|Hin]; [by eapply Hinside|]. exfalso. by eapply Hneg.
Qed.

Lemma arm_complete S r s tup :
  arm r s -> rule_derives sat (decoded S) r tup -> select_rows sat (dbf S) s (Some <$> tup).
Proof.
  intros Ha. destruct (Harm r s Ha) as (Hr & Hh & text & Hsel). apply (so_complete _ _ _ _ _ _ _ _ _ _ _ Hsel).
  - intros a Hin. destruct (decide (pred a ∈ ps)) as [Hp|Hp]; [by eapply Hinside|].
    intros src Hs. apply means_has_rows. apply (outside_represents S r a Hr Hh (or_introl Hin) Hp src Hs).
  - intros a Hin. apply (outside_represents S r a Hr Hh (or_intror Hin)). by eapply Hneg.
Qed.

#[local] Abbreviation N := (stratum_model sat program M ps).

(** The codes of the stratum's relations. *)
Definition codes (x : X) : Prop := exists p tup, fitting p tup /\ x = enc p tup /\ N p tup.

Lemma decoded_codes p tup : decoded codes p tup <-> length tup = arity_of analysis p /\ p ∈ ps /\ N p tup \/ (p ∉ ps) /\ M p tup.
Proof.
  unfold decoded. split.
  - intros [(Hp & Hl & q & tup' & Hq & He & HN)|?]; [|by right]. left.
    by destruct (Henc p q tup tup') as [-> ->].
  - intros [(Hl & Hp & HN)|?]; [|by right]. left. split_and!; [done|done|]. by exists p, tup.
Qed.

Lemma codes_closed : rows_closed codes.
Proof.
  intros r s t Ha Hs. destruct (Harm r s Ha) as (Hr & Hh & _).
  apply (arm_sound codes r s) in Hs as (tup & -> & Hd); [|by intros x (p & tup & ? & ? & _); exists p, tup|done].
  exists (head_pred (head r)), tup. split_and!; [|by apply Hout|].
  - split; [done|]. rewrite <- (Harity r) by done. by eapply rule_derives_length.
  - apply stratum_model_closed; [done|done|done|]. revert Hd. apply rule_derives_mono.
    + intros a t _ [(_ & _ & H)|[Hp H]]%decoded_codes; [done|]. by apply stratum_model_outside.
    + intros a t Hin H. apply decoded_codes. right. assert (pred a ∉ ps) as Hp by by eapply Hneg.
      split; [done|]. by apply stratum_model_outside in H.
Qed.

Lemma least_rows x : (forall S, rows_closed S -> S x) <-> codes x.
Proof.
  split; [intros H; apply H; apply codes_closed|]. intros (p & tup & [Hp Hl] & -> & HN) S HS.
  rewrite stratum_model_inside in HN by done.
  destruct (HN (decoded S)) as [(_ & _ & ?)|[? _]]; [| |done|done].
  - intros q t Hq. unfold decoded. tauto.
  - intros r t Hr Hh Hd. left. split; [done|]. split; [rewrite <- (Harity r) by done; by eapply rule_derives_length|].
    destruct (Hall r Hr Hh) as [s Ha]. rewrite <- Hout. apply (HS r s); [done|]. by apply (arm_complete S r s).
Qed.
End least.
