(* ===== verification/SqlArms.v ===== *)
(** * The arms of a relation

    The rules of an accepted program are compiled to SELECTs of [SqlPlan] under the names the
    compiler hands out, which are distinct; padding a SELECT to the width of a tagged relation
    pads its columns. *)

From S2P Require Export SqlLayer Accepted.

(** ** Padding *)

Lemma ok_inj {E A} (a b : A) : @Ok E A a = Ok b -> a = b.
Proof. by intros [=]. Qed.

Lemma split_word w rest :
  word w = true ->
  split_projection_from 0 false (w +:+ rest) = ((w +:+ (split_projection_from 0 false rest).1), (split_projection_from 0 false rest).2).
Proof.
  unfold word. induction w as [|c w IH]; cbn [all_chars].
  { intros _. cbn. by destruct (split_projection_from 0 false rest). }
  intros [Hc Hw]%andb_true_iff. specialize (IH Hw).
  cbn [String.append split_projection_from].
  rewrite (word_char_not c " "), (word_char_not c "'"), (word_char_not c "("), (word_char_not c ")") by done.
  change (0 =? 0) with true. cbn [negb andb]. change ((w +:+ rest)) with (w +:+ rest). by rewrite IH.
Qed.

(** A text that does not begin with an [f]. *)
Definition no_f (s : string) : Prop :=
  match s with String c _ => to_ascii_uppercase_byte c <> "F"%char | EmptyString => False end.

Lemma split_comma w rest :
  word w = true -> no_f w ->
  split_projection_from 0 false (", " +:+ (w +:+ rest)) =
    ((", " +:+ w) +:+ (split_projection_from 0 false rest).1, (split_projection_from 0 false rest).2).
Proof.
  intros Hw Hf. rewrite <- string_app_assoc. cbn [String.append split_projection_from].
  destruct w as [|c w]; [done|].
  assert (String.eqb (to_ascii_uppercase (String.substring 0 6 (String " " ((String c w) +:+ rest)))) " FROM " = false) as ->.
  { apply String.eqb_neq. cbn. intros [= E]. done. }
  cbn [String.eqb]. change (Ascii.eqb "," " ") with false. change (Ascii.eqb " " " ") with true.
  change (Ascii.eqb "," "'") with false. change (Ascii.eqb "," "(") with false. change (Ascii.eqb "," ")") with false.
  change (Ascii.eqb " " "'") with false. change (Ascii.eqb " " "(") with false. change (Ascii.eqb " " ")") with false.
  change (0 =? 0) with true. cbn [negb andb].
  rewrite (split_word (String c w) rest Hw). done.
Qed.

(** What follows the projection: nothing or the FROM. *)
Definition tail_text (t : string) : Prop := t = "" \/ exists x, t = " FROM " +:+ x.

Lemma split_tail t : tail_text t -> split_projection_from 0 false t = ("", t).
Proof. intros [-> | [x ->]]; [done|]. by destruct x. Qed.

Definition comma_list (l : list string) (t : string) : string := foldr (fun w r => ", " +:+ (w +:+ r)) t l.

Lemma join_comma_list w l t : join ", " (w :: l) +:+ t = w +:+ comma_list l t.
Proof.
  revert w. induction l as [|v l IH]; intros w; [done|].
  change (join ", " (w :: v :: l)) with (w +:+ (", " +:+ join ", " (v :: l))).
  rewrite <- !string_app_assoc. f_equal. cbn [comma_list foldr]. f_equal. apply IH.
Qed.

Lemma split_comma_list l t :
  Forall (fun w => word w = true /\ no_f w) l -> tail_text t ->
  split_projection_from 0 false (comma_list l t) = (comma_list l "", t).
Proof.
  intros Hl Ht. induction Hl as [|w l [Hw Hf] _ IH]; [by apply split_tail|]. cbn [comma_list foldr].
  rewrite split_comma by done. fold (comma_list l t). rewrite IH. cbn [fst snd].
  fold (comma_list l ""). by rewrite <- string_app_assoc.
Qed.

Lemma split_projection_words l t :
  Forall (fun w => word w = true /\ no_f w) l -> tail_text t ->
  split_projection (join ", " l +:+ t) = (join ", " l, t).
Proof.
  intros Hl Ht. unfold split_projection. destruct l as [|w l]; [by apply split_tail|].
  apply Forall_cons in Hl as [[Hw _] Hl]. rewrite join_comma_list, split_word, split_comma_list by done. cbn [fst snd].
  rewrite <- join_comma_list. by rewrite string_app_nil_r.
Qed.

Lemma show_Z_char z : exists c s, show_Z z = String c s /\ (is_ascii_digit c || Ascii.eqb c "-") = true.
Proof.
  pose proof (show_Z_number z) as Hn. destruct (show_Z z) as [|c s] eqn:E.
  - destruct (Z.neg_nonneg_cases z); [by destruct z|]. by destruct (show_Z_digits z).
  - exists c, s. split; [done|]. cbn in Hn. by apply andb_true_iff in Hn as [? _].
Qed.

Lemma operand_no_f o : o <> ONull -> no_f (print_operand o).
Proof.
  destruct o as [c|z|]; [done| |done]. intros _. cbn [print_operand]. destruct (show_Z_char z) as (c & s & -> & Hc).
  cbn. intros E. destruct c as [[] [] [] [] [] [] [] []]; try discriminate Hc; by vm_compute in E.
Qed.

(** [n] more columns after the projection, and the tag before it. *)
Definition pad_plan {OX : Oxrdf} (tag n : nat) (s : Select) : Select :=
  mkSelect (OId (Z.of_nat tag) :: s_projection s ++ replicate n ONull) (s_from s) (s_where s).

Lemma nulls_comma n : nulls n = comma_list (replicate n "NULL") "".
Proof.
  unfold nulls. induction n as [|n IH]; [done|]. cbn [replicate comma_list foldr].
  fold (comma_list (replicate n "NULL") ""). rewrite <- IH. by destruct n.
Qed.

Lemma nulls_join w l n : join ", " (w :: l) +:+ nulls n = join ", " ((w :: l) ++ replicate n "NULL").
Proof.
  rewrite join_comma_list. cbn [app]. rewrite <- (string_app_nil_r (join ", " (w :: l ++ _))), join_comma_list, nulls_comma.
  f_equal. induction l as [|v l IH]; [done|]. cbn [app comma_list foldr]. do 2 f_equal. apply IH.
Qed.

Section pad.
Context {OX : Oxrdf} {XX : Xxh3} {TD : TermDisplay} (caps : Capabilities).

(** What [print_select] writes after the projection. *)
Definition select_tail (s : Select) : string :=
  match s_from s with
  | [] => where_clause (print_cond caps <$> s_where s)
  | l => " FROM " +:+ join ", " (print_from <$> l) +:+ where_clause (print_cond caps <$> s_where s)
  end.

Lemma print_select_tail s : print_select caps s = "SELECT " +:+ (join ", " (print_operand <$> s_projection s) +:+ select_tail s).
Proof. done. Qed.

Lemma pad_select_plan s tag arity width t :
  Forall (fun o => o <> ONull /\ word (print_operand o) = true) (s_projection s) ->
  length (s_projection s) = arity -> (0 < arity)%nat -> (s_from s = [] -> s_where s = []) ->
  pad_select (print_select caps s) tag arity width = Ok t ->
  t = print_select caps (pad_plan tag (width - arity) s).
Proof.
  intros Hw Hl Ha Hf. unfold pad_select. rewrite print_select_tail, strip_prefix_app.
  destruct s as [proj from wh]. cbn [s_projection s_from s_where] in *. destruct proj as [|o proj]; [cbn in Hl; lia|].
  rewrite (print_select_tail (pad_plan _ _ _)). unfold pad_plan, select_tail. cbn [s_projection s_from s_where].
  cbn [fmap list_fmap]. rewrite fmap_app, fmap_replicate.
  assert (forall l, join ", " (print_operand (OId (Z.of_nat tag)) :: l) = match l with [] => show_nat tag | _ => show_nat tag +:+ (", " +:+ join ", " l) end) as Hj
    by by intros [].
  rewrite Hj. cbn [app]. destruct (Nat.eqb_spec arity width) as [->|Hne].
  { intros <-%ok_inj. rewrite Nat.sub_diag. cbn [replicate]. rewrite app_nil_r. cbn [fmap list_fmap].
    by rewrite <- !string_app_assoc. }
  rewrite split_projection_words.
  - intros <-%ok_inj. cbn [fmap list_fmap].
    rewrite (string_app_assoc (join _ _) (nulls _)), (nulls_join (print_operand o)). cbn [app]. by rewrite <- !string_app_assoc.
  - change (Forall (fun w => word w = true /\ no_f w) (print_operand <$> (o :: proj))). apply Forall_fmap.
    eapply Forall_impl; [exact Hw|]. intros x [Hx ?]. split; [done|by apply operand_no_f].
  - destruct from as [|f from]; [rewrite (Hf eq_refl); by left|right]. eexists. done.
Qed.
End pad.

(** ** Names *)

Definition member_name (n : nat) : string := "dl" +:+ show_nat n.
Definition component_name (n : nat) : string := "scc" +:+ show_nat n.
(** The names of the tables of a [WITH RECURSIVE] list. *)
Definition table_name (s : string) : Prop := exists n, s = member_name n \/ s = component_name n.

Lemma member_name_inj m n : member_name m = member_name n -> m = n.
Proof. unfold member_name. cbn. intros [= E]. by apply show_nat_inj. Qed.

Lemma member_component m n : member_name m <> component_name n.
Proof. done. Qed.

Lemma table_name_clean s : table_name s -> clean s = true.
Proof.
  intros (n & [-> | ->]); unfold member_name, component_name; rewrite clean_app, (word_clean (show_nat n)); by try apply show_nat_word.
Qed.

Section names.
Context {OX : Oxrdf} {XX : Xxh3} {SD : StrDebug} {TD : TermDisplay} {LC : Lowercase}.

(** The names of the predicates [ps]: distinct, with numbers below [n]. *)
Record names_ok (names : gmap Pred string) (ps : list Pred) (n : nat) : Prop := {
  no_dom p : is_Some (names !! p) <-> p ∈ ps;
  no_name p s : names !! p = Some s -> exists i, (i < n)%nat /\ s = member_name i;
  no_inj p q s : names !! p = Some s -> names !! q = Some s -> p = q;
}.

Lemma names_ok_clean names ps n p s : names_ok names ps n -> names !! p = Some s -> clean s = true.
Proof. intros Hn (i & _ & ->)%(no_name _ _ _ Hn). apply table_name_clean. exists i. by left. Qed.

Lemma names_ok_insert names ps n p : names_ok names ps n -> names_ok (<[p := member_name n]> names) (ps ++ [p]) (S n).
Proof.
  intros [Hd Hn Hi]. assert (forall q s, names !! q = Some s -> s <> member_name n) as Hfresh.
  { intros q s (i & Hlt & ->)%Hn E%member_name_inj. lia. }
  constructor.
  - intros q. rewrite lookup_insert_is_Some', Hd, elem_of_app, list_elem_of_singleton. naive_solver.
  - intros q s [[<- <-]|[_ Hs]]%lookup_insert_Some; [exists n; split; [lia|done]|].
    apply Hn in Hs as (i & ? & ->). exists i. split; [lia|done].
  - intros q q' s [[<- <-]|[Hq Hs]]%lookup_insert_Some [[<- E]|[Hq' Hs']]%lookup_insert_Some; [done| | |by eapply Hi].
    + by destruct (Hfresh _ _ Hs').
    + subst s. by destruct (Hfresh _ _ Hs).
Qed.

Lemma assign_stratum_ok s n k n' k' ps :
  names_ok (k_names k) ps n -> assign_stratum n s k = Ok (n', k') ->
  names_ok (k_names k') (ps ++ preds s) n' /\ k_fixpoint_rel k' = k_fixpoint_rel k.
Proof.
  unfold assign_stratum. revert n k ps. induction (preds s) as [|p l IH]; intros n k ps Hn Hk; cbn [foldC] in Hk.
  { inv_comp. by rewrite app_nil_r. }
  inv_comp. match goal with E : name_pred _ _ _ = _ |- _ => unfold name_pred in E end. inv_comp.
  apply (IH _ _ (ps ++ [p])) in Hk as [H1 H2]; [|by apply names_ok_insert].
  rewrite <- app_assoc in H1. by split.
Qed.

Lemma assign_names_ok (a : Analysis) k u k' :
  k_names k = ∅ -> assign_names a k = Ok (u, k') ->
  exists n, names_ok (k_names k') (strata a ≫= preds) n /\ k_fixpoint_rel k' = k_fixpoint_rel k.
Proof.
  intros Hk H. unfold assign_names in H. inv_comp.
  assert (names_ok (k_names k) [] 0) as Hn.
  { rewrite Hk. constructor; [|by intros p s ?%lookup_empty_Some|by intros p q s ?%lookup_empty_Some].
    intros p. rewrite lookup_empty. split; [by intros [? ?]|by intros ?%elem_of_nil]. }
  match goal with E : foldC _ _ _ _ = _ |- _ => rename E into Ef end.
  assert (forall l ps n k n' k', names_ok (k_names k) ps n -> foldC assign_stratum n l k = Ok (n', k') ->
    names_ok (k_names k') (ps ++ (l ≫= preds)) n' /\ k_fixpoint_rel k' = k_fixpoint_rel k) as Hl.
  { clear. intros l. induction l as [|s l IH]; intros ps n k n' k' Hn H; cbn [foldC] in H.
    - inv_comp. cbn. by rewrite app_nil_r.
    - inv_comp. match goal with E : assign_stratum _ _ _ = _ |- _ => apply (assign_stratum_ok _ _ _ _ _ ps) in E as [H1 H2]; [|done] end.
      apply (IH _ _ _ _ _ H1) in H as [H3 H4]. cbn. rewrite app_assoc. split; [done|congruence]. }
  apply (Hl _ [] _ _ _ _ Hn) in Ef as [H1 H2]. by eexists.
Qed.
End names.

(** ** The rules of a plain program *)

Section programs.
Context {OX : Oxrdf} {XX : Xxh3} {SD : StrDebug} {TD : TermDisplay} {LC : Lowercase}.

(** The fragment: stored and derived atoms without [at], heads without aggregates. The parser
    gives [triple] its three or four arguments and every head one at least; a rule without
    positive atoms is a fact; string constants do not hold the byte that delimits the
    compiler's placeholders. *)
Definition plain_read (program : Program) (b : Atom) : Prop :=
  at_ b = None /\
  (derived program (pred b) \/
   match pred b with
   | Edb _ => True
   | PTriple graph => length (args b) = if graph then 4%nat else 3%nat
   | _ => False
   end).

Record plain_program (program : Program) : Prop := {
  pp_atoms b : program_atom program b -> plain_read program b;
  pp_heads r : r ∈ rules program -> aggregates (head r) = false /\ head_args (head r) <> [];
  pp_facts r : r ∈ rules program -> positive r = [] -> body r = [];
  pp_exprs r e : r ∈ rules program -> Constraint e ∈ body r -> plain_expr e = true;
  pp_goal g : goal program = Some g -> forallb plain_expr (goal_constraints g) = true;
}.

Context (program : Program) (a : Analysis) (H : analyse program = Ok a).
Context (caps : Capabilities) (options : Options) (run_no : Z).
Context (Hplain : plain_program program).

Lemma is_derived_iff p : is_derived a p = true <-> derived program p.
Proof. unfold is_derived. rewrite bool_decide_eq_true. by apply accepted_derived. Qed.

Lemma rule_arity r : r ∈ rules program -> length (head_args (head r)) = arity_of a (head_pred (head r)).
Proof. intros Hr. unfold arity_of. by rewrite (accepted_head program a H r Hr). Qed.

Lemma plain_atom_of b : plain_read program b -> plain_atom a b.
Proof. intros [Hat Hp]. split; [done|]. rewrite is_derived_iff. destruct Hp as [|Hp]; [by left|right]. by destruct (pred b). Qed.

Section at_names.
Context (names : gmap Pred string) (rels : gmap Pred nat) (scc : option SccCtx).

Lemma numbered_length n : length (numbered n) = n.
Proof. unfold numbered. by rewrite length_fmap, length_seq. Qed.

Lemma derived_cols p n s :
  derived program p -> plan_source a options run_no names rels scc p n = Some s -> ps_cols s = numbered (arity_of a p).
Proof.
  intros Hd%is_derived_iff. unfold plan_source. rewrite Hd. destruct (rels !! p); [by intros [= <-]|].
  destruct (match scc with Some _ => _ | None => _ end) as [[m t]|]; [by intros [= <-]|].
  destruct (names !! p); intros [= <-]. done.
Qed.

Lemma plain_fits b : program_atom program b -> plain_read program b -> fits a options run_no names rels scc b.
Proof.
  intros Hb [_ Hp] s Hs. destruct (decide (is_derived a (pred b) = true)) as [Hd|Hd].
  { apply is_derived_iff in Hd. rewrite (derived_cols _ _ _ Hd Hs), numbered_length.
    unfold arity_of. by rewrite (accepted_atom program a H b Hb Hd). }
  destruct Hp as [Hp%is_derived_iff|Hp]; [done|]. unfold plan_source in Hs.
  apply not_true_is_false in Hd. rewrite Hd in Hs. pose proof (accepted_iri program a H b) as Hiri.
  destruct (pred b) as [iri| |[]| |]; [|done|..|done|done]; injection Hs as <-; cbn [ps_cols]; [|done..].
  by destruct (Hiri iri Hb eq_refl) as [-> | ->].
Qed.

Lemma plain_rules r : r ∈ rules program -> plain_rule a options run_no names rels scc r.
Proof.
  intros Hr. assert (forall b, BAtom b ∈ body r \/ Negated b ∈ body r -> program_atom program b) as Hat.
  { intros b [Hb|Hb]; left; eexists r, _; by split_and!. }
  constructor.
  - by apply (pp_heads program).
  - intros b Hb%Hat. pose proof (pp_atoms program Hplain b Hb) as Hp.
    split; [by apply plain_atom_of|by apply plain_fits].
  - intros e. by apply (pp_exprs program).
  - intros b v Hb Hv. by apply (safe_negated _ (accepted_safe program a H r Hr) b).
Qed.

Context (Hnames : forall p n, names !! p = Some n -> clean n = true).
Context (Hscc : match scc with Some (n, _) => clean n = true | None => True end).
Context (sat : Expr -> (string -> option Z) -> Prop).
Context (sat_ext : forall e f g, (forall v, occurs v e -> f v = g v) -> sat e f -> sat e g).

(** A loop whose steps keep the names. *)
Lemma mapC_plan {A B} (f : A -> comp B) (P : A -> B -> Prop) l k out k' :
  (forall x k y k', at_names names rels k -> x ∈ l -> f x k = Ok (y, k') -> same_names k k' /\ P x y) ->
  at_names names rels k -> mapC f l k = Ok (out, k') -> same_names k k' /\ Forall2 P l out.
Proof.
  revert k out. induction l as [|x l IH]; intros k out Hf Hk Hm; cbn in Hm; inv_comp; [done|].
  match goal with E : f x _ = _ |- _ => apply Hf in E as [Hn HP]; [|done|by left] end.
  match goal with E : mapC f l _ = _ |- _ => apply IH in E as [Hn' HPs] end.
  - split; [by etrans|by constructor].
  - intros z k1 y k1' Hk1 Hz. apply Hf; [done|by right].
  - destruct Hk, Hn. split; congruence.
Qed.

(** The SELECT of a rule of the predicate. *)
Definition arm_of (p : Pred) (rs : Rule * Select) : Prop :=
  rs.1 ∈ rules_for program p /\ exists text, select_of a caps options run_no names rels scc sat rs.1 text rs.2.

Lemma rule_selects_part p l k texts k' :
  at_names names rels k -> (forall r, r ∈ l -> r ∈ rules_for program p) ->
  mapC (fun r => rule_select a caps options run_no r scc) l k = Ok (texts, k') ->
  same_names k k' /\ exists arms, texts = (fun rs => print_select caps rs.2) <$> arms /\ fst <$> arms = l /\ Forall (arm_of p) arms.
Proof.
  intros Hk Hl Hm. eapply (mapC_plan _ (fun r t => exists s, t = print_select caps s /\ arm_of p (r, s))) in Hm as [Hn Hm]; [| |done].
  - split; [done|]. clear Hl. induction Hm as [|r t l ts (s & -> & Hs) _ (arms & -> & <- & Ha)]; [by exists []|].
    exists ((r, s) :: arms). split_and!; [done|done|by constructor].
  - intros r k1 t k1' Hk1 Hr. pose proof (Hl r Hr) as Hr'. unfold rules_for in Hr'. apply list_elem_of_filter in Hr' as [_ Hr'].
    intros Ht. apply (rule_select_plan a caps options run_no names rels scc sat sat_ext Hnames Hscc) in Ht as [Hn (s & Hs)]; [|done|by apply plain_rules].
    split; [done|]. exists s. split; [apply Hs|]. split; [by apply Hl|by eexists].
Qed.

Lemma rule_selects_plan p k texts k' :
  at_names names rels k ->
  rule_selects program a caps options run_no p scc k = Ok (texts, k') ->
  same_names k k' /\ exists arms, texts = (fun rs => print_select caps rs.2) <$> arms /\ Forall (arm_of p) arms /\
    forall r, r ∈ rules_for program p -> exists s, (r, s) ∈ arms.
Proof.
  intros Hk Hr. unfold rule_selects in Hr. inv_comp.
  assert (forall f r, r ∈ List.filter f (rules_for program p) <-> r ∈ rules_for program p /\ f r = true) as Hfl.
  { intros f r. rewrite list_elem_of_In, filter_In, <- list_elem_of_In. done. }
  match goal with E : mapC _ _ k = _ |- _ =>
    apply (rule_selects_part p) in E as (Hn1 & arms1 & -> & Hf1 & Ha1); [|done|by intros r [? _]%Hfl] end.
  match goal with E : mapC _ _ _ = _ |- _ =>
    apply (rule_selects_part p) in E as (Hn2 & arms2 & -> & Hf2 & Ha2); [|destruct Hk, Hn1; split; congruence|by intros r [? _]%Hfl] end.
  split; [by etrans|]. exists (arms1 ++ arms2). rewrite fmap_app, Forall_app. split_and!; [done|done|done|].
  intros r Hr. setoid_rewrite elem_of_app.
  assert (r ∈ fst <$> arms1 \/ r ∈ fst <$> arms2) as Hin.
  { rewrite Hf1, Hf2, !Hfl. destruct (recursive_in _ r); [right|left]; done. }
  destruct Hin as [([r' s] & -> & Hs)%list_elem_of_fmap|([r' s] & -> & Hs)%list_elem_of_fmap]; exists s; auto.
Qed.
End at_names.
End programs.
