(* ===== verification/SqlProgram.v ===== *)
(** * The compiled statement answers the goal

    Stratum by stratum, the tables and the work table the compiler sets up hold the relations
    of the model ([built]); the final SELECT therefore returns the goal's answers
    ([compile_correct]). *)

From S2P Require Export SqlArms.

(** ** Rows and tables *)

Lemma row_exists (cols : list string) (vals : list (option Z)) :
  NoDup cols -> length cols = length vals -> exists r : Row, r <$> cols = vals.
Proof.
  intros Hnd. revert vals. induction Hnd as [|c cols Hc _ IH]; intros [|v vals] Hl; try done.
  { by exists (fun _ => None). }
  destruct (IH vals) as [r Hr]; [by injection Hl|]. exists (fun x => if decide (x = c) then v else r x).
  cbn. rewrite decide_True by done. f_equal. rewrite <- Hr. apply list_fmap_ext. intros i x Hx.
  rewrite decide_False; [done|]. intros ->. by apply Hc, list_elem_of_lookup_2 with i.
Qed.

Lemma numbered_nodup n : NoDup (numbered n).
Proof. unfold numbered. apply NoDup_fmap_2; [|apply NoDup_seq]. intros x y E. injection E. apply show_nat_inj. Qed.

Lemma numbered_char c n : c ∈ numbered n -> exists m, c = "c" +:+ show_nat m.
Proof. unfold numbered. intros (m & -> & _)%list_elem_of_fmap. by exists m. Qed.

Lemma named_numbered_nodup c n : (forall m, c <> "c" +:+ show_nat m) -> NoDup (c :: numbered n).
Proof. intros Hc. constructor; [|apply numbered_nodup]. intros (m & E)%numbered_char. by destruct (Hc m). Qed.

Lemma set_table_eq db n R : set_table db n R n = R.
Proof. unfold set_table. by rewrite decide_True. Qed.
Lemma set_table_ne db n m R : m <> n -> set_table db n R m = db m.
Proof. intros ?. unfold set_table. by rewrite decide_False. Qed.

Lemma means_set_table db n rows R s :
  ps_source s <> n -> means_source db R s -> means_source (set_table db n rows) R s.
Proof. intros Hn. apply means_source_db. intros r. by rewrite set_table_ne. Qed.

(** The rows that are tuples of a relation. *)
Definition tuples (R : list Z -> Prop) (t : list (option Z)) : Prop := exists tup, t = Some <$> tup /\ R tup.

Lemma some_inj (l l' : list Z) : Some <$> l = Some <$> l' -> l = l'.
Proof. apply list_fmap_eq_inj. by intros x y [= ->]. Qed.

Lemma table_means db n cols T (R : list Z -> Prop) :
  (forall t, T t <-> tuples (fun tup => length tup = length cols /\ R tup) t) ->
  NoDup cols -> means_source (set_table db n (table cols T)) R (mkPSource n cols []).
Proof.
  intros HT Hnd. constructor; cbn [ps_source ps_cols ps_extra]; rewrite set_table_eq; unfold table.
  - intros tup Hl. setoid_rewrite HT. split.
    + intros HR. destruct (row_exists cols (Some <$> tup)) as [r Hr]; [done|by rewrite length_fmap|].
      exists r. split_and!; [|by apply Forall_nil|done]. exists tup. by split_and!.
    + intros (r & (tup' & Hr & _ & HR) & _ & Hr'). rewrite Hr in Hr'. by apply some_inj in Hr' as ->.
  - intros r (tup & Hr & _)%HT _. by exists tup.
Qed.

Lemma table_reaches db n cols T (R : list Z -> Prop) :
  (forall tup, R tup -> T (Some <$> tup)) ->
  NoDup cols -> has_rows (set_table db n (table cols T)) R (mkPSource n cols []).
Proof.
  intros HT Hnd tup Hl HR. cbn in Hl |- *. destruct (row_exists cols (Some <$> tup)) as [r Hr]; [done|by rewrite length_fmap|].
  exists r. rewrite set_table_eq. unfold table. rewrite Hr. split_and!; [by apply HT|by apply Forall_nil|done].
Qed.

(** ** Tagged rows *)

(** The rows of several relations in one table: a tag, the tuple, and NULL up to the width. *)
Section tagged.
Context {OX : Oxrdf} (ps : list Pred) (ar : Pred -> nat).

Definition tag_of (p : Pred) : nat := default 0%nat (position p ps).
Definition tag_width : nat := list_max (ar <$> ps).
Definition tag_cols : list string := "tag" :: numbered tag_width.
Definition tag_row (p : Pred) (t : list (option Z)) : list (option Z) :=
  Some (Z.of_nat (tag_of p)) :: t ++ replicate (tag_width - ar p) None.

Lemma position_elem p : p ∈ ps -> exists n, position p ps = Some n /\ ps !! n = Some p.
Proof.
  intros Hp. unfold position. destruct (list_find (fun q => q = p) ps) as [[n q]|] eqn:E.
  - apply list_find_Some in E as (Hn & -> & _). by exists n.
  - apply list_find_None in E. rewrite Forall_forall in E. by destruct (E p Hp).
Qed.

Lemma tag_inj p q : p ∈ ps -> q ∈ ps -> tag_of p = tag_of q -> p = q.
Proof.
  intros (n & Hn & Hp)%position_elem (m & Hm & Hq)%position_elem. unfold tag_of. rewrite Hn, Hm. cbn. intros ->. congruence.
Qed.

Lemma tag_at n p : NoDup ps -> ps !! n = Some p -> tag_of p = n.
Proof.
  intros Hnd Hn. pose proof (list_elem_of_lookup_2 _ _ _ Hn) as Hp. apply position_elem in Hp as (m & Hm & Hp).
  unfold tag_of. rewrite Hm. cbn. by eapply NoDup_lookup.
Qed.

Lemma width_le p : p ∈ ps -> (ar p <= tag_width)%nat.
Proof.
  intros Hp. unfold tag_width. pose proof (proj1 (list_max_le (ar <$> ps) _) (Nat.le_refl _)) as Hm.
  rewrite List.Forall_forall in Hm. apply Hm, list_elem_of_In, list_elem_of_fmap. by exists p.
Qed.

Lemma numbered_split p : p ∈ ps -> exists rest, numbered tag_width = numbered (ar p) ++ rest /\ length rest = (tag_width - ar p)%nat.
Proof.
  intros Hp%width_le. exists ((fun i => "c" +:+ show_nat i) <$> seq (ar p) (tag_width - ar p)).
  rewrite length_fmap, length_seq. split; [|done]. unfold numbered. rewrite <- fmap_app, <- seq_app. do 2 f_equal. lia.
Qed.

Lemma tag_cols_nodup : NoDup tag_cols.
Proof. apply named_numbered_nodup. by intros m. Qed.

Lemma tag_row_inj p q tup tup' :
  p ∈ ps -> q ∈ ps -> length tup = ar p -> length tup' = ar q ->
  tag_row p (Some <$> tup) = tag_row q (Some <$> tup') -> p = q /\ tup = tup'.
Proof.
  intros Hp Hq Hl Hl' [= Ht E]. apply Nat2Z.inj, tag_inj in Ht as ->; [|done..]. split; [done|].
  apply app_inj_1 in E as [E _]; [by apply some_inj|]. rewrite !length_fmap. congruence.
Qed.

(** Reading a tagged row back. *)
Lemma tag_row_read p q tup (r : Row) :
  p ∈ ps -> q ∈ ps -> length tup = ar q -> r <$> tag_cols = tag_row q (Some <$> tup) ->
  r "tag" = Some (Z.of_nat (tag_of p)) -> q = p /\ r <$> numbered (ar p) = Some <$> tup.
Proof.
  intros Hp Hq Hl [= Ht E] Hr. assert (tag_of p = tag_of q) as Hpq by (rewrite Hr in Ht; by simplify_eq).
  apply tag_inj in Hpq as ->; [|done..]. split; [done|].
  destruct (numbered_split q Hq) as (rest & Hn & Hrest). change (list_fmap _ _ r ?l) with (r <$> l) in E.
  rewrite Hn, fmap_app in E. apply app_inj_1 in E as [E _]; [done|].
  rewrite !length_fmap. unfold numbered. by rewrite length_fmap, length_seq.
Qed.

Lemma tag_row_exists p tup :
  p ∈ ps -> length tup = ar p -> exists r : Row, r <$> tag_cols = tag_row p (Some <$> tup) /\
    r "tag" = Some (Z.of_nat (tag_of p)) /\ r <$> numbered (ar p) = Some <$> tup.
Proof.
  intros Hp Hl. destruct (row_exists tag_cols (tag_row p (Some <$> tup))) as [r Hr]; [apply tag_cols_nodup|..].
  { destruct (numbered_split p Hp) as (rest & Hn & Hrest). unfold tag_cols, tag_row. cbn [length]. f_equal.
    rewrite Hn, !length_app, length_replicate, length_fmap, Hrest, Hl. unfold numbered. by rewrite length_fmap, length_seq. }
  assert (r "tag" = Some (Z.of_nat (tag_of p))) as Ht by (by injection Hr).
  exists r. split_and!; [done|done|]. by apply (tag_row_read p p tup r).
Qed.

(** The rows with the tag of a relation, in a table of tagged rows. *)
Lemma tagged_means db n (S : list (option Z) -> Prop) (R : Pred -> list Z -> Prop) p :
  (forall x, S x <-> exists q tup, q ∈ ps /\ length tup = ar q /\ x = tag_row q (Some <$> tup) /\ R q tup) -> p ∈ ps ->
  means_source (set_table db n (table tag_cols S)) (R p) (mkPSource n (numbered (ar p)) [("tag", Z.of_nat (tag_of p))]).
Proof.
  intros HS Hp. unfold extra_holds.
  constructor; cbn [ps_source ps_cols ps_extra]; rewrite set_table_eq; unfold table, extra_holds; setoid_rewrite Forall_singleton.
  - intros tup Hl. assert (length tup = ar p) as Hl' by (rewrite Hl; unfold numbered; by rewrite length_fmap, length_seq).
    setoid_rewrite HS. split.
    + intros HR. destruct (tag_row_exists p tup Hp Hl') as (r & Hr & Ht & Hc). exists r. split_and!; [|done|done]. by exists p, tup.
    + intros (r & (q & tup' & Hq & Hlq & Hr & HR) & Ht & Hc). destruct (tag_row_read p q tup' r) as [-> E]; [done..|].
      rewrite Hc in E. by apply some_inj in E as ->.
  - intros r (q & tup & Hq & Hlq & Hr & HR)%HS Ht. exists tup. by destruct (tag_row_read p q tup r) as [-> E].
Qed.

Lemma tagged_reaches db n (S : list (option Z) -> Prop) (R : list Z -> Prop) p :
  (forall tup, length tup = ar p -> R tup -> S (tag_row p (Some <$> tup))) -> p ∈ ps ->
  has_rows (set_table db n (table tag_cols S)) R (mkPSource n (numbered (ar p)) [("tag", Z.of_nat (tag_of p))]).
Proof.
  intros HS Hp tup Hl HR. cbn [ps_source ps_cols ps_extra] in *.
  assert (length tup = ar p) as Hl' by (rewrite Hl; unfold numbered; by rewrite length_fmap, length_seq).
  destruct (tag_row_exists p tup Hp Hl') as (r & Hr & Ht & Hc). exists r. rewrite set_table_eq. unfold table, extra_holds.
  rewrite Forall_singleton, Hr. split_and!; [by apply HS|done|done].
Qed.
End tagged.

(** ** The work table *)

Section work.
Context (run_no : Z) (D : Db) (W : Work) (HD : D "datalog_work" = work_table run_no W).
Context (rel n : nat) (R : list Z -> Prop).

Definition work_source : PSource := mkPSource "datalog_work" (numbered n) [("run", run_no); ("rel", Z.of_nat rel)].

Lemma work_reaches : (forall tup, length tup = n -> R tup -> W rel (Some <$> tup)) -> has_rows D R work_source.
Proof.
  intros HW tup Hl HR. cbn [ps_source ps_cols ps_extra work_source] in *.
  assert (length tup = n) as Hl' by (rewrite Hl; unfold numbered; by rewrite length_fmap, length_seq).
  destruct (row_exists ("run" :: "rel" :: numbered n) (Some run_no :: Some (Z.of_nat rel) :: (Some <$> tup))) as [r [= Hrun Hrel Hr]].
  { constructor; [|by apply named_numbered_nodup]. intros [E|(m & E)%numbered_char]%elem_of_cons; discriminate E. }
  { cbn. by rewrite length_fmap, Hl. }
  exists r. rewrite HD. split_and!; [|by repeat constructor|exact Hr].
  exists rel, (Some <$> tup). split_and!; [by apply HW|done|done|]. by rewrite length_fmap, Hl'.
Qed.

Lemma work_means :
  (forall t, W rel t <-> tuples (fun tup => length tup = n /\ R tup) t) -> means_source D R work_source.
Proof.
  intros HW. assert (forall r, D "datalog_work" r -> extra_holds r [("run", run_no); ("rel", Z.of_nat rel)] ->
    exists tup, r <$> numbered n = Some <$> tup /\ R tup) as Hread.
  { rewrite HD. intros r (rel' & t & Ht & _ & Hrel & Hr) Hex. unfold extra_holds in Hex. rewrite !Forall_cons in Hex.
    destruct Hex as (_ & Hrel' & _). cbn in Hrel'. assert (rel' = rel) as -> by (apply Nat2Z.inj; congruence).
    apply HW in Ht as (tup & -> & Hl & HR). rewrite length_fmap, Hl in Hr. by exists tup. }
  constructor; cbn [ps_source ps_cols ps_extra work_source].
  - intros tup Hl. split.
    + intros HR. apply work_reaches; [|done|done]. intros tup' Hl' HR'. apply HW. by exists tup'.
    + intros (r & Hr & Hex & Hc). destruct (Hread r Hr Hex) as (tup' & E & HR). rewrite Hc in E. by apply some_inj in E as ->.
  - intros r Hr Hex. destruct (Hread r Hr Hex) as (tup & E & _). by exists tup.
Qed.
End work.

(** ** The store *)

(** The source of the quads holds the quads [Q], without NULL. *)
Record stores {OX : Oxrdf} (options : Options) (db : Db) (Q : Z -> Z -> Z -> Z -> Prop) : Prop := {
  st_rows s p o g : Q s p o g <->
    exists r, db (quad_source options) r /\ r "s" = Some s /\ r "p" = Some p /\ r "o" = Some o /\ r "g" = Some g;
  st_not_null r : db (quad_source options) r ->
    exists s p o g, r "s" = Some s /\ r "p" = Some p /\ r "o" = Some o /\ r "g" = Some g;
}.

Lemma quad_source_name {OX : Oxrdf} (options : Options) : ~ table_name (quad_source options) /\ quad_source options <> "datalog_work".
Proof.
  unfold table_name, quad_source. destruct (o_as_of_tick options), (o_include_inferred options);
    (split; [intros (n & [E|E])|intros E]; discriminate E).
Qed.

Lemma work_name : ~ table_name "datalog_work".
Proof. intros (n & [E|E]); discriminate E. Qed.

Definition mem_name {OX : Oxrdf} (m : Member) : string := match m with MTable n _ _ | MView n _ _ _ => n end.

Section program.
Context {OX : Oxrdf} {XX : Xxh3} {SD : StrDebug} {TD : TermDisplay} {LC : Lowercase}.
Context (program : Program) (a : Analysis) (H : analyse program = Ok a).
Context (caps : Capabilities) (options : Options) (run_no : Z).
Context (Hplain : plain_program program).
Context (sat : Expr -> (string -> option Z) -> Prop).
Context (sat_ext : forall e f g, (forall v, occurs v e -> f v = g v) -> sat e f -> sat e g).
Context (Q : Z -> Z -> Z -> Z -> Prop).
Context (names : gmap Pred string) (bound : nat) (Hnames : names_ok names (strata a ≫= preds) bound).

#[local] Abbreviation plan := (fun rels scc => plan_source a options run_no names rels scc).
#[local] Abbreviation tables := (fun db W ms => with_members sat (with_work run_no db W) ms).

(** The model of the first [i] strata. *)
Definition model (i : nat) : Interp :=
  program_model sat program (preds <$> take i (strata a)) (edb (o_union_default_graph options) Q program).

(** The predicates read from the store or computed by the first [i] strata. *)
Definition ready (i : nat) (p : Pred) : Prop :=
  derived program p -> exists j s, (j < i)%nat /\ strata a !! j = Some s /\ p ∈ preds s.

(** The work table holds the relations kept in it. *)
Definition work_ok (i : nat) (rels : gmap Pred nat) (W : Work) : Prop :=
  forall p rel, rels !! p = Some rel -> forall t, W rel t <-> tuples (model i p) t.

(** What the first [i] strata have set up: every ready predicate's source means its relation. *)
Record built (i : nat) (rels : gmap Pred nat) (ms : list Member) (phs : list Phase) : Prop := {
  bu_names : Forall (fun m => table_name (mem_name m)) ms;
  bu_rels p rel : rels !! p = Some rel -> (rel < size rels)%nat /\ derived program p /\ ready i p;
  bu_inj p q rel : rels !! p = Some rel -> rels !! q = Some rel -> p = q;
  bu_work db : stores options db Q -> work_ok i rels (run_phases sat run_no db phs);
  bu_means db W p n s : stores options db Q -> work_ok i rels W -> ready i p -> plan rels None p n = Some s ->
    means_source (tables db W ms) (model i p) s;
}.

Lemma model_succ i s : strata a !! i = Some s -> model (S i) = stratum_model sat program (model i) (preds s).
Proof. intros Hi. unfold model. rewrite (take_S_r _ _ _ Hi), fmap_app; apply program_model_snoc. Qed.

Lemma with_members_other D ms src : (forall m, m ∈ ms -> mem_name m <> src) -> with_members sat D ms src = D src.
Proof.
  unfold with_members. revert D. induction ms as [|m ms IH]; intros D Hms; [done|]. cbn [foldl].
  rewrite IH by (intros; apply Hms; by right). pose proof (Hms m (list_elem_of_here _ _)) as Hm.
  destruct m; cbn in Hm |- *; by apply set_table_ne.
Qed.

Lemma with_members_cons D l1 m l2 :
  with_members sat D (l1 ++ m :: l2) = with_members sat (add_member sat (with_members sat D l1) m) l2.
Proof. unfold with_members. by rewrite foldl_app. Qed.

Lemma tables_other db W ms src :
  Forall (fun m => table_name (mem_name m)) ms -> ~ table_name src -> tables db W ms src = with_work run_no db W src.
Proof.
  intros Hms Hsrc. apply with_members_other. intros m Hm E. rewrite Forall_forall in Hms. specialize (Hms m Hm).
  by rewrite E in Hms.
Qed.

Lemma stores_tables db W ms :
  Forall (fun m => table_name (mem_name m)) ms -> stores options db Q -> stores options (tables db W ms) Q.
Proof.
  intros Hms Hst. destruct (quad_source_name options) as [Hn1 Hn2]. pose proof (tables_other db W ms _ Hms Hn1) as E.
  unfold with_work in E at 2. rewrite set_table_ne in E by done.
  destruct Hst as [H1 H2]. constructor; by rewrite E.
Qed.

(** *** Stored predicates *)

Lemma graph_condition r g :
  r "g" = Some g ->
  extra_holds r (if o_union_default_graph options then [] else [("g", 0)]) <-> (o_union_default_graph options = false -> g = 0).
Proof.
  intros Hg. unfold extra_holds. destruct (o_union_default_graph options); [by split|].
  rewrite Forall_singleton. cbn. rewrite Hg. split; [by intros [= ->]|]. intros E. by rewrite E.
Qed.

Lemma stored_means D rels scc p n s :
  stores options D Q -> is_derived a p = false -> plan rels scc p n = Some s ->
  means_source D (edb (o_union_default_graph options) Q program p) s.
Proof.
  intros [Hrows Hnn] Hd Hs. assert (~ derived program p) as Hnd by (rewrite <- (is_derived_iff program a H), Hd; done).
  assert (forall R : Z -> Z -> Z -> Z -> Prop, (exists s p o g, Q s p o g /\ (o_union_default_graph options = false -> g = 0) /\ R s p o g) <->
    exists r, D (quad_source options) r /\
      extra_holds r (if o_union_default_graph options then [] else [("g", 0)]) /\
      exists s p o g, r "s" = Some s /\ r "p" = Some p /\ r "o" = Some o /\ r "g" = Some g /\ R s p o g) as HR.
  { intros R. split.
    - intros (x & p' & o & g & (r & Hr & E1 & E2 & E3 & E4)%Hrows & Hg & HRr). exists r.
      rewrite (graph_condition r g E4). split_and!; [done|done|]. by exists x, p', o, g.
    - intros (r & Hr & Hg & x & p' & o & g & E1 & E2 & E3 & E4 & HRr). exists x, p', o, g.
      rewrite (graph_condition r g E4) in Hg. split_and!; [|done|done]. apply Hrows. by exists r. }
  assert (forall r, D (quad_source options) r -> forall cols : list string, (forall c, c ∈ cols -> c ∈ ["s"; "p"; "o"; "g"]) ->
    exists tup : list Z, r <$> cols = Some <$> tup) as Hnull.
  { intros r Hr cols. destruct (Hnn r Hr) as (x & p' & o & g & E1 & E2 & E3 & E4). induction cols as [|c cols IH]; intros Hc; [by exists []|].
    destruct IH as [tup Htup]; [intros d Hd'; apply Hc; by right|].
    assert (exists v, r c = Some v) as [v Hv].
    { specialize (Hc c (list_elem_of_here _ _)). set_solver. }
    exists (v :: tup). cbn. by rewrite Hv, Htup. }
  unfold plan_source in Hs. rewrite Hd in Hs.
  destruct p as [iri| |[]| |]; [destruct (n =? 1)%nat|..]; try discriminate Hs;
    injection Hs as <-; constructor; cbn [ps_source ps_cols ps_extra app];
    try (intros r Hr _; apply (Hnull r Hr); set_solver); intros tup Hl; cbn in Hl.
  - destruct tup as [|x [|]]; try discriminate Hl. transitivity (exists s p o g, Q s p o g /\
      (o_union_default_graph options = false -> g = 0) /\ s = x /\ p = rdf_type_id /\ o = named_node_id iri).
    { unfold edb. naive_solver. }
    rewrite HR. apply exist_proper. intros r. unfold extra_holds. rewrite !Forall_cons. cbn. split.
    + intros (Hr & Hg & s & p & o & g & E1 & E2 & E3 & E4 & -> & -> & ->). split_and!; congruence.
    + intros (Hr & (E2 & E3 & Hg) & [= E1]). destruct (Hnn r Hr) as (_ & _ & _ & g & _ & _ & _ & E4).
      split_and!; [done|done|]. by eexists _, _, _, g.
  - destruct tup as [|x [|y [|]]]; try discriminate Hl. transitivity (exists s p o g, Q s p o g /\
      (o_union_default_graph options = false -> g = 0) /\ s = x /\ p = named_node_id iri /\ o = y).
    { unfold edb. naive_solver. }
    rewrite HR. apply exist_proper. intros r. unfold extra_holds. rewrite !Forall_cons. cbn. split.
    + intros (Hr & Hg & s & p & o & g & E1 & E2 & E3 & E4 & -> & -> & ->). split_and!; congruence.
    + intros (Hr & (E2 & Hg) & [= E1 E3]). destruct (Hnn r Hr) as (_ & _ & _ & g & _ & _ & _ & E4).
      split_and!; [done|done|]. by eexists _, _, _, g.
  - destruct tup as [|x [|y [|z [|w [|]]]]]; try discriminate Hl. unfold edb. rewrite Hrows. split.
    + intros (_ & r & Hr & E1 & E2 & E3 & E4). exists r. split_and!; [done|by apply Forall_nil|cbn; congruence].
    + intros (r & Hr & _ & [= E1 E2 E3 E4]). split; [done|]. by exists r.
  - destruct tup as [|x [|y [|z [|]]]]; try discriminate Hl. transitivity (exists s p o g, Q s p o g /\
      (o_union_default_graph options = false -> g = 0) /\ s = x /\ p = y /\ o = z).
    { unfold edb. naive_solver. }
    rewrite HR. apply exist_proper. intros r. cbn. split.
    + intros (Hr & Hg & s & p & o & g & E1 & E2 & E3 & E4 & -> & -> & ->). split_and!; congruence.
    + intros (Hr & Hg & [= E1 E2 E3]). destruct (Hnn r Hr) as (_ & _ & _ & g & _ & _ & _ & E4).
      split_and!; [done|done|]. by eexists _, _, _, g.
Qed.
(** *** Which strata a predicate needs *)

Lemma built_start : built 0 ∅ [] [].
Proof.
  constructor; [done|by intros p rel ?%lookup_empty_Some|by intros p q rel ?%lookup_empty_Some|..].
  - intros db _ p rel ?%lookup_empty_Some. done.
  - intros db W p n s Hst _ Hp Hs. apply (stored_means _ ∅ None p n); [by apply stores_tables| |done].
    apply not_true_is_false. intros (j & s' & Hj & _)%(is_derived_iff program a H)%Hp. lia.
Qed.

Section stratum.
Context (i : nat) (s : Stratum) (Hi : strata a !! i = Some s).

Lemma not_ready p : p ∈ preds s -> ~ ready i p.
Proof.
  intros Hp Hr. destruct Hr as (j & s' & Hj & Hs' & Hp'); [by eapply stratum_derived|].
  pose proof (stratum_unique program a H _ _ _ _ _ Hi Hs' Hp Hp'). lia.
Qed.

Lemma ready_succ p : ready (S i) p -> p ∉ preds s -> ready i p.
Proof.
  intros Hr Hp Hd. destruct (Hr Hd) as (j & s' & Hj & Hs' & Hp'). exists j, s'. split_and!; [|done|done].
  destruct (decide (j = i)) as [->|]; [|lia]. congruence.
Qed.

Lemma ready_before p : ready i p -> ready (S i) p.
Proof. intros Hr Hd. destruct (Hr Hd) as (j & s' & Hj & ?). exists j, s'. split; [lia|done]. Qed.

Lemma ready_in p : p ∈ preds s -> ready (S i) p.
Proof. intros Hp _. exists i, s. split_and!; [lia|done|done]. Qed.

Lemma reads_ready r b :
  r ∈ rules program -> head_pred (head r) ∈ preds s -> BAtom b ∈ body r \/ Negated b ∈ body r -> pred b ∉ preds s ->
  ready i (pred b).
Proof.
  intros Hr Hh Hb Hp Hd.
  assert (exists it d, it ∈ body r /\ item_dep (aggregates (head r)) it = Some (b, d)) as (it & d & Hit & Hdep).
  { destruct Hb as [Hb|Hb]; by eexists _, _. }
  destruct (stratum_reads program a H i s r it b d Hi Hr Hh Hit Hdep Hd) as (j & s' & Hj & Hin & Hle & _).
  exists j, s'. split_and!; [|done|done]. destruct (decide (j = i)) as [->|]; [|lia]. congruence.
Qed.

Lemma model_old p t : p ∉ preds s -> model (S i) p t <-> model i p t.
Proof. intros Hp. rewrite (model_succ i s Hi). by apply stratum_model_outside. Qed.

Lemma tuples_old p t : p ∉ preds s -> tuples (model (S i) p) t <-> tuples (model i p) t.
Proof. intros Hp. apply exist_proper. intros tup. by rewrite model_old. Qed.

Lemma work_ok_succ rels ms phs W : built i rels ms phs -> work_ok (S i) rels W <-> work_ok i rels W.
Proof.
  intros Hb. unfold work_ok. split; intros HW p rel Hp t; rewrite (HW p rel Hp t); apply exist_proper; intros tup;
    (rewrite model_old; [done|]); intros Hin; by apply (not_ready p Hin); apply (bu_rels _ _ _ _ Hb p rel).
Qed.

(** What the source of a predicate is called. *)
Lemma plan_source_named rels p n src :
  plan rels None p n = Some src ->
  (exists x, names !! p = Some x /\ ps_source src = x) \/ ~ table_name (ps_source src).
Proof.
  unfold plan_source. destruct (is_derived a p).
  - destruct (rels !! p); [intros [= <-]; right; apply work_name|]. cbn. destruct (names !! p) as [x|] eqn:E; intros [= <-].
    left. by exists x.
  - intros E. right. destruct p; [|done|..|done|done]; injection E as <-; apply quad_source_name.
Qed.

(** New tables for the predicates of the stratum. *)
Lemma built_tables rels ms phs new :
  built i rels ms phs -> Forall (fun m => table_name (mem_name m)) new ->
  (forall m q x, m ∈ new -> q ∉ preds s -> names !! q = Some x -> mem_name m <> x) ->
  (forall db W p n src, stores options db Q -> work_ok i rels W -> p ∈ preds s -> plan rels None p n = Some src ->
     means_source (with_members sat (tables db W ms) new) (model (S i) p) src) ->
  built (S i) rels (ms ++ new) phs.
Proof.
  intros Hb Hn Hfresh Hnew. constructor.
  - apply Forall_app. split; [apply Hb|done].
  - intros p rel Hp. destruct (bu_rels _ _ _ _ Hb p rel Hp) as (? & ? & ?).
    split; [done|]. split; [done|by apply ready_before].
  - apply Hb.
  - intros db Hst. apply (work_ok_succ _ _ _ _ Hb). by apply Hb.
  - intros db W p n src Hst HW Hr Hs. apply (work_ok_succ _ _ _ _ Hb) in HW.
    unfold with_members. rewrite foldl_app. change (foldl (add_member sat) ?x ms) with (with_members sat x ms).
    destruct (decide (p ∈ preds s)) as [Hp|Hp]; [by apply (Hnew db W p n)|].
    eapply means_source_ext; [intros tup _; symmetry; by apply model_old|].
    eapply means_source_db; [|apply (bu_means _ _ _ _ Hb db W p n); [done|done|by apply ready_succ|done]].
    intros r. change (foldl (add_member sat) ?x new) with (with_members sat x new). rewrite (with_members_other _ new); [done|].
    intros m Hm E. apply plan_source_named in Hs as [(x & Hx & Hsx)|Hs].
    + apply (Hfresh m p x); [done..|congruence].
    + rewrite Forall_forall in Hn. by apply Hs; rewrite <- E; apply Hn.
Qed.

Lemma plan_outside rels scc p n :
  match scc with Some (_, st) => p ∉ preds st | None => True end -> plan rels scc p n = plan rels None p n.
Proof.
  destruct scc as [[c st]|]; [|done]. intros Hp. unfold plan_source. destruct (is_derived a p); [|done].
  destruct (rels !! p); [done|]. unfold position. rewrite (proj2 (list_find_None _ _)); [done|].
  apply Forall_forall. by intros q Hq ->.
Qed.

Lemma rels_inside rels ms phs p : built i rels ms phs -> p ∈ preds s -> rels !! p = None.
Proof.
  intros Hb Hp. destruct (rels !! p) as [rel|] eqn:E; [|done]. apply (bu_rels _ _ _ _ Hb) in E as (_ & _ & Hr).
  by destruct (not_ready p Hp).
Qed.

Lemma arm_rule rels scc p rs :
  arm_of program a caps options run_no names rels scc sat p rs -> rs.1 ∈ rules program /\ head_pred (head rs.1) = p.
Proof. intros [Hr _]. by apply list_elem_of_filter in Hr as [? ?]. Qed.

(** *** One table for a predicate *)

Lemma single_table rels ms phs p n arms :
  preds s = [p] -> built i rels ms phs -> names !! p = Some n ->
  Forall (arm_of program a caps options run_no names rels None sat p) arms ->
  (forall r, r ∈ rules_for program p -> exists sel, (r, sel) ∈ arms) ->
  built (S i) rels (ms ++ [MTable n (numbered (arity_of a p)) (snd <$> arms)]) phs.
Proof.
  intros Hps Hb Hn Harms Hall. assert (p ∈ preds s) as Hp by (rewrite Hps; by left).
  apply built_tables; [done|..].
  { apply Forall_singleton. cbn. apply (no_name _ _ _ Hnames) in Hn as (m & _ & ->). exists m. by left. }
  { intros m q x ->%list_elem_of_singleton Hq Hx <-. cbn in Hx. apply Hq.
    by rewrite <- (no_inj _ _ _ Hnames p q n). }
  intros db W p' na src Hst HW Hp' Hs. rewrite Hps in Hp'. apply list_elem_of_singleton in Hp' as ->.
  set (D := tables db W ms). set (cols := numbered (arity_of a p)).
  assert (forall na, plan rels None p na = Some (mkPSource n cols [])) as Hplan.
  { intros na'. unfold plan_source. rewrite (proj2 (is_derived_iff program a H p)) by by eapply stratum_derived.
    by rewrite (rels_inside _ _ _ _ Hb Hp), Hn. }
  rewrite Hplan in Hs. injection Hs as <-. cbn [with_members foldl add_member].
  assert (length cols = arity_of a p) as Hcols by apply numbered_length.
  apply table_means; [|apply numbered_nodup]. intros t. unfold member_rows.
  transitivity (forall S : list (option Z) -> Prop,
    rows_closed sat (fun _ t => t) (fun S => set_table D n (table cols S)) (fun r sel => (r, sel) ∈ arms) S -> S t).
  { apply forall_proper. intros S. apply imp_iff_compat_r. unfold arms_closed, rows_closed. split.
    - intros Hc r sel t' Hin. apply Hc. apply list_elem_of_fmap. by exists (r, sel).
    - intros Hc sel t' ([r sel'] & -> & Hin)%list_elem_of_fmap. by apply (Hc r). }
  rewrite (least_rows program a caps options run_no names rels None sat (model i) (preds s)
    (rule_arity program a H) (stratum_negation_free program a H i s Hi) (fun _ tup => Some <$> tup)).
  - unfold codes, tuples. rewrite (model_succ i s Hi). split.
    + intros (q & tup & [Hq Hl] & -> & HN). rewrite Hps in Hq. apply list_elem_of_singleton in Hq as ->.
      exists tup. by rewrite Hcols.
    + intros (tup & -> & Hl & HN). exists p, tup. rewrite Hcols in Hl. by split_and!.
  - intros q q' tup tup' [Hq _] [Hq' _] E%some_inj. rewrite Hps in Hq, Hq'.
    apply list_elem_of_singleton in Hq, Hq'. by subst.
  - done.
  - intros r sel Hin. rewrite Forall_forall in Harms. pose proof (arm_rule _ _ _ _ (Harms _ Hin)) as [Hr Hh].
    split; [done|]. split; [cbn in Hh; by rewrite Hh|]. apply (Harms _ Hin).
  - intros r Hr Hh. rewrite Hps in Hh. apply list_elem_of_singleton in Hh. apply Hall. by apply list_elem_of_filter.
  - intros S r b Hr Hh Hin Hpb src Hsrc. apply means_set_table.
    + intros E. apply plan_source_named in Hsrc as [(x & Hx & Hsx)|Hsrc].
      * apply Hpb. by rewrite <- (no_inj _ _ _ Hnames p (pred b) n) by congruence.
      * apply Hsrc. rewrite E. apply (no_name _ _ _ Hnames) in Hn as (m & _ & ->). exists m. by left.
    + eapply bu_means; [done..| |done]. by eapply reads_ready.
  - intros S r b Hr Hh Hin Hpb. rewrite Hps in Hpb. apply list_elem_of_singleton in Hpb. split.
    + intros src Hsrc. rewrite Hpb, Hplan in Hsrc. injection Hsrc as <-. apply table_reaches; [|apply numbered_nodup].
      intros tup [(_ & _ & HS)|[Hx _]]; [done|]. by rewrite Hpb in Hx.
    + intros HS src Hsrc. rewrite Hpb, Hplan in Hsrc. injection Hsrc as <-. apply table_means; [|apply numbered_nodup].
      intros t'. split.
      * intros Ht. destruct (HS _ Ht) as (q & tup & [Hq Hl] & ->). rewrite Hps in Hq. apply list_elem_of_singleton in Hq as ->.
        exists tup. rewrite Hcols, Hpb. split_and!; [done|done|]. left. by split_and!.
      * intros (tup & -> & Hl & [(_ & _ & HSt)|[Hx _]]); [done|]. by rewrite Hpb in Hx.
Qed.

(** *** One tagged table for mutually recursive predicates *)

Lemma view_means D n scc cols tag R :
  means_source D R (mkPSource scc cols [("tag", Z.of_nat tag)]) -> NoDup cols ->
  means_source (add_member sat D (MView n cols scc tag)) R (mkPSource n cols []).
Proof.
  intros [Hrows Hnn] Hnd. cbn [ps_source ps_cols ps_extra] in *. unfold extra_holds in *. setoid_rewrite Forall_singleton in Hrows.
  setoid_rewrite Forall_singleton in Hnn. cbn [fst snd] in *.
  constructor; cbn [ps_source ps_cols ps_extra add_member]; rewrite set_table_eq.
  - intros tup Hl. rewrite (Hrows tup Hl). split.
    + intros (r & Hr & Ht & Hc). exists r. split_and!; [by exists r|by apply Forall_nil|done].
    + intros (r & (r' & Hr' & Ht & Hc') & _ & Hc). exists r'. split_and!; [done|done|congruence].
  - intros r (r' & Hr' & Ht & Hc') _. destruct (Hnn r' Hr' Ht) as [tup Htup]. exists tup. congruence.
Qed.

Definition view_of (scc : string) (tp : nat * Pred) : Member :=
  MView (default "" (names !! tp.2)) (numbered (arity_of a tp.2)) scc tp.1.

Lemma views_mean D scc l t p R :
  (forall m, scc <> member_name m) -> (forall tp, tp ∈ l -> is_Some (names !! tp.2)) -> NoDup l.*2 -> (t, p) ∈ l ->
  means_source D R (mkPSource scc (numbered (arity_of a p)) [("tag", Z.of_nat t)]) ->
  means_source (with_members sat D (view_of scc <$> l)) R (mkPSource (default "" (names !! p)) (numbered (arity_of a p)) []).
Proof.
  intros Hscc Hl Hnd Hin HD. apply list_elem_of_split in Hin as (l1 & l2 & ->).
  rewrite (fmap_app snd) in Hnd. rewrite (fmap_app (view_of scc)). cbn [fmap list_fmap] in Hnd |- *. rewrite with_members_cons.
  assert (forall tp, tp ∈ l1 ++ (t, p) :: l2 -> exists m, default "" (names !! tp.2) = member_name m /\ names !! tp.2 = Some (member_name m)) as Hm.
  { intros tp Htp. destruct (Hl tp Htp) as [x Hx]. rewrite Hx. cbn. apply (no_name _ _ _ Hnames) in Hx as (m & _ & ->). by exists m. }
  eapply (means_source_db (add_member sat (with_members sat D (view_of scc <$> l1)) (view_of scc (t, p)))).
  - intros r. cbn [ps_source]. rewrite (with_members_other _ (view_of scc <$> l2)); [done|].
    intros m (tp & -> & Htp)%list_elem_of_fmap E. cbn in E.
    destruct (Hm tp) as (m1 & E1 & N1); [set_solver|]. destruct (Hm (t, p)) as (m2 & E2 & N2); [set_solver|]. cbn in E2, N2.
    assert (tp.2 = p) as Heq by (apply (no_inj _ _ _ Hnames tp.2 p (member_name m1)); [done|]; congruence).
    apply NoDup_app in Hnd as (_ & _ & [Hp _]%NoDup_cons). apply Hp, list_elem_of_fmap. by exists tp.
  - cbn [view_of fst snd]. apply view_means; [|apply numbered_nodup].
    eapply means_source_db; [|exact HD]. intros r. cbn [ps_source]. rewrite (with_members_other _ (view_of scc <$> l1)); [done|].
    intros m (tp & -> & Htp)%list_elem_of_fmap E. cbn in E. destruct (Hm tp) as (m1 & E1 & _); [set_solver|].
    apply (Hscc m1). congruence.
Qed.

Lemma elem_of_enumerate_preds t p : (t, p) ∈ enumerate (preds s) <-> preds s !! t = Some p.
Proof. apply elem_of_enumerate. Qed.

Definition padded_arm (rs : Rule * Select) : Select :=
  let p := head_pred (head rs.1) in
  pad_plan (tag_of (preds s) p) (tag_width (preds s) (arity_of a) - arity_of a p) rs.2.

Lemma select_padded D rs t :
  select_rows sat D (padded_arm rs) t <->
  exists t', select_rows sat D rs.2 t' /\ t = tag_row (preds s) (arity_of a) (head_pred (head rs.1)) t'.
Proof.
  unfold select_rows, padded_arm, pad_plan, tag_row. cbn [s_from s_where s_projection]. setoid_rewrite fmap_cons.
  setoid_rewrite fmap_app. setoid_rewrite fmap_replicate. cbn [operand_value]. naive_solver.
Qed.

Lemma tagged_tables rels ms phs scc arms :
  built i rels ms phs -> scc = component_name i ->
  (forall rs, rs ∈ arms -> exists p, p ∈ preds s /\ arm_of program a caps options run_no names rels (Some (scc, s)) sat p rs) ->
  (forall r p, p ∈ preds s -> r ∈ rules_for program p -> exists sel, (r, sel) ∈ arms) ->
  built (S i) rels
    (ms ++ MTable scc (tag_cols (preds s) (arity_of a)) (padded_arm <$> arms) :: (view_of scc <$> enumerate (preds s))) phs.
Proof.
  intros Hb Hscc Harms Hall. assert (table_name scc) as Hsn by (exists i; by right).
  assert (forall m, scc <> member_name m) as Hsm by (intros m E; by apply (member_component m i); congruence).
  assert (forall p, p ∈ preds s -> is_Some (names !! p)) as Hdom.
  { intros p Hp. apply (no_dom _ _ _ Hnames). apply list_elem_of_bind. exists s. split; [done|by eapply list_elem_of_lookup_2]. }
  assert (forall tp, tp ∈ enumerate (preds s) -> tp.2 ∈ preds s) as Hen.
  { intros [t p] Htp%elem_of_enumerate. by eapply list_elem_of_lookup_2. }
  apply built_tables; [done|..].
  { constructor; [done|]. apply Forall_fmap, Forall_forall. intros tp Htp%Hen. destruct (Hdom _ Htp) as [x Hx].
    cbn. rewrite Hx. apply (no_name _ _ _ Hnames) in Hx as (m & _ & ->). exists m. by left. }
  { intros m q x [->|(tp & -> & Htp)%list_elem_of_fmap]%elem_of_cons Hq Hx; cbn.
    - apply (no_name _ _ _ Hnames) in Hx as (m & _ & ->). apply Hsm.
    - intros E. apply Hq. apply Hen in Htp. destruct (Hdom _ Htp) as [y Hy]. rewrite Hy in E. cbn in E. subst y.
      by rewrite (no_inj _ _ _ Hnames q tp.2 x). }
  intros db W p na src Hst HW Hp Hs. set (D := tables db W ms).
  assert (rels !! p = None) as Hrel by by eapply rels_inside.
  assert (src = mkPSource (default "" (names !! p)) (numbered (arity_of a p)) []) as ->.
  { unfold plan_source in Hs. rewrite (proj2 (is_derived_iff program a H p)), Hrel in Hs by by eapply stratum_derived.
    destruct (names !! p); [|done]. by injection Hs as <-. }
  change (with_members sat D (?m :: ?l)) with (with_members sat (add_member sat D m) l). cbn [add_member].
  destruct (list_elem_of_lookup_1 _ _ Hp) as [t Ht].
  assert (tag_of (preds s) p = t) as Htag by (apply tag_at; [by eapply stratum_nodup|done]).
  apply (views_mean _ _ _ t); [done|by intros tp ?%Hen%Hdom| |by apply elem_of_enumerate|].
  { unfold enumerate. rewrite snd_zip by (rewrite length_seq; lia). by eapply stratum_nodup. }
  rewrite <- Htag. apply (tagged_means (preds s) (arity_of a) D scc _ (model (S i))); [|done].
  intros x. unfold member_rows.
  set (dbf := fun S : list (option Z) -> Prop => set_table D scc (table (tag_cols (preds s) (arity_of a)) S)).
  set (out := fun (r : Rule) => tag_row (preds s) (arity_of a) (head_pred (head r))).
  transitivity (forall S, rows_closed sat out dbf (fun r sel => (r, sel) ∈ arms) S -> S x).
  { apply forall_proper. intros S. apply imp_iff_compat_r. unfold arms_closed, rows_closed. split.
    - intros Hc r sel t' Hin Ht'. apply (Hc (padded_arm (r, sel))); [by apply list_elem_of_fmap_2|].
      apply select_padded. by exists t'.
    - intros Hc sel t' (rs & -> & Hin)%list_elem_of_fmap (t1 & Ht1 & ->)%select_padded. destruct rs as [r sel].
      by apply (Hc r sel). }
  rewrite (least_rows program a caps options run_no names rels (Some (scc, s)) sat (model i) (preds s)
    (rule_arity program a H) (stratum_negation_free program a H i s Hi)
    (fun q tup => tag_row (preds s) (arity_of a) q (Some <$> tup))).
  - unfold codes. rewrite (model_succ i s Hi). split.
    + intros (q & tup & [Hq Hl] & -> & HN). by exists q, tup.
    + intros (q & tup & Hq & Hl & -> & HN). by exists q, tup.
  - intros q q' tup tup' [Hq Hl] [Hq' Hl']. by apply tag_row_inj.
  - done.
  - intros r sel Hin. destruct (Harms _ Hin) as (q & Hq & Ha). pose proof (arm_rule _ _ _ _ Ha) as [Hr Hh]. cbn in Hr, Hh.
    split; [done|]. split; [by rewrite Hh|]. apply Ha.
  - intros r Hr Hh. apply (Hall r (head_pred (head r))); [done|]. by apply list_elem_of_filter.
  - intros S r b Hr Hh Hin Hpb src Hsrc. rewrite plan_outside in Hsrc by done. apply means_set_table.
    + intros E. apply plan_source_named in Hsrc as [(y & Hy & Hsy)|Hsrc]; [|by rewrite E in Hsrc].
      apply (no_name _ _ _ Hnames) in Hy as (m & _ & ->). apply (Hsm m). congruence.
    + eapply bu_means; [done..| |done]. by eapply reads_ready.
  - intros S r b Hr Hh Hin Hpb.
    assert (forall na, plan rels (Some (scc, s)) (pred b) na =
      Some (mkPSource scc (numbered (arity_of a (pred b))) [("tag", Z.of_nat (tag_of (preds s) (pred b)))])) as Hplan.
    { intros na'. unfold plan_source. rewrite (proj2 (is_derived_iff program a H _)) by by eapply stratum_derived.
      rewrite (rels_inside _ _ _ _ Hb Hpb). unfold tag_of. by destruct (position_elem (preds s) (pred b) Hpb) as (m & -> & _). }
    split; [|intros HS]; intros src Hsrc; rewrite Hplan in Hsrc; injection Hsrc as <-.
    + apply tagged_reaches; [|done]. intros tup Hl [(_ & _ & HSt)|[Hx _]]; done.
    + apply (tagged_means (preds s) (arity_of a) D scc S (decoded a (model i) (preds s) _ S)); [|done].
      intros y. split.
      * intros Hy. destruct (HS y Hy) as (q & tup & [Hq Hl] & ->). exists q, tup. split_and!; [done|done|done|].
        left. by split_and!.
      * intros (q & tup & Hq & Hl & -> & [(_ & _ & HSt)|[Hx _]]); done.
Qed.

(** *** A phase of the work table *)

(** The relations of the stratum get the numbers from [base] on. *)
Definition work_rels (rels : gmap Pred nat) (base : nat) (rels' : gmap Pred nat) : Prop :=
  forall p, rels' !! p = match position p (preds s) with Some n => Some (base + n)%nat | None => rels !! p end.

Definition stratum_rels (base : nat) : list nat := (fun n => (base + n)%nat) <$> seq 0 (length (preds s)).

Definition insert_of (ms : list Member) (base : nat) (rs : Rule * Select) : SqlPlan.Insert :=
  let p := head_pred (head rs.1) in mkInsert ms (base + tag_of (preds s) p) (numbered (arity_of a p)) rs.2.

Lemma position_none p : p ∉ preds s -> position p (preds s) = None.
Proof.
  intros Hp. unfold position. rewrite (proj2 (list_find_None _ _)); [done|]. apply Forall_forall. by intros q Hq ->.
Qed.

Lemma position_some p : p ∈ preds s -> position p (preds s) = Some (tag_of (preds s) p) /\ preds s !! tag_of (preds s) p = Some p.
Proof. intros (n & Hn & Hp)%position_elem. unfold tag_of. by rewrite Hn. Qed.

Lemma elem_of_stratum_rels base p : p ∈ preds s -> (base + tag_of (preds s) p)%nat ∈ stratum_rels base.
Proof.
  intros [_ Hp%lookup_lt_Some]%position_some. unfold stratum_rels. apply list_elem_of_fmap. eexists. split; [done|].
  apply elem_of_seq. lia.
Qed.

Lemma stratum_rels_new base rel : rel ∈ stratum_rels base -> (base <= rel < base + length (preds s))%nat.
Proof. unfold stratum_rels. intros (n & -> & Hn%elem_of_seq)%list_elem_of_fmap. lia. Qed.

Section phase.
Context (rels rels' : gmap Pred nat) (ms : list Member) (phs : list Phase) (phase : Phase) (ins : list (Rule * Select)).
Context (Hb : built i rels ms phs) (Hrels : work_rels rels (size rels) rels').
Context (Hsize : size rels' = (size rels + length (preds s))%nat).
Context (Hphase : p_rels phase = stratum_rels (size rels)).
Context (Hins : forall x, x ∈ p_seed phase ++ p_step phase <-> x ∈ insert_of ms (size rels) <$> ins).
Context (Harms : forall rs, rs ∈ ins -> exists p, p ∈ preds s /\ arm_of program a caps options run_no names rels' None sat p rs).
Context (Hall : forall r p, p ∈ preds s -> r ∈ rules_for program p -> exists sel, (r, sel) ∈ ins).

Lemma work_rels_old p : p ∉ preds s -> rels' !! p = rels !! p.
Proof. intros Hp. by rewrite Hrels, position_none. Qed.

Lemma work_rels_new p : p ∈ preds s -> rels' !! p = Some (size rels + tag_of (preds s) p)%nat.
Proof. intros [Hp _]%position_some. by rewrite Hrels, Hp. Qed.

Lemma plan_old p n : p ∉ preds s -> plan rels' None p n = plan rels None p n.
Proof. intros Hp. unfold plan_source. by rewrite work_rels_old. Qed.

Lemma plan_new p n :
  p ∈ preds s -> plan rels' None p n = Some (work_source run_no (size rels + tag_of (preds s) p) (arity_of a p)).
Proof.
  intros Hp. unfold plan_source. rewrite (proj2 (is_derived_iff program a H p)) by by eapply stratum_derived.
  by rewrite work_rels_new.
Qed.

Lemma overlay_old W S : work_ok i rels W -> work_ok i rels (overlay (p_rels phase) W S).
Proof.
  intros HW p rel Hp t. rewrite <- (HW p rel Hp t). apply (bu_rels _ _ _ _ Hb) in Hp as (Hlt & _). unfold overlay.
  rewrite Hphase. split; [|right; split; [|done]; intros ?%stratum_rels_new; lia].
  intros [[?%stratum_rels_new _]|[_ ?]]; [lia|done].
Qed.

Lemma overlay_new W S rel t : rel ∈ stratum_rels (size rels) -> overlay (p_rels phase) W S rel t <-> S rel t.
Proof. intros Hr. unfold overlay. rewrite Hphase. tauto. Qed.

Lemma tables_work db W : tables db W ms "datalog_work" = work_table run_no W.
Proof.
  etrans; [apply (tables_other db W ms); [apply Hb|apply work_name]|]. apply set_table_eq.
Qed.

Lemma phase_rows db t p :
  stores options db Q -> p ∈ preds s ->
  run_phases sat run_no db (phs ++ [phase]) (size rels + tag_of (preds s) p)%nat t <->
  tuples (fun tup => length tup = arity_of a p /\ model (S i) p tup) t.
Proof.
  intros Hst Hp. unfold run_phases. rewrite foldl_app. cbn [foldl].
  change (foldl _ empty_work phs) with (run_phases sat run_no db phs). set (W := run_phases sat run_no db phs).
  assert (work_ok i rels W) as HW by by apply (bu_work _ _ _ _ Hb).
  unfold run_phase. rewrite overlay_new by by apply elem_of_stratum_rels.
  set (dbf := fun S : nat * list (option Z) -> Prop => tables db (overlay (p_rels phase) W (fun r t => S (r, t))) ms).
  set (enc := fun q (tup : list Z) => ((size rels + tag_of (preds s) q)%nat, Some <$> tup)).
  set (out := fun (r : Rule) (t : list (option Z)) => ((size rels + tag_of (preds s) (head_pred (head r)))%nat, t)).
  transitivity (forall S, rows_closed sat out dbf (fun r sel => (r, sel) ∈ ins) S -> S ((size rels + tag_of (preds s) p)%nat, t)).
  { split.
    - intros HS S Hc. apply (HS (fun r t => S (r, t))). intros x (rs & -> & Hin)%Hins%list_elem_of_fmap t' Ht'.
      destruct rs as [r sel]. apply overlay_new; [|by apply (Hc r sel)].
      destruct (Harms _ Hin) as (q & Hq & [_ Hh]%arm_rule). cbn in Hh |- *. rewrite Hh. by apply elem_of_stratum_rels.
    - intros HS S Hc. apply (HS (fun x => S x.1 x.2)). intros r sel t' Hin Ht'. cbn [fst snd out].
      destruct (Harms _ Hin) as (q & Hq & [_ Hh]%arm_rule). cbn in Hh.
      apply (overlay_new W); [rewrite Hh; by apply elem_of_stratum_rels|].
      apply (Hc (insert_of ms (size rels) (r, sel))); [apply Hins; by apply list_elem_of_fmap_2|]. exact Ht'. }
  rewrite (least_rows program a caps options run_no names rels' None sat (model i) (preds s)
    (rule_arity program a H) (stratum_negation_free program a H i s Hi) enc).
  - unfold codes, tuples. rewrite (model_succ i s Hi). split.
    + intros (q & tup & [Hq Hl] & [= E ->] & HN).
      assert (q = p) as -> by (apply (tag_inj (preds s)); [done..|lia]). by exists tup.
    + intros (tup & -> & Hl & HN). by exists p, tup.
  - intros q q' tup tup' [Hq _] [Hq' _] [= E E'%some_inj]. split; [|done]. apply (tag_inj (preds s)); [done..|lia].
  - done.
  - intros r sel Hin. destruct (Harms _ Hin) as (q & Hq & Ha). pose proof (arm_rule _ _ _ _ Ha) as [Hr Hh]. cbn in Hr, Hh.
    split; [done|]. split; [by rewrite Hh|]. apply Ha.
  - intros r Hr Hh. apply (Hall r (head_pred (head r))); [done|]. by apply list_elem_of_filter.
  - intros S r b Hr Hh Hin Hpb src Hsrc. rewrite plan_old in Hsrc by done.
    eapply bu_means; [done|done|by apply overlay_old| |done]. by eapply reads_ready.
  - intros S r b Hr Hh Hin Hpb. split; [|intros HS]; intros src Hsrc; rewrite plan_new in Hsrc by done; injection Hsrc as <-.
    + eapply work_reaches; [apply tables_work|]. intros tup Hl [(_ & _ & HSt)|[Hx _]]; [|done].
      by apply overlay_new; [apply elem_of_stratum_rels|].
    + eapply work_means; [apply tables_work|]. intros y. rewrite overlay_new by by apply elem_of_stratum_rels. split.
      * intros Hy. destruct (HS _ Hy) as (q & tup & [Hq Hl] & [= E ->]).
        assert (q = pred b) as -> by (apply (tag_inj (preds s)); [done..|lia]).
        exists tup. split_and!; [done|done|]. left. by split_and!.
      * intros (tup & -> & Hl & [(_ & _ & HSt)|[Hx _]]); done.
Qed.

Lemma built_phase : built (S i) rels' ms (phs ++ [phase]).
Proof.
  assert (forall p tup, p ∈ preds s -> model (S i) p tup -> length tup = arity_of a p) as Hlen.
  { intros p tup Hp. rewrite (model_succ i s Hi). apply stratum_model_length; [|done]. by apply rule_arity. }
  constructor.
  - apply Hb.
  - intros p rel Hp. rewrite Hsize. destruct (decide (p ∈ preds s)) as [Hin|Hin].
    + rewrite work_rels_new in Hp by done. injection Hp as <-. pose proof (position_some p Hin) as [_ Hl%lookup_lt_Some].
      split; [lia|]. split; [by eapply stratum_derived|by eapply ready_in].
    + rewrite work_rels_old in Hp by done. apply (bu_rels _ _ _ _ Hb) in Hp as (? & ? & ?). split; [lia|].
      split; [done|by apply ready_before].
  - intros p q rel Hp Hq. destruct (decide (p ∈ preds s)) as [Hin|Hin], (decide (q ∈ preds s)) as [Hin'|Hin'];
      first [rewrite (work_rels_new p Hin) in Hp|rewrite (work_rels_old p Hin) in Hp];
      first [rewrite (work_rels_new q Hin') in Hq|rewrite (work_rels_old q Hin') in Hq].
    + simplify_eq. apply (tag_inj (preds s)); [done..|lia].
    + apply (bu_rels _ _ _ _ Hb) in Hq as (? & _). simplify_eq. lia.
    + apply (bu_rels _ _ _ _ Hb) in Hp as (? & _). simplify_eq. lia.
    + by eapply (bu_inj _ _ _ _ Hb).
  - intros db Hst p rel Hp t. destruct (decide (p ∈ preds s)) as [Hin|Hin].
    + rewrite work_rels_new in Hp by done. injection Hp as <-. rewrite phase_rows by done. unfold tuples.
      apply exist_proper. intros tup. split; [by intros (? & _ & ?)|]. intros [? ?]. split_and!; [done|by apply Hlen|done].
    + rewrite work_rels_old in Hp by done. unfold run_phases. rewrite foldl_app. cbn [foldl].
      change (foldl _ empty_work phs) with (run_phases sat run_no db phs).
      pose proof (bu_rels _ _ _ _ Hb p rel Hp) as (Hlt & _).
      unfold run_phase, overlay. rewrite Hphase, (tuples_old p t Hin).
      rewrite <- (bu_work _ _ _ _ Hb db Hst p rel Hp t). split; [by intros [[?%stratum_rels_new _]|[_ ?]]; [lia|]|].
      intros ?. right. split; [|done]. intros ?%stratum_rels_new. lia.
  - intros db W p n src Hst HW Hr Hs. destruct (decide (p ∈ preds s)) as [Hin|Hin].
    + rewrite plan_new in Hs by done. injection Hs as <-. eapply work_means; [apply tables_work|].
      intros t. rewrite (HW p _ (work_rels_new p Hin) t). apply exist_proper. intros tup.
      split; [|by intros (? & _ & ?)]. intros [? ?]. split_and!; [done|by apply Hlen|done].
    + rewrite plan_old in Hs by done. eapply means_source_ext; [intros tup _; symmetry; by apply model_old|].
      eapply (bu_means _ _ _ _ Hb); [done| |by apply ready_succ|done].
      intros q rel Hq t. assert (q ∉ preds s) as Hq' by (intros Hq'; by rewrite (rels_inside _ _ _ _ Hb Hq') in Hq).
      rewrite <- work_rels_old in Hq by done. rewrite (HW q rel Hq t). by apply tuples_old.
Qed.
End phase.
End stratum.
End program.
