(* ===== verification/SqlCompile.v ===== *)
(** * Compiling a program

    Each stratum the compiler writes is the printing of what [SqlProgram] shows to hold the
    stratum's relations, so the statement it returns answers the goal ([compile_correct]). *)

From S2P Require Export SqlProgram.

Section compile.
Context {OX : Oxrdf} {XX : Xxh3} {SD : StrDebug} {TD : TermDisplay} {LC : Lowercase}.
Context (program : Program) (a : Analysis) (H : analyse program = Ok a).
Context (caps : Capabilities) (options : Options) (run_no : Z).
Context (Hplain : plain_program program).
Context (sat : Expr -> (string -> option Z) -> Prop).
Context (sat_ext : forall e f g, (forall v, occurs v e -> f v = g v) -> sat e f -> sat e g).
Context (names : gmap Pred string) (bound : nat) (Hnames : names_ok names (strata a ≫= preds) bound).

(** Whatever quads are stored. *)
Definition built_any (i : nat) (rels : gmap Pred nat) (ms : list Member) (phs : list Phase) : Prop :=
  forall Q, built program a options run_no sat Q names i rels ms phs.
Definition no_quads : Z -> Z -> Z -> Z -> Prop := fun _ _ _ _ => False.

#[local] Abbreviation arm_of rels scc := (arm_of program a caps options run_no names rels scc sat).

(** The texts of a phase. *)
Definition phase_text (t : FixpointPhase) (p : Phase) : Prop :=
  ph_seed t = print_insert caps run_no <$> p_seed p /\ ph_step t = print_insert caps run_no <$> p_step p.

Definition built_text (ms : list Member) (phs : list Phase) (b : Built) : Prop :=
  b.1 = print_member caps <$> ms /\ Forall2 phase_text b.2 phs.

Lemma clean_names p n : names !! p = Some n -> clean n = true.
Proof. by eapply names_ok_clean. Qed.

Lemma note_ok n k u k' : note n k = Ok (u, k') -> same_names k k' /\ k_fixpoint_rel k' = k_fixpoint_rel k.
Proof. unfold note. intros Hn. by inv_comp. Qed.

Lemma at_names_same rels k k' : at_names names rels k -> same_names k k' -> at_names names rels k'.
Proof. intros [? ?] [? ?]. split; congruence. Qed.

Section stratum.
Context (i : nat) (s : Stratum) (Hi : strata a !! i = Some s) (rels : gmap Pred nat).
Context (ms : list Member) (phs : list Phase) (Hb : built_any i rels ms phs).

(** *** Tables *)

Lemma derived_rule p : p ∈ preds s -> exists r, r ∈ rules_for program p.
Proof. intros Hp. destruct (stratum_derived program a H i s p Hi Hp) as (r & Hr & Hh). exists r. by apply list_elem_of_filter. Qed.

Definition table_of (p : Pred) (n : string) (arms : list (Rule * Select)) : Member :=
  MTable n (numbered (arity_of a p)) (snd <$> arms).

Lemma plain_member_plan p k t k' :
  p ∈ preds s -> at_names names rels k -> plain_member program a caps options run_no p k = Ok (t, k') ->
  same_names k k' /\ exists n arms, names !! p = Some n /\ t = print_member caps (table_of p n arms) /\
    Forall (arm_of rels None p) arms /\ forall r, r ∈ rules_for program p -> exists sel, (r, sel) ∈ arms.
Proof.
  intros Hp Hk Ht. unfold plain_member, union_of_rules, member in Ht. inv_comp.
  match goal with E : rule_selects _ _ _ _ _ _ _ _ = _ |- _ =>
    apply (rule_selects_plan program a H caps options run_no Hplain names rels None clean_names I sat sat_ext) in E
      as (Hn & arms & -> & Harms & Hall); [|done] end.
  destruct Hk as [Hk1 Hk2]. split; [done|].
  match goal with E : k_names ?k1 !! p = Some ?x |- _ => exists x, arms; split; [destruct Hn; congruence|] end.
  split_and!; [|done|done]. unfold table_of, print_member. destruct (derived_rule p Hp) as (r & Hr).
  destruct (Hall r Hr) as (sel & Hin). destruct arms as [|[r1 s1] arms]; [by apply elem_of_nil in Hin|].
  rewrite <- list_fmap_compose. done.
Qed.

Lemma single_plan p k t k' :
  preds s = [p] -> at_names names rels k -> plain_member program a caps options run_no p k = Ok (t, k') ->
  same_names k k' /\ exists m, t = print_member caps m /\ built_any (S i) rels (ms ++ [m]) phs.
Proof.
  intros Hps Hk Ht. apply plain_member_plan in Ht as (Hn & n & arms & Hnp & -> & Harms & Hall); [|rewrite Hps; by left|done].
  split; [done|]. exists (table_of p n arms). split; [done|]. intros Q.
  by apply (single_table program a H caps options run_no sat Q names bound Hnames i s Hi).
Qed.

(** *** A tagged table *)

Lemma untagged_plan scc tp k t k' :
  at_names names rels k -> untagged a scc tp k = Ok (t, k') ->
  same_names k k' /\ t = print_member caps (view_of a names scc tp).
Proof.
  intros Hk Ht. unfold untagged in Ht. inv_comp. split; [done|].
  match goal with E : k_names _ !! _ = Some _ |- _ => rewrite (proj1 Hk) in E; unfold view_of; rewrite E end. done.
Qed.

Lemma head_positive r : r ∈ rules program -> length (omap item_positive (body r)) = 0%nat -> body r = [].
Proof. intros Hr Hl. apply (pp_facts program Hplain r Hr). by apply nil_length_inv. Qed.

Lemma pad_arm scc p rs t width :
  p ∈ preds s -> arm_of rels (Some (scc, s)) p rs -> width = tag_width (preds s) (arity_of a) ->
  pad_select (print_select caps rs.2) (tag_of (preds s) p) (arity_of a p) width = Ok t ->
  t = print_select caps (padded_arm a s rs).
Proof.
  intros Hp Ha -> Ht. pose proof Ha as [Hr Hh]%arm_rule. destruct Ha as [_ [text Hsel]].
  apply (pad_select_plan caps) in Ht as ->.
  - unfold padded_arm. by rewrite Hh.
  - apply Hsel.
  - rewrite (so_width _ _ _ _ _ _ _ _ _ _ _ Hsel), (rule_arity program a H) by done. by rewrite Hh.
  - rewrite <- Hh, <- (rule_arity program a H) by done. destruct (pp_heads program Hplain _ Hr) as [_ Hne].
    destruct (head_args (head rs.1)); [done|cbn; lia].
  - intros Hf. apply (so_fact _ _ _ _ _ _ _ _ _ _ _ Hsel). apply head_positive; [done|].
    rewrite <- (so_from _ _ _ _ _ _ _ _ _ _ _ Hsel), Hf. done.
Qed.

Lemma tagged_arms_plan scc tp k out k' :
  clean scc = true -> preds s !! tp.1 = Some tp.2 -> at_names names rels k ->
  tagged_arms program a caps options run_no scc s (tag_width (preds s) (arity_of a)) tp k = Ok (out, k') ->
  same_names k k' /\ exists arms, out = (fun rs => print_select caps (padded_arm a s rs)) <$> arms /\
    Forall (arm_of rels (Some (scc, s)) tp.2) arms /\ forall r, r ∈ rules_for program tp.2 -> exists sel, (r, sel) ∈ arms.
Proof.
  intros Hscc Htp Hk Ht. unfold tagged_arms in Ht. inv_comp.
  match goal with E : rule_selects _ _ _ _ _ _ _ _ = _ |- _ =>
    apply (rule_selects_plan program a H caps options run_no Hplain names rels (Some (scc, s)) clean_names Hscc sat sat_ext) in E
      as (Hn & arms & -> & Harms & Hall); [|done] end.
  split; [done|]. exists arms. split_and!; [|done|done].
  match goal with E : try_map _ _ = _ |- _ => apply try_map_ok in E; rename E into Ht end.
  assert (tag_of (preds s) tp.2 = tp.1) as Htag by (apply tag_at; [by eapply stratum_nodup|done]).
  rewrite <- Htag in Ht. clear -Ht Harms Htp H Hplain.
  revert out Ht. induction Harms as [|rs arms Ha _ IH]; intros out Ht; cbn [fmap list_fmap] in Ht.
  - by apply Forall2_nil_inv_l in Ht as ->.
  - apply Forall2_cons_inv_l in Ht as (t & ts & Hpad & Hts & ->). cbn [fmap list_fmap]. f_equal; [|by apply IH].
    eapply pad_arm; [by eapply list_elem_of_lookup_2|done|done|done].
Qed.

(** The arms of all the predicates of a list, with what holds of each. *)
Lemma all_arms scc (l : list (nat * Pred)) (out : list (list string)) :
  Forall2 (fun tp ts => exists arms, ts = (fun rs => print_select caps (padded_arm a s rs)) <$> arms /\
    Forall (arm_of rels (Some (scc, s)) tp.2) arms /\ forall r, r ∈ rules_for program tp.2 -> exists sel, (r, sel) ∈ arms) l out ->
  exists arms, concat out = (fun rs => print_select caps (padded_arm a s rs)) <$> arms /\
    (forall rs, rs ∈ arms -> exists p, p ∈ l.*2 /\ arm_of rels (Some (scc, s)) p rs) /\
    (forall r p, p ∈ l.*2 -> r ∈ rules_for program p -> exists sel, (r, sel) ∈ arms).
Proof.
  induction 1 as [|[t p] ts l out (arms & -> & Ha & Hc) _ (arms' & E & Ha' & Hc')].
  { exists []. split_and!; [done|by intros rs ?%elem_of_nil|by intros r p ?%elem_of_nil]. }
  exists (arms ++ arms'). cbn [concat]. rewrite E, fmap_app. split_and!; [done|..].
  - intros rs [Hin|Hin]%elem_of_app.
    + exists p. split; [by left|]. by apply (proj1 (Forall_forall _ _) Ha).
    + destruct (Ha' rs Hin) as (q & Hq & ?). exists q. split; [by right|done].
  - intros r q [->|Hq]%elem_of_cons Hr; setoid_rewrite elem_of_app.
    + destruct (Hc r Hr) as [sel ?]. exists sel. by left.
    + destruct (Hc' r q Hq Hr) as [sel ?]. exists sel. by right.
Qed.

Lemma enumerate_preds : (enumerate (preds s)).*2 = preds s.
Proof. unfold enumerate. rewrite snd_zip; [done|]. rewrite length_seq. lia. Qed.

Lemma mutual_plan out k res k' :
  at_names names rels k -> out = print_member caps <$> ms ->
  mutual program a caps options run_no i s out k = Ok (res, k') ->
  same_names k k' /\ exists ms', res = print_member caps <$> ms' /\ built_any (S i) rels ms' phs.
Proof.
  intros Hk -> Hm. unfold mutual in Hm. destruct (compound_recursive_cte caps); [|done]. cbn [negb] in Hm.
  change ("scc" +:+ show_nat i) with (component_name i) in Hm. set (scc := component_name i) in *.
  assert (clean scc = true) as Hscc by (apply table_name_clean; exists i; by right). inv_comp.
  match goal with E : note _ _ = _ |- _ => apply note_ok in E as [Hn0 _] end.
  pose proof (at_names_same _ _ _ Hk Hn0) as Hk0.
  match goal with E : mapC (tagged_arms _ _ _ _ _ _ _ _) _ _ = _ |- _ =>
    eapply (mapC_plan names rels) in E as [Hn1 Harms]; [| |exact Hk0] end.
  2:{ intros tp k1 y k1' Hk1 Htp. apply tagged_arms_plan; [done| |done]. destruct tp. by apply elem_of_enumerate. }
  apply all_arms in Harms as (arms & Etext & Harms & Hall). rewrite enumerate_preds in Harms, Hall.
  match goal with E : mapC (untagged _ _) _ _ = _ |- _ =>
    eapply (mapC_plan names rels) in E as [Hn2 Hviews]; [| |exact (at_names_same _ _ _ Hk0 Hn1)] end.
  2:{ intros tp k1 y k1' Hk1 _. by apply untagged_plan. }
  split; [by etrans; [|etrans]|].
  eexists. split; [|intros Q; apply (tagged_tables program a H caps options run_no Hplain sat sat_ext Q names bound Hnames i s Hi rels ms phs scc arms); done].
  rewrite fmap_app. f_equal. cbn [app fmap list_fmap]. f_equal.
  - unfold print_member, tag_cols, tag_width. rewrite Etext. cbn [print_member]. by rewrite <- list_fmap_compose.
  - clear -Hviews. induction Hviews as [|tp t l ts -> _ IH]; [done|]. cbn [fmap list_fmap]. by f_equal.
Qed.

(** *** A phase *)

Lemma position_cons p q l : position p (q :: l) = if decide (q = p) then Some 0%nat else S <$> position p l.
Proof.
  unfold position. cbn [list_find]. destruct (decide (q = p)); [done|]. by destruct (list_find _ l) as [[]|].
Qed.

Lemma register_rels_plan l base m k u k' :
  NoDup l -> (forall p, p ∈ l -> k_fixpoint_rel k !! p = None) ->
  mapC (register_rel a base) (zip (seq m (length l)) l) k = Ok (u, k') ->
  k_names k' = k_names k /\ size (k_fixpoint_rel k') = (size (k_fixpoint_rel k) + length l)%nat /\
  forall p, k_fixpoint_rel k' !! p = match position p l with Some n => Some (base + (m + n))%nat | None => k_fixpoint_rel k !! p end.
Proof.
  intros Hnd. revert m k u. induction Hnd as [|q l Hq Hnd IH]; intros m k u Hl Hm; cbn [length seq zip mapC] in Hm.
  { cbn in Hm. inv_comp. split_and!; [done|cbn; lia|done]. }
  inv_comp. match goal with E : register_rel _ _ _ _ = _ |- _ => unfold register_rel in E; cbn [fst snd] in E end.
  destruct (_ <? _)%nat; [done|]. match goal with E : add_fixpoint_rel _ _ _ = _ |- _ => unfold add_fixpoint_rel in E end. inv_comp.
  match goal with E : mapC _ _ _ = _ |- _ => apply IH in E as (Hn & Hs & Hk) end.
  2:{ intros p Hp. cbn [k_fixpoint_rel]. rewrite lookup_insert_ne by (intros ->; done). apply Hl. by right. }
  cbn [k_names k_fixpoint_rel] in *. rewrite map_size_insert_None in Hs by (apply Hl; by left).
  split_and!; [done|cbn; lia|]. intros p. rewrite Hk, position_cons. destruct (decide (q = p)) as [<-|Hne].
  - assert (position q l = None) as ->; [|rewrite lookup_insert_eq; do 2 f_equal; lia].
    unfold position. rewrite (proj2 (list_find_None _ _)); [done|]. apply Forall_forall. by intros x Hx ->.
  - rewrite lookup_insert_ne by done. destruct (position p l) as [n|]; cbn; [do 2 f_equal; lia|done].
Qed.

(** The insertions of the rules of a predicate. *)
Lemma fixpoint_pred_plan rels' p ss k ss' k' :
  work_rels s rels (size rels) rels' -> p ∈ preds s -> at_names names rels' k ->
  fixpoint_pred program a caps options run_no s (prelude_of (print_member caps <$> ms)) ss p k = Ok (ss', k') ->
  same_names k k' /\ exists seed step,
    ss'.1 = ss.1 ++ (print_insert caps run_no <$> (insert_of a s ms (size rels) <$> seed)) /\
    ss'.2 = ss.2 ++ (print_insert caps run_no <$> (insert_of a s ms (size rels) <$> step)) /\
    Forall (arm_of rels' None p) (seed ++ step) /\
    forall r, r ∈ rules_for program p -> exists sel, (r, sel) ∈ seed ++ step.
Proof.
  intros Hrels Hp Hk Hf. unfold fixpoint_pred in Hf. inv_comp.
  match goal with E : k_fixpoint_rel _ !! p = Some ?x |- _ => rewrite (proj2 Hk), (work_rels_new s rels rels' Hrels p Hp) in E; injection E as <- end.
  assert (forall l ss k, at_names names rels' k -> (forall r, r ∈ l -> r ∈ rules_for program p) ->
    foldC (fixpoint_rule a caps options run_no s (prelude_of (print_member caps <$> ms)) (size rels + tag_of (preds s) p) (arity_of a p)) ss l k
      = Ok (ss', k') ->
    same_names k k' /\ exists seed step,
      ss'.1 = ss.1 ++ (print_insert caps run_no <$> (insert_of a s ms (size rels) <$> seed)) /\
      ss'.2 = ss.2 ++ (print_insert caps run_no <$> (insert_of a s ms (size rels) <$> step)) /\
      Forall (arm_of rels' None p) (seed ++ step) /\
      forall r, r ∈ l -> exists sel, (r, sel) ∈ seed ++ step) as Hloop; [|by apply Hloop].
  clear -H Hplain sat_ext Hnames Hp. intros l. induction l as [|r l IH]; intros ss k Hk Hl Hf; cbn [foldC] in Hf.
  { inv_comp. split; [done|]. exists [], []. cbn. rewrite !app_nil_r. split_and!; [done|done|done|]. by intros r ?%elem_of_nil. }
  inv_comp. match goal with E : fixpoint_rule _ _ _ _ _ _ _ _ _ _ _ = _ |- _ => unfold fixpoint_rule in E end. inv_comp.
  assert (r ∈ rules_for program p) as Hr by (apply Hl; by left). pose proof Hr as [Hhead Hrule]%list_elem_of_filter.
  match goal with E : rule_select _ _ _ _ _ _ _ = _ |- _ =>
    apply (rule_select_plan a caps options run_no names rels' None sat sat_ext clean_names I) in E as [Hn (sel & Hsel)];
      [|done|by apply (plain_rules program a H)] end.
  apply IH in Hf as [Hn' (seed & step & H1 & H2 & H3 & H4)]; [|by eapply at_names_same|by intros; apply Hl; right].
  split; [by etrans|]. assert (arm_of rels' None p (r, sel)) as Harm by (split; [done|by eexists]).
  assert (insert_into_work run_no (prelude_of (print_member caps <$> ms)) (size rels + tag_of (preds s) p) (arity_of a p) (print_select caps sel)
    = print_insert caps run_no (insert_of a s ms (size rels) (r, sel))) as Htext by (unfold insert_of; cbn [fst snd]; by rewrite Hhead).
  rewrite (so_text _ _ _ _ _ _ _ _ _ _ _ Hsel), Htext in H1, H2.
  destruct (recursive_in (preds s) r); cbn [fst snd] in H1, H2.
  - exists seed, ((r, sel) :: step). cbn [fmap list_fmap]. rewrite <- app_assoc in H2. split_and!; [done|done|..].
    + apply Forall_app in H3 as [? ?]. apply Forall_app. split; [done|by constructor].
    + intros r' [->|Hin]%elem_of_cons; [exists sel; set_solver|]. destruct (H4 r' Hin) as [sel' ?]. exists sel'. set_solver.
  - exists ((r, sel) :: seed), step. cbn [fmap list_fmap]. rewrite <- app_assoc in H1. split_and!; [done|done|..].
    + by constructor.
    + intros r' [->|Hin]%elem_of_cons; [exists sel; by left|]. destruct (H4 r' Hin) as [sel' ?]. exists sel'. by right.
Qed.

Lemma fixpoint_preds_plan rels' l ss k ss' k' :
  work_rels s rels (size rels) rels' -> (forall p, p ∈ l -> p ∈ preds s) -> at_names names rels' k ->
  foldC (fixpoint_pred program a caps options run_no s (prelude_of (print_member caps <$> ms))) ss l k = Ok (ss', k') ->
  same_names k k' /\ exists seed step,
    ss'.1 = ss.1 ++ (print_insert caps run_no <$> (insert_of a s ms (size rels) <$> seed)) /\
    ss'.2 = ss.2 ++ (print_insert caps run_no <$> (insert_of a s ms (size rels) <$> step)) /\
    (forall rs, rs ∈ seed ++ step -> exists p, p ∈ l /\ arm_of rels' None p rs) /\
    forall r p, p ∈ l -> r ∈ rules_for program p -> exists sel, (r, sel) ∈ seed ++ step.
Proof.
  intros Hrels. revert ss k. induction l as [|p l IH]; intros ss k Hl Hk Hf; cbn [foldC] in Hf.
  { inv_comp. split; [done|]. exists [], []. cbn. rewrite !app_nil_r.
    split_and!; [done|done|by intros rs ?%elem_of_nil|by intros r p ?%elem_of_nil]. }
  inv_comp. match goal with E : fixpoint_pred _ _ _ _ _ _ _ _ _ _ = _ |- _ =>
    apply (fixpoint_pred_plan rels') in E as (Hn & seed & step & H1 & H2 & H3 & H4); [|done|by apply Hl; left|done] end.
  apply IH in Hf as (Hn' & seed' & step' & H1' & H2' & H3' & H4'); [|by intros; apply Hl; right|by eapply at_names_same].
  split; [by etrans|]. exists (seed ++ seed'), (step ++ step').
  rewrite H1', H1, H2', H2, <- !app_assoc, !fmap_app. split_and!; [done|done|..].
  - intros rs Hin. rewrite Forall_forall in H3.
    assert (rs ∈ seed ++ step \/ rs ∈ seed' ++ step') as [Hi'|Hi'] by set_solver.
    + exists p. split; [by left|by apply H3].
    + destruct (H3' rs Hi') as (q & Hq & ?). exists q. split; [by right|done].
  - intros r q [->|Hq]%elem_of_cons Hr; [destruct (H4 r Hr) as [sel ?]|destruct (H4' r q Hq Hr) as [sel ?]]; exists sel; set_solver.
Qed.

Lemma fixpoint_plan b k b' k' :
  at_names names rels k -> built_text ms phs b ->
  fixpoint_stratum program a caps options run_no s b k = Ok (b', k') ->
  exists phs', built_text ms phs' b' /\ k_names k' = names /\ built_any (S i) (k_fixpoint_rel k') ms phs'.
Proof.
  intros Hk [Hb1 Hb2] Hf. unfold fixpoint_stratum in Hf. inv_comp.
  match goal with E : note _ _ = _ |- _ => apply note_ok in E as [Hn0 _] end.
  pose proof (at_names_same _ _ _ Hk Hn0) as Hk0.
  match goal with E : mapC (register_rel _ _) _ _ = Ok (_, ?k1) |- _ =>
    unfold enumerate in E; apply register_rels_plan in E as (Hn1 & Hs1 & Hr1);
      [|by eapply stratum_nodup|intros p Hp; rewrite (proj2 Hk0); by eapply (rels_inside program a H _ _ _ _ _ i s Hi _ _ _ _ (Hb no_quads))];
    rename k1 into kr end.
  rewrite (proj2 Hk0) in Hs1, Hr1. rewrite (proj1 Hk0) in Hn1.
  assert (work_rels s rels (size rels) (k_fixpoint_rel kr)) as Hrels by exact Hr1.
  match goal with E : foldC _ _ _ _ = _ |- _ => rewrite Hb1 in E;
    apply (fixpoint_preds_plan (k_fixpoint_rel kr)) in E as (Hn2 & seed & step & E1 & E2 & Harms & Hall); [|done|done|by split] end.
  cbn [fst snd app] in E1, E2.
  set (phase := mkPhasePlan (stratum_rels s (size rels)) (insert_of a s ms (size rels) <$> seed) (insert_of a s ms (size rels) <$> step)).
  exists (phs ++ [phase]). split_and!.
  - split; [done|]. cbn [snd]. apply Forall2_app; [done|]. constructor; [|done]. by split.
  - destruct Hn2. congruence.
  - destruct Hn2 as [_ ->]. intros Q. apply (built_phase program a H caps options run_no sat Q names i s Hi rels _ ms phs phase (seed ++ step)); try done.
    intros y. cbn [p_seed p_step phase]. by rewrite fmap_app.
Qed.

Lemma stratum_plan b k b' k' :
  at_names names rels k -> built_text ms phs b ->
  stratum program a caps options run_no b (i, s) k = Ok (b', k') ->
  exists ms' phs', built_text ms' phs' b' /\ k_names k' = names /\ built_any (S i) (k_fixpoint_rel k') ms' phs'.
Proof.
  intros Hk Hbt Hs. unfold stratum in Hs. cbn [fst snd] in Hs.
  assert (forall p m k1, at_names names rels k1 -> preds s = [p] -> plain_member program a caps options run_no p k1 = Ok (m, k') ->
    b' = (b.1 ++ [m], b.2) ->
    exists ms' phs', built_text ms' phs' b' /\ k_names k' = names /\ built_any (S i) (k_fixpoint_rel k') ms' phs') as Hone.
  { intros p m k1 Hk1 Hps Hm ->. apply single_plan in Hm as (Hn & mem & -> & Hbu); [|done|done].
    pose proof (at_names_same _ _ _ Hk1 Hn) as [? ->]. exists (ms ++ [mem]), phs. split_and!; [|done|done].
    destruct Hbt as [-> ?]. split; [|done]. cbn [fst]. by rewrite fmap_app. }
  pose proof (stratum_shape program a H i s Hi) as Hsh. pose proof (shape_of_cases program (preds s)) as Hc. rewrite <- Hsh in Hc.
  destruct (shape s) eqn:Es.
  - pose proof (non_recursive_single program a H i s Hi Es) as Hl. inv_comp.
    match goal with E : mapC _ _ _ = _ |- _ => rename E into Em end.
    destruct (preds s) as [|p [|q l]] eqn:Ep; [|by cbn in Em; inv_comp; eapply (Hone p)|cbn in Hl; lia].
    cbn in Em. inv_comp. rewrite app_nil_r. exists ms, phs. split_and!; [by destruct b|by destruct Hk|].
    destruct Hk as [_ ->]. intros Q. rewrite <- (app_nil_r ms). apply (built_tables program a H options run_no sat Q names i s Hi); [done|done|..].
    + intros m q x ?%elem_of_nil. done.
    + intros db W p n src _ _ Hp. rewrite Ep in Hp. by apply elem_of_nil in Hp.
  - inv_comp. destruct Hc as (_ & _ & Hl). destruct (preds s) as [|p' [|q l]] eqn:Ep; [done| |cbn in Hl; lia].
    match goal with E : [p'] !! 0%nat = Some _ |- _ => injection E as -> end.
    match goal with E : note _ _ = _ |- _ => apply note_ok in E as [Hn0 _] end.
    eapply Hone; [by eapply at_names_same|done|done|done].
  - inv_comp. destruct Hbt as [Hb1 Hb2].
    match goal with E : mutual _ _ _ _ _ _ _ _ _ = _ |- _ => apply mutual_plan in E as (Hn & ms' & -> & Hbu); [|done|done] end.
    pose proof (at_names_same _ _ _ Hk Hn) as [? ->]. by exists ms', phs.
  - apply fixpoint_plan in Hs as (phs' & ? & ? & ?); [|done|done]. by exists ms, phs'.
Qed.
End stratum.

Lemma strata_plan pre l b k b' k' rels ms phs :
  strata a = pre ++ l -> at_names names rels k -> built_text ms phs b -> built_any (length pre) rels ms phs ->
  foldC (stratum program a caps options run_no) b (zip (seq (length pre) (length l)) l) k = Ok (b', k') ->
  exists ms' phs', built_text ms' phs' b' /\ k_names k' = names /\
    built_any (length (strata a)) (k_fixpoint_rel k') ms' phs'.
Proof.
  revert pre b k rels ms phs. induction l as [|s l IH]; intros pre b k rels ms phs Hst Hk Hbt Hb Hf; cbn [length seq zip foldC] in Hf.
  { cbn in Hf. inv_comp. rewrite Hst, app_nil_r. destruct Hk as [? ->]. by exists ms, phs. }
  inv_comp. match goal with E : stratum _ _ _ _ _ _ _ _ = _ |- _ =>
    apply (stratum_plan (length pre) s ltac:(rewrite Hst; by apply list_lookup_middle) rels ms phs Hb) in E
      as (ms1 & phs1 & Hbt1 & Hn1 & Hb1); [|done|done] end.
  apply (IH (pre ++ [s]) x x0 (k_fixpoint_rel x0) ms1 phs1).
  - by rewrite Hst, <- app_assoc.
  - done.
  - done.
  - rewrite length_app, Nat.add_1_r. exact Hb1.
  - rewrite length_app, Nat.add_1_r. exact Hf.
Qed.
End compile.

(** ** The strata, then a goal *)

Definition program_strata (a : Analysis) : list (list Pred) := preds <$> strata a.

Section goals.
Context {OX : Oxrdf} {XX : Xxh3} {SD : StrDebug} {TD : TermDisplay} {LC : Lowercase}.
Context (program : Program) (a : Analysis) (H : analyse program = Ok a).
Context (caps : Capabilities) (options : Options) (run_no : Z).
Context (Hplain : plain_program program).
Context (sat : Expr -> (string -> option Z) -> Prop).
Context (sat_ext : forall e f g, (forall v, occurs v e -> f v = g v) -> sat e f -> sat e g).

Definition no_names : Compiler := mkCompiler ∅ ∅ ∅ [] 0.

(** What is compiled before the goal. *)
Definition prepared : comp Built :=
  _ ← assign_names a; foldC (stratum program a caps options run_no) ([], []) (enumerate (strata a)).

(** The state after the strata, with the plans of the members and of the phases. *)
Definition planned (k : Compiler) (ms : list Member) (phs : list Phase) : Prop :=
  exists n, names_ok (k_names k) (strata a ≫= preds) n /\
    built_any program a options run_no sat (k_names k) (length (strata a)) (k_fixpoint_rel k) ms phs.

Lemma compile_for_prepared g c : compile_for program a caps options run_no g = Ok c ->
  exists b k text k', prepared no_names = Ok (b, k) /\
    goal_select a caps options run_no g k = Ok ((text, c_variables c), k') /\
    c_sql c = prelude_of b.1 +:+ text /\ c_fixpoint c = mkFixpoint run_no b.2 (o_max_iterations options).
Proof.
  unfold compile_for. fold no_names.
  destruct (compile_program _ _ _ _ _ g no_names) as [[[[text vars] phts] k]|] eqn:Hp; [|done].
  cbn [mbind result_bind]. intros [= <-]. unfold compile_program in Hp. inv_comp.
  match goal with E : assign_names _ _ = _ |- _ => rename E into E1 end.
  match goal with E : foldC _ _ _ _ = _ |- _ => rename E into E2 end.
  match goal with E : goal_select _ _ _ _ g ?k2 = Ok ((?t, _), _) |- _ => exists (l, phts), k2, t, k; rename E into E3 end.
  split; [|split; [exact E3|done]].
  unfold prepared, mbind, comp_bind. by rewrite E1.
Qed.

Lemma prepared_plan b k : prepared no_names = Ok (b, k) ->
  exists ms phs, built_text caps run_no ms phs b /\ planned k ms phs.
Proof.
  intros Hp. unfold prepared in Hp. inv_comp. destruct b as [members phts].
  match goal with E : assign_names _ _ = Ok (_, ?k1) |- _ => apply assign_names_ok in E as (n & Hn & Hr1); [|done]; rename k1 into kn end.
  cbn [k_fixpoint_rel no_names] in Hr1.
  match goal with E : foldC _ _ _ _ = _ |- _ =>
    apply (strata_plan program a H caps options run_no Hplain sat sat_ext (k_names kn) n Hn [] (strata a) _ _ _ _ ∅ [] []) in E
      as (ms & phs & Ht & Hk & Hb); [|done|by split|by split; [|constructor]|] end.
  2:{ intros Q. by eapply built_start. }
  exists ms, phs. split; [done|]. exists n. by rewrite Hk.
Qed.

(** The select of a goal over the strata answers it. *)
Lemma planned_goal k ms phs g text vars k' : planned k ms phs ->
  plain_read program (goal_atom g) -> (forall names rels, fits a options run_no names rels None (goal_atom g)) ->
  forallb plain_expr (goal_constraints g) = true ->
  goal_select a caps options run_no g k = Ok ((text, vars), k') ->
  vars = atom_vars (goal_atom g) [] /\ exists sel,
    prelude_of (print_member caps <$> ms) +:+ text = print_query caps (mkQuery ms sel) /\
    forall Q db, stores options db Q -> forall t, query_rows sat run_no db phs (mkQuery ms sel) t <->
      exists tup, t = Some <$> answer_row g tup /\
        goal_answer sat (program_model sat program (program_strata a) (edb (o_union_default_graph options) Q program)) g tup.
Proof.
  intros (n & Hn & Hb) Hread Hfits He Hg.
  assert (forall p x, k_names k !! p = Some x -> clean x = true) as Hclean by (intros p y; by apply (names_ok_clean _ _ _ p y Hn)).
  apply (goal_select_plan a caps options run_no (k_names k) (k_fixpoint_rel k) sat sat_ext Hclean) in Hg
    as (-> & sel & -> & Hrows); [|by split|by apply (plain_atom_of program)|done|done].
  split; [done|]. exists sel. split; [done|].
  intros Q db Hst t. unfold query_rows. cbn [q_members q_select]. specialize (Hb Q).
  rewrite (Hrows _ (model program a options sat Q (length (strata a)))).
  - unfold model, program_strata. by rewrite firstn_all.
  - intros src Hsrc. eapply (bu_means _ _ _ _ _ _ _ _ _ _ _ Hb); [done|by apply (bu_work _ _ _ _ _ _ _ _ _ _ _ Hb)| |exact Hsrc].
    intros (j & s' & Hj & ?)%(derived_stratum program a H). exists j, s'. split_and!; [by eapply lookup_lt_Some|done|done].
Qed.
End goals.

(** ** The statement *)


(** ** An example: ancestors other than oneself *)

Module CompileSample.
#[local] Existing Instance ConcreteRdf.oxrdf.
#[local] Existing Instance ConcreteEncoding.xxh3.
#[local] Instance debug : StrDebug := fun s => s.
#[local] Instance display : TermDisplay := fun _ => "term".
#[local] Instance lowercase : Lowercase := to_ascii_lowercase.

Definition ancestor : Pred := Idb "ancestor".
Definition parent : string := "http://example.org/parent".
Definition atom (p : Pred) (l : list string) : Atom := mkAtom p (ArgVar <$> l) (mkSpan 0 0) None.
Definition rule (p : Pred) (l : list string) (b : list BodyItem) : Rule :=
  mkRule (mkHead p ((fun v => Plain (ArgVar v)) <$> l) (mkSpan 0 0)) b.
Definition question : Goal_ := mkGoal (atom ancestor ["x"; "z"]) [EBinary ONe (EVar "x") (EVar "z")].
Definition program : Program := mkProgram [
  rule ancestor ["x"; "y"] [BAtom (atom (Edb parent) ["x"; "y"])];
  rule ancestor ["x"; "z"] [BAtom (atom (Edb parent) ["x"; "y"]); BAtom (atom ancestor ["y"; "z"])]] (Some question) None.
Definition analysis : Analysis := match analyse program with Ok a => a | Err _ => mkAnalysis [] ∅ end.
Definition compiled : result CompileFault Compiled := compile program analysis native Options_default 7.

(** Different ids. *)
Definition sat (e : Expr) (f : string -> option Z) : Prop :=
  match e with EBinary ONe (EVar x) (EVar y) => exists u v, f x = Some u /\ f y = Some v /\ u <> v | _ => False end.

(** 1 is a parent of 2, 2 of 3. *)
Definition edges (s p o g : Z) : Prop :=
  p = named_node_id parent /\ g = 0 /\ ((s = 1 /\ o = 2) \/ (s = 2 /\ o = 3)).
Definition quad_row (s p o g : Z) : Row := fun c =>
  if String.eqb c "s" then Some s else if String.eqb c "p" then Some p else if String.eqb c "o" then Some o
  else if String.eqb c "g" then Some g else None.
Definition db : Db := fun src r => src = "quads" /\ exists s p o g, edges s p o g /\ r = quad_row s p o g.
End CompileSample.

#[local] Existing Instances ConcreteRdf.oxrdf ConcreteEncoding.xxh3 CompileSample.debug CompileSample.display CompileSample.lowercase.

Lemma sample_plain : plain_program CompileSample.program.
Proof.
  constructor.
  - intros b [(r & it & Hr & Hit & Hb)|(g & Hg & <-)].
    + repeat (apply elem_of_cons in Hr as [->|Hr]); [..|by apply elem_of_nil in Hr];
        repeat (apply elem_of_cons in Hit as [->|Hit]); try (by apply elem_of_nil in Hit);
        injection Hb as <-; (split; [done|]); first [by right|left; eexists; split; [by left|done]].
    + injection Hg as <-. split; [done|]. left. eexists. split; [by left|done].
  - intros r Hr. repeat (apply elem_of_cons in Hr as [->|Hr]); [done..|by apply elem_of_nil in Hr].
  - intros r Hr. repeat (apply elem_of_cons in Hr as [->|Hr]); [done..|by apply elem_of_nil in Hr].
  - intros r e Hr He. repeat (apply elem_of_cons in Hr as [->|Hr]); [..|by apply elem_of_nil in Hr];
      repeat (apply elem_of_cons in He as [?|He]; [done|]); by apply elem_of_nil in He.
  - intros g [= <-]. done.
Qed.

Lemma sample_sat e f f' : (forall v, occurs v e -> f v = f' v) -> CompileSample.sat e f -> CompileSample.sat e f'.
Proof.
  intros Hf. destruct e as [|?|[] [x|?|? ? ?|?|?|? ?] [y|?|? ? ?|?|?|? ?]|?|?|? ?]; try done.
  cbn. rewrite (Hf x) by (by left). by rewrite (Hf y) by (by right).
Qed.

Lemma sample_stores : stores Options_default CompileSample.db CompileSample.edges.
Proof.
  constructor.
  - intros s p o g. split.
    + intros He. exists (CompileSample.quad_row s p o g). split_and!; [|done..]. split; [done|]. by exists s, p, o, g.
    + intros (r & (_ & s' & p' & o' & g' & He & ->) & E1 & E2 & E3 & E4). cbn in *. congruence.
  - intros r (_ & s & p & o & g & _ & ->). by exists s, p, o, g.
Qed.

Lemma sample_answer :
  goal_answer CompileSample.sat (program_model CompileSample.sat CompileSample.program (program_strata CompileSample.analysis)
    (edb false CompileSample.edges CompileSample.program)) CompileSample.question [1; 3].
Proof.
  assert (program_strata CompileSample.analysis = [[CompileSample.ancestor]]) as -> by (vm_compute; reflexivity).
  exists (fun v => if String.eqb v "x" then 1 else 3). split; [|done]. split.
  2:{ apply Forall_singleton. exists 1, 3. split_and!; [done|done|lia]. }
  exists [1; 3]. split; [|by repeat constructor]. right. split; [by left|]. intros J Hout Hcl.
  assert (forall x y, CompileSample.edges x (named_node_id CompileSample.parent) y 0 -> J (Edb CompileSample.parent) [x; y]) as Hedge.
  { intros x y He. apply Hout; [by intros ?%list_elem_of_singleton|]. split; [|by exists 0].
    intros (r & Hr & Hh). repeat (apply elem_of_cons in Hr as [->|Hr]); [done..|by apply elem_of_nil in Hr]. }
  assert (J CompileSample.ancestor [2; 3]) as H23.
  { eapply (Hcl _ [2; 3] (list_elem_of_here _ _)); [by left|]. exists (fun v => if String.eqb v "x" then 2 else 3).
    split; [|by repeat constructor]. apply Forall_singleton. exists [2; 3]. split; [|by repeat constructor].
    apply Hedge. split_and!; [done|done|by right]. }
  eapply (Hcl _ [1; 3] (list_elem_of_further _ _ _ (list_elem_of_here _ _))); [by left|].
  exists (fun v => if String.eqb v "x" then 1 else if String.eqb v "y" then 2 else 3).
  split; [|by repeat constructor]. repeat constructor.
  - exists [1; 2]. split; [|by repeat constructor]. apply Hedge. split_and!; [done|done|by left].
  - exists [2; 3]. split; [done|by repeat constructor].
Qed.

