(* ===== verification/Exec.v ===== *)
(** * Running a compiled program ([crates/oxilite-datalog/src/exec.rs])

    The job that runs a compiled program: each component that must be iterated is seeded, then
    stepped until the work table stops growing, then the goal is queried, the run's rows are
    removed, and the ids of the solutions are resolved to terms. [compiled] is what the SQL
    compiler produces ([DatalogSql]). The theorems are in [ExecFacts]. *)

From S2P Require Export Resolve DatalogSql.

(** ** Results *)

Record DatalogResult {OX : Oxrdf} := mkResult {
  r_variables : list string;
  r_rows : list (list (option Term));
  r_rounds : list nat;
}.
Arguments mkResult {OX}.

Section result.
Context {OX : Oxrdf}.

Definition index_of (self : DatalogResult) (name : string) : option nat :=
  let name := default name (strip_prefix name "?") in
  fst <$> list_find (fun v => v = name) (r_variables self).

Definition result_get (self : DatalogResult) (row : nat) (name : string) : option Term :=
  i ← index_of self name;
  r ← r_rows self !! row;
  c ← r !! i;
  c.
End result.

(** ** The job *)

Module State.
Inductive t :=
  | Start
  | Seeded (phase : nat)
  | Stepped (phase : nat) (before : Z) (round : nat)
  | Rows
  | CleaningUp
  | Resolving
  | Done.
End State.

Section job.
Context {OX : Oxrdf} {SD : StrDebug}.

Record DatalogJob := mkDatalogJob {
  compiled : Compiled;
  dj_caps : Capabilities;
  state : State.t;
  resolver : TermResolver;
  dj_ids : list (list (option Z));
  rounds : list nat;
}.

Definition DatalogJob_new (c : Compiled) (caps : Capabilities) : DatalogJob :=
  mkDatalogJob c caps State.Start (with_constants (c_constants c)) [] [].

Definition set_state (self : DatalogJob) (s : State.t) : DatalogJob :=
  mkDatalogJob (compiled self) (dj_caps self) s (resolver self) (dj_ids self) (rounds self).
Definition set_rounds (self : DatalogJob) (l : list nat) : DatalogJob :=
  mkDatalogJob (compiled self) (dj_caps self) (state self) (resolver self) (dj_ids self) l.

Definition fixpoint (self : DatalogJob) : Fixpoint_ := c_fixpoint (compiled self).

(** [phases[phase]]. *)
Definition phase_at (self : DatalogJob) (phase : nat) : result Fault FixpointPhase :=
  expect (phases (fixpoint self) !! phase) "index out of bounds".

Definition seed_request (f : Fixpoint_) (phase : nat) (ph : FixpointPhase) : Request :=
  Request_atomic ((if (phase =? 0)%nat then [Statement_new (cleanup f)] else []) ++
    (Statement_new <$> ph_seed ph) ++ [Statement_new (count f)]).
Definition seed (self : DatalogJob) (phase : nat) : result Fault Request :=
  seed_request (fixpoint self) phase <$> phase_at self phase.

Definition step_request (f : Fixpoint_) (ph : FixpointPhase) : Request :=
  Request_atomic ((Statement_new <$> ph_step ph) ++ [Statement_new (count f)]).
Definition step_once (self : DatalogJob) (phase : nat) : result Fault Request :=
  step_request (fixpoint self) <$> phase_at self phase.

Definition main_query (self : DatalogJob) : Request :=
  Request_read [Statement_new (c_sql (compiled self))].

(** The count is the last statement of a fixpoint request. *)
Definition count_of (response : Response) : Z :=
  default 0 (rs ← last response; row ← rows rs !! 0%nat; v ← row !! 0%nat; SqlValue.as_i64 v).

Definition after_phase (self : DatalogJob) (phase : nat) : result Fault (Request * DatalogJob) :=
  if (S phase <? length (phases (fixpoint self)))%nat then
    r ← seed self (S phase); Ok (r, set_state self (State.Seeded (S phase)))
  else Ok (main_query self, set_state self State.Rows).

(** The id of a column; the default graph reads as unbound. *)
Definition cell_id (v : option SqlValue) : option Z :=
  let id := match v with
            | None | Some SqlValue.Null => None
            | Some v => match SqlValue.as_i64 v with
                        | Some id => Some id
                        | None => SqlValue.as_str v ≫= parse_i64
                        end
            end in
  id ≫= fun id => if id =? DEFAULT_GRAPH_ID then None else Some id.

Definition absorb_cell (width_row : list SqlValue) (s : TermResolver * list (option Z)) (i : nat)
  : TermResolver * list (option Z) :=
  let id := cell_id (width_row !! i) in
  (match id with Some id => want s.1 id | None => s.1 end, s.2 ++ [id]).

Definition absorb_solution (width : nat) (s : TermResolver * list (list (option Z))) (row : list SqlValue)
  : TermResolver * list (list (option Z)) :=
  let '(r, out) := foldl (absorb_cell row) (s.1, []) (seq 0 width) in (r, s.2 ++ [out]).

Definition absorb_rows (self : DatalogJob) (response : Response) : result DatalogError DatalogJob :=
  rs ← ok_or (response !! 0%nat) (DatalogError.Store (Error.backend "empty response"));
  let width := length (c_variables (compiled self)) in
  let '(r, ids) := foldl (absorb_solution width) (resolver self, dj_ids self) (rows rs) in
  Ok (mkDatalogJob (compiled self) (dj_caps self) (state self) r ids (rounds self)).

Definition finish (self : DatalogJob) : result DatalogError DatalogResult :=
  rs ← try_map (try_map (fun cell : option Z =>
         match cell with
         | None => Ok None
         | Some id => Some <$> map_err DatalogError.Store (get (resolver self) id)
         end)) (dj_ids self);
  Ok (mkResult (c_variables (compiled self)) rs (rounds self)).

Definition set_resolver (self : DatalogJob) (r : TermResolver) : DatalogJob :=
  mkDatalogJob (compiled self) (dj_caps self) (state self) r (dj_ids self) (rounds self).

Definition resolve_or_done (self : DatalogJob)
  : result DatalogError (Step DatalogResult * DatalogJob) :=
  match Resolve.request (resolver self) (dj_caps self) with
  | (Some r, res) => Ok (Execute r, set_state (set_resolver self res) State.Resolving)
  | (None, res) =>
      let self := set_state (set_resolver self res) State.Done in
      out ← finish self; Ok (Done out, self)
  end.

Definition into_core (e : DatalogError) : Error :=
  match e with
  | DatalogError.Store e => e
  | other => Error.backend (DatalogError.to_string other)
  end.

Definition core {A} (r : result DatalogError A) : result Fault A := try (map_err into_core r).

(** [*self.rounds.last_mut().expect(…) = round]. *)
Definition record_round (self : DatalogJob) (round : nat) : result Fault DatalogJob :=
  match last (rounds self) with
  | Some _ => Ok (set_rounds self (<[(length (rounds self) - 1)%nat := round]> (rounds self)))
  | None => Err (Panic "a phase was seeded")
  end.

Definition datalog_step (self : DatalogJob) (response : option Response)
  : result Fault (Step DatalogResult * DatalogJob) :=
  match state self with
  | State.Start =>
      if fixpoint_is_empty (fixpoint self)
      then Ok (Execute (main_query self), set_state self State.Rows)
      else r ← seed self 0; Ok (Execute r, set_state self (State.Seeded 0))
  | State.Seeded phase =>
      let before := count_of (default [] response) in
      let self := set_state (set_rounds self (rounds self ++ [0%nat])) (State.Stepped phase before 1) in
      r ← step_once self phase; Ok (Execute r, self)
  | State.Stepped phase before round =>
      let after := count_of (default [] response) in
      self ← record_round self round;
      if after =? before then
        '(r, self) ← after_phase self phase; Ok (Execute r, self)
      else if (max_iterations (fixpoint self) <=? round)%nat then
        ph ← phase_at self phase;
        Err (Failed (into_core (DatalogError.IterationLimit (join ", " (ph_preds ph)) round)))
      else
        let self := set_state self (State.Stepped phase after (S round)) in
        r ← step_once self phase; Ok (Execute r, self)
  | State.Rows =>
      response ← try (ok_or response (Error.backend "missing response for the program"));
      self ← core (absorb_rows self response);
      if negb (fixpoint_is_empty (fixpoint self)) then
        Ok (Execute (Request_atomic [Statement_new (cleanup (fixpoint self))]), set_state self State.CleaningUp)
      else core (resolve_or_done self)
  | State.CleaningUp => core (resolve_or_done self)
  | State.Resolving =>
      self ← match response with
             | Some response => set_resolver self <$> try (Resolve.absorb (resolver self) response)
             | None => Ok self
             end;
      core (resolve_or_done self)
  | State.Done => Err (Failed (Error.backend "the program is already finished"))
  end.

#[global] Instance datalog_job : Job DatalogJob := { Output := DatalogResult; step := datalog_step }.
End job.
