(* ===== verification/ExecFacts.v ===== *)
(** * Running a compiled program: bounds, the fixpoint, cleaning up

    Whatever the backend answers, iterating ends after a bounded number of requests and never
    panics ([fixpoint_bounded]). Against a work table the statements of the phases only add rows
    to, the goal is queried at the least fixpoint of every phase, in order, and the run's rows
    are then removed ([fixpoint_reached]); a phase that does not converge is reported, but its
    rows stay ([divergence_reported]). *)

From S2P Require Export Exec.

(** ** Bounds, for every backend *)

Section bounds.
Context {OX : Oxrdf} {SD : StrDebug} {W : Type} `{!SyncBackend W}.
Implicit Types (self : DatalogJob) (w : W).

(** The jobs the step function produces before the goal is queried. *)
Definition iterating (P M : nat) (self : DatalogJob) : Prop :=
  length (phases (fixpoint self)) = P /\ Nat.max 1 (max_iterations (fixpoint self)) = M /\
  match state self with
  | State.Start => True
  | State.Seeded i => (i < P)%nat
  | State.Stepped i _ r => (i < P)%nat /\ (1 <= r <= M)%nat /\ rounds self <> []
  | _ => False
  end.

(** The requests left before the goal is queried. *)
Definition cost (P M : nat) (self : DatalogJob) : nat :=
  match state self with
  | State.Start => S (P * S (S M))
  | State.Seeded i => (P - S i) * S (S M) + S (S M)
  | State.Stepped i _ r => (P - S i) * S (S M) + S (M - r)
  | _ => 0
  end.

Lemma phase_at_ok P M self i :
  iterating P M self -> (i < P)%nat -> exists ph, phase_at self i = Ok ph.
Proof.
  intros (HP & _) Hi. unfold phase_at, expect.
  destruct (lookup_lt_is_Some_2 (phases (fixpoint self)) i) as [ph ->]; [lia|]. by exists ph.
Qed.

(** One step of iterating: another request on the way, the goal, or a failure. *)
Lemma iterating_step P M self response :
  iterating P M self ->
  (exists r self', datalog_step self response = Ok (Execute r, self') /\
     ((iterating P M self' /\ (cost P M self' < cost P M self)%nat) \/
      (state self' = State.Rows /\ r = main_query self' /\ (0 < cost P M self)%nat))) \/
  exists e, datalog_step self response = Err (Failed e).
Proof.
  intros Hi. pose proof Hi as (HP & HM & Hs). unfold datalog_step. unfold cost. destruct (state self) as [|i|i b r| | | |] eqn:Es; try done.
  - left. destruct (fixpoint_is_empty (fixpoint self)) eqn:He.
    + eexists _, _. split; [done|]. right. split_and!; [done|done|lia].
    + assert (0 < P)%nat as Hp.
      { unfold fixpoint_is_empty in He. destruct (phases (fixpoint self)); [done|]. cbn in HP. lia. }
      destruct (phase_at_ok P M self 0 Hi Hp) as [ph Hph]. unfold seed. rewrite Hph. cbn.
      eexists _, _. split; [done|]. left. split; [by split_and!|]. cbn -[Nat.mul Nat.sub]. nia.
  - left. set (self' := set_state _ _).
    assert (iterating P M self') as Hi'.
    { split_and!; [done|done|]. cbn. split_and!; [done|lia|lia|]. by destruct (rounds self). }
    destruct (phase_at_ok P M self' i Hi' Hs) as [ph Hph]. unfold step_once. rewrite Hph. cbn.
    eexists _, _. split; [done|]. left. split; [done|]. cbn -[Nat.mul Nat.sub]. lia.
  - destruct Hs as (Hip & Hr & Hne). cbn zeta. unfold record_round.
    destruct (last (rounds self)) as [l|] eqn:El; [|by apply last_None in El].
    cbn [mbind result_bind]. set (self1 := set_rounds _ _).
    assert (rounds self1 <> []) as Hne1.
    { cbn. intros Hz. apply (f_equal length) in Hz. rewrite length_insert in Hz. by destruct (rounds self). }
    assert (iterating P M (set_state self1 (State.Seeded i))) as Hi1 by (split_and!; cbn; done || lia).
    destruct (_ =? b).
    + left. unfold after_phase. change (fixpoint self1) with (fixpoint self). rewrite HP.
      destruct (Nat.ltb_spec (S i) P) as [Hlt|Hge].
      * destruct (phase_at_ok P M _ (S i) Hi1 Hlt) as [ph Hph]. unfold seed.
        change (phase_at self1 (S i)) with (phase_at (set_state self1 (State.Seeded i)) (S i)). rewrite Hph. cbn.
        eexists _, _. split; [done|]. left. split; [by split_and!|]. cbn -[Nat.mul Nat.sub].
        assert (P - S i = S (P - S (S i)))%nat as -> by lia. nia.
      * cbn. eexists _, _. split; [done|]. right. split_and!; [done|done|lia].
    + destruct (phase_at_ok P M _ i Hi1 Hip) as [ph Hph].
      change (phase_at (set_state self1 _) i) with (phase_at self1 i) in Hph.
      destruct (Nat.leb_spec (max_iterations (fixpoint self1)) r) as [Hle|Hlt].
      * right. rewrite Hph. cbn. by eexists.
      * left. unfold step_once.
        change (phase_at (set_state self1 (State.Stepped i (count_of (default [] response)) (S r))) i) with (phase_at self1 i).
        rewrite Hph. cbn. eexists _, _. split; [done|]. change (fixpoint self1) with (fixpoint self) in Hlt.
        left. split; [split_and!; [done|done|]; cbn; split_and!; [done|lia|lia|done]|].
        cbn -[Nat.mul Nat.sub]. lia.
Qed.

Lemma iterating_run P M self response w :
  iterating P M self ->
  exists n, (n <= cost P M self)%nat /\
  ((exists self' response' w', state self' = State.Rows /\
      forall fuel, run_loop (n + fuel) self response w = run_loop fuel self' (Some response') w') \/
   (exists e w', forall fuel, run_loop (S n + fuel) self response w = Some (Err (Failed e), w'))).
Proof.
  remember (cost P M self) as c eqn:Hc. revert self response w Hc.
  induction (lt_wf c) as [c _ IH]. intros self response w -> Hi.
  destruct (iterating_step P M self response Hi) as [(r & self' & Hs & Hnext)|(e & Hs)].
  2: { exists 0%nat. split; [lia|]. right. exists e, w. intros fuel. cbn. by rewrite Hs. }
  destruct (execute r w) as [[resp|e] w'] eqn:Hx.
  2: { exists 0%nat. split; [lia|]. right. exists e, w'. intros fuel. cbn. by rewrite Hs, Hx. }
  destruct Hnext as [[Hi' Hlt]|(Hrows & _ & Hpos)].
  - destruct (IH _ Hlt self' (Some resp) w' eq_refl Hi') as (n & Hn & Hrun).
    exists (S n). split; [lia|]. destruct Hrun as [(s2 & r2 & w2 & H2 & Hrun)|(e & w2 & Hrun)].
    + left. exists s2, r2, w2. split; [done|]. intros fuel. cbn [run_loop Nat.add]. cbn [step datalog_job].
      rewrite Hs, Hx. apply Hrun.
    + right. exists e, w2. intros fuel. change (S (S n) + fuel)%nat with (S (S n + fuel)).
      cbn [run_loop]. cbn [step datalog_job]. rewrite Hs, Hx. apply Hrun.
  - exists 1%nat. split; [lia|]. left. exists self', resp, w'. split; [done|]. intros fuel.
    cbn [run_loop Nat.add]. cbn [step datalog_job]. by rewrite Hs, Hx.
Qed.
End bounds.

(** C18: whatever the backend answers, a program leaves its fixpoint phases after at most
    [1 + p * (m + 2)] requests, for [p] phases and at most [m] rounds each (one at least): it
    then waits for the answer to its goal, or it has failed with an error of the backend or the
    iteration limit; it never panics. *)
Theorem fixpoint_bounded {OX : Oxrdf} {SD : StrDebug} {W : Type} `{!SyncBackend W}
    (c : Compiled) (caps : Capabilities) (w : W) :
  let p := length (phases (c_fixpoint c)) in
  let m := Nat.max 1 (max_iterations (c_fixpoint c)) in
  exists n, (n <= 1 + p * (m + 2))%nat /\
  ((exists job response w', state job = State.Rows /\
      forall fuel, run_loop (n + fuel) (DatalogJob_new c caps) None w = run_loop fuel job (Some response) w') \/
   (exists e w', forall fuel,
      run_loop (S n + fuel) (DatalogJob_new c caps) None w = Some (Err (Failed e), w'))).
Proof.
  cbn zeta. set (p := length _). set (m := Nat.max 1 _).
  destruct (iterating_run p m (DatalogJob_new c caps) None w) as (n & Hn & Hrun); [by split_and!|].
  exists n. split; [|exact Hrun]. etrans; [exact Hn|]. unfold cost. cbn. nia.
Qed.

(** ** A work table *)

(** What SQL statements do to the rows of a run, and what they return. *)
Class WorkTable (R : Type) `{Countable R} := {
  effect : string -> gset R -> gset R;
  answer : string -> gset R -> list (list SqlValue);
}.

Section work.
Context {OX : Oxrdf} {SD : StrDebug} {R : Type} `{HR : Countable R} {WT : WorkTable R}.
Implicit Types (X Y Z : gset R) (ph : FixpointPhase) (f : Fixpoint_).

Fixpoint exec_statements (l : list Statement) X : Response * gset R :=
  match l with
  | [] => ([], X)
  | s :: l =>
      let '(resp, X') := exec_statements l (effect (sql s) X) in
      (mkResultSet (answer (sql s) X) 0 :: resp, X')
  end.

#[local] Instance work_backend : SyncBackend (gset R) := {
  execute r X := let '(resp, X') := exec_statements (statements r) X in (Ok resp, X');
  capabilities _ := native;
  begin := no_transactions;
  commit := no_transactions;
  rollback := no_transactions;
}.

Definition apply_all (l : list string) X : gset R := foldl (fun X s => effect s X) X l.
Definition seeded (i : nat) ph X : gset R := apply_all (ph_seed ph) (if (i =? 0)%nat then ∅ else X).
Definition stepped ph : gset R -> gset R := apply_all (ph_step ph).

(** What the statements of a compiled program rely on. *)
Record work_statements (c : Compiled) : Prop := {
  ws_cleanup X : effect (cleanup (c_fixpoint c)) X = ∅;
  ws_count_effect X : effect (count (c_fixpoint c)) X = X;
  ws_count X : answer (count (c_fixpoint c)) X = [[SqlValue.Integer (Z.of_nat (size X))]];
  ws_goal X : effect (c_sql c) X = X;
  ws_grows ph s X : ph ∈ phases (c_fixpoint c) -> s ∈ ph_step ph -> X ⊆ effect s X;
  ws_mono ph s X Y : ph ∈ phases (c_fixpoint c) -> s ∈ ph_step ph -> X ⊆ Y -> effect s X ⊆ effect s Y;
}.

(** The least set that contains [Y] and that the phase's rules add nothing to. *)
Definition least_closed ph Y Z : Prop :=
  Y ⊆ Z /\ stepped ph Z ⊆ Z /\ forall Z', Y ⊆ Z' -> stepped ph Z' ⊆ Z' -> Z ⊆ Z'.
(** [k] rounds from [Y] reach a closed set, and no fewer. *)
Definition closes_after ph Y (k : nat) : Prop :=
  stepped ph (Nat.iter k (stepped ph) Y) ⊆ Nat.iter k (stepped ph) Y /\
  forall j, (j < k)%nat -> ~ stepped ph (Nat.iter j (stepped ph) Y) ⊆ Nat.iter j (stepped ph) Y.

(** The phases from the [i]th on, started from [X], reach [Z] in [ks] productive rounds each,
    within [m] rounds. *)
Inductive reaches (m : nat) : nat -> gset R -> list FixpointPhase -> list nat -> gset R -> Prop :=
  | reaches_nil i X : reaches m i X [] [] X
  | reaches_cons i X ph phs k ks Z Z' :
      least_closed ph (seeded i ph X) Z -> closes_after ph (seeded i ph X) k -> (k < Nat.max 1 m)%nat ->
      reaches m (S i) Z phs ks Z' -> reaches m i X (ph :: phs) (k :: ks) Z'.

Lemma exec_statements_app l1 l2 X :
  exec_statements (l1 ++ l2) X =
  let '(r1, X1) := exec_statements l1 X in let '(r2, X2) := exec_statements l2 X1 in (r1 ++ r2, X2).
Proof.
  revert X. induction l1 as [|s l1 IH]; intros X; cbn; [by destruct (exec_statements l2 X)|].
  rewrite IH. destruct (exec_statements l1 _) as [r1 X1]. by destruct (exec_statements l2 X1).
Qed.

Lemma exec_sql l X : (exec_statements (Statement_new <$> l) X).2 = apply_all l X.
Proof.
  revert X. induction l as [|s l IH]; intros X; [done|].
  change (apply_all (s :: l) X) with (apply_all l (effect s X)). rewrite <- IH. cbn [fmap list_fmap exec_statements].
  by destruct (exec_statements _ (effect _ X)).
Qed.

Section program.
Context (c : Compiled) (Hc : work_statements c).
Let f := c_fixpoint c.

(** The answer to a fixpoint request: whatever comes first, then the count of the rows. *)
Definition counted (resp : Response) X : Prop :=
  exists r1, resp = r1 ++ [mkResultSet [[SqlValue.Integer (Z.of_nat (size X))]] 0].

Lemma counted_count resp X : counted resp X -> count_of resp = Z.of_nat (size X).
Proof. intros [r1 ->]. unfold count_of. by rewrite last_snoc. Qed.

Lemma exec_count l X :
  exists resp, exec_statements ((Statement_new <$> l) ++ [Statement_new (count f)]) X = (resp, apply_all l X) /\
  counted resp (apply_all l X).
Proof.
  rewrite exec_statements_app. pose proof (exec_sql l X) as Hl.
  destruct (exec_statements (Statement_new <$> l) X) as [r1 X1]. cbn in Hl. subst X1. cbn. fold f.
  rewrite (ws_count_effect c Hc), (ws_count c Hc). eexists. split; [done|]. by exists r1.
Qed.

Lemma execute_seed i ph X :
  exists resp, execute (seed_request f i ph) X = (Ok resp, seeded i ph X) /\ counted resp (seeded i ph X).
Proof.
  unfold seed_request, seeded. cbn [execute work_backend statements Request_atomic].
  destruct (i =? 0)%nat; cbn [app exec_statements].
  - change (sql (Statement_new (cleanup f))) with (cleanup f). rewrite (ws_cleanup c Hc).
    destruct (exec_count (ph_seed ph) ∅) as (resp & -> & r1 & ->).
    eexists. split; [done|]. eexists (_ :: r1). done.
  - destruct (exec_count (ph_seed ph) X) as (resp & -> & Hn). by eexists.
Qed.

Lemma execute_step ph X :
  exists resp, execute (step_request f ph) X = (Ok resp, stepped ph X) /\ counted resp (stepped ph X).
Proof.
  unfold step_request. cbn [execute work_backend statements Request_atomic].
  destruct (exec_count (ph_step ph) X) as (resp & -> & Hn). by eexists.
Qed.

Lemma execute_goal X :
  execute (Request_read [Statement_new (c_sql c)]) X = (Ok [mkResultSet (answer (c_sql c) X) 0], X).
Proof. cbn. by rewrite (ws_goal c Hc). Qed.

Lemma execute_cleanup X :
  exists resp, execute (Request_atomic [Statement_new (cleanup f)]) X = (Ok resp, ∅).
Proof. cbn. fold f. rewrite (ws_cleanup c Hc). by eexists. Qed.

(** *** Rounds *)

Lemma stepped_grows ph X : ph ∈ phases f -> X ⊆ stepped ph X.
Proof.
  intros Hp. unfold stepped, apply_all. assert (forall s, s ∈ ph_step ph -> forall X, X ⊆ effect s X) as Hs.
  { intros s Hin Y. by apply (ws_grows c Hc ph). }
  revert X Hs. induction (ph_step ph) as [|s l IH]; intros X Hs; [done|]. cbn.
  etrans; [|apply IH]; [apply Hs; by left|]. intros s' Hin. apply Hs. by right.
Qed.

Lemma stepped_mono ph X Y : ph ∈ phases f -> X ⊆ Y -> stepped ph X ⊆ stepped ph Y.
Proof.
  intros Hp. unfold stepped, apply_all.
  assert (forall s, s ∈ ph_step ph -> forall X Y, X ⊆ Y -> effect s X ⊆ effect s Y) as Hs.
  { intros s Hin X' Y'. by apply (ws_mono c Hc ph). }
  revert X Y Hs. induction (ph_step ph) as [|s l IH]; intros X Y Hs HXY; [done|]. cbn.
  apply IH; [|by apply Hs; [left|]]. intros s' Hin. apply Hs. by right.
Qed.

Lemma iter_least ph Y Z k :
  ph ∈ phases f -> least_closed ph Y Z -> closes_after ph Y k -> Nat.iter k (stepped ph) Y = Z.
Proof.
  intros Hp (H1 & H2 & H3) [Hk _]. apply set_eq_subseteq. split.
  - clear Hk. induction k as [|k IH]; [done|]. cbn. etrans; [by apply stepped_mono|done].
  - apply H3; [|done]. clear Hk. induction k as [|k IH]; [done|]. cbn.
    etrans; [exact IH|]. by apply stepped_grows.
Qed.

Lemma size_stepped ph X :
  ph ∈ phases f -> Z.of_nat (size (stepped ph X)) = Z.of_nat (size X) <-> stepped ph X ⊆ X.
Proof.
  intros Hp. pose proof (stepped_grows ph X Hp) as Hg. split.
  - intros Hs%Nat2Z.inj. destruct (decide (stepped ph X ⊆ X)) as [|Hn]; [done|].
    assert (X ⊂ stepped ph X) as Hlt by done. apply subset_size in Hlt. lia.
  - intros Hs. f_equal. apply set_size_proper. apply set_equiv_subseteq. done.
Qed.

(** *** The run *)

Context (caps : Capabilities).

Definition job_at (s : State.t) (l : list nat) : DatalogJob :=
  mkDatalogJob c caps s (with_constants (c_constants c)) [] l.

(** The run from one state continues from another. *)
Definition goes (self : DatalogJob) (resp : option Response) X (self' : DatalogJob) (resp' : option Response) X' : Prop :=
  exists n, forall fuel, run_loop (n + fuel) self resp X = run_loop fuel self' resp' X'.

Lemma goes_trans s1 r1 X1 s2 r2 X2 s3 r3 X3 :
  goes s1 r1 X1 s2 r2 X2 -> goes s2 r2 X2 s3 r3 X3 -> goes s1 r1 X1 s3 r3 X3.
Proof.
  intros [n1 H1] [n2 H2]. exists (n1 + n2)%nat. intros fuel. by rewrite <- Nat.add_assoc, H1, H2.
Qed.

Lemma goes_step self resp X r self' resp' X' :
  datalog_step self resp = Ok (Execute r, self') -> execute r X = (Ok resp', X') ->
  goes self resp X self' (Some resp') X'.
Proof. intros Hs Hx. exists 1%nat. intros fuel. cbn [run_loop Nat.add step datalog_job]. by rewrite Hs, Hx. Qed.

Lemma record_last s l x r : record_round (job_at s (l ++ [x])) r = Ok (job_at s (l ++ [r])).
Proof.
  unfold record_round. cbn [rounds job_at]. rewrite last_snoc. unfold set_rounds. cbn.
  rewrite length_app. cbn. rewrite Nat.add_sub. f_equal. unfold job_at. f_equal.
  by rewrite insert_app_r_alt, Nat.sub_diag by lia.
Qed.

Lemma set_state_job s s' l : set_state (job_at s l) s' = job_at s' l.
Proof. done. Qed.

Lemma phase_at_job s l i ph : phases f !! i = Some ph -> phase_at (job_at s l) i = Ok ph.
Proof. intros Hi. unfold phase_at, expect, fixpoint. cbn. fold f. by rewrite Hi. Qed.

Definition goal_answer Z : Response := [mkResultSet (answer (c_sql c) Z) 0].

(** Where the run goes once the phase [i] has converged to [Z]. *)
Definition after (i : nat) Z (self : DatalogJob) (resp : option Response) X (l : list nat) : Prop :=
  match phases f !! S i with
  | Some ph => exists resp', counted resp' (seeded (S i) ph Z) /\
      goes self resp X (job_at (State.Seeded (S i)) l) (Some resp') (seeded (S i) ph Z)
  | None => goes self resp X (job_at State.Rows l) (Some (goal_answer Z)) Z
  end.

Lemma rounds_go i ph Y k j resp l x :
  phases f !! i = Some ph -> closes_after ph Y k -> (k < Nat.max 1 (max_iterations f))%nat -> (j <= k)%nat ->
  counted resp (Nat.iter (S j) (stepped ph) Y) ->
  after i (Nat.iter k (stepped ph) Y)
    (job_at (State.Stepped i (Z.of_nat (size (Nat.iter j (stepped ph) Y))) (S j)) (l ++ [x]))
    (Some resp) (Nat.iter (S j) (stepped ph) Y) (l ++ [S k]).
Proof.
  intros Hi [Hk Hmin] Hm. pose proof (list_elem_of_lookup_2 _ _ _ Hi) as Hp.
  remember (k - j)%nat as d eqn:Hd. revert j resp x Hd.
  induction d as [|d IH]; intros j resp x Hd Hj Hr; apply counted_count in Hr as Hn.
  - assert (j = k) as -> by lia. set (Z := Nat.iter k (stepped ph) Y) in *.
    assert (Nat.iter (S k) (stepped ph) Y = Z) as HZ.
    { cbn. fold Z. apply set_eq_subseteq. split; [done|]. by apply stepped_grows. }
    rewrite HZ in *. set (self := job_at _ _).
    assert (datalog_step self (Some resp) =
      '(r, self) ← after_phase (job_at (State.Stepped i (Z.of_nat (size Z)) (S k)) (l ++ [S k])) i; Ok (Execute r, self)) as Hstep.
    { unfold datalog_step, self. cbn [state job_at]. rewrite record_last. cbn [mbind result_bind default].
      cbn [default from_option id]. unfold id. by rewrite Hn, Z.eqb_refl. }
    unfold after_phase in Hstep. cbn [compiled job_at fixpoint] in Hstep. unfold fixpoint in Hstep. cbn [compiled job_at] in Hstep. fold f in Hstep.
    unfold after. destruct (phases f !! S i) as [ph'|] eqn:Hi'.
    + rewrite (proj2 (Nat.ltb_lt _ _)) in Hstep by (by eapply lookup_lt_Some).
      unfold seed in Hstep. rewrite (phase_at_job _ _ _ ph' Hi') in Hstep. cbn [fmap result_fmap mbind result_bind] in Hstep.
      destruct (execute_seed (S i) ph' Z) as (resp' & Hx & Hc'). exists resp'. split; [done|].
      eapply goes_step; [exact Hstep|exact Hx].
    + rewrite (proj2 (Nat.ltb_ge _ _)) in Hstep by (by apply lookup_ge_None).
      eapply goes_step; [exact Hstep|]. apply execute_goal.
  - assert (j < k)%nat as Hlt by lia. set (Yj := Nat.iter j (stepped ph) Y) in *.
    assert (~ stepped ph Yj ⊆ Yj) as Hopen by by apply Hmin.
    destruct (execute_step ph (Nat.iter (S j) (stepped ph) Y)) as (resp' & Hx & Hc').
    set (self := job_at _ _).
    assert (goes self (Some resp) (Nat.iter (S j) (stepped ph) Y)
      (job_at (State.Stepped i (Z.of_nat (size (Nat.iter (S j) (stepped ph) Y))) (S (S j))) (l ++ [S j]))
      (Some resp') (Nat.iter (S (S j)) (stepped ph) Y)) as Hgo.
    { eapply goes_step; [|exact Hx]. unfold datalog_step, self. cbn [state job_at]. rewrite record_last.
      cbn [mbind result_bind default from_option]. unfold id. rewrite Hn.
      assert ((Z.of_nat (size (Nat.iter (S j) (stepped ph) Y)) =? Z.of_nat (size Yj)) = false) as ->.
      { apply Z.eqb_neq. intros He. apply Hopen. by apply size_stepped. }
      unfold fixpoint. cbn [compiled job_at]. fold f. rewrite (proj2 (Nat.leb_gt _ _)) by lia.
      rewrite set_state_job. unfold step_once. by rewrite (phase_at_job _ _ i ph Hi). }
    specialize (IH (S j) resp' (S j) ltac:(lia) ltac:(lia) Hc').
    unfold after in *. destruct (phases f !! S i) as [ph'|].
    + destruct IH as (r' & Hr' & IH). exists r'. split; [done|]. by eapply goes_trans.
    + by eapply goes_trans.
Qed.

Lemma seeded_go i l ph Y resp :
  phases f !! i = Some ph -> counted resp Y ->
  exists resp1, counted resp1 (stepped ph Y) /\
  goes (job_at (State.Seeded i) l) (Some resp) Y
    (job_at (State.Stepped i (Z.of_nat (size Y)) 1) (l ++ [0%nat])) (Some resp1) (stepped ph Y).
Proof.
  intros Hi Hr. destruct (execute_step ph Y) as (resp1 & Hx & Hc1). exists resp1. split; [done|].
  eapply goes_step; [|exact Hx]. unfold datalog_step. cbn [state job_at default from_option]. unfold id.
  rewrite (counted_count _ _ Hr).
  change (set_state _ _) with (job_at (State.Stepped i (Z.of_nat (size Y)) 1) (l ++ [0%nat])).
  unfold step_once. by rewrite (phase_at_job _ _ i ph Hi).
Qed.

Lemma phases_go pre ph phs ks X Z resp l :
  phases f = pre ++ ph :: phs -> reaches (max_iterations f) (length pre) X (ph :: phs) ks Z ->
  counted resp (seeded (length pre) ph X) ->
  goes (job_at (State.Seeded (length pre)) l) (Some resp) (seeded (length pre) ph X)
    (job_at State.Rows (l ++ (S <$> ks))) (Some (goal_answer Z)) Z.
Proof.
  revert pre ph ks X resp l. induction phs as [|ph2 phs IH]; intros pre ph ks X resp l Hf Hreach Hr;
    inversion Hreach as [|? ? ? ? k ks' Z1 ? Hl Hk Hm Hrest]; subst; clear Hreach.
  all: assert (phases f !! length pre = Some ph) as Hi by (rewrite Hf; by apply list_lookup_middle).
  all: pose proof (list_elem_of_lookup_2 _ _ _ Hi) as Hp.
  all: set (Y := seeded (length pre) ph X) in *.
  all: destruct (seeded_go (length pre) l ph Y resp Hi Hr) as (resp1 & Hc1 & Hgo).
  all: pose proof (rounds_go (length pre) ph Y k 0 resp1 l 0 Hi Hk Hm ltac:(lia) Hc1) as Hafter.
  all: rewrite (iter_least ph Y Z1 k Hp Hl Hk) in Hafter; unfold after in Hafter.
  - inversion Hrest; subst. rewrite (proj2 (lookup_ge_None _ _)) in Hafter by (rewrite Hf, length_app; cbn; lia).
    eapply goes_trans; [exact Hgo|]. exact Hafter.
  - assert (phases f !! S (length pre) = Some ph2) as Hi2.
    { rewrite Hf, lookup_app_r by lia. by replace (S (length pre) - length pre)%nat with 1%nat by lia. }
    rewrite Hi2 in Hafter. destruct Hafter as (resp2 & Hc2 & Hgo2).
    eapply goes_trans; [exact Hgo|]. eapply goes_trans; [exact Hgo2|].
    specialize (IH (pre ++ [ph]) ph2 ks' Z1 resp2 (l ++ [S k])). rewrite length_app, Nat.add_1_r in IH.
    cbn [fmap list_fmap]. change (l ++ S k :: (S <$> ks')) with (l ++ [S k] ++ (S <$> ks')).
    rewrite app_assoc. apply IH; [by rewrite Hf, <- app_assoc|done|done].
Qed.

Lemma start_go ph phs X :
  phases f = ph :: phs ->
  exists resp, counted resp (seeded 0 ph X) /\
  goes (DatalogJob_new c caps) None X (job_at (State.Seeded 0) []) (Some resp) (seeded 0 ph X).
Proof.
  intros Hf. destruct (execute_seed 0 ph X) as (resp & Hx & Hr). exists resp. split; [done|].
  eapply goes_step; [|exact Hx]. change (DatalogJob_new c caps) with (job_at State.Start []).
  unfold datalog_step. cbn [state job_at]. unfold fixpoint_is_empty, fixpoint. cbn [compiled job_at]. fold f.
  rewrite Hf, set_state_job. unfold seed. rewrite (phase_at_job _ _ 0 ph) by by rewrite Hf. done.
Qed.

(** The ids of a solution. *)
Definition row_ids (row : list SqlValue) : list (option Z) :=
  (fun i => cell_id (row !! i)) <$> seq 0 (length (c_variables c)).

Lemma absorb_cells row l r out :
  (foldl (absorb_cell row) (r, out) l).2 = out ++ ((fun i => cell_id (row !! i)) <$> l).
Proof.
  revert r out. induction l as [|i l IH]; intros r out; cbn; [by rewrite app_nil_r|].
  unfold absorb_cell at 2. cbn [fst snd]. by rewrite IH, <- app_assoc.
Qed.

Lemma absorb_solutions l r out :
  (foldl (absorb_solution (length (c_variables c))) (r, out) l).2 = out ++ (row_ids <$> l).
Proof.
  revert r out. induction l as [|row l IH]; intros r out; cbn; [by rewrite app_nil_r|].
  unfold absorb_solution at 2. cbn [fst snd]. pose proof (absorb_cells row (seq 0 (length (c_variables c))) r []) as Hc'.
  destruct (foldl (absorb_cell row) _ _) as [r' ids]. cbn in Hc'. subst ids. by rewrite IH, <- app_assoc.
Qed.

Lemma goal_go l Z :
  phases f <> [] ->
  exists job resp, goes (job_at State.Rows l) (Some (goal_answer Z)) Z job (Some resp) ∅ /\
    state job = State.CleaningUp /\ rounds job = l /\ dj_ids job = row_ids <$> answer (c_sql c) Z.
Proof.
  intros Hne. destruct (execute_cleanup Z) as [resp Hx].
  pose proof (absorb_solutions (answer (c_sql c) Z) (with_constants (c_constants c)) []) as Hids.
  destruct (foldl (absorb_solution (length (c_variables c))) (with_constants (c_constants c), []) (answer (c_sql c) Z))
    as [r ids] eqn:Hfold. cbn in Hids. subst ids.
  exists (mkDatalogJob c caps State.CleaningUp r (row_ids <$> answer (c_sql c) Z) l), resp.
  split_and!; [|done..]. eapply goes_step; [|exact Hx]. unfold datalog_step. cbn [state job_at]. cbn.
  rewrite Hfold. cbn. unfold fixpoint_is_empty, fixpoint. cbn. fold f. by destruct (phases f).
Qed.

(** A first phase that grows for as many rounds as are allowed. *)
Lemma diverge_go ph phs Y j resp l x :
  phases f = ph :: phs ->
  (forall j, (j < Nat.max 1 (max_iterations f))%nat -> ~ stepped ph (Nat.iter j (stepped ph) Y) ⊆ Nat.iter j (stepped ph) Y) ->
  (j < Nat.max 1 (max_iterations f))%nat -> counted resp (Nat.iter (S j) (stepped ph) Y) ->
  exists n, forall fuel,
    run_loop (n + S fuel) (job_at (State.Stepped 0 (Z.of_nat (size (Nat.iter j (stepped ph) Y))) (S j)) (l ++ [x]))
      (Some resp) (Nat.iter (S j) (stepped ph) Y) =
    Some (Err (Failed (into_core (DatalogError.IterationLimit (join ", " (ph_preds ph)) (Nat.max 1 (max_iterations f))))),
      Nat.iter (Nat.max 1 (max_iterations f)) (stepped ph) Y).
Proof.
  intros Hf Hopen. set (m := Nat.max 1 (max_iterations f)) in *.
  assert (phases f !! 0%nat = Some ph) as Hi by by rewrite Hf.
  pose proof (list_elem_of_lookup_2 _ _ _ Hi) as Hp.
  remember (m - S j)%nat as d eqn:Hd. revert j resp x Hd. induction d as [|d IH]; intros j resp x Hd Hj Hr;
    apply counted_count in Hr as Hn; pose proof (Hopen j Hj) as Ho; set (Yj := Nat.iter j (stepped ph) Y) in *.
  all: assert ((count_of resp =? Z.of_nat (size Yj)) = false) as Hneq
    by (rewrite Hn; apply Z.eqb_neq; intros He; apply Ho; by apply size_stepped).
  - exists 0%nat. intros fuel. cbn [Nat.add run_loop step datalog_job]. unfold datalog_step. cbn [state job_at].
    rewrite record_last. cbn [mbind result_bind default from_option]. unfold id. rewrite Hneq.
    unfold fixpoint. cbn [compiled job_at]. fold f. rewrite (proj2 (Nat.leb_le _ _)) by lia.
    rewrite (phase_at_job _ _ 0 ph Hi). cbn [mbind result_bind]. assert (S j = m) as <- by lia. done.
  - destruct (execute_step ph (Nat.iter (S j) (stepped ph) Y)) as (resp' & Hx & Hc').
    destruct (IH (S j) resp' (S j) ltac:(lia) ltac:(lia) Hc') as [n Hrun]. exists (S n). intros fuel.
    rewrite <- (Hrun fuel). cbn [Nat.add run_loop step datalog_job]. unfold datalog_step at 1. cbn [state job_at].
    rewrite record_last. cbn [mbind result_bind default from_option]. unfold id. rewrite Hneq.
    unfold fixpoint. cbn [compiled job_at]. fold f. rewrite (proj2 (Nat.leb_gt _ _)) by lia.
    rewrite set_state_job. unfold step_once. rewrite (phase_at_job _ _ 0 ph Hi). cbn [fmap result_fmap mbind result_bind].
    unfold fixpoint. cbn [compiled job_at]. fold f. rewrite Hx, Hn. done.
Qed.
End program.
End work.

(** C17: when the phases of a program converge within the allowed rounds, the job queries its
    goal exactly once, on the least set of rows closed under the rules of every phase in turn;
    it reports one round more than the productive ones for each phase, keeps the ids of the
    goal's solutions, and removes the run's rows. *)
Theorem fixpoint_reached {OX : Oxrdf} {SD : StrDebug} {R : Type} `{Countable R} {WT : WorkTable R}
    (c : Compiled) (caps : Capabilities) (X Z : gset R) (ks : list nat)
    (Hc : work_statements c) (Hne : phases (c_fixpoint c) <> [])
    (Hr : reaches (max_iterations (c_fixpoint c)) 0 X (phases (c_fixpoint c)) ks Z) :
  exists n job resp,
    (forall fuel, run_loop (SyncBackend0 := work_backend) (n + fuel) (DatalogJob_new c caps) None X =
       run_loop (SyncBackend0 := work_backend) fuel job (Some resp) ∅) /\
    state job = State.CleaningUp /\ rounds job = S <$> ks /\
    dj_ids job = row_ids c <$> answer (c_sql c) Z.
Proof.
  destruct (phases (c_fixpoint c)) as [|ph phs] eqn:Hf; [done|].
  destruct (start_go c Hc caps ph phs X Hf) as (resp & Hcount & Hgo).
  pose proof (phases_go c Hc caps [] ph phs ks X Z resp [] Hf Hr Hcount) as Hgo2.
  destruct (goal_go c Hc caps (S <$> ks) Z) as (job & resp2 & Hgo3 & Hs & Hrd & Hids); [by rewrite Hf|].
  destruct (goes_trans _ _ _ _ _ _ _ _ _ Hgo (goes_trans _ _ _ _ _ _ _ _ _ Hgo2 Hgo3)) as [n Hn].
  by exists n, job, resp2.
Qed.


(** ** An example: counting to two *)

Module SampleWork.
Definition fixpoint (limit : nat) : Fixpoint_ := mkFixpoint 7 [mkPhase ["upto"] ["seed"] ["step"]] limit.
Definition compiled (limit : nat) : @Compiled ConcreteRdf.oxrdf :=
  mkCompiled "goal" ["x"] ∅ [] (fixpoint limit).

(** The seed derives 0, a step the successors of the numbers below 2. *)
Definition successors (X : gset Z) : gset Z := list_to_set ((fun x => x + 1) <$> filter (fun x => x < 2) (elements X)).
#[local] Instance table : WorkTable Z := {
  effect s X :=
    if String.eqb s (cleanup (fixpoint 0)) then ∅
    else if String.eqb s "seed" then X ∪ {[0]}
    else if String.eqb s "step" then X ∪ successors X
    else X;
  answer s X :=
    if String.eqb s (count (fixpoint 0)) then [[SqlValue.Integer (Z.of_nat (size X))]]
    else (fun x => [SqlValue.Integer x]) <$> elements X;
}.
#[local] Instance debug : StrDebug := fun s => s.

Lemma statements limit : work_statements (compiled limit).
Proof.
  assert (forall s, s ∈ ["step"] -> forall X : gset Z, effect s X = X ∪ successors X) as Hs.
  { intros s ->%list_elem_of_singleton X. done. }
  assert (forall x (X : gset Z), x ∈ successors X <-> exists y, x = y + 1 /\ y ∈ X /\ y < 2) as Hsucc.
  { intros x X. unfold successors. rewrite elem_of_list_to_set, list_elem_of_fmap.
    setoid_rewrite list_elem_of_filter. setoid_rewrite elem_of_elements. naive_solver. }
  constructor; try done.
  - intros ph s X Hp%list_elem_of_singleton Hin. subst ph. rewrite Hs by done. set_solver.
  - intros ph s X Y Hp%list_elem_of_singleton Hin HXY. subst ph. rewrite !Hs by done.
    intros x. rewrite !elem_of_union, !Hsucc. set_solver.
Qed.
End SampleWork.
#[local] Existing Instance SampleWork.debug.
#[local] Existing Instance SampleWork.table.

Lemma subset_computes (X Y : gset Z) : bool_decide (X ⊆ Y) = true -> X ⊆ Y.
Proof. apply bool_decide_eq_true_1. Qed.
Lemma no_subset_computes (X Y : gset Z) : bool_decide (X ⊆ Y) = false -> ~ X ⊆ Y.
Proof. apply bool_decide_eq_false_1. Qed.

Lemma fixpoint_reached_witness :
  exists n job resp,
    (forall fuel,
       run_loop (SyncBackend0 := work_backend) (n + fuel)
         (DatalogJob_new (SampleWork.compiled 10) native) None ∅ =
       run_loop (SyncBackend0 := work_backend) fuel job (Some resp) ∅) /\
    state job = State.CleaningUp /\ rounds job = [3%nat] /\
    dj_ids job = row_ids (SampleWork.compiled 10) <$> answer "goal" {[0; 1; 2]}.
Proof.
  apply (fixpoint_reached (SampleWork.compiled 10) native ∅ {[0; 1; 2]} [2%nat]).
  - apply SampleWork.statements.
  - done.
  - eapply reaches_cons; [| | |apply reaches_nil].
    + split_and!.
      * apply subset_computes. by vm_compute.
      * apply subset_computes. by vm_compute.
      * intros Z' H0 Hcl. assert (0 ∈ Z') as Hz by (apply H0, (bool_decide_unpack _); by vm_compute).
        assert (forall x, x ∈ Z' -> x < 2 -> x + 1 ∈ Z') as Hn.
        { intros x Hx Hlt. apply Hcl. cbn. apply elem_of_union_r. unfold SampleWork.successors.
          apply elem_of_list_to_set, list_elem_of_fmap. exists x. split; [done|].
          apply list_elem_of_filter. split; [done|]. by apply elem_of_elements. }
        pose proof (Hn 0 Hz ltac:(lia)) as H1. pose proof (Hn 1 H1 ltac:(lia)) as H2. set_solver.
    + split; [apply subset_computes; by vm_compute|]. intros j Hj. assert (j = 0 \/ j = 1)%nat as [-> | ->] by lia;
        apply no_subset_computes; by vm_compute.
    + cbn. lia.
Defined.

