(* ===== verification/Materialize.v ===== *)
(** * Storing what a program derives ([crates/oxilite-datalog/src/materialize.rs])

    The inferences of a producer ([crates/oxilite-core/src/reason.rs]) and the job that
    replaces them by what a Datalog program derives: the phases are iterated as for a query
    ([Exec]), then one atomic request resets the producer's inferences and inserts the new ones,
    and the run's rows are removed. The theorems are in [MaterializeFacts]. *)

From S2P Require Export Writer Parse Exec.

(** ** Producers of inferences ([reason.rs]) *)

Definition OWL_PRODUCER : string := "owl2rl".
Definition OWL : string := "http://www.w3.org/2002/07/owl#".

Module rdfs.
Definition NS : string := "http://www.w3.org/2000/01/rdf-schema#".
Definition SUB_CLASS_OF : string := NS +:+ "subClassOf".
Definition SUB_PROPERTY_OF : string := NS +:+ "subPropertyOf".
Definition DOMAIN : string := NS +:+ "domain".
Definition RANGE : string := NS +:+ "range".
End rdfs.

Section inference.
Context {OX : Oxrdf} {XX : Xxh3} {OD : OxsDatatypes}.

Definition producer_id (name : string) : Z := wrap_i64 (Z.shiftr (xxh3_64 (bytes name)) 2).

Definition inference_reset (name : string) : list Statement :=
  let id := show_Z (producer_id name) in
  Statement_new <$>
    [ "INSERT OR REPLACE INTO inf_producers(id, name) VALUES (" +:+ id +:+ ", '" +:+ double_quotes name +:+ "')";
      "DELETE FROM quads_inf_src WHERE src = " +:+ id;
      "DELETE FROM quads_inf WHERE NOT EXISTS (SELECT 1 FROM quads_inf_src q " +:+
        "WHERE q.s = quads_inf.s AND q.p = quads_inf.p AND q.o = quads_inf.o AND q.g = quads_inf.g)" ].

Definition inference_attribute (name : string) : Statement :=
  Statement_new ("INSERT OR IGNORE INTO quads_inf_src(src, s, p, o, g) SELECT " +:+ show_Z (producer_id name) +:+
    ", i.s, i.p, i.o, i.g FROM quads_inf i " +:+
    "WHERE NOT EXISTS (SELECT 1 FROM quads_inf_src q WHERE q.s = i.s AND q.p = i.p AND q.o = i.o AND q.g = i.g)").

(** [<[i64; 4] as Ord>::le]. *)
Definition ids_le (a b : QuadIds) : Prop :=
  let '(s, p, o, g) := a in let '(s', p', o', g') := b in
  s < s' \/ s = s' /\ (p < p' \/ p = p' /\ (o < o' \/ o = o' /\ g <= g')).
#[global] Instance ids_le_dec a b : Decision (ids_le a b).
Proof. destruct a as [[[s p] o] g], b as [[[s' p'] o'] g']. cbn. apply _. Defined.

(** [Vec::dedup]. *)
Fixpoint dedup (l : list QuadIds) : list QuadIds :=
  match l with
  | x :: (y :: _) as rest => if bool_decide (x = y) then dedup rest else x :: dedup rest
  | _ => l
  end.

Definition inference_replace (producer : string) (quads : list Quad) (caps : Capabilities) : Request * Z :=
  let '(rows, ids) := foldl (fun s q => let '(rows, id) := rows_quad s.1 q in (rows, s.2 ++ [id]))
                        (empty_rows, []) quads in
  let ids := dedup (merge_sort ids_le ids) in
  (Request_atomic (inference_reset producer ++ term_statements (rows_dedup rows) caps ++
     insert_statements_into "quads_inf" ids caps ++ [inference_attribute producer]),
   Z.of_nat (length ids)).

Definition add_iri (rows : EncodedRows) (iri : string) : EncodedRows := (rows_iri rows iri).1.

Definition materialize_reset_for (caps : Capabilities) (producer : string) : list Statement :=
  let rows := foldl add_iri empty_rows
    ([rdf.TYPE; rdfs.SUB_CLASS_OF; rdfs.SUB_PROPERTY_OF; rdfs.DOMAIN; rdfs.RANGE] ++
     ((fun l => OWL +:+ l) <$>
        ["sameAs"; "equivalentClass"; "equivalentProperty"; "Thing"; "Nothing"; "Class"])) in
  inference_reset producer ++ term_statements (rows_dedup rows) caps.

Definition materialize_reset (caps : Capabilities) : list Statement := materialize_reset_for caps OWL_PRODUCER.
End inference.

(** ** The plan *)

Record MaterializeStats := mkStats { inferred : Z; relations : nat }.

Section plan.
Context {OX : Oxrdf} {XX : Xxh3} {OD : OxsDatatypes} {SD : StrDebug} {TD : TermDisplay} `{LC : Lowercase}.

Definition triple_shaped (head : Head) : result DatalogError unit :=
  let ok := match head_pred head with
            | Edb _ => (length (head_args head) =? 1)%nat || (length (head_args head) =? 2)%nat
            | PTriple graph => (length (head_args head) =? if graph then 4 else 3)%nat
            | _ => false
            end in
  if ok then Ok tt else Err (DatalogError.NotTripleShaped (Pred.to_string (head_pred head))).

(** The distinct rule heads a program asks to store. *)
Fixpoint stored_heads (rs : list Rule) (out : list Head) : result DatalogError (list Head) :=
  match rs with
  | [] => Ok out
  | r :: rs =>
      _ ← triple_shaped (head r);
      stored_heads rs (if existsb (fun h => bool_decide (head_pred h = head_pred (head r))) out then out
                       else out ++ [head r])
  end.
Definition materializable (program : Program) : result DatalogError (list Head) := stored_heads (rules program) [].

Definition relation_goal (head : Head) : Goal_ :=
  mkGoal (mkAtom (head_pred head) ((fun i => ArgVar ("__m" +:+ show_nat i)) <$> seq 0 (length (head_args head)))
            (head_span head) None) [].

Definition relation_for (program : Program) (analysis : Analysis) (head : Head) (caps : Capabilities)
    (options : Options) (run : Z) : result CompileFault Compiled :=
  compile_for program analysis caps options run (relation_goal head).

(** The columns of the inserted quads. *)
Definition insert_columns (head : Head) : option (string * string * string * string) :=
  match head_pred head with
  | Edb iri =>
      Some (if (length (head_args head) =? 1)%nat
            then ("v0", show_Z rdf_type_id, show_Z (named_node_id iri), "0")
            else ("v0", show_Z (named_node_id iri), "v1", "0"))
  | PTriple graph => Some ("v0", "v1", "v2", if graph then "v3" else "0")
  | _ => None
  end.

Definition insert_for (head : Head) (compiled : Compiled) : result DatalogError string :=
  match insert_columns head with
  | None => Err (DatalogError.NotTripleShaped (Pred.to_string (head_pred head)))
  | Some (s, p, o, g) =>
      Ok ("INSERT OR IGNORE INTO quads_inf (s, p, o, g) SELECT " +:+ s +:+ ", " +:+ p +:+ ", " +:+ o +:+ ", " +:+ g +:+
        " FROM (" +:+ c_sql compiled +:+ ") WHERE " +:+
        join " AND " ((fun i => "v" +:+ show_nat i +:+ " IS NOT NULL") <$> seq 0 (length (head_args head))))
  end.

(** What the heads planned so far have contributed. *)
Record Planned := mkPlanned { pl_fixpoint : Fixpoint_; pl_rows : EncodedRows; pl_inserts : list Statement }.

Definition plan_head (program : Program) (analysis : Analysis) (caps : Capabilities) (options : Options) (run : Z)
    (s : Planned) (head : Head) : result CompileFault Planned :=
  compiled ← relation_for program analysis head caps options run;
  let f := if fixpoint_is_empty (pl_fixpoint s) then c_fixpoint compiled else pl_fixpoint s in
  let rows := foldl (fun rows t => (rows_term rows t).1) (pl_rows s) (map_to_list (c_constants compiled)).*2 in
  let rows := match head_pred head with Edb iri => add_iri rows iri | _ => rows end in
  i ← map_err Refused (insert_for head compiled);
  Ok (mkPlanned f rows (pl_inserts s ++ [Statement_new i])).

Fixpoint plan_heads (program : Program) (analysis : Analysis) (caps : Capabilities) (options : Options) (run : Z)
    (s : Planned) (heads : list Head) : result CompileFault Planned :=
  match heads with
  | [] => Ok s
  | h :: heads => s ← plan_head program analysis caps options run s h;
                  plan_heads program analysis caps options run s heads
  end.

(** [plan] once the program is parsed; the run id is [new_run]'s. *)
Definition plan_program (program : Program) (caps : Capabilities) (options : Options) (run : Z)
  : result CompileFault (Fixpoint_ * list Statement * nat) :=
  analysis ← map_err Refused (analyse program);
  heads ← map_err Refused (materializable program);
  s ← plan_heads program analysis caps options run (mkPlanned (mkFixpoint run [] 0) empty_rows []) heads;
  Ok (pl_fixpoint s,
      materialize_reset_for caps (o_producer options) ++ term_statements (rows_dedup (pl_rows s)) caps ++
      pl_inserts s ++
      [inference_attribute (o_producer options); Statement_new "SELECT COUNT(*) FROM quads_inf"],
      length heads).

Definition plan (src : string) (caps : Capabilities) (options : Options) (run_no : Z)
  : fueled CompileFault (Fixpoint_ * list Statement * nat) :=
  match Parser.parse src with
  | Returned program => run (plan_program program caps options run_no)
  | Raised e => Raised (Refused e)
  | OutOfFuel => OutOfFuel
  end.
End plan.

(** ** The job *)

Module MState.
Inductive t :=
  | Start
  | Seeded (phase : nat)
  | Stepped (phase : nat) (before : Z) (round : nat)
  | Wrote
  | CleaningUp (inferred : Z)
  | Done.
End MState.

Section job.
Context {SD : StrDebug}.

Record MaterializeJob := mkMaterializeJob {
  m_fixpoint : Fixpoint_;
  m_statements : list Statement;
  m_relations : nat;
  m_state : MState.t;
  m_rounds : list nat;
}.

Definition MaterializeJob_new (p : Fixpoint_ * list Statement * nat) : MaterializeJob :=
  let '(f, statements, n) := p in mkMaterializeJob f statements n MState.Start [].

Implicit Types (self : MaterializeJob).

Definition m_goto self (s : MState.t) : MaterializeJob :=
  mkMaterializeJob (m_fixpoint self) (m_statements self) (m_relations self) s (m_rounds self).
Definition m_set_rounds self (l : list nat) : MaterializeJob :=
  mkMaterializeJob (m_fixpoint self) (m_statements self) (m_relations self) (m_state self) l.

Definition m_phase_at self (phase : nat) : result Fault FixpointPhase :=
  expect (phases (m_fixpoint self) !! phase) "index out of bounds".
Definition m_seed self (phase : nat) : result Fault Request :=
  seed_request (m_fixpoint self) phase <$> m_phase_at self phase.
Definition m_step_once self (phase : nat) : result Fault Request :=
  step_request (m_fixpoint self) <$> m_phase_at self phase.

(** [std::mem::take]: the statements are given away. *)
Definition writes self : Request * MaterializeJob :=
  (Request_atomic (m_statements self),
   mkMaterializeJob (m_fixpoint self) [] (m_relations self) (m_state self) (m_rounds self)).

Definition m_after_phase self (phase : nat) : result Fault (Request * MaterializeJob) :=
  if (S phase <? length (phases (m_fixpoint self)))%nat then
    r ← m_seed self (S phase); Ok (r, m_goto self (MState.Seeded (S phase)))
  else Ok (writes (m_goto self MState.Wrote)).

Definition m_done self (inferred : Z) : MaterializeStats := mkStats inferred (m_relations self).

Definition m_record_round self (round : nat) : result Fault MaterializeJob :=
  match last (m_rounds self) with
  | Some _ => Ok (m_set_rounds self (<[(length (m_rounds self) - 1)%nat := round]> (m_rounds self)))
  | None => Err (Panic "a phase was seeded")
  end.

(** [i64 as u64]. *)
Definition as_u64 (z : Z) : Z := z mod 2 ^ 64.

Definition materialize_step self (response : option Response)
  : result Fault (Step MaterializeStats * MaterializeJob) :=
  match m_state self with
  | MState.Start =>
      if fixpoint_is_empty (m_fixpoint self) then
        let '(r, self) := writes (m_goto self MState.Wrote) in Ok (Execute r, self)
      else r ← m_seed self 0; Ok (Execute r, m_goto self (MState.Seeded 0))
  | MState.Seeded phase =>
      let before := count_of (default [] response) in
      let self := m_goto (m_set_rounds self (m_rounds self ++ [0%nat])) (MState.Stepped phase before 1) in
      r ← m_step_once self phase; Ok (Execute r, self)
  | MState.Stepped phase before round =>
      let after := count_of (default [] response) in
      self ← m_record_round self round;
      if after =? before then
        '(r, self) ← m_after_phase self phase; Ok (Execute r, self)
      else if (max_iterations (m_fixpoint self) <=? round)%nat then
        ph ← m_phase_at self phase;
        Err (Failed (Error.backend (DatalogError.to_string (DatalogError.IterationLimit (join ", " (ph_preds ph)) round))))
      else
        let self := m_goto self (MState.Stepped phase after (S round)) in
        r ← m_step_once self phase; Ok (Execute r, self)
  | MState.Wrote =>
      let inferred := as_u64 (default 0
        (r ← response; rs ← last r; row ← rows rs !! 0%nat; v ← row !! 0%nat; SqlValue.as_i64 v)) in
      if fixpoint_is_empty (m_fixpoint self) then Ok (Done (m_done self inferred), m_goto self MState.Done)
      else Ok (Execute (Request_atomic [Statement_new (cleanup (m_fixpoint self))]),
               m_goto self (MState.CleaningUp inferred))
  | MState.CleaningUp inferred => Ok (Done (m_done self inferred), m_goto self MState.Done)
  | MState.Done => Err (Failed (Error.backend "the materialization is already finished"))
  end.

#[global] Instance materialize_job : Job MaterializeJob := { Output := MaterializeStats; step := materialize_step }.
End job.
