(* ===== verification/MaterializeFacts.v ===== *)
(** * A materialization ends, and writes once

    Until its phases are done the job behaves as the job of a query ([shadow_step]), so it ends
    after a bounded number of requests, whatever the backend answers; what it sends is the
    fixpoint's requests, then the one that writes, then the one that cleans up. *)

From S2P Require Export Materialize ExecFacts.

Section facts.
Context {SD : StrDebug}.
Implicit Types (self : MaterializeJob) (f : Fixpoint_).

(** ** The job of a query in the same state *)

Definition shadow_state (s : MState.t) : State.t :=
  match s with
  | MState.Start => State.Start
  | MState.Seeded i => State.Seeded i
  | MState.Stepped i b r => State.Stepped i b r
  | _ => State.Done
  end.

Definition shadow self : DatalogJob (OX := ConcreteRdf.oxrdf) :=
  mkDatalogJob (mkCompiled "" [] ∅ [] (m_fixpoint self)) native (shadow_state (m_state self)) (with_constants ∅) []
    (m_rounds self).

Definition in_phases self : Prop :=
  match m_state self with MState.Start | MState.Seeded _ | MState.Stepped _ _ _ => True | _ => False end.

(** The job that has given its statements away. *)
Definition written self self' : Prop :=
  m_state self' = MState.Wrote /\ m_fixpoint self' = m_fixpoint self /\ m_relations self' = m_relations self.

(** One step: as the query's job, with the writes in the place of the goal. *)
Lemma shadow_step self response : in_phases self ->
  match datalog_step (shadow self) response with
  | Ok (Execute r, job) =>
      exists self',
      match state job with
      | State.Rows =>
          materialize_step self response = Ok (Execute (Request_atomic (m_statements self)), self') /\ written self self'
      | _ => materialize_step self response = Ok (Execute r, self') /\ job = shadow self' /\ in_phases self' /\
             m_statements self' = m_statements self /\ m_fixpoint self' = m_fixpoint self /\
             m_relations self' = m_relations self
      end
  | Ok (Done _, _) => False
  | Err e => materialize_step self response = Err e
  end.
Proof.
  unfold in_phases. destruct self as [f ss n [|i|i b r| | |] rs]; try done; intros _;
    unfold datalog_step, materialize_step; cbn [state shadow m_state shadow_state m_fixpoint].
  - unfold fixpoint. cbn [compiled shadow c_fixpoint m_fixpoint]. destruct (fixpoint_is_empty f); [by eexists|].
    unfold seed, m_seed, phase_at, m_phase_at, fixpoint. cbn. destruct (phases f !! 0%nat); cbn; [by eexists|done].
  - unfold step_once, m_step_once, phase_at, m_phase_at, fixpoint. cbn. destruct (phases f !! i); cbn; [by eexists|done].
  - unfold record_round, m_record_round. cbn [rounds shadow m_rounds]. destruct (last rs); cbn; [|done].
    destruct (_ =? b).
    + unfold after_phase, m_after_phase, fixpoint. cbn -[Nat.ltb Nat.leb]. destruct (S i <? _)%nat; [|by eexists].
      unfold seed, m_seed, phase_at, m_phase_at, fixpoint. cbn. destruct (phases f !! S i); cbn; [by eexists|done].
    + unfold phase_at, m_phase_at, fixpoint. cbn -[Nat.leb]. destruct (max_iterations f <=? r)%nat; [by destruct (phases f !! i)|].
      unfold step_once, m_step_once, phase_at, m_phase_at, fixpoint. cbn. destruct (phases f !! i); cbn; [by eexists|done].
Qed.

(** ** The requests that are sent *)

Context {W : Type} `{BW : !SyncBackend W}.

(** A backend that records what it is sent. *)
#[local] Instance recorded : SyncBackend (W * list Request) := {
  execute r wl := let '(out, w) := execute r wl.1 in (out, (w, wl.2 ++ [r]));
  capabilities wl := capabilities wl.1;
  begin := no_transactions;
  commit := no_transactions;
  rollback := no_transactions;
}.

(** A request that seeds or steps a phase of [f]. *)
Definition fixpoint_request f (r : Request) : Prop :=
  exists i ph, phases f !! i = Some ph /\ (r = seed_request f i ph \/ r = step_request f ph).

Lemma phase_request self i (g : FixpointPhase -> Request) r :
  g <$> m_phase_at self i = Ok r -> exists ph, phases (m_fixpoint self) !! i = Some ph /\ r = g ph.
Proof. unfold m_phase_at. destruct (_ !! i) as [ph|]; [|done]. intros [= <-]. by exists ph. Qed.

(** While the phases last, only their requests are sent. *)
Lemma phases_send self response r self' : in_phases self ->
  materialize_step self response = Ok (Execute r, self') -> m_state self' <> MState.Wrote ->
  fixpoint_request (m_fixpoint self) r.
Proof.
  unfold in_phases, materialize_step. destruct (m_state self) as [|i|i b k| | |]; try done; intros _ H Hw.
  - destruct (fixpoint_is_empty _); [by injection H as <- <-|]. apply bind_ok in H as (q & Hq & [= <- _]).
    apply phase_request in Hq as (ph & Hph & ->). exists 0%nat, ph. eauto.
  - apply bind_ok in H as (q & Hq & [= <- _]). apply phase_request in Hq as (ph & Hph & ->). exists i, ph. eauto.
  - apply bind_ok in H as (self1 & H1 & H). assert (m_fixpoint self1 = m_fixpoint self) as Hf.
    { unfold m_record_round in H1. destruct (last _); [|done]. by injection H1 as <-. }
    rewrite <- Hf. destruct (_ =? b).
    + apply bind_ok in H as ([q self2] & Hq & [= <- <-]). unfold m_after_phase in Hq.
      destruct (_ <? _)%nat; [|by injection Hq as _ <-]. apply bind_ok in Hq as (q1 & Hq & [= -> _]).
      apply phase_request in Hq as (ph & Hph & ->). exists (S i), ph. eauto.
    + destruct (_ <=? k)%nat; [by apply bind_ok in H as (? & _ & [=])|].
      apply bind_ok in H as (q & Hq & [= <- _]). apply phase_request in Hq as (ph & Hph & ->). exists i, ph. eauto.
Qed.

(** What a materialization may send, in order, after its fixpoint requests. *)
Definition epilogue f (statements : list Statement) : list Request :=
  Request_atomic statements ::
  (if fixpoint_is_empty f then [] else [Request_atomic [Statement_new (cleanup f)]]).

(** How a run ends: with statistics once all is sent, or with an error before. *)
Definition ends f (statements : list Statement) (out : result Fault MaterializeStats) (log : list Request) : Prop :=
  exists iter, Forall (fixpoint_request f) iter /\
  match out with
  | Ok _ => log = iter ++ epilogue f statements
  | Err (Failed _) => log `prefix_of` iter ++ epilogue f statements
  | Err (Panic _) => False
  end.

Lemma ends_more f statements out log r : fixpoint_request f r ->
  ends f statements out log -> ends f statements out (r :: log).
Proof.
  intros Hr (iter & Hiter & H). exists (r :: iter). split; [by constructor|].
  destruct out as [st|[e|m]]; [by rewrite H| |done]. by apply prefix_cons.
Qed.

(** The requests of a run come after those sent before. *)
Definition runs (n : nat) self response (w : W) (P : result Fault MaterializeStats -> list Request -> Prop) : Prop :=
  forall log, exists out w' sent, P out sent /\ forall fuel,
    run_loop (n + fuel) self response (w, log) = Some (out, (w', log ++ sent)).

Lemma runs_execute n self response w r self' (P Q : result Fault MaterializeStats -> list Request -> Prop) :
  materialize_step self response = Ok (Execute r, self') ->
  (forall e, P (Err (Failed e)) [r]) -> (forall out sent, Q out sent -> P out (r :: sent)) ->
  (forall resp w', execute r w = (Ok resp, w') -> runs n self' (Some resp) w' Q) ->
  runs (S n) self response w P.
Proof.
  intros Hs He HP Hrun log. destruct (execute r w) as [[resp|e] w'] eqn:Hx.
  - destruct (Hrun resp w' eq_refl (log ++ [r])) as (out & w2 & sent & HQ & Hgo).
    exists out, w2, (r :: sent). split; [by apply HP|]. intros fuel. cbn [Nat.add run_loop].
    cbn [step materialize_job]. rewrite Hs. cbn [execute recorded fst snd]. rewrite Hx, Hgo. by rewrite <- app_assoc.
  - exists (Err (Failed e)), w', [r]. split; [done|]. intros fuel. cbn [Nat.add run_loop].
    cbn [step materialize_job]. rewrite Hs. cbn [execute recorded fst snd]. by rewrite Hx.
Qed.

Lemma runs_stop n self response w out (P : result Fault MaterializeStats -> list Request -> Prop) :
  match materialize_step self response with
  | Ok (Done st, _) => out = Ok st
  | Err e => out = Err e
  | _ => False
  end -> P out [] -> runs (S n) self response w P.
Proof.
  intros Hs HP log. exists out, w, []. split; [done|]. intros fuel. cbn [Nat.add run_loop]. cbn [step materialize_job].
  destruct (materialize_step self response) as [[[r|st] j]|e]; [done|..]; subst out; by rewrite app_nil_r.
Qed.

Lemma wrote_runs self response w : m_state self = MState.Wrote ->
  runs 2 self response w (fun out sent =>
    match out with
    | Ok _ => sent = if fixpoint_is_empty (m_fixpoint self) then [] else [Request_atomic [Statement_new (cleanup (m_fixpoint self))]]
    | Err (Failed _) => sent `prefix_of` if fixpoint_is_empty (m_fixpoint self) then []
                                      else [Request_atomic [Statement_new (cleanup (m_fixpoint self))]]
    | Err (Panic _) => False
    end).
Proof.
  intros Hs. destruct (fixpoint_is_empty (m_fixpoint self)) eqn:He.
  - eapply runs_stop; unfold materialize_step; [rewrite Hs; cbn; rewrite He|]; done.
  - eapply (runs_execute _ _ _ _ _ _ _ (fun out sent => exists st, out = Ok st /\ sent = [])).
    + unfold materialize_step. rewrite Hs. cbn. by rewrite He.
    + done.
    + by intros out sent (st & -> & ->).
    + intros resp w' _. eapply runs_stop; [done|]. by eexists.
Qed.
Lemma runs_mono n m self response w (P Q : result Fault MaterializeStats -> list Request -> Prop) : (n <= m)%nat ->
  (forall out sent, P out sent -> Q out sent) -> runs n self response w P -> runs m self response w Q.
Proof.
  intros Hn HPQ H log. destruct (H log) as (out & w' & sent & HP & Hgo). exists out, w', sent. split; [auto|].
  intros fuel. replace (m + fuel)%nat with (n + (m - n + fuel))%nat by lia. apply Hgo.
Qed.

Lemma phases_run P M self response w : in_phases self -> iterating P M (shadow self) ->
  runs (cost P M (shadow self) + 2) self response w (ends (m_fixpoint self) (m_statements self)).
Proof.
  remember (cost P M (shadow self)) as c eqn:Hc. revert self response w Hc.
  induction (lt_wf c) as [c _ IH]. intros self response w -> Hp Hi.
  pose proof (shadow_step self response Hp) as Hs.
  destruct (iterating_step P M (shadow self) response Hi) as [(r & job & Hd & Hnext)|(e & Hd)]; rewrite Hd in Hs.
  - destruct Hnext as [[Hi' Hlt]|(Hrows & _ & Hpos)].
    + assert (state job <> State.Rows) as Hnr by (intros Hr; destruct Hi' as (_ & _ & Hst); by rewrite Hr in Hst).
      assert (exists self', materialize_step self response = Ok (Execute r, self') /\ job = shadow self' /\
        in_phases self' /\ m_statements self' = m_statements self /\ m_fixpoint self' = m_fixpoint self)
        as (self' & Hm & -> & Hp' & Hst & Hf) by (destruct (state job); naive_solver).
      apply (runs_mono (S (cost P M (shadow self') + 2)) _ _ _ _ (ends (m_fixpoint self) (m_statements self))); [lia|done|].
      assert (fixpoint_request (m_fixpoint self) r) as Hr.
      { eapply phases_send; [done|exact Hm|]. unfold in_phases in Hp'. by destruct (m_state self'). }
      eapply runs_execute; [exact Hm| | |].
      * intros e. apply ends_more; [done|]. exists []. split; [constructor|apply prefix_nil].
      * intros out sent. by apply ends_more.
      * intros resp w' _. rewrite <- Hf, <- Hst. by apply (IH _ Hlt).
    + rewrite Hrows in Hs. destruct Hs as (self' & Hm & Hw & Hf & _).
      apply (runs_mono 3 _ _ _ _ (ends (m_fixpoint self) (m_statements self))); [lia|done|].
      eapply runs_execute; [exact Hm| | |intros resp w' _; by apply wrote_runs].
      * intros e. exists []. split; [constructor|]. unfold epilogue. cbn. apply prefix_cons, prefix_nil.
      * intros out sent Hout. rewrite Hf in Hout. exists []. split; [constructor|].
        destruct out as [st|[e|m]]; [by rewrite Hout|by apply prefix_cons|done].
  - apply (runs_mono 1 _ _ _ _ (ends (m_fixpoint self) (m_statements self))); [lia|done|].
    eapply runs_stop; [by rewrite Hs|]. exists []. split; [constructor|apply prefix_nil].
Qed.
End facts.
#[local] Existing Instance recorded.

