(* ===== verification/MaterializeSpec.v ===== *)
(** * A materialization stores what the program derives

    The statements of the plan reset the producer's inferences and insert, for every relation
    the rules define, exactly the quads of its tuples in the model of the program. *)

From S2P Require Export Materialize SqlCompile.

(** ** The INSERT of a relation *)

(** A column of the inserted quad: a column of the query's rows, or an id. *)
Inductive StoredCol := FromRow (i : nat) | Fixed (id : Z).

Definition print_col (c : StoredCol) : string :=
  match c with FromRow i => "v" +:+ show_nat i | Fixed id => show_Z id end.
Definition col_value (c : StoredCol) (row : list Z) : option Z :=
  match c with FromRow i => row !! i | Fixed id => Some id end.

Definition StoredCols : Type := StoredCol * StoredCol * StoredCol * StoredCol.

Definition print_stored (cols : StoredCols) (width : nat) (query : string) : string :=
  let '(s, p, o, g) := cols in
  "INSERT OR IGNORE INTO quads_inf (s, p, o, g) SELECT " +:+ print_col s +:+ ", " +:+ print_col p +:+ ", " +:+
  print_col o +:+ ", " +:+ print_col g +:+ " FROM (" +:+ query +:+ ") WHERE " +:+
  join " AND " ((fun i => "v" +:+ show_nat i +:+ " IS NOT NULL") <$> seq 0 width).

(** The quads the statement inserts when the query returns [rows]. *)
Definition stored_quads (cols : StoredCols) (rows : list (option Z) -> Prop) (quad : QuadIds) : Prop :=
  let '(s, p, o, g) := cols in let '(s', p', o', g') := quad in
  exists row, rows (Some <$> row) /\ col_value s row = Some s' /\ col_value p row = Some p' /\
    col_value o row = Some o' /\ col_value g row = Some g'.

Section spec.
Context {OX : Oxrdf} {XX : Xxh3} {OD : OxsDatatypes} {SD : StrDebug} {TD : TermDisplay} {LC : Lowercase}.

(** The quad a tuple of a relation stands for. *)
Definition tuple_quad (p : Pred) (tup : list Z) : option QuadIds :=
  match p, tup with
  | Edb iri, [s] => Some (s, rdf_type_id, named_node_id iri, DEFAULT_GRAPH_ID)
  | Edb iri, [s; o] => Some (s, named_node_id iri, o, DEFAULT_GRAPH_ID)
  | PTriple false, [s; p; o] => Some (s, p, o, DEFAULT_GRAPH_ID)
  | PTriple true, [s; p; o; g] => Some (s, p, o, g)
  | _, _ => None
  end.

Definition stored_cols (head : Head) : option StoredCols :=
  match head_pred head with
  | Edb iri =>
      Some (if (length (head_args head) =? 1)%nat
            then (FromRow 0, Fixed rdf_type_id, Fixed (named_node_id iri), Fixed 0)
            else (FromRow 0, Fixed (named_node_id iri), FromRow 1, Fixed 0))
  | PTriple graph => Some (FromRow 0, FromRow 1, FromRow 2, if graph then FromRow 3 else Fixed 0)
  | _ => None
  end.

Lemma insert_for_cols head c text : insert_for head c = Ok text ->
  exists cols, stored_cols head = Some cols /\ text = print_stored cols (length (head_args head)) (c_sql c).
Proof.
  unfold insert_for, insert_columns, stored_cols. destruct (head_pred head) as [iri| |[]| |]; try done.
  - destruct (_ =? 1)%nat; intros [= <-]; eexists; by split.
  - intros [= <-]; eexists; by split.
  - intros [= <-]; eexists; by split.
Qed.

Lemma stored_cols_quads head cols (rows : list Z -> Prop) quad :
  triple_shaped head = Ok tt -> stored_cols head = Some cols ->
  stored_quads cols (fun t => exists tup, t = Some <$> tup /\ length tup = length (head_args head) /\ rows tup) quad <->
  exists tup, length tup = length (head_args head) /\ rows tup /\ tuple_quad (head_pred head) tup = Some quad.
Proof.
  intros Hs Hc. unfold stored_quads.
  transitivity (exists row, length row = length (head_args head) /\ rows row /\
    let '(s, p, o, g) := cols in let '(s', p', o', g') := quad in
    col_value s row = Some s' /\ col_value p row = Some p' /\ col_value o row = Some o' /\ col_value g row = Some g').
  { destruct cols as [[[s p] o] g], quad as [[[s' p'] o'] g']. split.
    - intros (row & (tup & Heq%(inj (fmap Some)) & Hl & Hr) & Hq). subst tup. eauto.
    - intros (row & Hl & Hr & Hq). exists row. eauto 10. }
  unfold triple_shaped, stored_cols in *. destruct quad as [[[s' p'] o'] g'].
  assert (forall P Q : list Z -> Prop, (forall l, length l = length (head_args head) -> P l <-> Q l) ->
    (exists l, length l = length (head_args head) /\ rows l /\ P l) <->
    (exists l, length l = length (head_args head) /\ rows l /\ Q l)) as Hext by (intros P Q HPQ; naive_solver).
  unfold DEFAULT_GRAPH_ID, tuple_quad.
  destruct (head_pred head) as [iri| |[]| |]; try done; injection Hc as <-; apply Hext; intros l Hl; rewrite <- Hl in Hs; try rewrite <- Hl.
  - destruct l as [|x [|y [|z l]]]; cbn in Hs |- *; try done; naive_solver.
  - destruct l as [|x [|y [|z [|w [|u l]]]]]; cbn in Hs |- *; try done; naive_solver.
  - destruct l as [|x [|y [|z [|w l]]]]; cbn in Hs |- *; try done; naive_solver.
Qed.

(** ** The goal of a relation *)

Lemma fresh_vars (l out : list string) : NoDup (out ++ l) ->
  foldl (fun out arg => match arg with ArgVar v => push_new out v | _ => out end) out (ArgVar (OX := OX) <$> l) = out ++ l.
Proof.
  revert out. induction l as [|v l IH]; intros out Hn; cbn; [by rewrite app_nil_r|]. unfold push_new.
  rewrite decide_False.
  - rewrite IH by (by rewrite <- app_assoc). by rewrite <- app_assoc.
  - rewrite NoDup_app in Hn. destruct Hn as (_ & Hn & _). intros Hv. apply (Hn v Hv). left.
Qed.

Definition goal_vars (head : Head) : list string := (fun i => "__m" +:+ show_nat i) <$> seq 0 (length (head_args head)).

Lemma goal_vars_nodup head : NoDup (goal_vars head).
Proof.
  apply NoDup_fmap_2; [|apply NoDup_seq]. intros i j Heq. apply show_nat_inj.
  change ("__m" +:+ show_nat i) with (String "_" (String "_" (String "m" (show_nat i)))) in Heq.
  change ("__m" +:+ show_nat j) with (String "_" (String "_" (String "m" (show_nat j)))) in Heq. congruence.
Qed.

Lemma relation_goal_args head : args (goal_atom (relation_goal head)) = ArgVar <$> goal_vars head.
Proof. unfold goal_vars. by rewrite <- list_fmap_compose. Qed.

Lemma relation_goal_vars head : atom_vars (goal_atom (relation_goal head)) [] = goal_vars head.
Proof.
  unfold atom_vars. rewrite relation_goal_args. apply (fresh_vars _ []), goal_vars_nodup.
Qed.

(** The answers of the goal are the tuples of the relation. *)
Lemma relation_goal_answer sat (I : Interp) head tup :
  goal_answer sat I (relation_goal head) tup <-> length tup = length (head_args head) /\ I (head_pred head) tup.
Proof.
  assert (length (goal_vars head) = length (head_args head)) as Hlen by (unfold goal_vars; by rewrite length_fmap, length_seq).
  assert (forall θ t, Forall2 (arg_matches θ) (ArgVar <$> goal_vars head) t <-> t = θ <$> goal_vars head) as Hm.
  { intros θ t. rewrite Forall2_fmap_l. split.
    - generalize (goal_vars head). intros l. induction 1 as [|v z l' t' Hz _ IH]; [done|]. cbn in Hz |- *. by subst.
    - intros ->. rewrite Forall2_fmap_r. by apply Forall_Forall2_diag, Forall_true. }
  unfold goal_answer, goal_holds, atom_holds. rewrite relation_goal_vars, relation_goal_args. cbn [goal_constraints relation_goal goal_atom pred]. split.
  - intros (θ & [(t & Hi & ->%Hm) _] & ->). by rewrite length_fmap, Hlen.
  - intros [Hl Hi].
    exists (fun v => default 0 (i ← fst <$> list_find (fun w => w = v) (goal_vars head); tup !! i)).
    assert (tup = (fun v => default 0 (i ← fst <$> list_find (fun w => w = v) (goal_vars head); tup !! i)) <$> goal_vars head) as Heq.
    { apply list_eq. intros i. rewrite list_lookup_fmap. destruct (goal_vars head !! i) as [v|] eqn:Hv.
      - assert (list_find (fun w => w = v) (goal_vars head) = Some (i, v)) as Hf.
        { apply list_find_Some. split_and!; [done..|]. intros j w Hj Hji ->.
          assert (j = i) by (eapply NoDup_lookup; [apply goal_vars_nodup|done|done]). lia. }
        cbn. rewrite Hf. cbn. apply lookup_lt_Some in Hv. rewrite Hlen, <- Hl in Hv.
        apply lookup_lt_is_Some in Hv as [z Hz]. by rewrite Hz.
      - apply lookup_ge_None in Hv. apply lookup_ge_None. lia. }
    split; [|done]. split; [|constructor]. exists tup. split; [done|]. by apply Hm.
Qed.

(** ** The heads *)

Lemma stored_heads_spec rs out heads : stored_heads rs out = Ok heads ->
  Forall (fun h => triple_shaped h = Ok tt) out ->
  Forall (fun h => triple_shaped h = Ok tt) heads /\
  (forall h, h ∈ heads -> h ∈ out \/ exists r, r ∈ rs /\ h = head r) /\
  (forall r, r ∈ rs -> exists h, h ∈ heads /\ head_pred h = head_pred (head r)) /\
  (forall h, h ∈ out -> h ∈ heads).
Proof.
  revert out. induction rs as [|r rs IH]; intros out; cbn [stored_heads].
  { intros [= <-] Ho. split_and!; [done|by left|by intros r ?%elem_of_nil|done]. }
  intros ([] & Hr & Hh)%bind_ok Ho. destruct (existsb _ out) eqn:He.
  - destruct (IH _ Hh Ho) as (H1 & H2 & H3 & H4). split_and!; [done| | |done].
    + intros h [?|(r' & ? & ->)]%H2; [by left|right]. exists r'. split; [by right|done].
    + intros r' [->|Hr']%elem_of_cons; [|auto]. apply existsb_exists in He as (h & Hh' & Heq%bool_decide_eq_true).
      exists h. split; [by apply H4, list_elem_of_In|done].
  - destruct (IH _ Hh) as (H1 & H2 & H3 & H4).
    { apply Forall_app. split; [done|]. by apply Forall_singleton. }
    split_and!; [done|..].
    + intros h [[?|Hh'%list_elem_of_singleton]%elem_of_app|(r' & ? & ->)]%H2; [by left|right; exists r; split; [left|done]|right].
      exists r'. split; [by right|done].
    + intros r' [->|Hr']%elem_of_cons; [|auto]. exists (head r). split; [|done]. apply H4, elem_of_app. right. left.
    + intros h Hh'. apply H4, elem_of_app. by left.
Qed.

(** ** All the relations *)

Context (program : Program) (a : Analysis) (H : analyse program = Ok a).
Context (caps : Capabilities) (options : Options) (run_no : Z).
Context (Hplain : plain_program program).
Context (sat : Expr -> (string -> option Z) -> Prop).
Context (sat_ext : forall e f g, (forall v, occurs v e -> f v = g v) -> sat e f -> sat e g).

(** The model of the program over the stored quads. *)
Definition stored_model (Q : Z -> Z -> Z -> Z -> Prop) : Interp :=
  program_model sat program (program_strata a) (edb (o_union_default_graph options) Q program).

(** The query of a head over the plans of the strata. *)
Definition head_query (ms : list Member) (phs : list Phase) (head : Head) (q : Query) : Prop :=
  q_members q = ms /\ forall Q db, stores options db Q -> forall t, query_rows sat run_no db phs q t <->
    exists tup, t = Some <$> tup /\ length tup = length (head_args head) /\ stored_model Q (head_pred head) tup.

Lemma relation_query head b k ms phs c : (exists r, r ∈ rules program /\ head = Ast.head r) ->
  prepared program a caps options run_no no_names = Ok (b, k) -> built_text caps run_no ms phs b ->
  planned program a options run_no sat k ms phs ->
  relation_for program a head caps options run_no = Ok c ->
  c_fixpoint c = mkFixpoint run_no b.2 (o_max_iterations options) /\
  exists q, c_sql c = print_query caps q /\ head_query ms phs head q.
Proof.
  intros (r & Hr & ->) Hp [Hms _] Hk Hc. apply compile_for_prepared in Hc as (b' & k2 & text & k' & Hp' & Hg & Htext & Hf).
  rewrite Hp in Hp'. injection Hp' as <- <-. split; [done|].
  assert (derived program (head_pred (Ast.head r))) as Hd by (by exists r).
  apply (planned_goal program a H caps options run_no sat sat_ext k ms phs) in Hg as (_ & sel & Hq & Hrows); [|done| | |done].
  - exists (mkQuery ms sel). split; [by rewrite Htext, Hms|]. split; [done|]. intros Q db Hst t.
    rewrite (Hrows Q db Hst t). unfold stored_model. setoid_rewrite relation_goal_answer.
    assert (answer_row (relation_goal (Ast.head r)) = id) as ->; [|done].
    unfold answer_row. rewrite relation_goal_vars. unfold goal_vars.
    destruct (pp_heads program Hplain r Hr) as [_ Hne]. by destruct (head_args (Ast.head r)).
  - split; [done|by left].
  - intros names rels src Hsrc. rewrite (derived_cols program a H options run_no names rels None _ _ _ Hd Hsrc), numbered_length.
    rewrite relation_goal_args. unfold goal_vars. rewrite !length_fmap, length_seq. by apply (rule_arity program a H).
Qed.

(** What is inserted for a head. *)
Definition insert_of (phs : list Phase) (head : Head) (s : Statement) : Prop :=
  exists cols q, sql s = print_stored cols (length (head_args head)) (print_query caps q) /\
    forall Q db, stores options db Q -> forall quad, stored_quads cols (query_rows sat run_no db phs q) quad <->
      exists tup, length tup = length (head_args head) /\ stored_model Q (head_pred head) tup /\
        tuple_quad (head_pred head) tup = Some quad.

Lemma stored_quads_ext cols (P Q : list (option Z) -> Prop) quad : (forall t, P t <-> Q t) ->
  stored_quads cols P quad <-> stored_quads cols Q quad.
Proof.
  intros HPQ. unfold stored_quads. destruct cols as [[[? ?] ?] ?], quad as [[[? ?] ?] ?]. by setoid_rewrite HPQ.
Qed.

Lemma plan_heads_plan b k ms phs heads s s' :
  prepared program a caps options run_no no_names = Ok (b, k) -> built_text caps run_no ms phs b ->
  planned program a options run_no sat k ms phs ->
  Forall (fun h => triple_shaped h = Ok tt /\ exists r, r ∈ rules program /\ h = Ast.head r) heads ->
  plan_heads program a caps options run_no s heads = Ok s' ->
  phases (pl_fixpoint s) = [] \/ phases (pl_fixpoint s) = b.2 ->
  (phases (pl_fixpoint s') = phases (pl_fixpoint s) \/ phases (pl_fixpoint s') = b.2) /\
  (heads <> [] -> phases (pl_fixpoint s') = b.2) /\
  exists inserts, pl_inserts s' = pl_inserts s ++ inserts /\ Forall2 (insert_of phs) heads inserts.
Proof.
  intros Hp Hb Hk Hheads. revert s. induction Hheads as [|h heads [Hshape Hr] _ IH]; intros s Hs Hf; cbn in Hs.
  { injection Hs as <-. split_and!; [by left|done|]. exists []. by rewrite app_nil_r. }
  destruct (plan_head _ _ _ _ _ s h) as [s1|] eqn:H1; [|done]. cbn in Hs. unfold plan_head in H1.
  destruct (relation_for _ _ h _ _ _) as [c|] eqn:Hc; [|done]. cbn in H1.
  destruct (insert_for h c) as [text|] eqn:Hi; [|done]. cbn in H1. injection H1 as <-.
  destruct (relation_query _ _ _ _ _ _ Hr Hp Hb Hk Hc) as (Hfix & q & Hq & _ & Hrows).
  assert (phases (if fixpoint_is_empty (pl_fixpoint s) then c_fixpoint c else pl_fixpoint s) = b.2) as Hnew.
  { unfold fixpoint_is_empty. destruct Hf as [-> | Hf]; [by rewrite Hfix|].
    destruct (phases (pl_fixpoint s)) eqn:He; [by rewrite Hfix|by rewrite He]. }
  destruct (IH _ Hs (or_intror Hnew)) as (Hor & _ & inserts & Hins & Hall). cbn [pl_fixpoint pl_inserts] in *.
  rewrite Hnew in Hor. split_and!; [by right; destruct Hor|by destruct Hor|].
  exists (Statement_new text :: inserts). split; [by rewrite Hins, <- app_assoc|]. constructor; [|done].
  apply insert_for_cols in Hi as (cols & Hcols & ->). exists cols, q. split; [cbn; by rewrite Hq|].
  intros Q db Hst quad. rewrite (stored_quads_ext _ _ _ _ (Hrows Q db Hst)). by apply stored_cols_quads.
Qed.
End spec.


(** ** An example: storing ancestors *)

Module StoreSample.
#[local] Existing Instances ConcreteRdf.oxrdf ConcreteEncoding.xxh3 ConcreteEncoding.oxsdatatypes CompileSample.debug
  CompileSample.display CompileSample.lowercase.

Definition ancestor : Pred := Edb "http://example.org/ancestor".
Definition program : Program := mkProgram [
  CompileSample.rule ancestor ["x"; "y"] [BAtom (CompileSample.atom (Edb CompileSample.parent) ["x"; "y"])];
  CompileSample.rule ancestor ["x"; "z"] [BAtom (CompileSample.atom (Edb CompileSample.parent) ["x"; "y"]);
    BAtom (CompileSample.atom ancestor ["y"; "z"])]] None None.
Definition analysis : Analysis := match analyse program with Ok a => a | Err _ => mkAnalysis [] ∅ end.
Definition planned : result CompileFault (Fixpoint_ * list Statement * nat) :=
  plan_program program native Options_default 7.
End StoreSample.

#[local] Existing Instances ConcreteRdf.oxrdf ConcreteEncoding.xxh3 ConcreteEncoding.oxsdatatypes CompileSample.debug
  CompileSample.display CompileSample.lowercase.

Lemma stored_sample_plain : plain_program StoreSample.program.
Proof.
  constructor.
  - intros b [(r & it & Hr & Hit & Hb)|(g & Hg & _)]; [|done].
    repeat (apply elem_of_cons in Hr as [->|Hr]); [..|by apply elem_of_nil in Hr];
      repeat (apply elem_of_cons in Hit as [->|Hit]); try (by apply elem_of_nil in Hit);
      injection Hb as <-; (split; [done|]); by right.
  - intros r Hr. repeat (apply elem_of_cons in Hr as [->|Hr]); [done..|by apply elem_of_nil in Hr].
  - intros r Hr. repeat (apply elem_of_cons in Hr as [->|Hr]); [done..|by apply elem_of_nil in Hr].
  - intros r e Hr He. repeat (apply elem_of_cons in Hr as [->|Hr]); [..|by apply elem_of_nil in Hr];
      repeat (apply elem_of_cons in He as [?|He]; [done|]); by apply elem_of_nil in He.
  - done.
Qed.

