(* ===== verification/Registry.v ===== *)
(** * The schema registry ([crates/oxilite-core/src/registry.rs])

    Which named graphs hold schema rather than data, and which graphs each applies to, kept as
    RDF in the system graph [<oxilite:schema>]: the updates that change a registration, the
    reader of the registrations, the checks of what a registration says, the test whether an
    update can change the registry, and the SQL that scopes the derived caches. The theorems are
    in [RegistryFacts]. The types of [spargebra] are its documented enumerations, with the
    fields the source reads; the clock of [now] and the triples of the bundled Turtle
    vocabulary are arguments. *)

From S2P Require Export Sql Encoding TreeMap.

Definition NEWLINE : string := String "010" "".

Definition SCHEMA_GRAPH : string := "oxilite:schema".
Definition VOCABULARY_GRAPH : string := "oxilite:vocabulary".
Definition NS : string := "https://oxilite.dev/ns#".

(** IRIs of the registry vocabulary ([mod vocab]). *)
Module oxl.
Definition SYSTEM_GRAPH : string := "https://oxilite.dev/ns#SystemGraph".
Definition ONTOLOGY_GRAPH : string := "https://oxilite.dev/ns#OntologyGraph".
Definition SHAPES_GRAPH : string := "https://oxilite.dev/ns#ShapesGraph".
Definition SHEX_GRAPH : string := "https://oxilite.dev/ns#ShExGraph".
Definition APPLIES_TO : string := "https://oxilite.dev/ns#appliesTo".
Definition ACTIVE : string := "https://oxilite.dev/ns#active".
Definition ONTOLOGY_IRI : string := "https://oxilite.dev/ns#ontologyIri".
Definition VERSION : string := "https://oxilite.dev/ns#version".
Definition SHA256 : string := "https://oxilite.dev/ns#sha256".
Definition LOADED_AT : string := "https://oxilite.dev/ns#loadedAt".
Definition DEFAULT_GRAPH : string := "https://oxilite.dev/ns#DefaultGraph".
Definition ALL_GRAPHS : string := "https://oxilite.dev/ns#AllGraphs".
Definition IMPORTS : string := "https://oxilite.dev/ns#imports".
Definition OWL_IMPORTS : string := "http://www.w3.org/2002/07/owl#imports".
End oxl.

Definition XSD_DATE_TIME : string := "http://www.w3.org/2001/XMLSchema#dateTime".

Definition SYSTEM_GRAPHS : list string := [SCHEMA_GRAPH; VOCABULARY_GRAPH].

(** ** Roles *)

Module SchemaRole.
Inductive t := Ontology | Shacl | Shex.
#[global] Instance t_eq_dec : EqDecision t.
Proof. solve_decision. Defined.

Definition ALL : list t := [Ontology; Shacl; Shex].

Definition name (r : t) : string :=
  match r with Ontology => "ontology" | Shacl => "shacl" | Shex => "shex" end.

Definition class (r : t) : string :=
  match r with Ontology => oxl.ONTOLOGY_GRAPH | Shacl => oxl.SHAPES_GRAPH | Shex => oxl.SHEX_GRAPH end.

Definition from_class (iri : string) : option t := List.find (fun r => String.eqb (class r) iri) ALL.

(** The derived order. *)
Definition index (r : t) : Z := match r with Ontology => 0 | Shacl => 1 | Shex => 2 end.

Definition from_str (s : string) : result Error t :=
  let l := to_ascii_lowercase s in
  if String.eqb l "ontology" then Ok Ontology
  else if String.eqb l "shacl" || String.eqb l "shapes" then Ok Shacl
  else if String.eqb l "shex" then Ok Shex
  else Err (Other ("unknown schema role " +:+ s +:+ ": one of ontology, shacl, shex")).
End SchemaRole.

(** One registered graph, as [<oxilite:schema>] describes it. *)
Record SchemaGraph := mkSchemaGraph {
  sg_graph : GraphName;
  sg_role : SchemaRole.t;
  sg_iri : option NamedNode;
  sg_version : option string;
  sg_sha256 : option string;
  sg_imports : list NamedNode;
  sg_applies_to : list GraphName;
  sg_active : bool;
  sg_loaded_at : option string;
}.

Definition SchemaGraph_new (graph : GraphName) (role : SchemaRole.t) : SchemaGraph :=
  mkSchemaGraph graph role None None None [] [] true None.

Definition applies (self : SchemaGraph) (target : GraphName) : bool :=
  match sg_applies_to self with [] => true | l => existsb (fun g => bool_decide (g = target)) l end.

(** ** SPARQL *)

Definition graph_node (g : GraphName) : result Error NamedNode :=
  match g with
  | GnNamedNode n => Ok n
  | GnDefaultGraph => Ok oxl.DEFAULT_GRAPH
  | GnBlankNode _ => Err (Other "a graph named by a blank node cannot be registered as schema")
  end.

Definition node_graph (n : NamedNode) : GraphName :=
  if String.eqb n oxl.DEFAULT_GRAPH then GnDefaultGraph else GnNamedNode n.

(** [iri], which is also [NamedNode]'s [Display]. *)
Definition iri (s : string) : string := "<" +:+ s +:+ ">".

Definition describe_delete (node : NamedNode) : string :=
  "DELETE WHERE { GRAPH " +:+ iri SCHEMA_GRAPH +:+ " { " +:+ iri node +:+ " ?p ?o } }".

(** [GraphName]'s [Display]. *)
Class GraphDisplay := graph_to_string : GraphName -> string.

Section registry.
Context {OX : Oxrdf}.
Implicit Types (entry : SchemaGraph).

Definition is_false (l : Literal) : bool :=
  String.eqb (lit_datatype l) xsd.BOOLEAN && (String.eqb (lit_value l) "false" || String.eqb (lit_value l) "0").

Definition targets_of (applies_to : list GraphName) : result Error (list NamedNode) :=
  match applies_to with [] => Ok [oxl.ALL_GRAPHS] | l => try_map graph_node l end.

(** One line of the description of [node]. *)
Definition triple_line (node : NamedNode) (p o : string) : string :=
  "  " +:+ iri node +:+ " " +:+ iri p +:+ " " +:+ o +:+ " ." +:+ NEWLINE.

Definition option_line {A} (node : NamedNode) (p : string) (f : A -> string) (x : option A) : string :=
  match x with Some x => triple_line node p (f x) | None => "" end.

(** [now] is the reading of the clock, where there is one. *)
Definition register_update (now : option string) entry : result Error string :=
  node ← graph_node (sg_graph entry);
  targets ← targets_of (sg_applies_to entry);
  let simple v := literal_to_string (new_simple_literal v) in
  let stamp := match sg_loaded_at entry with Some t => Some t | None => now end in
  Ok (match sg_graph entry with
      | GnNamedNode n => "CREATE SILENT GRAPH " +:+ iri n +:+ " ;" +:+ NEWLINE
      | _ => ""
      end +:+ describe_delete node +:+ " ;" +:+ NEWLINE +:+ "INSERT DATA { GRAPH " +:+ iri SCHEMA_GRAPH +:+ " {" +:+ NEWLINE +:+
      triple_line node rdf.TYPE (iri (SchemaRole.class (sg_role entry))) +:+
      triple_line node oxl.ACTIVE (literal_to_string (literal_from_bool (sg_active entry))) +:+
      foldr String.append "" ((fun t => triple_line node oxl.APPLIES_TO (iri t)) <$> targets) +:+
      option_line node oxl.ONTOLOGY_IRI iri (sg_iri entry) +:+
      option_line node oxl.VERSION simple (sg_version entry) +:+
      option_line node oxl.SHA256 simple (sg_sha256 entry) +:+
      foldr String.append "" ((fun i => triple_line node oxl.IMPORTS (iri i)) <$> sg_imports entry) +:+
      option_line node oxl.LOADED_AT (fun t => literal_to_string (new_typed_literal t XSD_DATE_TIME)) stamp +:+
      "} }").

Definition remap_update (graph : GraphName) (applies_to : list GraphName) : result Error string :=
  node ← graph_node graph;
  targets ← targets_of applies_to;
  let g := iri SCHEMA_GRAPH in
  let a := iri oxl.APPLIES_TO in
  let insert := join " " ((fun t => iri node +:+ " " +:+ a +:+ " " +:+ iri t +:+ " .") <$> targets) in
  Ok ("DELETE { GRAPH " +:+ g +:+ " { " +:+ iri node +:+ " " +:+ a +:+ " ?t } } INSERT { GRAPH " +:+ g +:+ " { " +:+
      insert +:+ " } } WHERE { GRAPH " +:+ g +:+ " { " +:+ iri node +:+ " a ?role OPTIONAL { " +:+ iri node +:+ " " +:+
      a +:+ " ?t } } }").

Definition unregister_update (graph : GraphName) : result Error string := describe_delete <$> graph_node graph.

Definition set_active_update (graph : GraphName) (active : bool) : result Error string :=
  node ← graph_node graph;
  let g := iri SCHEMA_GRAPH in
  let a := iri oxl.ACTIVE in
  Ok ("DELETE { GRAPH " +:+ g +:+ " { " +:+ iri node +:+ " " +:+ a +:+ " ?a } } INSERT { GRAPH " +:+ g +:+ " { " +:+
      iri node +:+ " " +:+ a +:+ " " +:+ literal_to_string (literal_from_bool active) +:+ " } } WHERE { GRAPH " +:+ g +:+
      " { " +:+ iri node +:+ " a ?role OPTIONAL { " +:+ iri node +:+ " " +:+ a +:+ " ?a } } }").

Definition drop_update (graph : GraphName) : result Error string :=
  node ← graph_node graph;
  Ok (describe_delete node +:+ " ;" +:+ NEWLINE +:+
      match graph with GnNamedNode n => "DROP SILENT GRAPH " +:+ iri n | _ => "CLEAR SILENT DEFAULT" end).

Definition registered_query (graph : GraphName) : result Error string :=
  node ← graph_node graph;
  Ok ("ASK { GRAPH " +:+ iri SCHEMA_GRAPH +:+ " { " +:+ iri node +:+ " a ?role } }").

Definition size_query (graph : GraphName) : string :=
  match graph with
  | GnNamedNode n => "SELECT (COUNT(*) AS ?n) WHERE { GRAPH " +:+ iri n +:+ " { ?s ?p ?o } }"
  | _ => "SELECT (COUNT(*) AS ?n) WHERE { ?s ?p ?o }"
  end.

Definition entries_query : string :=
  "SELECT ?g ?p ?o WHERE { GRAPH " +:+ iri SCHEMA_GRAPH +:+ " { ?g ?p ?o } }".

(** ** Reading the registrations *)

(** The properties of every node, by its IRI, in the order of the rows. *)
Definition Props : Type := list (string * list (string * Term)).
Definition push_prop (by_ : Props) (node p : string) (o : Term) : Props :=
  BTreeMap.insert by_ node (default [] (BTreeMap.get by_ node) ++ [(p, o)]).

Definition row_at (row : list (option Term)) (i : nat) : option Term := mjoin (row !! i).

Definition group_row (by_ : Props) (row : list (option Term)) : Props :=
  match row_at row 0, row_at row 1, row_at row 2 with
  | Some (TermNamedNode s), Some (TermNamedNode p), Some o => push_prop by_ s p o
  | _, _, _ => by_
  end.

(** The roles a description names, sorted and without duplicates. *)
Definition roles_of (props : list (string * Term)) : list SchemaRole.t :=
  dedup_by_key SchemaRole.index (sort_by_key SchemaRole.index
    (omap (fun '(p, o) => match o with
                          | TermNamedNode c => if String.eqb p rdf.TYPE then SchemaRole.from_class c else None
                          | _ => None
                          end) props)).

Definition set_active entry (b : bool) : SchemaGraph :=
  let '(mkSchemaGraph g r i v h im ap _ t) := entry in mkSchemaGraph g r i v h im ap b t.
Definition set_applies_to entry (l : list GraphName) : SchemaGraph :=
  let '(mkSchemaGraph g r i v h im _ ac t) := entry in mkSchemaGraph g r i v h im l ac t.
Definition set_iri entry (i : NamedNode) : SchemaGraph :=
  let '(mkSchemaGraph g r _ v h im ap ac t) := entry in mkSchemaGraph g r (Some i) v h im ap ac t.
Definition set_version entry (v : string) : SchemaGraph :=
  let '(mkSchemaGraph g r i _ h im ap ac t) := entry in mkSchemaGraph g r i (Some v) h im ap ac t.
Definition set_sha256 entry (h : string) : SchemaGraph :=
  let '(mkSchemaGraph g r i v _ im ap ac t) := entry in mkSchemaGraph g r i v (Some h) im ap ac t.
Definition set_loaded_at entry (t : string) : SchemaGraph :=
  let '(mkSchemaGraph g r i v h im ap ac _) := entry in mkSchemaGraph g r i v h im ap ac (Some t).
Definition set_imports entry (l : list NamedNode) : SchemaGraph :=
  let '(mkSchemaGraph g r i v h _ ap ac t) := entry in mkSchemaGraph g r i v h l ap ac t.
Definition set_role entry (r : SchemaRole.t) : SchemaGraph :=
  let '(mkSchemaGraph g _ i v h im ap ac t) := entry in mkSchemaGraph g r i v h im ap ac t.

(** One property; the flag says that [oxl:AllGraphs] is a target. *)
Definition read_prop (s : SchemaGraph * bool) (po : string * Term) : SchemaGraph * bool :=
  let '(e, all) := s in
  let '(p, o) := po in
  match o with
  | TermLiteral l =>
      if String.eqb p oxl.ACTIVE then (if is_false l then set_active e false else e, all)
      else if String.eqb p oxl.VERSION then (set_version e (lit_value l), all)
      else if String.eqb p oxl.SHA256 then (set_sha256 e (lit_value l), all)
      else if String.eqb p oxl.LOADED_AT then (set_loaded_at e (lit_value l), all)
      else s
  | TermNamedNode n =>
      if String.eqb p oxl.APPLIES_TO then
        if String.eqb n oxl.ALL_GRAPHS then (e, true) else (set_applies_to e (sg_applies_to e ++ [node_graph n]), all)
      else if String.eqb p oxl.ONTOLOGY_IRI then (set_iri e n, all)
      else if String.eqb p oxl.IMPORTS || String.eqb p oxl.OWL_IMPORTS then (set_imports e (sg_imports e ++ [n]), all)
      else s
  | _ => s
  end.

(** [String as Ord]. *)
Definition str_le (a b : string) : Prop := String.compare a b <> Gt.
#[global] Instance str_le_dec a b : Decision (str_le a b).
Proof. unfold str_le. apply _. Defined.

(** [Vec::dedup]. *)
Fixpoint dedup_strings (l : list string) : list string :=
  match l with
  | x :: (y :: _) as rest => if String.eqb x y then dedup_strings rest else x :: dedup_strings rest
  | _ => l
  end.

Context {GD : GraphDisplay}.

Definition graph_le (a b : GraphName) : Prop := str_le (graph_to_string a) (graph_to_string b).
#[global] Instance graph_le_dec a b : Decision (graph_le a b).
Proof. unfold graph_le. apply _. Defined.

(** The registrations a node with these properties stands for: one per role. *)
Definition node_entries (e : string * list (string * Term)) : list SchemaGraph :=
  let '(node, props) := e in
  match roles_of props with
  | [] => []
  | (first :: _) as roles =>
      let '(e, all) := foldl read_prop (SchemaGraph_new (node_graph node) first, false) props in
      let e := if (all : bool) then set_applies_to e [] else e in
      let e := set_applies_to e (merge_sort graph_le (sg_applies_to e)) in
      let e := set_imports e (dedup_strings (merge_sort str_le (sg_imports e))) in
      set_role e <$> roles
  end.

(** The order of the registrations: by role, then by graph. *)
Definition entry_le (a b : SchemaGraph) : Prop :=
  SchemaRole.index (sg_role a) < SchemaRole.index (sg_role b) \/
  SchemaRole.index (sg_role a) = SchemaRole.index (sg_role b) /\ graph_le (sg_graph a) (sg_graph b).
#[global] Instance entry_le_dec a b : Decision (entry_le a b).
Proof. unfold entry_le. apply _. Defined.

Definition entries_from_rows (rows : list (list (option Term))) : list SchemaGraph :=
  merge_sort entry_le (foldl group_row [] rows ≫= node_entries).
End registry.

(** ** Changes to the registry *)

(** *** The types of [spargebra] *)

Inductive NamedNodePattern := NnpNamedNode (n : NamedNode) | NnpVariable (v : string).
Inductive GraphNamePattern := GnpNamedNode (n : NamedNode) | GnpDefaultGraph | GnpVariable (v : string).

Inductive TermPattern {OX : Oxrdf} :=
  | TpNamedNode (n : NamedNode)
  | TpBlankNode (b : BlankNode)
  | TpLiteral (l : Literal)
  | TpTriple (s : TermPattern) (p : NamedNodePattern) (o : TermPattern)
  | TpVariable (v : string).

Record QuadPattern {OX : Oxrdf} := mkQuadPattern {
  qp_subject : TermPattern; qp_predicate : NamedNodePattern; qp_object : TermPattern; qp_graph_name : GraphNamePattern }.

Inductive GroundTermPattern {OX : Oxrdf} :=
  | GtpNamedNode (n : NamedNode)
  | GtpLiteral (l : Literal)
  | GtpTriple (s : GroundTermPattern) (p : NamedNodePattern) (o : GroundTermPattern)
  | GtpVariable (v : string).

Record GroundQuadPattern {OX : Oxrdf} := mkGroundQuadPattern {
  gqp_subject : GroundTermPattern; gqp_predicate : NamedNodePattern; gqp_object : GroundTermPattern;
  gqp_graph_name : GraphNamePattern }.

Arguments mkQuadPattern {OX}.
Arguments mkGroundQuadPattern {OX}.

(** The operations of an update; the fields no test reads are left out, and ground quads are
    quads. *)
Inductive GraphUpdateOperation {OX : Oxrdf} :=
  | InsertData (data : list (@Quad OX))
  | DeleteData (data : list (@Quad OX))
  | DeleteInsert (delete : list (@GroundQuadPattern OX)) (insert : list (@QuadPattern OX))
  | Load | Clear | Create | Drop.

Definition Update {OX : Oxrdf} : Type := list (@GraphUpdateOperation OX).

Section changes.
Context {OX : Oxrdf}.

(** [From<GroundTermPattern> for TermPattern]. *)
Fixpoint pattern_of (t : GroundTermPattern) : TermPattern :=
  match t with
  | GtpNamedNode n => TpNamedNode n
  | GtpLiteral l => TpLiteral l
  | GtpTriple s p o => TpTriple (pattern_of s) p (pattern_of o)
  | GtpVariable v => TpVariable v
  end.

Definition registry_graph (g : GraphName) : bool :=
  match g with GnNamedNode n => String.eqb n SCHEMA_GRAPH | _ => false end.

Definition is_registry_quad (q : Quad) : bool := registry_graph (qd_graph_name q).

(** Could this be a triple of the registry? *)
Definition registry_triple (p : NamedNodePattern) (o : TermPattern) : bool :=
  match p with
  | NnpVariable _ => true
  | NnpNamedNode n =>
      if String.eqb n rdf.TYPE then
        match o with TpNamedNode c => starts_with c NS | TpVariable _ => true | _ => false end
      else starts_with n NS || String.eqb n oxl.OWL_IMPORTS
  end.

Definition counts (g : GraphNamePattern) (p : NamedNodePattern) (o : TermPattern) : bool :=
  match g with
  | GnpNamedNode n => String.eqb n SCHEMA_GRAPH
  | GnpDefaultGraph => false
  | GnpVariable _ => registry_triple p o
  end.

Definition op_touches_registry (op : GraphUpdateOperation) : bool :=
  match op with
  | InsertData data | DeleteData data => existsb is_registry_quad data
  | DeleteInsert delete insert =>
      existsb (fun q => counts (gqp_graph_name q) (gqp_predicate q) (pattern_of (gqp_object q))) delete ||
      existsb (fun q => counts (qp_graph_name q) (qp_predicate q) (qp_object q)) insert
  | Create => false
  | Load | Clear | Drop => true
  end.

Definition update_touches_registry (update : Update) : bool := existsb op_touches_registry update.
End changes.

(** ** SQL *)

Section sql.
Context {OX : Oxrdf} {XX : Xxh3} {OD : OxsDatatypes}.

(** Term ids the SQL fragments need ([Ids], [ids]). *)
Definition id_reg : Z := named_node_id SCHEMA_GRAPH.
Definition id_ty : Z := named_node_id rdf.TYPE.
Definition id_applies : Z := named_node_id oxl.APPLIES_TO.
Definition id_active : Z := named_node_id oxl.ACTIVE.
Definition id_falses : Z * Z :=
  (term_id (TermLiteral (literal_from_bool false)), term_id (TermLiteral (new_typed_literal "0" xsd.BOOLEAN))).
Definition id_dflt : Z := named_node_id oxl.DEFAULT_GRAPH.
Definition id_all : Z := named_node_id oxl.ALL_GRAPHS.
Definition id_system : Z := named_node_id oxl.SYSTEM_GRAPH.
Definition id_imports : Z := named_node_id oxl.IMPORTS.
Definition id_owl_imports : Z := named_node_id oxl.OWL_IMPORTS.
Definition id_ontology_iri : Z := named_node_id oxl.ONTOLOGY_IRI.

Definition all_scope : Z := named_node_id oxl.ALL_GRAPHS.
Definition registry_graph_id : Z := named_node_id SCHEMA_GRAPH.

Definition graph_of (col : string) : string :=
  "(CASE " +:+ col +:+ " WHEN " +:+ show_Z id_dflt +:+ " THEN " +:+ show_Z DEFAULT_GRAPH_ID +:+ " ELSE " +:+ col +:+ " END)".

Definition role_nodes (role : SchemaRole.t) : string :=
  "SELECT r.s AS s FROM quads r WHERE r.g = " +:+ show_Z id_reg +:+ " AND r.p = " +:+ show_Z id_ty +:+ " AND r.o = " +:+
  show_Z (named_node_id (SchemaRole.class role)).

Definition active_nodes (roles : list SchemaRole.t) : string :=
  "SELECT r.s AS s FROM quads r WHERE r.g = " +:+ show_Z id_reg +:+ " AND r.p = " +:+ show_Z id_ty +:+ " AND r.o IN (" +:+
  join ", " ((fun r => show_Z (named_node_id (SchemaRole.class r))) <$> roles) +:+
  ") AND NOT EXISTS (SELECT 1 FROM quads z WHERE z.g = " +:+ show_Z id_reg +:+ " AND z.s = r.s AND z.p = " +:+
  show_Z id_active +:+ " AND z.o IN (" +:+ show_Z id_falses.1 +:+ ", " +:+ show_Z id_falses.2 +:+ "))".

Definition system_graphs : string := join ", " ((fun g => show_Z (named_node_id g)) <$> SYSTEM_GRAPHS).

Definition scope (role : SchemaRole.t) (column : string) : string :=
  "((NOT EXISTS (" +:+ role_nodes role +:+ ") AND " +:+ column +:+ " NOT IN (" +:+ system_graphs +:+ ")) OR " +:+ column +:+
  " IN (SELECT " +:+ graph_of "an.s" +:+ " FROM (" +:+ active_nodes [role] +:+ ") an))".

Definition scoped_quads (role : SchemaRole.t) : string :=
  "(SELECT s, p, o, g FROM quads WHERE " +:+ scope role "g" +:+ ")".

Definition registered_graphs : string :=
  "SELECT " +:+ graph_of "r.s" +:+ " FROM quads r WHERE r.g = " +:+ show_Z id_reg +:+ " AND r.p = " +:+ show_Z id_ty +:+
  " AND r.o IN (" +:+
  join ", " (show_Z <$> ((fun r => named_node_id (SchemaRole.class r)) <$> SchemaRole.ALL) ++ [id_system]) +:+ ")".

Definition without_schema_graphs (source : string) : string :=
  "(SELECT s, p, o, g FROM " +:+ source +:+ " WHERE g NOT IN (" +:+ system_graphs +:+ ") AND g NOT IN (" +:+
  registered_graphs +:+ "))".

Definition quads_without_schema_graphs : string := without_schema_graphs "quads".

Definition ontology_axioms (cond : string) : string :=
  let act := active_nodes [SchemaRole.Ontology] in
  let targets := "SELECT a.s AS n, " +:+ graph_of "a.o" +:+ " AS t FROM quads a WHERE a.g = " +:+ show_Z id_reg +:+
    " AND a.p = " +:+ show_Z id_applies +:+ " AND a.o <> " +:+ show_Z id_all in
  let to_all := "SELECT a.s FROM quads a WHERE a.g = " +:+ show_Z id_reg +:+ " AND a.p = " +:+ show_Z id_applies +:+
    " AND a.o = " +:+ show_Z id_all in
  let global := "SELECT ac.s AS s FROM (" +:+ act +:+ ") ac WHERE ac.s NOT IN (SELECT n FROM (" +:+ targets +:+
    ")) OR ac.s IN (" +:+ to_all +:+ ")" in
  let specific := "SELECT st.n AS n, st.t AS t FROM (" +:+ targets +:+ ") st WHERE st.n IN (" +:+ act +:+ ")" in
  let direct := "SELECT " +:+ graph_of "gl.s" +:+ " AS g, " +:+ show_Z id_all +:+ " AS scope FROM (" +:+ global +:+ ") gl " +:+
    "UNION SELECT " +:+ graph_of "gl.s" +:+ ", sp.t FROM (" +:+ global +:+ ") gl JOIN (" +:+ specific +:+ ") sp " +:+
    "UNION SELECT " +:+ graph_of "sp.n" +:+ ", sp.t FROM (" +:+ specific +:+ ") sp" in
  let imports := "SELECT " +:+ graph_of "x.s" +:+ " AS f, x.o AS iri FROM quads x WHERE x.g = " +:+ show_Z id_reg +:+
    " AND x.p IN (" +:+ show_Z id_imports +:+ ", " +:+ show_Z id_owl_imports +:+ ") UNION SELECT " +:+ graph_of "ia.s" +:+
    ", y.o FROM (" +:+ act +:+ ") ia JOIN quads y ON y.p = " +:+ show_Z id_owl_imports +:+ " AND y.g = " +:+ graph_of "ia.s" in
  let named := "SELECT nb.s AS iri, " +:+ graph_of "nb.s" +:+ " AS t FROM (" +:+ act +:+ ") nb UNION SELECT oi.o, " +:+
    graph_of "oi.s" +:+ " FROM quads oi WHERE oi.g = " +:+ show_Z id_reg +:+ " AND oi.p = " +:+ show_Z id_ontology_iri +:+
    " AND oi.s IN (" +:+ act +:+ ")" in
  let edges := "SELECT io.f AS f, nm.t AS t FROM (" +:+ imports +:+ ") io JOIN (" +:+ named +:+ ") nm ON nm.iri = io.iri" in
  let map := "WITH RECURSIVE reg_direct(g, scope) AS (" +:+ direct +:+
    "), reg_map(g, scope) AS (SELECT g, scope FROM reg_direct UNION SELECT ed.t, reg_map.scope FROM reg_map JOIN (" +:+
    edges +:+ ") ed ON ed.f = reg_map.g) SELECT g, scope FROM reg_map" in
  "(SELECT q.s AS s, q.p AS p, q.o AS o, m.scope AS scope FROM quads q JOIN (" +:+ map +:+ ") m ON m.g = q.g WHERE " +:+
  cond +:+ " UNION ALL SELECT q.s, q.p, q.o, " +:+ show_Z id_all +:+ " FROM quads q WHERE " +:+ cond +:+
  " AND NOT EXISTS (" +:+ role_nodes SchemaRole.Ontology +:+ ") AND q.g NOT IN (" +:+ system_graphs +:+ "))".

Definition scopes_statement (id_col : string -> string) : Statement :=
  Statement_new ("SELECT DISTINCT " +:+ id_col "scope" +:+ " FROM tbox_closure WHERE scope <> " +:+ show_Z all_scope).
End sql.

(** ** The system graphs *)

Section system.
Context {OX : Oxrdf} {TD : TermDisplay} {GD : GraphDisplay}.

Definition VOCABULARY_VERSION : string := "2.1".

(** [vocabulary] is the bundled vocabulary as the Turtle parser reads it. *)
Definition system_quads (vocabulary : list Triple) : list Quad :=
  let t s p o := mkQuad (NobNamedNode s) p o (GnNamedNode SCHEMA_GRAPH) in
  let text s := TermLiteral (new_simple_literal s) in
  let label := "http://www.w3.org/2000/01/rdf-schema#label" in
  ((fun tr => mkQuad (tr_subject tr) (tr_predicate tr) (tr_object tr) (GnNamedNode VOCABULARY_GRAPH)) <$> vocabulary) ++
  [t SCHEMA_GRAPH rdf.TYPE (TermNamedNode oxl.SYSTEM_GRAPH);
   t SCHEMA_GRAPH label (text "schema registry");
   t VOCABULARY_GRAPH rdf.TYPE (TermNamedNode oxl.SYSTEM_GRAPH);
   t VOCABULARY_GRAPH label (text "oxilite vocabulary");
   t VOCABULARY_GRAPH oxl.APPLIES_TO (TermNamedNode SCHEMA_GRAPH);
   t VOCABULARY_GRAPH oxl.ONTOLOGY_IRI (TermNamedNode NS);
   t VOCABULARY_GRAPH oxl.VERSION (text VOCABULARY_VERSION)].

Definition system_line (q : Quad) : string :=
  "  GRAPH " +:+ graph_to_string (qd_graph_name q) +:+ " { " +:+ term_to_string (term_of_subject (qd_subject q)) +:+ " " +:+
  iri (qd_predicate q) +:+ " " +:+ term_to_string (qd_object q) +:+ " . }" +:+ NEWLINE.

Definition system_graphs_update (vocabulary : list Triple) : string :=
  let reg := iri SCHEMA_GRAPH in
  let voc := iri VOCABULARY_GRAPH in
  "CREATE SILENT GRAPH " +:+ reg +:+ " ;" +:+ NEWLINE +:+ "CREATE SILENT GRAPH " +:+ voc +:+ " ;" +:+ NEWLINE +:+
  "CLEAR SILENT GRAPH " +:+ voc +:+ " ;" +:+ NEWLINE +:+
  "DELETE WHERE { GRAPH " +:+ reg +:+ " { " +:+ reg +:+ " ?p ?o } } ;" +:+ NEWLINE +:+
  "DELETE WHERE { GRAPH " +:+ reg +:+ " { " +:+ voc +:+ " ?p ?o } } ;" +:+ NEWLINE +:+ "INSERT DATA {" +:+ NEWLINE +:+
  foldr String.append "" (system_line <$> system_quads vocabulary) +:+ "}".

Definition system_graphs_ready_query : string :=
  "ASK { GRAPH " +:+ iri SCHEMA_GRAPH +:+ " { " +:+ iri VOCABULARY_GRAPH +:+ " " +:+ iri oxl.VERSION +:+ " " +:+
  literal_to_string (new_simple_literal VOCABULARY_VERSION) +:+ " } }".
End system.

(** ** Validation *)

Section validation.
Context {OX : Oxrdf} {TD : TermDisplay}.
Implicit Types (props : list (string * Term)).

Definition PROPS : list string :=
  [oxl.APPLIES_TO; oxl.ACTIVE; oxl.ONTOLOGY_IRI; oxl.VERSION; oxl.SHA256; oxl.LOADED_AT; oxl.IMPORTS; oxl.OWL_IMPORTS].

(** Any subject counts, by its text. *)
Definition group_any (by_ : Props) (row : list (option Term)) : Props :=
  match row_at row 0, row_at row 1, row_at row 2 with
  | Some s, Some (TermNamedNode p), Some o => push_prop by_ (term_to_string s) p o
  | _, _, _ => by_
  end.

Definition values props (p : string) : list Term := (filter (fun po => po.1 = p) props).*2.

Definition is_role_class (o : Term) : bool :=
  match o with
  | TermNamedNode c =>
      match SchemaRole.from_class c with Some _ => true | None => String.eqb c oxl.SYSTEM_GRAPH end
  | _ => false
  end.

Definition typed props : bool := existsb is_role_class (values props rdf.TYPE).
Definition described props : bool := existsb (fun po => bool_decide (po.1 ∈ PROPS)) props.

Definition several props (p : string) : list string :=
  let n := length (values props p) in
  if (1 <? n)%nat then ["<" +:+ p +:+ "> has " +:+ show_Z (Z.of_nat n) +:+ " values, at most one is allowed"] else [].

Definition is_iri_term (o : Term) : bool := match o with TermNamedNode _ => true | _ => false end.
Definition not_iris props (p : string) : list string :=
  (fun o => "<" +:+ p +:+ "> " +:+ term_to_string o +:+ " is not an IRI") <$>
  List.filter (fun o => negb (is_iri_term o)) (values props p).

Definition has_datatype (dt : string) (o : Term) : bool :=
  match o with TermLiteral l => String.eqb (lit_datatype l) dt | _ => false end.
Definition not_literals props (p dt : string) : list string :=
  (fun o => "<" +:+ p +:+ "> " +:+ term_to_string o +:+ " is not an <" +:+ dt +:+ ">") <$>
  List.filter (fun o => negb (has_datatype dt o)) (values props p).

Definition boolean_forms : list string := ["true"; "false"; "1"; "0"].
Definition bad_boolean (o : Term) : bool :=
  match o with
  | TermLiteral l => String.eqb (lit_datatype l) xsd.BOOLEAN && negb (bool_decide (lit_value l ∈ boolean_forms))
  | _ => false
  end.

Definition lower_hex (c : ascii) : bool := let z := Z.of_N (N_of_ascii c) in ((48 <=? z) && (z <=? 57)) || ((97 <=? z) && (z <=? 102)).
Definition bad_digest (o : Term) : bool :=
  match o with
  | TermLiteral l => negb (String.length (lit_value l) =? 64)%nat || negb (forallb lower_hex (bytes (lit_value l)))
  | _ => false
  end.

(** The messages about one node. *)
Definition node_problems (e : string * list (string * Term)) : list string :=
  let '(node, props) := e in
  if negb (typed props) && negb (described props) then []
  else
    (fun m => node +:+ ": " +:+ m) <$>
    (if starts_with node "_:" then ["a blank node cannot name a graph"] else []) ++
    (if typed props then []
     else ["has registration properties but no role class (oxl:OntologyGraph, oxl:ShapesGraph, oxl:ShExGraph)"]) ++
    ([oxl.ACTIVE; oxl.ONTOLOGY_IRI; oxl.VERSION; oxl.SHA256; oxl.LOADED_AT] ≫= several props) ++
    ([oxl.APPLIES_TO; oxl.ONTOLOGY_IRI; oxl.IMPORTS; oxl.OWL_IMPORTS] ≫= not_iris props) ++
    not_literals props oxl.ACTIVE xsd.BOOLEAN ++ not_literals props oxl.VERSION xsd.STRING ++
    not_literals props oxl.SHA256 xsd.STRING ++ not_literals props oxl.LOADED_AT XSD_DATE_TIME ++
    ((fun o => "<" +:+ oxl.ACTIVE +:+ "> " +:+ term_to_string o +:+ " is not a valid xsd:boolean") <$>
       List.filter bad_boolean (values props oxl.ACTIVE)) ++
    ((fun o => "<" +:+ oxl.SHA256 +:+ "> " +:+ term_to_string o +:+ " is not 64 lowercase hex digits") <$>
       List.filter bad_digest (values props oxl.SHA256)).

Definition problems (rows : list (list (option Term))) : list string := foldl group_any [] rows ≫= node_problems.
End validation.

(** ** Migration *)

Section migration.
Context {OX : Oxrdf} {XX : Xxh3}.

Definition legacy_rows_statement : Statement :=
  Statement_new ("SELECT sg.g, t.lex, sg.role, sg.iri, sg.version, sg.sha256, sg.imports, sg.active " +:+
    "FROM schema_graphs sg LEFT JOIN terms t ON t.id = sg.g").

(** A column that is not empty text. *)
Definition legacy_text (row : list SqlValue) (i : nat) : result Error (option string) :=
  v ← col row i;
  Ok (s ← SqlValue.into_string v; if String.eqb s "" then None else Some s).

Definition named_node_ok (s : string) : option NamedNode := match named_node_new s with Ok n => Some n | Err _ => None end.

Definition legacy_graph (row : list SqlValue) (g : option Z) : result Error (option GraphName) :=
  if bool_decide (g = Some DEFAULT_GRAPH_ID) then Ok (Some GnDefaultGraph)
  else
    lex ← legacy_text row 1;
    Ok (n ← lex ≫= named_node_ok; if bool_decide (g = Some (named_node_id n)) then Some (GnNamedNode n) else None).

Definition legacy_role (z : option Z) : option SchemaRole.t :=
  match z with
  | Some 1 => Some SchemaRole.Ontology
  | Some 2 => Some SchemaRole.Shacl
  | Some 3 => Some SchemaRole.Shex
  | _ => None
  end.

Definition legacy_entry (row : list SqlValue) : result Error (option SchemaGraph) :=
  g ← col row 0;
  graph ← legacy_graph row (SqlValue.as_i64 g);
  match graph with
  | None => Ok None
  | Some graph =>
      r ← col row 2;
      match legacy_role (SqlValue.as_i64 r) with
      | None => Ok None
      | Some role =>
          i ← legacy_text row 3;
          version ← legacy_text row 4;
          sha ← legacy_text row 5;
          im ← legacy_text row 6;
          a ← col row 7;
          Ok (Some (mkSchemaGraph graph role (i ≫= named_node_ok) version sha
                      (match im with Some s => omap named_node_ok (split_char "010"%char s) | None => [] end) []
                      (negb (default 1 (SqlValue.as_i64 a) =? 0)) None))
      end
  end.

Definition legacy_entries (response : Response) : result Error (list SchemaGraph) :=
  match response with
  | [] => Ok []
  | rs :: _ => (fun es : list (option SchemaGraph) => omap id es) <$> try_map legacy_entry (rows rs)
  end.

(** The registry triples of a registration, as quads of [<oxilite:schema>]. *)
Definition entry_quads (entry : SchemaGraph) : result Error (list Quad) :=
  node ← graph_node (sg_graph entry);
  let q p o := mkQuad (NobNamedNode node) p o (GnNamedNode SCHEMA_GRAPH) in
  targets ← targets_of (sg_applies_to entry);
  let simple p (x : option string) := match x with Some v => [q p (TermLiteral (new_simple_literal v))] | None => [] end in
  Ok ([q rdf.TYPE (TermNamedNode (SchemaRole.class (sg_role entry)));
       q oxl.ACTIVE (TermLiteral (literal_from_bool (sg_active entry)))] ++
      ((fun t => q oxl.APPLIES_TO (TermNamedNode t)) <$> targets) ++
      match sg_iri entry with Some i => [q oxl.ONTOLOGY_IRI (TermNamedNode i)] | None => [] end ++
      simple oxl.VERSION (sg_version entry) ++ simple oxl.SHA256 (sg_sha256 entry) ++
      ((fun i => q oxl.IMPORTS (TermNamedNode i)) <$> sg_imports entry) ++
      match sg_loaded_at entry with
      | Some t => [q oxl.LOADED_AT (TermLiteral (new_typed_literal t XSD_DATE_TIME))]
      | None => []
      end).
End migration.
