(* ===== verification/RegistryFacts.v ===== *)
(** * The registry: what is written is read back, and nothing else changes it

    Registrations are read back from the quads that describe them, in any order and beside
    triples the registry does not use; an update that is not taken to touch the registry leaves
    its reading unchanged, whatever its templates produce; the problems of a registry are none
    exactly when every node it describes conforms to the registration shape. *)

From S2P Require Export Registry.

Section reading.
Context {OX : Oxrdf} {GD : GraphDisplay}.
Implicit Types (rows : list (list (option (@Term OX)))) (po : string * @Term OX).

(** ** What a row says *)

Definition row_says (row : list (option Term)) : option (string * (string * Term)) :=
  match row_at row 0, row_at row 1, row_at row 2 with
  | Some (TermNamedNode s), Some (TermNamedNode p), Some o => Some (s, (p, o))
  | _, _, _ => None
  end.

Lemma group_row_step m row : group_row m row = group_step row_says m row.
Proof.
  unfold group_row, group_step, row_says. destruct (row_at row 0) as [[]|]; try done.
  destruct (row_at row 1) as [[]|]; try done. by destruct (row_at row 2).
Qed.

Definition properties rows (s : string) : list (string * Term) := group_of row_says rows s.

Lemma groups_same rows rows' : (forall s, node_entries (s, properties rows s) = node_entries (s, properties rows' s)) ->
  entries_from_rows rows = entries_from_rows rows'.
Proof.
  intros H. unfold entries_from_rows. rewrite !(foldl_same group_row (group_step row_says)) by apply group_row_step.
  f_equal. by apply grouped_bind.
Qed.

(** ** Properties the reader ignores *)

Definition role_of po : option SchemaRole.t :=
  let '(p, o) := po in
  match o with TermNamedNode c => if String.eqb p rdf.TYPE then SchemaRole.from_class c else None | _ => None end.

Definition silent po : Prop := role_of po = None /\ forall s, read_prop s po = s.

Lemma node_entries_silent s l l' po : silent po -> node_entries (s, l ++ po :: l') = node_entries (s, l ++ l').
Proof.
  intros [Hr Hp]. unfold node_entries.
  assert (roles_of (l ++ po :: l') = roles_of (l ++ l')) as ->.
  { unfold roles_of. do 2 f_equal. rewrite !omap_app. f_equal. cbn. change (match po with (p, o) => _ end) with (role_of po). by rewrite Hr. }
  destruct (roles_of _); [done|]. rewrite !foldl_app. cbn [foldl]. by rewrite Hp.
Qed.

Lemma entries_silent rows row rows' : (forall s po, row_says row = Some (s, po) -> silent po) ->
  entries_from_rows (rows ++ row :: rows') = entries_from_rows (rows ++ rows').
Proof.
  intros H. apply groups_same. intros s. unfold properties, group_of. rewrite !omap_app. cbn.
  destruct (said_of row_says s row) as [po|] eqn:Hs; [|done]. apply node_entries_silent.
  unfold said_of in Hs. destruct (row_says row) as [[s' po']|]; [|done]. cbn in Hs.
  destruct (String.eqb s' s); [|done]. injection Hs as ->. by eapply H.
Qed.

Lemma from_class_NS c r : SchemaRole.from_class c = Some r -> starts_with c NS = true.
Proof.
  unfold SchemaRole.from_class, SchemaRole.ALL. intros [_ H%String.eqb_eq]%List.find_some. subst c. by destruct r.
Qed.

Lemma read_prop_other p o s : starts_with p NS = false -> p <> oxl.OWL_IMPORTS -> read_prop s (p, o) = s.
Proof.
  intros Hns Himp. assert (forall q, starts_with q NS = true -> String.eqb p q = false) as Hq.
  { intros q H. apply String.eqb_neq. congruence. }
  destruct s as [e all]. unfold read_prop. destruct o as [n| |l|]; try done.
  - by rewrite !Hq, (proj2 (String.eqb_neq _ _) Himp) by done.
  - by rewrite !Hq by done.
Qed.
End reading.

(** ** Updates *)

Section updates.
Context {OX : Oxrdf} {GD : GraphDisplay}.
Implicit Types (mu : string -> option (@Term OX)) (q : @Quad OX) (Q : list (@Quad OX)).

(** *** What the templates of an update produce *)

(** [t] is an instance of the pattern; a blank node of a template stands for a fresh one. *)
Fixpoint instance mu (pat : TermPattern) (t : Term) : Prop :=
  match pat with
  | TpNamedNode n => t = TermNamedNode n
  | TpBlankNode _ => exists b, t = TermBlankNode b
  | TpLiteral l => t = TermLiteral l
  | TpTriple s p o => exists s' p' o', t = TermTriple s' p' o' /\ instance mu s (term_of_subject s') /\
      match p with NnpNamedNode n => p' = n | NnpVariable v => mu v = Some (TermNamedNode p') end /\ instance mu o o'
  | TpVariable v => mu v = Some t
  end.

Definition predicate_instance mu (pat : NamedNodePattern) (p : NamedNode) : Prop :=
  match pat with NnpNamedNode n => p = n | NnpVariable v => mu v = Some (TermNamedNode p) end.

Definition graph_instance mu (pat : GraphNamePattern) (g : GraphName) : Prop :=
  match pat with
  | GnpNamedNode n => g = GnNamedNode n
  | GnpDefaultGraph => g = GnDefaultGraph
  | GnpVariable v => (exists n, mu v = Some (TermNamedNode n) /\ g = GnNamedNode n) \/
                     (exists b, mu v = Some (TermBlankNode b) /\ g = GnBlankNode b)
  end.

Definition quad_instance mu (pat : QuadPattern) q : Prop :=
  instance mu (qp_subject pat) (term_of_subject (qd_subject q)) /\ predicate_instance mu (qp_predicate pat) (qd_predicate q) /\
  instance mu (qp_object pat) (qd_object q) /\ graph_instance mu (qp_graph_name pat) (qd_graph_name q).

Definition pattern_of_quad (pat : GroundQuadPattern) : QuadPattern :=
  mkQuadPattern (pattern_of (gqp_subject pat)) (gqp_predicate pat) (pattern_of (gqp_object pat)) (gqp_graph_name pat).

(** The quads an operation may add or remove: any, for those that load or clear graphs. *)
Definition writes (op : GraphUpdateOperation) q : Prop :=
  match op with
  | InsertData data | DeleteData data => q ∈ data
  | DeleteInsert delete insert =>
      exists mu, (exists pat, pat ∈ delete /\ quad_instance mu (pattern_of_quad pat) q) \/
                 (exists pat, pat ∈ insert /\ quad_instance mu pat q)
  | Load | Clear | Drop => True
  | Create => False
  end.

(** A store after an update: quads the update writes were added or removed, one at a time. *)
Inductive evolves (u : Update) : list Quad -> list Quad -> Prop :=
  | evolves_done Q : evolves u Q Q
  | evolves_add op q Q1 Q2 Q' : op ∈ u -> writes op q -> evolves u (Q1 ++ q :: Q2) Q' -> evolves u (Q1 ++ Q2) Q'
  | evolves_remove op q Q1 Q2 Q' : op ∈ u -> writes op q -> evolves u (Q1 ++ Q2) Q' -> evolves u (Q1 ++ q :: Q2) Q'.

(** The rows [entries_query] returns. *)
Definition quad_row q : list (option Term) :=
  [Some (term_of_subject (qd_subject q)); Some (TermNamedNode (qd_predicate q)); Some (qd_object q)].
Definition registry_rows Q : list (list (option Term)) := quad_row <$> List.filter is_registry_quad Q.

(** *** Detecting changes *)

Lemma instance_other_role mu pat p o : instance mu pat o ->
  (match pat with TpNamedNode c => starts_with c NS | TpVariable _ => true | _ => false end) = false ->
  p = rdf.TYPE -> silent (p, o).
Proof.
  intros Hi Hpat ->. split; [|by intros s; apply read_prop_other]. cbn -[String.eqb]. rewrite String.eqb_refl.
  destruct pat; cbn in Hi; try done; try (by destruct Hi as (? & ->)); try by subst o.
  - subst o. destruct (SchemaRole.from_class n) eqn:Hc; [|done]. apply from_class_NS in Hc. congruence.
  - by destruct Hi as (? & ? & ? & -> & _).
Qed.

Lemma registry_triple_silent mu ppat opat p o : registry_triple ppat opat = false ->
  predicate_instance mu ppat p -> instance mu opat o -> silent (p, o).
Proof.
  unfold registry_triple. destruct ppat as [n|v]; [|done]. intros Hr Hp Ho. cbn in Hp. subst p.
  destruct (String.eqb_spec n rdf.TYPE) as [->|Hty]; [by eapply instance_other_role|].
  apply orb_false_iff in Hr as [Hns Himp%String.eqb_neq]. split; [|by intros; apply read_prop_other].
  cbn. destruct o; try done. by rewrite (proj2 (String.eqb_neq _ _) Hty).
Qed.

Lemma counts_silent mu pat q : counts (qp_graph_name pat) (qp_predicate pat) (qp_object pat) = false ->
  quad_instance mu pat q -> is_registry_quad q = true -> silent (qd_predicate q, qd_object q).
Proof.
  unfold counts, is_registry_quad, registry_graph. intros Hc (_ & Hp & Ho & Hg) Hr. destruct (qp_graph_name pat); cbn in Hg.
  - rewrite Hg in Hr. congruence.
  - by rewrite Hg in Hr.
  - by eapply registry_triple_silent.
Qed.

Lemma untouched_writes u op q : update_touches_registry u = false -> op ∈ u -> writes op q -> is_registry_quad q = true ->
  silent (qd_predicate q, qd_object q).
Proof.
  intros Hu Hop Hw Hr. assert (op_touches_registry op = false) as Ht.
  { apply not_true_is_false. intros H. apply not_false_iff_true in Hu; [done|].
    apply List.existsb_exists. exists op. by rewrite <- list_elem_of_In. }
  assert (forall A (f : A -> bool) l x, existsb f l = false -> x ∈ l -> f x = false) as Hall.
  { intros A f l x Hl Hx. apply not_true_is_false. intros H. assert (existsb f l = true) by
      (apply List.existsb_exists; exists x; by rewrite <- list_elem_of_In). congruence. }
  destruct op as [data|data|delete insert| | | |]; cbn in Ht, Hw; try done.
  1,2: pose proof (Hall _ _ _ _ Ht Hw); congruence.
  apply orb_false_iff in Ht as [Hd Hi]. destruct Hw as (mu & [(pat & Hpat & Hinst)|(pat & Hpat & Hinst)]).
  - pose proof (Hall _ _ _ _ Hd Hpat) as Hc. exact (counts_silent mu (pattern_of_quad pat) q Hc Hinst Hr).
  - pose proof (Hall _ _ _ _ Hi Hpat) as Hc. exact (counts_silent mu pat q Hc Hinst Hr).
Qed.

Lemma registry_rows_silent Q1 q Q2 : (is_registry_quad q = true -> silent (qd_predicate q, qd_object q)) ->
  entries_from_rows (registry_rows (Q1 ++ q :: Q2)) = entries_from_rows (registry_rows (Q1 ++ Q2)).
Proof.
  intros H. unfold registry_rows. rewrite !List.filter_app, !fmap_app. cbn [List.filter].
  destruct (is_registry_quad q); [|done]. rewrite fmap_cons. apply entries_silent. intros s po. cbn.
  destruct (term_of_subject (qd_subject q)); try done. intros [= <- <-]. auto.
Qed.
End updates.

(** C28: An update that [update_touches_registry] clears changes no registration: however its
    operations add and remove the quads their data lists or their templates produce, under any
    bindings, the registrations read from the registry graph stay the same. *)
Theorem untouched_registry {OX : Oxrdf} {GD : GraphDisplay} (u : Update) (Q Q' : list Quad) :
  update_touches_registry u = false -> evolves u Q Q' ->
  entries_from_rows (registry_rows Q') = entries_from_rows (registry_rows Q).
Proof.
  intros Hu. induction 1 as [Q|op q Q1 Q2 Q' Hop Hw _ IH|op q Q1 Q2 Q' Hop Hw _ IH]; [done|..]; rewrite IH.
  - apply registry_rows_silent. intros. by eapply untouched_writes.
  - symmetry. apply registry_rows_silent. intros. by eapply untouched_writes.
Qed.

(** ** Reading one node *)

Section node.
Context {OX : Oxrdf} {GD : GraphDisplay}.
Implicit Types (ps : list (string * @Term OX)) (e : SchemaGraph).

(** The literals, and the IRIs, of a property. *)
Definition literal_of (p : string) (po : string * Term) : option Literal :=
  match po.2 with TermLiteral l => if String.eqb po.1 p then Some l else None | _ => None end.
Definition iri_of (p : string) (po : string * Term) : option NamedNode :=
  match po.2 with TermNamedNode n => if String.eqb po.1 p then Some n else None | _ => None end.
Definition import_of (po : string * Term) : option NamedNode :=
  match po.2 with
  | TermNamedNode n => if String.eqb po.1 oxl.IMPORTS || String.eqb po.1 oxl.OWL_IMPORTS then Some n else None
  | _ => None
  end.

Definition or_last {A} (l : list A) (d : option A) : option A := match last l with Some x => Some x | None => d end.

Lemma or_last_cons {A} (x : A) l d : or_last (x :: l) d = or_last l (Some x).
Proof. unfold or_last. destruct l as [|y l]; [done|]. cbn [last]. destruct (last (y :: l)) eqn:H; [done|]. by apply last_None in H. Qed.

Definition is_all (n : NamedNode) : bool := String.eqb n oxl.ALL_GRAPHS.

(** The fields the reader ends with. *)
Lemma read_fields ps e all : foldl read_prop (e, all) ps =
  (mkSchemaGraph (sg_graph e) (sg_role e)
     (or_last (omap (iri_of oxl.ONTOLOGY_IRI) ps) (sg_iri e))
     (or_last (lit_value <$> omap (literal_of oxl.VERSION) ps) (sg_version e))
     (or_last (lit_value <$> omap (literal_of oxl.SHA256) ps) (sg_sha256 e))
     (sg_imports e ++ omap import_of ps)
     (sg_applies_to e ++ (node_graph <$> List.filter (fun n => negb (is_all n)) (omap (iri_of oxl.APPLIES_TO) ps)))
     (sg_active e && negb (existsb is_false (omap (literal_of oxl.ACTIVE) ps)))
     (or_last (lit_value <$> omap (literal_of oxl.LOADED_AT) ps) (sg_loaded_at e)),
   all || existsb is_all (omap (iri_of oxl.APPLIES_TO) ps)).
Proof.
  revert e all. induction ps as [|[p o] ps IH]; intros e all.
  { cbn. rewrite !app_nil_r, andb_true_r, orb_false_r. by destruct e. }
  cbn [foldl]. rewrite (surjective_pairing (read_prop _ _)), IH. clear IH. destruct e as [g r i v h im ap ac t].
  cbn [read_prop omap list_omap literal_of iri_of import_of fst snd]. destruct o as [n|b|l|s q o]; cbn [fst snd]; try done.
  - destruct (String.eqb_spec p oxl.APPLIES_TO) as [->|H1].
    { change (String.eqb n oxl.ALL_GRAPHS) with (is_all n). cbn [List.filter existsb].
      destruct (is_all n) eqn:Hall; cbn -[is_all existsb List.filter]; cbn [List.filter existsb]; rewrite Hall; cbn [negb orb].
      - by rewrite orb_true_r.
      - rewrite fmap_cons. by rewrite <- app_assoc. }
    destruct (String.eqb_spec p oxl.ONTOLOGY_IRI) as [->|H2].
    { cbn -[or_last]. by rewrite or_last_cons. }
    cbn. unfold iri_of, import_of. cbn [fst snd]. rewrite !(proj2 (String.eqb_neq _ _) H1), !(proj2 (String.eqb_neq _ _) H2).
    destruct (String.eqb p oxl.IMPORTS || String.eqb p oxl.OWL_IMPORTS); cbn; [by rewrite <- app_assoc|done].
  - destruct (String.eqb_spec p oxl.ACTIVE) as [->|H1].
    { cbn -[is_false or_last]. destruct (is_false l); cbn; [by rewrite andb_false_r|done]. }
    destruct (String.eqb_spec p oxl.VERSION) as [->|H2]; [cbn -[or_last]; by rewrite or_last_cons|].
    destruct (String.eqb_spec p oxl.SHA256) as [->|H3]; [cbn -[or_last]; by rewrite or_last_cons|].
    destruct (String.eqb_spec p oxl.LOADED_AT) as [->|H4]; [cbn -[or_last]; by rewrite or_last_cons|].
    cbn. unfold literal_of. cbn [fst snd]. by rewrite !(proj2 (String.eqb_neq _ _) H1), !(proj2 (String.eqb_neq _ _) H2),
      !(proj2 (String.eqb_neq _ _) H3), !(proj2 (String.eqb_neq _ _) H4).
Qed.
End node.

(** ** Orders *)

Lemma str_le_iff a b : str_le a b <-> a = b \/ str_lt a b.
Proof.
  unfold str_le, str_lt. destruct (String.compare a b) eqn:H.
  - apply str_compare_eq in H. naive_solver.
  - naive_solver.
  - split; [done|]. intros [->|?]; [|done]. by rewrite str_compare_refl in H.
Qed.

#[global] Instance str_le_total : Total str_le.
Proof. intros a b. rewrite !str_le_iff. destruct (str_lt_total a b) as [?|[?|?]]; naive_solver. Qed.
#[global] Instance str_le_trans : Transitive str_le.
Proof.
  intros a b c. rewrite !str_le_iff. intros [->|H1] [->|H2]; [by left|by right|by right|]. right. by transitivity b.
Qed.
#[global] Instance str_le_antisym : AntiSymm (=) str_le.
Proof.
  intros a b. rewrite !str_le_iff. intros [?|H1] [?|H2]; [congruence..|]. exfalso.
  apply (irreflexivity str_lt a). by transitivity b.
Qed.

(** A sorted list is what sorting any arrangement of it gives. *)
Lemma merge_sort_sorted {A} (R : relation A) `{forall x y, Decision (R x y)} `{!Transitive R, !Total R, !AntiSymm (=) R} l l' :
  StronglySorted R l -> l' ≡ₚ l -> merge_sort R l' = l.
Proof.
  intros Hl Hp. apply (StronglySorted_unique R); [by apply (StronglySorted_merge_sort R)|done|]. by rewrite merge_sort_Permutation.
Qed.

Lemma sorted_weaken {A} (R S : relation A) l : (forall x y, R x y -> S x y) -> StronglySorted R l -> StronglySorted S l.
Proof. intros H. induction 1; constructor; [done|]. eapply Forall_impl; [done|]. auto. Qed.

Lemma dedup_strings_sorted l : StronglySorted str_lt l -> dedup_strings l = l.
Proof.
  induction 1 as [|x l Hs IH Hx]; [done|]. destruct l as [|y l]; [done|]. cbn [dedup_strings] in *.
  apply Forall_cons in Hx as [Hx _]. destruct (String.eqb_spec x y) as [->|_]; [by apply str_lt_ne in Hx|]. by rewrite IH.
Qed.

(** ** Writing one registration *)

Section entry.
Context {OX : Oxrdf} {OL : OxrdfLaws OX} {GD : GraphDisplay}.
Implicit Types (e : SchemaGraph) (g : GraphName).

Definition node_of g : NamedNode := match g with GnNamedNode n => n | _ => oxl.DEFAULT_GRAPH end.

(** The graph has a node of its own. *)
Definition named g : Prop := g = GnDefaultGraph \/ exists n, g = GnNamedNode n /\ n <> oxl.DEFAULT_GRAPH.

(** A registration as the reader presents it. *)
Record registrable e : Prop := {
  rg_graph : named (sg_graph e);
  rg_targets : Forall (fun g => named g /\ g <> GnNamedNode oxl.ALL_GRAPHS) (sg_applies_to e);
  rg_target_order : StronglySorted graph_le (sg_applies_to e);
  rg_imports : StronglySorted str_lt (sg_imports e);
}.

Lemma named_node g : named g -> graph_node g = Ok (node_of g) /\ node_graph (node_of g) = g.
Proof.
  intros [->|(n & -> & Hn)]; [done|]. split; [done|]. unfold node_graph. cbn. by rewrite (proj2 (String.eqb_neq _ _) Hn).
Qed.

Lemma named_inj g h : named g -> named h -> node_of g = node_of h -> g = h.
Proof. intros [_ Hg]%named_node [_ Hh]%named_node H. congruence. Qed.

Definition targets e : list NamedNode :=
  match sg_applies_to e with [] => [oxl.ALL_GRAPHS] | l => node_of <$> l end.

Lemma targets_of_named l : Forall (fun g => named g /\ g <> GnNamedNode oxl.ALL_GRAPHS) l ->
  try_map graph_node l = Ok (node_of <$> l).
Proof.
  intros Hl. apply try_map_ok. apply Forall2_fmap_r. induction Hl as [|g l [[Hg _]%named_node _] _ IH]; by constructor.
Qed.

Lemma targets_ok e : registrable e -> targets_of (sg_applies_to e) = Ok (targets e).
Proof.
  intros He. unfold targets_of, targets. pose proof (targets_of_named _ (rg_targets _ He)) as H.
  by destruct (sg_applies_to e).
Qed.

Definition option_prop {A} (p : string) (f : A -> Term) (x : option A) : list (string * Term) :=
  match x with Some x => [(p, f x)] | None => [] end.

(** What a registration says of its node. *)
Definition entry_props e : list (string * Term) :=
  [(rdf.TYPE, TermNamedNode (SchemaRole.class (sg_role e))); (oxl.ACTIVE, TermLiteral (literal_from_bool (sg_active e)))] ++
  ((fun t => (oxl.APPLIES_TO, TermNamedNode t)) <$> targets e) ++
  option_prop oxl.ONTOLOGY_IRI TermNamedNode (sg_iri e) ++
  option_prop oxl.VERSION (fun v => TermLiteral (new_simple_literal v)) (sg_version e) ++
  option_prop oxl.SHA256 (fun v => TermLiteral (new_simple_literal v)) (sg_sha256 e) ++
  ((fun i => (oxl.IMPORTS, TermNamedNode i)) <$> sg_imports e) ++
  option_prop oxl.LOADED_AT (fun t => TermLiteral (new_typed_literal t XSD_DATE_TIME)) (sg_loaded_at e).

Definition node_quad (node : NamedNode) (po : string * Term) : Quad :=
  mkQuad (NobNamedNode node) po.1 po.2 (GnNamedNode SCHEMA_GRAPH).

Lemma entry_quads_props e : registrable e -> entry_quads e = Ok (node_quad (node_of (sg_graph e)) <$> entry_props e).
Proof.
  intros He. unfold entry_quads, entry_props. destruct (named_node _ (rg_graph _ He)) as [-> _]. cbn [mbind result_bind].
  rewrite (targets_ok _ He). cbn [mbind result_bind]. apply (f_equal Ok). rewrite !fmap_app, <- !list_fmap_compose. unfold option_prop.
  by destruct (sg_iri e), (sg_version e), (sg_sha256 e), (sg_loaded_at e).
Qed.

(** *** Selecting its properties *)

Lemma omap_all {A B} (f : B -> option A) (h : A -> B) (l : list A) : (forall x, f (h x) = Some x) -> omap f (h <$> l) = l.
Proof. intros H. induction l as [|x l IH]; [done|]. cbn. rewrite H. f_equal. exact IH. Qed.

Lemma omap_none {A B C} (f : B -> option C) (h : A -> B) (l : list A) : (forall x, f (h x) = None) -> omap f (h <$> l) = [].
Proof. intros H. induction l as [|x l IH]; [done|]. cbn. rewrite H. exact IH. Qed.

Ltac select_props :=
  unfold entry_props, option_prop; rewrite !omap_app;
  repeat match goal with |- context [omap ?f (?h <$> ?l)] => first [rewrite (omap_all f h l) by done|rewrite (omap_none f h l) by done] end;
  repeat match goal with |- context [omap _ (match ?x with Some _ => _ | None => _ end)] => destruct x end;
  cbn; rewrite ?app_nil_r; try done.

Lemma select_role e : omap role_of (entry_props e) = [sg_role e].
Proof. select_props; destruct (sg_role e); reflexivity. Qed.
Lemma select_targets e : omap (iri_of oxl.APPLIES_TO) (entry_props e) = targets e.
Proof. select_props. Qed.
Lemma select_iri e : omap (iri_of oxl.ONTOLOGY_IRI) (entry_props e) = option_list (sg_iri e).
Proof. select_props. Qed.
Lemma select_imports e : omap import_of (entry_props e) = sg_imports e.
Proof. select_props. Qed.
Lemma select_version e : omap (literal_of oxl.VERSION) (entry_props e) = new_simple_literal <$> option_list (sg_version e).
Proof. select_props. Qed.
Lemma select_sha256 e : omap (literal_of oxl.SHA256) (entry_props e) = new_simple_literal <$> option_list (sg_sha256 e).
Proof. select_props. Qed.
Lemma select_loaded_at e :
  omap (literal_of oxl.LOADED_AT) (entry_props e) = (fun t => new_typed_literal t XSD_DATE_TIME) <$> option_list (sg_loaded_at e).
Proof. select_props. Qed.
Lemma select_active e : omap (literal_of oxl.ACTIVE) (entry_props e) = [literal_from_bool (sg_active e)].
Proof. select_props. Qed.

(** *** Reading it back *)

Lemma perm_option {A B} (f : A -> B) (x : option A) l : l ≡ₚ f <$> option_list x -> l = f <$> option_list x.
Proof. destruct x; cbn; [by intros ->%Permutation_singleton_r|by intros ->%Permutation_nil_r]. Qed.

Lemma is_false_bool b : is_false (literal_from_bool b) = negb b.
Proof. destruct (from_bool_spec b) as (Hv & _ & Hd). unfold is_false. rewrite Hv, Hd. by destruct b. Qed.

Lemma last_value {A} (f : A -> Literal) (g : Literal -> A) (x : option A) : (forall x, g (f x) = x) ->
  or_last (g <$> (f <$> option_list x)) None = x.
Proof. intros H. destruct x; cbn; [by rewrite H|done]. Qed.

Lemma targets_read e l : registrable e -> l ≡ₚ targets e ->
  if existsb is_all l then sg_applies_to e = []
  else (node_graph <$> List.filter (fun n => negb (is_all n)) l) ≡ₚ sg_applies_to e.
Proof.
  intros He Hl. pose proof (rg_targets _ He) as Ht. unfold targets in Hl. destruct (sg_applies_to e) as [|g gs] eqn:Hg.
  { apply Permutation_singleton_r in Hl as ->. done. }
  rewrite <- Hg in *. clear Hg g gs.
  assert (forall n, n ∈ l -> is_all n = false) as Hno.
  { intros n Hn. rewrite Hl in Hn. apply list_elem_of_fmap in Hn as (g & -> & Hin). rewrite Forall_forall in Ht.
    destruct (Ht g Hin) as [[->|(n & -> & _)] Hne]; [done|]. apply String.eqb_neq. cbn. intros ->. done. }
  destruct (existsb is_all l) eqn:Hall.
  { apply List.existsb_exists in Hall as (n & Hn%list_elem_of_In & Hall). by rewrite Hno in Hall. }
  assert (List.filter (fun n => negb (is_all n)) l = l) as ->.
  { clear Hl Hall. induction l as [|n l IH]; [done|]. cbn. rewrite Hno by left. cbn. by rewrite IH by (intros; apply Hno; by right). }
  rewrite Hl, <- list_fmap_compose. clear Hl Hno. induction Ht as [|g gs [[_ Hg]%named_node _] _ IH]; [done|]. cbn. by rewrite Hg, IH.
Qed.

Context `{!Inj (=) (=) graph_to_string}.

#[local] Instance graph_le_total : Total graph_le.
Proof. intros g h. apply str_le_total. Qed.
#[local] Instance graph_le_trans : Transitive graph_le.
Proof. intros g h k. apply str_le_trans. Qed.
#[local] Instance graph_le_antisym : AntiSymm (=) graph_le.
Proof. intros g h H1 H2. apply (inj graph_to_string). by apply str_le_antisym. Qed.

Lemma node_reads e ps : registrable e -> ps ≡ₚ entry_props e -> node_entries (node_of (sg_graph e), ps) = [e].
Proof.
  intros He Hp. assert (forall A (f : string * Term -> option A), omap f ps ≡ₚ omap f (entry_props e)) as Hsel by by intros A f; rewrite Hp.
  assert (roles_of ps = [sg_role e]) as Hr.
  { unfold roles_of. pose proof (Hsel _ role_of) as H. rewrite select_role in H. apply Permutation_singleton_r in H.
    change (omap _ ps) with (omap role_of ps). by rewrite H. }
  unfold node_entries. rewrite Hr, read_fields. cbn [SchemaGraph_new sg_graph sg_role sg_iri sg_version sg_sha256 sg_imports
    sg_applies_to sg_active sg_loaded_at orb andb app].
  pose proof (Hsel _ (iri_of oxl.APPLIES_TO)) as Ht. rewrite select_targets in Ht. apply (targets_read _ _ He) in Ht.
  pose proof (Hsel _ import_of) as Hi. rewrite select_imports in Hi.
  pose proof (Hsel _ (literal_of oxl.ACTIVE)) as Ha. rewrite select_active in Ha. apply Permutation_singleton_r in Ha as ->.
  pose proof (Hsel _ (iri_of oxl.ONTOLOGY_IRI)) as Ho. rewrite select_iri, <- (list_fmap_id (option_list _)) in Ho. apply perm_option in Ho as ->.
  pose proof (Hsel _ (literal_of oxl.VERSION)) as Hv. rewrite select_version in Hv. apply perm_option in Hv as ->.
  pose proof (Hsel _ (literal_of oxl.SHA256)) as Hh. rewrite select_sha256 in Hh. apply perm_option in Hh as ->.
  pose proof (Hsel _ (literal_of oxl.LOADED_AT)) as Hl. rewrite select_loaded_at in Hl. apply perm_option in Hl as ->.
  rewrite !last_value by (intros; first [apply simple_spec|apply typed_spec]).
  assert (or_last (id <$> option_list (sg_iri e)) None = sg_iri e) as -> by by destruct (sg_iri e).
  cbn [existsb]. rewrite is_false_bool, orb_false_r, negb_involutive. destruct (named_node _ (rg_graph _ He)) as [_ ->].
  assert (dedup_strings (merge_sort str_le (omap import_of ps)) = sg_imports e) as Himp.
  { rewrite (merge_sort_sorted str_le (sg_imports e)); [apply dedup_strings_sorted, (rg_imports _ He)| |done].
    eapply sorted_weaken; [|apply (rg_imports _ He)]. intros x y ?. apply str_le_iff. by right. }
  pose proof (rg_target_order _ He) as Hto. destruct (existsb is_all _); cbn [set_applies_to set_imports set_role sg_applies_to sg_imports].
  - rewrite Himp. destruct e. cbn in Ht |- *. by rewrite Ht.
  - rewrite Himp, (merge_sort_sorted graph_le (sg_applies_to e)) by done. by destruct e.
Qed.

(** ** The whole registry *)

(** Does the reader use this property? *)
Definition used (po : string * Term) : bool :=
  bool_decide (po.1 ∈ PROPS) || match role_of po with Some _ => true | None => false end.

Lemma unused_silent po : used po = false -> silent po.
Proof.
  destruct po as [p o]. intros [Hp%bool_decide_eq_false Hr]%orb_false_iff. split; [by destruct (role_of _)|].
  assert (forall q, q ∈ PROPS -> String.eqb p q = false) as Hq by (intros q Hin; apply String.eqb_neq; by intros ->).
  intros [e all]. unfold read_prop. destruct o as [n| |l|]; try done.
  - by rewrite !Hq by (unfold PROPS; set_solver).
  - by rewrite !Hq by (unfold PROPS; set_solver).
Qed.

Lemma node_entries_used s ps : node_entries (s, ps) = node_entries (s, List.filter used ps).
Proof.
  assert (forall l, node_entries (s, l ++ ps) = node_entries (s, l ++ List.filter used ps)) as H; [|apply (H [])].
  induction ps as [|po ps IH]; intros l; [done|]. cbn [List.filter]. destruct (used po) eqn:Hu.
  - rewrite (app_assoc l [po] ps : l ++ po :: ps = _), IH, <- app_assoc. done.
  - by rewrite node_entries_silent by by apply unused_silent.
Qed.

Lemma entry_props_used e : List.filter used (entry_props e) = entry_props e.
Proof.
  assert (Forall (fun po => used po = true) (entry_props e)) as H.
  { unfold entry_props, option_prop. repeat (apply Forall_app; split).
    - repeat constructor. unfold used. cbn [role_of fst]. rewrite String.eqb_refl. by destruct (sg_role e).
    - apply Forall_fmap, Forall_forall. done.
    - destruct (sg_iri e); by repeat constructor.
    - destruct (sg_version e); by repeat constructor.
    - destruct (sg_sha256 e); by repeat constructor.
    - apply Forall_fmap, Forall_forall. done.
    - destruct (sg_loaded_at e); by repeat constructor. }
  induction H as [|po ps Hu _ IH]; [done|]. cbn. by rewrite Hu, IH.
Qed.

Definition described_rows e : list (list (option Term)) :=
  (fun po => quad_row (node_quad (node_of (sg_graph e)) po)) <$> entry_props e.

Lemma said_described e s : properties (described_rows e) s = if decide (s = node_of (sg_graph e)) then entry_props e else [].
Proof.
  unfold properties, group_of, described_rows. case_decide as Hs.
  - apply omap_all. intros [p o]. unfold said_of. cbn. by rewrite Hs, String.eqb_refl.
  - apply omap_none. intros [p o]. unfold said_of. cbn. by rewrite (proj2 (String.eqb_neq _ _) (not_eq_sym Hs)).
Qed.

Lemma properties_entries es s : NoDup (node_of ∘ sg_graph <$> es) ->
  properties (es ≫= described_rows) s = default [] (entry_props <$> List.find (fun e => String.eqb s (node_of (sg_graph e))) es).
Proof.
  induction es as [|e es IH]; [done|]. rewrite fmap_cons, NoDup_cons. intros [Hno Hn]. rewrite bind_cons.
  unfold properties in *. rewrite group_of_app. change (group_of row_says (described_rows e) s) with (properties (described_rows e) s).
  rewrite said_described, IH by done. cbn [List.find]. destruct (String.eqb_spec s (node_of (sg_graph e))) as [Hs|Hs].
  - rewrite decide_True by done. cbn. destruct (List.find _ es) as [e'|] eqn:Hf; cbn; [|by rewrite app_nil_r].
    apply List.find_some in Hf as [Hin Heq%String.eqb_eq]. exfalso. apply Hno. cbn; rewrite <- Hs, Heq.
    apply (list_elem_of_fmap_2 (node_of ∘ sg_graph)). by apply list_elem_of_In.
  - by rewrite decide_False.
Qed.

#[local] Instance entry_le_total : Total entry_le.
Proof.
  intros a b. unfold entry_le. pose proof (graph_le_total (sg_graph a) (sg_graph b)).
  destruct (Z.lt_trichotomy (SchemaRole.index (sg_role a)) (SchemaRole.index (sg_role b))) as [?|[?|?]]; naive_solver.
Qed.
#[local] Instance entry_le_trans : Transitive entry_le.
Proof.
  intros a b c. unfold entry_le. intros [?|[? H1]] [?|[? H2]]; [left; lia..|]. right. split; [lia|]. by etrans.
Qed.

Lemma entries_sorted es l : NoDup (sg_graph <$> es) -> StronglySorted entry_le es -> l ≡ₚ es -> merge_sort entry_le l = es.
Proof.
  intros Hn Hs Hl. apply (StronglySorted_unique_strong entry_le); [|by apply (StronglySorted_merge_sort entry_le)|done|by rewrite merge_sort_Permutation].
  intros a b Ha Hb Hab Hba. rewrite merge_sort_Permutation, Hl in Ha.
  assert (sg_graph a = sg_graph b) as Hg by (unfold entry_le in *; apply graph_le_antisym; [destruct Hab as [?|[_ ?]]|destruct Hba as [?|[_ ?]]]; try lia; done).
  apply list_elem_of_lookup in Ha as [i Hi], Hb as [j Hj].
  assert (i = j) as Hij; [|congruence]. apply (NoDup_lookup (sg_graph <$> es) i j (sg_graph a)); [done|..]; rewrite list_lookup_fmap; [by rewrite Hi|by rewrite Hj, Hg].
Qed.

Lemma nodes_nodup es : Forall registrable es -> NoDup (sg_graph <$> es) -> NoDup (node_of ∘ sg_graph <$> es).
Proof.
  rewrite Forall_forall. intros Hr Hn. rewrite list_fmap_compose. apply NoDup_fmap_2_strong; [|done].
  intros g h (e & -> & He)%list_elem_of_fmap (e' & -> & He')%list_elem_of_fmap. apply named_inj; by apply rg_graph, Hr.
Qed.

Lemma filter_used_perm l l' : l ≡ₚ l' -> List.filter used l ≡ₚ List.filter used l'.
Proof. induction 1; cbn; repeat destruct (used _); try by econstructor. all: by etrans. Qed.

Lemma used_properties es others rows s : NoDup (node_of ∘ sg_graph <$> es) ->
  Forall (fun row => forall s po, row_says row = Some (s, po) -> used po = false) others ->
  rows ≡ₚ (es ≫= described_rows) ++ others ->
  List.filter used (properties rows s) ≡ₚ properties (es ≫= described_rows) s.
Proof.
  intros Hn Ho Hp. assert (properties rows s ≡ₚ properties ((es ≫= described_rows) ++ others) s) as H by by apply group_of_perm.
  rewrite (filter_used_perm _ _ H). unfold properties at 1. rewrite group_of_app, List.filter_app.
  assert (List.filter used (group_of row_says others s) = []) as ->.
  { clear Hp H. induction Ho as [|row others Hrow _ IH]; [done|]. unfold group_of in *. cbn. unfold said_of at 1.
    destruct (row_says row) as [[s' po]|] eqn:Hsays; [|done]. cbn. destruct (String.eqb s' s); [|done]. cbn.
    by rewrite (Hrow _ _ eq_refl). }
  rewrite app_nil_r. change (group_of row_says ?r s) with (properties r s). rewrite properties_entries by done.
  destruct (List.find _ es) as [e|]; [|done]. change (List.filter used (entry_props e) ≡ₚ entry_props e). by rewrite entry_props_used.
Qed.

Lemma properties_entry es e : NoDup (node_of ∘ sg_graph <$> es) -> e ∈ es ->
  properties (es ≫= described_rows) (node_of (sg_graph e)) = entry_props e.
Proof.
  intros Hn He. rewrite properties_entries by done. destruct (List.find _ es) as [e'|] eqn:Hf.
  - apply List.find_some in Hf as [Hin%list_elem_of_In Heq%String.eqb_eq].
    apply list_elem_of_lookup in He as [i Hi], Hin as [j Hj]. assert (i = j) as Hij; [|cbn; congruence].
    apply (NoDup_lookup (node_of ∘ sg_graph <$> es) i j (node_of (sg_graph e))); [done|..]; rewrite list_lookup_fmap.
    + by rewrite Hi.
    + rewrite Hj, Heq. done.
  - exfalso. eapply List.find_none in Hf; [|by apply list_elem_of_In]. by rewrite String.eqb_refl in Hf.
Qed.

(** Grouping the rows of registrations gives the registrations, by node. *)
Lemma grouped_entries es : Forall registrable es -> NoDup (sg_graph <$> es) ->
  foldl (group_step row_says) [] (es ≫= described_rows) ≫= node_entries ≡ₚ es.
Proof.
  intros Hr Hn. pose proof (nodes_nodup _ Hr Hn) as Hnodes. rewrite Forall_forall in Hr.
  set (nodes := node_of ∘ sg_graph <$> es) in *. assert (StronglySorted str_lt (merge_sort str_le nodes)) as Hks.
  { assert (NoDup (merge_sort str_le nodes)) as Hnd by by rewrite merge_sort_Permutation.
    pose proof (StronglySorted_merge_sort str_le nodes) as Hsorted. induction Hsorted as [|x l _ IH Hx]; [constructor|].
    apply NoDup_cons in Hnd as [Hno Hnd]. constructor; [auto|]. rewrite Forall_forall in Hx |- *. intros y Hy.
    pose proof (proj1 (str_le_iff x y) (Hx y Hy)) as [->|?]; done. }
  rewrite (grouped_list row_says (es ≫= described_rows) _ Hks).
  - rewrite list_fmap_bind, merge_sort_Permutation. unfold nodes. rewrite list_fmap_bind.
    assert (forall l, l ⊆ es -> (l ≫= fun e => node_entries (node_of (sg_graph e), properties (es ≫= described_rows) (node_of (sg_graph e)))) = l) as H.
    { induction l as [|e l IH]; intros Hl; [done|]. rewrite bind_cons, IH by set_solver.
      rewrite properties_entry by (done || set_solver). rewrite node_reads; [done|apply Hr; set_solver|done]. }
    apply reflexive_eq. exact (H es ltac:(done)).
  - intros k. rewrite merge_sort_Permutation. change (group_of row_says ?r k) with (properties r k). split.
    + intros (e & -> & He)%list_elem_of_fmap. cbn. by rewrite properties_entry.
    + rewrite properties_entries by done. destruct (List.find _ es) as [e|] eqn:Hf; [|done]. intros _.
      apply List.find_some in Hf as [Hin%list_elem_of_In Heq%String.eqb_eq]. rewrite Heq. by apply (list_elem_of_fmap_2 (node_of ∘ sg_graph)).
Qed.

Lemma entries_read es others rows : Forall registrable es -> NoDup (sg_graph <$> es) -> StronglySorted entry_le es ->
  Forall (fun row => forall s po, row_says row = Some (s, po) -> used po = false) others ->
  rows ≡ₚ (es ≫= described_rows) ++ others -> entries_from_rows rows = es.
Proof.
  intros Hr Hn Hs Ho Hp. pose proof (nodes_nodup _ Hr Hn) as Hnodes. rewrite (groups_same rows (es ≫= described_rows)).
  - unfold entries_from_rows. rewrite (foldl_same group_row (group_step row_says)) by apply group_row_step.
    by apply entries_sorted, grouped_entries.
  - intros s. rewrite node_entries_used. pose proof (used_properties es others rows s Hnodes Ho Hp) as Hps.
    rewrite properties_entries in Hps |- * by done.
    destruct (List.find _ es) as [e|] eqn:Hf; [|by apply Permutation_nil_r in Hps as ->].
    change (default [] (entry_props <$> Some e)) with (entry_props e) in *. rewrite Forall_forall in Hr.
    apply List.find_some in Hf as [Hin%list_elem_of_In Heq%String.eqb_eq]. subst s. by rewrite !node_reads by auto.
Qed.
End entry.

(** C27: Registrations, each with its targets and imports in order, of different graphs and sorted
    as the reader sorts them, can all be written as quads of the registry graph; and whatever the
    order of the rows, and whatever other rows say with properties and classes the registry does
    not use (of the same nodes too), exactly those registrations are read back. *)
Theorem registrations_roundtrip {OX : Oxrdf} {OL : OxrdfLaws OX} {GD : GraphDisplay} `{!Inj (=) (=) graph_to_string}
    (es : list SchemaGraph) (others : list (list (option Term))) :
  Forall registrable es -> NoDup (sg_graph <$> es) -> StronglySorted entry_le es ->
  Forall (fun row => forall s po, row_says row = Some (s, po) -> used po = false) others ->
  exists quads, try_map entry_quads es = Ok quads /\
  forall rows, rows ≡ₚ (quad_row <$> concat quads) ++ others -> entries_from_rows rows = es.
Proof.
  intros Hr Hn Hs Ho. exists ((fun e => node_quad (node_of (sg_graph e)) <$> entry_props e) <$> es). split.
  - apply try_map_ok, Forall2_fmap_r. induction Hr as [|e es He _ IH]; constructor; [by apply entry_quads_props|].
    apply NoDup_cons in Hn as [_ Hn]. apply StronglySorted_cons in Hs as [_ Hs]. auto.
  - intros rows Hp. apply (entries_read es others); [done..|]. rewrite Hp.
    assert (quad_row <$> concat ((fun e => node_quad (node_of (sg_graph e)) <$> entry_props e) <$> es) = es ≫= described_rows) as ->; [|done].
    clear. induction es as [|e es IH]; [done|]. rewrite fmap_cons, bind_cons, <- IH. cbn [concat]. rewrite fmap_app. f_equal.
    by rewrite <- list_fmap_compose.
Qed.

(** ** What is wrong with a registry *)

Section problems.
Context {OX : Oxrdf} {TD : TermDisplay}.
Implicit Types (ps : list (string * @Term OX)) (o : @Term OX).

Definition row_tells (row : list (option Term)) : option (string * (string * Term)) :=
  match row_at row 0, row_at row 1, row_at row 2 with
  | Some s, Some (TermNamedNode p), Some o => Some (term_to_string s, (p, o))
  | _, _, _ => None
  end.

(** What the rows say of the node with this text. *)
Definition told (rows : list (list (option Term))) (node : string) : list (string * Term) := group_of row_tells rows node.

(** A class of the registry. *)
Definition registry_class o : Prop :=
  (exists r, o = TermNamedNode (SchemaRole.class r)) \/ o = TermNamedNode oxl.SYSTEM_GRAPH.

(** The node is one the shape targets. *)
Definition checked ps : Prop :=
  (exists o, (rdf.TYPE, o) ∈ ps /\ registry_class o) \/ (exists p o, (p, o) ∈ ps /\ p ∈ PROPS).

Definition literal_typed (dt : string) (P : string -> Prop) o : Prop :=
  exists l, o = TermLiteral l /\ lit_datatype l = dt /\ P (lit_value l).

(** The registration shape. *)
Record conforms (node : string) ps : Prop := {
  co_node : starts_with node "_:" = false;
  co_class : exists o, (rdf.TYPE, o) ∈ ps /\ registry_class o;
  co_single p i j o o' : p ∈ [oxl.ACTIVE; oxl.ONTOLOGY_IRI; oxl.VERSION; oxl.SHA256; oxl.LOADED_AT] ->
    ps !! i = Some (p, o) -> ps !! j = Some (p, o') -> i = j;
  co_iris p o : p ∈ [oxl.APPLIES_TO; oxl.ONTOLOGY_IRI; oxl.IMPORTS; oxl.OWL_IMPORTS] -> (p, o) ∈ ps -> exists n, o = TermNamedNode n;
  co_active o : (oxl.ACTIVE, o) ∈ ps -> literal_typed xsd.BOOLEAN (fun v => v ∈ boolean_forms) o;
  co_version o : (oxl.VERSION, o) ∈ ps -> literal_typed xsd.STRING (fun _ => True) o;
  co_digest o : (oxl.SHA256, o) ∈ ps ->
    literal_typed xsd.STRING (fun v => String.length v = 64%nat /\ forall c, c ∈ bytes v -> lower_hex c = true) o;
  co_loaded o : (oxl.LOADED_AT, o) ∈ ps -> literal_typed XSD_DATE_TIME (fun _ => True) o;
}.

Lemma elem_of_values ps p o : o ∈ values ps p <-> (p, o) ∈ ps.
Proof.
  unfold values. rewrite list_elem_of_fmap. split.
  - intros ([p' o'] & -> & [Hp Hin]%list_elem_of_filter). cbn in Hp. by subst p'.
  - intros H. exists (p, o). split; [done|]. by apply list_elem_of_filter.
Qed.

Lemma is_role_class_iff o : is_role_class o = true <-> registry_class o.
Proof.
  unfold is_role_class, registry_class. destruct o as [c| | |]; try (split; [done|by intros [[r ?]|?]]).
  destruct (SchemaRole.from_class c) as [r|] eqn:Hr.
  - split; [intros _; left; exists r|done]. unfold SchemaRole.from_class in Hr. apply List.find_some in Hr as [_ Hr%String.eqb_eq]. by rewrite Hr.
  - rewrite String.eqb_eq. split; [intros ->; by right|]. intros [[r [= ->]]|[= ->]]; [by destruct r|done].
Qed.

Lemma typed_iff ps : typed ps = true <-> exists o, (rdf.TYPE, o) ∈ ps /\ registry_class o.
Proof.
  unfold typed. rewrite List.existsb_exists. split; intros (o & H1 & H2); exists o.
  - by rewrite <- elem_of_values, list_elem_of_In, <- is_role_class_iff.
  - by rewrite <- list_elem_of_In, elem_of_values, is_role_class_iff.
Qed.

Lemma described_iff ps : described ps = true <-> exists p o, (p, o) ∈ ps /\ p ∈ PROPS.
Proof.
  unfold described. rewrite List.existsb_exists. split.
  - intros ([p o] & Hin%list_elem_of_In & H%bool_decide_eq_true). by exists p, o.
  - intros (p & o & Hin & Hp). exists (p, o). split; [by apply list_elem_of_In|by apply bool_decide_eq_true].
Qed.

Lemma several_nil ps p : several ps p = [] <-> forall i j o o', ps !! i = Some (p, o) -> ps !! j = Some (p, o') -> i = j.
Proof.
  unfold several. destruct (Nat.ltb_spec 1 (length (values ps p))) as [Hl|Hl]; (split; [try done|try done]); unfold values in Hl;
    rewrite length_fmap in Hl.
  - intros H. exfalso. revert Hl H. induction ps as [|[p' o'] ps IH]; [cbn; lia|]. rewrite filter_cons. cbn [fst]. case_decide as Hp.
    + subst p'. cbn [length]. intros Hl H. destruct (filter _ ps) as [|[q o] rest] eqn:Hf; [cbn in Hl; lia|].
      assert ((q, o) ∈ filter (fun po : string * Term => po.1 = p) ps) as [Hq Hin]%list_elem_of_filter by (rewrite Hf; left).
      cbn in Hq. subst q. apply list_elem_of_lookup in Hin as [i Hi]. specialize (H 0%nat (S i) _ _ eq_refl Hi). done.
    + intros Hl H. apply IH; [done|]. intros i j o1 o2 Hi Hj. assert (S i = S j) by (by eapply H). lia.
  - intros _. revert Hl. induction ps as [|[p' o'] ps IH]; [by intros _ []|]. rewrite filter_cons. cbn [fst]. case_decide as Hp.
    + subst p'. cbn [length]. intros Hl. assert (filter (fun po : string * Term => po.1 = p) ps = []) as Hnil by (destruct (filter _ ps); [done|cbn in Hl; lia]).
      assert (forall i o, ps !! i <> Some (p, o)) as Hno.
      { intros i o Hi%list_elem_of_lookup_2. assert ((p, o) ∈ filter (fun po : string * Term => po.1 = p) ps) as Hin by by apply list_elem_of_filter.
        rewrite Hnil in Hin. by apply elem_of_nil in Hin. }
      intros [|i] [|j] o1 o2; cbn; [done|by intros _ ?%Hno|by intros ?%Hno|by intros ?%Hno].
    + intros Hl [|i] [|j] o1 o2; cbn; [congruence..|]. intros Hi Hj. f_equal. by eapply IH.
Qed.

Lemma filtered_nil {A} (f : A -> bool) (h : A -> string) l : h <$> List.filter f l = [] <-> forall x, x ∈ l -> f x = false.
Proof.
  induction l as [|x l IH]; cbn; [split; [by intros _ y ?%elem_of_nil|done]|]. destruct (f x) eqn:Hx; cbn.
  - split; [done|]. intros H. specialize (H x ltac:(left)). congruence.
  - rewrite IH. split; [intros H y [->|?]%elem_of_cons; auto|]. intros H y Hy. apply H. by right.
Qed.

Lemma not_iris_nil ps p : not_iris ps p = [] <-> forall o, (p, o) ∈ ps -> exists n, o = TermNamedNode n.
Proof.
  unfold not_iris. rewrite filtered_nil. setoid_rewrite elem_of_values. split; intros H o Ho.
  - specialize (H o Ho). destruct o; by eauto.
  - by destruct (H o Ho) as [n ->].
Qed.

Lemma not_literals_nil ps p dt : not_literals ps p dt = [] <-> forall o, (p, o) ∈ ps -> literal_typed dt (fun _ => True) o.
Proof.
  unfold not_literals. rewrite filtered_nil. setoid_rewrite elem_of_values. split; intros H o Ho.
  - specialize (H o Ho). destruct o as [| |l|]; try done. cbn in H. apply negb_false_iff, String.eqb_eq in H. by exists l.
  - destruct (H o Ho) as (l & -> & Hl & _). cbn. by rewrite Hl, String.eqb_refl.
Qed.

Lemma fmap_nil_iff {A B} (f : A -> B) l : f <$> l = [] <-> l = [].
Proof. by destruct l. Qed.

Lemma bind_nil {A B} (f : A -> list B) l : l ≫= f = [] <-> forall x, x ∈ l -> f x = [].
Proof.
  induction l as [|x l IH]; [split; [by intros _ y ?%elem_of_nil|done]|]. rewrite bind_cons, app_nil, IH. split.
  - intros [Hx Hl] y [->|?]%elem_of_cons; auto.
  - intros H. split; [apply H; left|intros y Hy; apply H; by right].
Qed.

Lemma booleans_nil ps : (forall o, (oxl.ACTIVE, o) ∈ ps -> literal_typed xsd.BOOLEAN (fun _ => True) o) ->
  (forall o, o ∈ values ps oxl.ACTIVE -> bad_boolean o = false) <->
  forall o, (oxl.ACTIVE, o) ∈ ps -> literal_typed xsd.BOOLEAN (fun v => v ∈ boolean_forms) o.
Proof.
  intros Hty. setoid_rewrite elem_of_values. split; intros H o Ho.
  - destruct (Hty o Ho) as (l & -> & Hl & _). exists l. split_and!; [done..|]. specialize (H _ Ho). cbn in H.
    rewrite Hl, String.eqb_refl in H. by apply negb_false_iff, bool_decide_eq_true in H.
  - destruct (H o Ho) as (l & -> & Hl & Hv). unfold bad_boolean. rewrite Hl, String.eqb_refl. by apply negb_false_iff, bool_decide_eq_true.
Qed.

Lemma digests_nil ps : (forall o, (oxl.SHA256, o) ∈ ps -> literal_typed xsd.STRING (fun _ => True) o) ->
  (forall o, o ∈ values ps oxl.SHA256 -> bad_digest o = false) <->
  forall o, (oxl.SHA256, o) ∈ ps ->
    literal_typed xsd.STRING (fun v => String.length v = 64%nat /\ forall c, c ∈ bytes v -> lower_hex c = true) o.
Proof.
  intros Hty. setoid_rewrite elem_of_values. split; intros H o Ho.
  - destruct (Hty o Ho) as (l & -> & Hl & _). exists l. split_and!; [done..| |]; specialize (H _ Ho); unfold bad_digest in H;
      apply orb_false_iff in H as [H1 H2].
    + by apply negb_false_iff, Nat.eqb_eq in H1.
    + apply negb_false_iff in H2. rewrite List.forallb_forall in H2. intros c Hc. by apply H2, list_elem_of_In.
  - destruct (H o Ho) as (l & -> & _ & Hlen & Hhex). unfold bad_digest. rewrite Hlen. cbn. apply negb_false_iff, List.forallb_forall.
    intros c Hc. by apply Hhex, list_elem_of_In.
Qed.

Lemma node_problems_nil node ps : node_problems (node, ps) = [] <-> (checked ps -> conforms node ps).
Proof.
  unfold node_problems, checked. rewrite <- typed_iff, <- described_iff.
  destruct (typed ps) eqn:Ht; [|destruct (described ps) eqn:Hd]; cbn [negb andb]; [| |by split; [intros _ [|]|]].
  2:{ split; [|intros H; destruct (H (or_intror eq_refl)) as [_ Hc]; apply typed_iff in Hc; congruence].
      rewrite fmap_nil_iff, app_nil. intros [_ ?%app_nil]. destruct H; done. }
  rewrite fmap_nil_iff, !app_nil, !bind_nil, !not_literals_nil, !filtered_nil. split.
  - intros (Hn & _ & Hs & Hi & Ha & Hv & Hh & Hl & Hab & Hhd) _. split.
    + by destruct (starts_with node "_:").
    + by apply typed_iff.
    + intros p i j o o' Hp. by apply several_nil, Hs.
    + intros p o Hp. by apply not_iris_nil, Hi.
    + by apply booleans_nil.
    + done.
    + by apply digests_nil.
    + done.
  - intros H. destruct (H (or_introl eq_refl)) as [Hn _ Hs Hi Ha Hv Hh Hl].
    assert (forall dt (P : string -> Prop) o, literal_typed dt P o -> literal_typed dt (fun _ => True) o) as Hw by (intros dt P o (l & ? & ? & _); by exists l).
    split_and!; [by rewrite Hn|done| | |eauto|done|eauto|done| |].
    + intros p Hp. apply several_nil. intros. by eapply Hs.
    + intros p Hp. apply not_iris_nil. eauto.
    + apply booleans_nil; eauto.
    + apply digests_nil; eauto.
Qed.

Lemma group_any_step m row : group_any m row = group_step row_tells m row.
Proof.
  unfold group_any, group_step, row_tells. destruct (row_at row 0); [|done]. destruct (row_at row 1) as [[]|]; try done.
  by destruct (row_at row 2).
Qed.
End problems.


(** ** Instances *)

Definition n_triples_graph : GraphDisplay := fun g =>
  match g with GnDefaultGraph => "DEFAULT" | GnNamedNode n => "<" +:+ n +:+ ">" | GnBlankNode b => "_:" +:+ b end.

Lemma last_char_inj c a b : a +:+ String c "" = b +:+ String c "" -> a = b.
Proof.
  revert b. induction a as [|x a IH]; intros [|y b]; cbn; [done|..].
  - intros [= <- H]. by destruct b.
  - intros [= -> H]. by destruct a.
  - intros [= -> H]. f_equal. by apply IH.
Qed.

Lemma n_triples_graph_inj : Inj (=) (=) (graph_to_string (GraphDisplay := n_triples_graph)).
Proof.
  intros [|n|b] [|m|c]; unfold graph_to_string, n_triples_graph; try (cbn; done).
  - intros [= H]. f_equal. by apply last_char_inj in H.
  - intros [= H]. by f_equal.
Qed.

(** An update that types a resource in a graph given by a variable: it could write to the
    registry graph, but nothing the registry uses. *)
Definition typing_update : @Update ConcreteRdf.oxrdf :=
  [DeleteInsert [] [mkQuadPattern (TpVariable "s") (NnpNamedNode rdf.TYPE) (TpNamedNode "http://ex.org/Person") (GnpVariable "g")]].

Lemma untouched_registry_witness (OX := ConcreteRdf.oxrdf) (GD := n_triples_graph) :
  let q := mkQuad (NobNamedNode "http://ex.org/ann") rdf.TYPE (TermNamedNode "http://ex.org/Person") (GnNamedNode SCHEMA_GRAPH) in
  update_touches_registry typing_update = false /\ evolves typing_update [] [q] /\
  entries_from_rows (registry_rows [q]) = entries_from_rows (registry_rows []).
Proof.
  intros q. assert (evolves typing_update [] [q]) as He.
  { apply (evolves_add _ (hd Create typing_update) q [] [] [q]); [left| |apply evolves_done].
    exists (fun v => if String.eqb v "s" then Some (TermNamedNode "http://ex.org/ann") else Some (TermNamedNode SCHEMA_GRAPH)).
    right. eexists. split; [left|]. split_and!; [reflexivity..|]. left. by exists SCHEMA_GRAPH. }
  split; [reflexivity|]. split; [exact He|]. apply (untouched_registry typing_update); [reflexivity|exact He].
Defined.

Lemma registrations_roundtrip_witness (OX := ConcreteRdf.oxrdf) (GD := n_triples_graph) :
  let e := mkSchemaGraph (GnNamedNode "http://ex.org/onto") SchemaRole.Ontology None (Some "1") None ["http://ex.org/base"]
             [GnNamedNode "http://ex.org/data"; GnDefaultGraph] false (Some "2026-09-26T10:00:00Z") in
  let label := [Some (TermNamedNode "http://ex.org/onto"); Some (TermNamedNode "http://www.w3.org/2000/01/rdf-schema#label");
                Some (TermLiteral (new_simple_literal "an ontology"))] in
  exists quads, try_map entry_quads [e] = Ok quads /\
  forall rows, rows ≡ₚ (quad_row <$> concat quads) ++ [label] -> entries_from_rows rows = [e].
Proof.
  intros e label. pose proof n_triples_graph_inj. apply (registrations_roundtrip [e] [label]).
  - constructor; [|constructor]. split.
    + right. by exists "http://ex.org/onto".
    + constructor; [split; [right; by exists "http://ex.org/data"|done]|]. constructor; [|constructor]. split; [by left|done].
    + repeat constructor. vm_compute. done.
    + repeat constructor.
  - repeat constructor. apply not_elem_of_nil.
  - repeat constructor.
  - constructor; [|constructor]. intros s po [= <- <-]. reflexivity.
Defined.
