(* ===== verification/Reason.v ===== *)
(** * Query-time reasoning ([crates/oxilite-core/src/reason.rs])

    The schema closure [tbox_closure] that [optimize()] and schema-changing writes recompute, and
    the derived tables that rewrite a triple pattern into its entailed triples. The SQL is built
    as a small syntax, rendered to the text of the source; [ReasonFacts] gives the syntax its
    meaning. Also here: which quads and updates change the closure. The rules of OWL 2 RL
    materialization are not modelled; the producers of inferences are in [Materialize]. *)

From S2P Require Export Registry Version Materialize.

Module Reasoning.
Inductive t := None_ | Rdfs | OwlQl.
#[global] Instance t_eq_dec : EqDecision t.
Proof. solve_decision. Defined.
End Reasoning.

(** [tbox_closure.kind] values ([mod kind]). *)
Module tbox.
Definition CLASS : Z := 1.
Definition PROPERTY : Z := 2.
Definition OWL_SAME : Z := 3.
Definition OWL_INVERSE : Z := 4.
Definition TRANSITIVE : Z := 5.
Definition SUBJECT_TYPE : Z := 6.
Definition OBJECT_TYPE : Z := 7.
Definition OWL_SUBJECT_TYPE : Z := 8.
Definition OWL_OBJECT_TYPE : Z := 9.
End tbox.

Section vocab.
Context {XX : Xxh3}.

Definition owl (local : string) : Z := named_node_id (OWL +:+ local).

(** The ids of [vocab()] the closure uses. *)
Definition v_ty : Z := named_node_id rdf.TYPE.
Definition v_sco : Z := named_node_id rdfs.SUB_CLASS_OF.
Definition v_spo : Z := named_node_id rdfs.SUB_PROPERTY_OF.
Definition v_dom : Z := named_node_id rdfs.DOMAIN.
Definition v_rng : Z := named_node_id rdfs.RANGE.
Definition v_eqc : Z := owl "equivalentClass".
Definition v_eqp : Z := owl "equivalentProperty".
Definition v_inv : Z := owl "inverseOf".
Definition v_sym : Z := owl "SymmetricProperty".
Definition v_trans : Z := owl "TransitiveProperty".

Definition schema_predicates : list Z := [v_sco; v_spo; v_dom; v_rng; v_eqc; v_eqp].

Definition is_schema_triple (p o : Z) : bool :=
  bool_decide (p ∈ schema_predicates) || (p =? v_inv) || ((p =? v_ty) && ((o =? v_sym) || (o =? v_trans))).
End vocab.

(** ** What changes the closure *)

Definition is_schema_iri (p : string) : bool :=
  String.eqb p rdfs.SUB_CLASS_OF || String.eqb p rdfs.SUB_PROPERTY_OF || String.eqb p rdfs.DOMAIN ||
  String.eqb p rdfs.RANGE ||
  match strip_prefix p OWL with
  | Some l => bool_decide (l ∈ ["equivalentClass"; "equivalentProperty"; "inverseOf"; "imports"])
  | None => false
  end.

Definition is_axiom_class (o : string) : bool :=
  match strip_prefix o OWL with
  | Some l => bool_decide (l ∈ ["SymmetricProperty"; "TransitiveProperty"])
  | None => false
  end.

Section changes.
Context {OX : Oxrdf}.

(** A schema axiom, by predicate and object. *)
Definition is_axiom (p : NamedNode) (o : Term) : bool :=
  is_schema_iri p || (String.eqb p rdf.TYPE && match o with TermNamedNode n => is_axiom_class n | _ => false end).

Definition is_schema_quad (q : Quad) : bool := is_registry_quad q || is_axiom (qd_predicate q) (qd_object q).

Definition axiom_pattern (p : NamedNodePattern) (o : TermPattern) : bool :=
  match p with
  | NnpVariable _ => true
  | NnpNamedNode n =>
      if is_schema_iri n then true
      else if String.eqb n rdf.TYPE then
        match o with TpNamedNode c => is_axiom_class c | TpVariable _ => true | _ => false end
      else false
  end.

Definition op_touches_axioms (op : GraphUpdateOperation) : bool :=
  match op with
  | InsertData data | DeleteData data => existsb (fun q => is_axiom (qd_predicate q) (qd_object q)) data
  | DeleteInsert delete insert =>
      existsb (fun q => axiom_pattern (gqp_predicate q) (pattern_of (gqp_object q))) delete ||
      existsb (fun q => axiom_pattern (qp_predicate q) (qp_object q)) insert
  | Create => false
  | Load | Clear | Drop => true
  end.

Definition touches_axioms (update : Update) : bool := existsb op_touches_axioms update.
Definition update_touches_schema (update : Update) : bool := update_touches_registry update || touches_axioms update.
End changes.

(** ** The closure statements *)

(** A condition on the axioms read (alias [q]). *)
Inductive Axioms := PIs (p : Z) | PIn (p p' : Z) | PO (p o : Z).

(** The rows of a table of edges: of these axioms, forwards or backwards, or of a reflexive pair
    on the subject or on the object. *)
Inductive Ends := Forward | Backward | SubjectTwice | ObjectTwice.

Section closure.
Context {OX : Oxrdf} {XX : Xxh3} {OD : OxsDatatypes}.

Definition axioms_sql (a : Axioms) : string :=
  ontology_axioms match a with
                  | PIs p => "q.p = " +:+ show_Z p
                  | PIn p p' => "q.p IN (" +:+ show_Z p +:+ ", " +:+ show_Z p' +:+ ")"
                  | PO p o => "q.p = " +:+ show_Z p +:+ " AND q.o = " +:+ show_Z o
                  end.

Definition ends_sql (e : Ends) : string * string :=
  match e with Forward => ("s", "o") | Backward => ("o", "s") | SubjectTwice => ("s", "s") | ObjectTwice => ("o", "o") end.

(** An arm of a table of pairs [(k, a, b)]; the first names its columns. *)
Definition first_arm (e : Ends) (a : Axioms) : string :=
  "SELECT scope AS k, " +:+ (ends_sql e).1 +:+ " AS a, " +:+ (ends_sql e).2 +:+ " AS b FROM " +:+ axioms_sql a.
Definition next_arm (e : Ends) (a : Axioms) : string :=
  " UNION SELECT scope, " +:+ (ends_sql e).1 +:+ ", " +:+ (ends_sql e).2 +:+ " FROM " +:+ axioms_sql a.
Definition bit_arm (e : Ends) (a : Axioms) : string :=
  " UNION SELECT scope, " +:+ (ends_sql e).1 +:+ ", " +:+ (ends_sql e).2 +:+ ", 1 FROM " +:+ axioms_sql a.

Definition class_edges : string := first_arm Forward (PIn v_sco v_eqc) +:+ next_arm Backward (PIs v_eqc).
Definition prop_edges : string := first_arm Forward (PIn v_spo v_eqp) +:+ next_arm Backward (PIs v_eqp).

Definition closure (k : Z) (edges : string) : Statement :=
  Statement_new ("WITH RECURSIVE e(k, a, b) AS (" +:+ edges +:+
    "), c(k, a, b) AS (SELECT k, a, b FROM e UNION SELECT c.k, c.a, e.b FROM c JOIN e ON e.k = c.k AND e.a = c.b) " +:+
    "INSERT OR IGNORE INTO tbox_closure(kind, scope, sub, sup) SELECT " +:+ show_Z k +:+ ", k, a, b FROM c WHERE a <> b").

Definition owl_statement : Statement :=
  Statement_new ("WITH RECURSIVE e(k, a, b, d) AS (SELECT k, a, b, 0 FROM (" +:+ prop_edges +:+ ")" +:+
    bit_arm Forward (PIs v_inv) +:+ bit_arm Backward (PIs v_inv) +:+ bit_arm SubjectTwice (PO v_ty v_sym) +:+
    "), c(k, a, b, d) AS (SELECT k, a, b, d FROM e UNION SELECT c.k, c.a, e.b, (c.d + e.d) % 2 FROM c JOIN e ON e.k = c.k AND e.a = c.b) " +:+
    "INSERT OR IGNORE INTO tbox_closure(kind, scope, sub, sup) SELECT " +:+ show_Z tbox.OWL_SAME +:+
    " + d, k, a, b FROM c WHERE d = 1 OR a <> b").

(** The classes above a domain or range, and the properties below one that has some. *)
Definition classes : string :=
  first_arm ObjectTwice (PIn v_dom v_rng) +:+ " UNION SELECT scope, sub, sup FROM tbox_closure WHERE kind = " +:+ show_Z tbox.CLASS.
Definition subs (k : Z) : string :=
  first_arm SubjectTwice (PIn v_dom v_rng) +:+ " UNION SELECT scope, sub, sup FROM tbox_closure WHERE kind = " +:+ show_Z k.

Definition typed_by (k : Z) (props : string) (axiom : Z) : string :=
  "SELECT " +:+ show_Z k +:+ ", pq.k, pq.a, cd.b FROM (" +:+ props +:+ ") pq JOIN " +:+ axioms_sql (PIs axiom) +:+
  " x ON x.s = pq.b AND x.scope = pq.k JOIN (" +:+ classes +:+ ") cd ON cd.a = x.o AND cd.k = pq.k".

Definition inverse_typed (k axiom : Z) : string :=
  "SELECT " +:+ show_Z k +:+ ", pq.scope, pq.sub, cd.b FROM tbox_closure pq JOIN " +:+ axioms_sql (PIs axiom) +:+
  " x ON x.s = pq.sup AND x.scope = pq.scope JOIN (" +:+ classes +:+ ") cd ON cd.a = x.o AND cd.k = pq.scope WHERE pq.kind = " +:+
  show_Z tbox.OWL_INVERSE.

Definition insert_closure (sql : string) : Statement :=
  Statement_new ("INSERT OR IGNORE INTO tbox_closure(kind, scope, sub, sup) " +:+ sql).

Definition closure_statements : list Statement :=
  [Statement_new "DELETE FROM tbox_closure";
   closure tbox.CLASS class_edges;
   closure tbox.PROPERTY prop_edges;
   owl_statement;
   Statement_new ("INSERT OR IGNORE INTO tbox_closure(kind, scope, sub, sup) SELECT " +:+ show_Z tbox.TRANSITIVE +:+
     ", scope, s, s FROM " +:+ axioms_sql (PO v_ty v_trans));
   insert_closure (typed_by tbox.SUBJECT_TYPE (subs tbox.PROPERTY) v_dom);
   insert_closure (typed_by tbox.OBJECT_TYPE (subs tbox.PROPERTY) v_rng);
   insert_closure (typed_by tbox.OWL_SUBJECT_TYPE (subs tbox.OWL_SAME) v_dom +:+ " UNION " +:+
     inverse_typed tbox.OWL_SUBJECT_TYPE v_rng);
   insert_closure (typed_by tbox.OWL_OBJECT_TYPE (subs tbox.OWL_SAME) v_rng +:+ " UNION " +:+
     inverse_typed tbox.OWL_OBJECT_TYPE v_dom)].

Definition transitive_statement (id_col : string -> string) : Statement :=
  Statement_new ("SELECT DISTINCT " +:+ id_col "sub" +:+ " FROM tbox_closure WHERE kind = " +:+ show_Z tbox.TRANSITIVE).

End closure.

(** ** Entailed triples *)

Inductive GraphFilter := Keep | Merge (graphs : option (list Z)).

(** The columns of a quad [x] and of a closure row [c], and what an arm selects. *)
Inductive Column := XS | XP | XO | CSup.
Inductive Selected := Col (c : Column) | Id (z : Z).

Inductive Test :=
  | Always
  | Equals (c : Column) (z : Z)
  | KindIs (k : Z)
  | InScope
  | NonLiteral (c : Column)
  | InGraphs (graphs : list Z).

(** The quads alone, joined to the superclasses of their object, or joined to the closure of
    their predicate. *)
Inductive From := Quads | Superclasses | OfProperty.

Inductive Arm :=
  | Row (s p o : Selected) (from : From) (tests : list Test)
  | SchemaRows (k pid : Z) (s o : option Z).

(** The arms of a pattern: plain, or of a transitive property: the triples of the graphs that
    do not declare it so, and the walk over the triples of the others. *)
Inductive Source :=
  | Plain_ (a : Arm)
  | Undeclared (pid : Z) (arms : list Arm)
  | Walk (pid : Z) (check : bool) (arms : list Arm) (s o : option Z).

Record Entailment := mkEntailment {
  en_reasoning : Reasoning.t;
  en_inferred : bool;
  en_hide_schema : bool;
  en_transitive : list Z;
  en_scopes : list Z;
  en_max_compound : Z;
  en_as_of : option Z;
}.

Section entailment.
Context {OX : Oxrdf} {XX : Xxh3} {OD : OxsDatatypes}.
Implicit Types (self : Entailment) (graphs : GraphFilter).

(** [eq] and [gw]: the tests of a constant, and of the graphs merged. *)
Definition eq_test (c : Column) (v : option Z) : list Test := match v with Some v => [Equals c v] | None => [] end.
Definition graph_test graphs : list Test := match graphs with Merge (Some l) => [InGraphs l] | _ => [] end.

Definition kinds self : Z * option Z * Z * Z :=
  match en_reasoning self with
  | Reasoning.OwlQl => (tbox.OWL_SAME, Some tbox.OWL_INVERSE, tbox.OWL_SUBJECT_TYPE, tbox.OWL_OBJECT_TYPE)
  | _ => (tbox.PROPERTY, None, tbox.SUBJECT_TYPE, tbox.OBJECT_TYPE)
  end.

Definition type_arms self graphs (s o : option Z) (asserted : bool) : list Arm :=
  let '(_, _, subj, obj) := kinds self in
  let gw := graph_test graphs in
  (if asserted then [Row (Col XS) (Id v_ty) (Col XO) Quads ([Equals XP v_ty] ++ eq_test XS s ++ eq_test XO o ++ gw)] else []) ++
  [Row (Col XS) (Id v_ty) (Col CSup) Superclasses ([Equals XP v_ty; InScope] ++ eq_test XS s ++ eq_test CSup o ++ gw);
   Row (Col XS) (Id v_ty) (Col CSup) OfProperty ([KindIs subj; InScope] ++ eq_test XS s ++ eq_test CSup o ++ gw);
   Row (Col XO) (Id v_ty) (Col CSup) OfProperty ([KindIs obj; InScope; NonLiteral XO] ++ eq_test XO s ++ eq_test CSup o ++ gw)].

(** Triples of property [pid] entailed without transitivity. *)
Definition prop_arms self graphs (pid : Z) (s o : option Z) : list Arm :=
  let '(same, inv, _, _) := kinds self in
  let gw := graph_test graphs in
  [Row (Col XS) (Id pid) (Col XO) Quads ([Equals XP pid] ++ eq_test XS s ++ eq_test XO o ++ gw);
   Row (Col XS) (Id pid) (Col XO) OfProperty ([KindIs same; Equals CSup pid; InScope] ++ eq_test XS s ++ eq_test XO o ++ gw)] ++
  match inv with
  | Some inv =>
      [Row (Col XO) (Id pid) (Col XS) OfProperty
         ([KindIs inv; Equals CSup pid; InScope; NonLiteral XO] ++ eq_test XO s ++ eq_test XS o ++ gw)]
  | None => []
  end ++
  (if pid =? v_sco then [SchemaRows tbox.CLASS pid s o]
   else if pid =? v_spo then [SchemaRows tbox.PROPERTY pid s o] else []).

Definition transitive self graphs (pid : Z) (s o : option Z) : list Source :=
  let declared := match en_scopes self with [] => false | _ => true end in
  (if declared then [Undeclared pid (prop_arms self graphs pid s o)] else []) ++
  [Walk pid declared (prop_arms self graphs pid None None) s o].

(** The arms of a pattern under reasoning. *)
Definition source_arms self (s p o : option Z) graphs : list Source :=
  let '(same, inv, _, _) := kinds self in
  let gw := graph_test graphs in
  match p with
  | Some pid =>
      if pid =? v_ty then Plain_ <$> type_arms self graphs s o true
      else if bool_decide (en_reasoning self = Reasoning.OwlQl) && bool_decide (pid ∈ en_transitive self)
      then transitive self graphs pid s o
      else Plain_ <$> prop_arms self graphs pid s o
  | None =>
      (Plain_ <$>
       [Row (Col XS) (Col XP) (Col XO) Quads ([Always] ++ eq_test XS s ++ eq_test XO o ++ gw);
        Row (Col XS) (Col CSup) (Col XO) OfProperty ([KindIs same; InScope] ++ eq_test XS s ++ eq_test XO o ++ gw)] ++
       match inv with
       | Some inv =>
           [Row (Col XO) (Col CSup) (Col XS) OfProperty
              ([KindIs inv; InScope; NonLiteral XO] ++ eq_test XO s ++ eq_test XS o ++ gw)]
       | None => []
       end ++
       [SchemaRows tbox.CLASS v_sco s o; SchemaRows tbox.PROPERTY v_spo s o] ++
       type_arms self graphs s o false) ++
      (if bool_decide (en_reasoning self = Reasoning.OwlQl)
       then en_transitive self ≫= fun pid => transitive self graphs pid s o else [])
  end.

(** *** Text *)

Definition scope_of self (g : string) : string :=
  match en_scopes self with
  | [] => show_Z all_scope
  | l => "(CASE WHEN " +:+ g +:+ " IN (" +:+ join ", " (show_Z <$> l) +:+ ") THEN " +:+ g +:+ " ELSE " +:+ show_Z all_scope +:+ " END)"
  end.

Definition active self : bool := negb (bool_decide (en_reasoning self = Reasoning.None_)) || en_inferred self.

Definition base self : string :=
  let asserted := match en_as_of self, en_hide_schema self with
                  | Some t, true => without_schema_graphs (as_of_sql (show_Z t))
                  | Some t, false => as_of_sql (show_Z t)
                  | None, true => quads_without_schema_graphs
                  | None, false => "quads"
                  end in
  if en_inferred self then "(SELECT s, p, o, g FROM " +:+ asserted +:+ " UNION ALL SELECT s, p, o, g FROM quads_inf)" else asserted.

Definition non_literal (x : string) : string := "((" +:+ x +:+ ") >> " +:+ show_Z PAYLOAD_BITS +:+ ") IN (1, 2, 9)".

Definition column_sql (c : Column) : string := match c with XS => "x.s" | XP => "x.p" | XO => "x.o" | CSup => "c.sup" end.
Definition selected_sql (c : Selected) : string := match c with Col c => column_sql c | Id z => show_Z z end.

Definition test_sql self (t : Test) : string :=
  match t with
  | Always => "1"
  | Equals c z => column_sql c +:+ " = " +:+ show_Z z
  | KindIs k => "c.kind = " +:+ show_Z k
  | InScope => "c.scope = " +:+ scope_of self "x.g"
  | NonLiteral c => non_literal (column_sql c)
  | InGraphs l => "x.g IN (" +:+ join ", " (show_Z <$> l) +:+ ")"
  end.

Definition from_sql self (f : From) : string :=
  match f with
  | Quads => base self +:+ " x"
  | Superclasses => base self +:+ " x JOIN tbox_closure c ON c.kind = " +:+ show_Z tbox.CLASS +:+ " AND c.sub = x.o"
  | OfProperty => "tbox_closure c JOIN " +:+ base self +:+ " x ON x.p = c.sub"
  end.

Definition graph_sql graphs (x : string) : string := match graphs with Keep => x +:+ ".g" | Merge _ => show_Z DEFAULT_GRAPH_ID end.

Definition arm_sql self graphs (a : Arm) : string :=
  match a with
  | Row s p o f tests =>
      "SELECT " +:+ selected_sql s +:+ " AS s, " +:+ selected_sql p +:+ " AS p, " +:+ selected_sql o +:+ " AS o, " +:+
      graph_sql graphs "x" +:+ " AS g FROM " +:+ from_sql self f +:+ " WHERE " +:+ join " AND " (test_sql self <$> tests)
  | SchemaRows k pid s o =>
      let eq col v := match v with Some v => " AND " +:+ col +:+ " = " +:+ show_Z v | None => "" end in
      "SELECT sub AS s, " +:+ show_Z pid +:+ " AS p, sup AS o, " +:+ show_Z DEFAULT_GRAPH_ID +:+
      " AS g FROM tbox_closure WHERE kind = " +:+ show_Z k +:+ eq "sub" s +:+ eq "sup" o
  end.

Definition declared_sql self (pid : Z) (g : string) : string :=
  "EXISTS (SELECT 1 FROM tbox_closure t WHERE t.kind = " +:+ show_Z tbox.TRANSITIVE +:+ " AND t.sub = " +:+ show_Z pid +:+
  " AND t.scope = " +:+ scope_of self g +:+ ")".

(** The recursion from a constant endpoint, or from every triple. *)
Definition walk_sql (pid : Z) (s o : option Z) : string :=
  match s, o with
  | Some s, _ =>
      "r(n, g) AS (SELECT o, g FROM u WHERE s = " +:+ show_Z s +:+
      " UNION SELECT u.o, u.g FROM r JOIN u ON u.s = r.n AND u.g = r.g) SELECT " +:+ show_Z s +:+ " AS s, " +:+ show_Z pid +:+
      " AS p, n AS o, g FROM r" +:+ match o with Some o => " WHERE n = " +:+ show_Z o | None => "" end
  | None, Some o =>
      "r(n, g) AS (SELECT s, g FROM u WHERE o = " +:+ show_Z o +:+
      " UNION SELECT u.s, u.g FROM r JOIN u ON u.o = r.n AND u.g = r.g) SELECT n AS s, " +:+ show_Z pid +:+ " AS p, " +:+
      show_Z o +:+ " AS o, g FROM r"
  | None, None =>
      "r(s, o, g) AS (SELECT s, o, g FROM u UNION SELECT r.s, u.o, r.g FROM r JOIN u ON u.s = r.o AND u.g = r.g) SELECT s, " +:+
      show_Z pid +:+ " AS p, o, g FROM r"
  end.

Definition source_sql self graphs (a : Source) : string :=
  let all arms := union_all (arm_sql self graphs <$> arms) (en_max_compound self) in
  match a with
  | Plain_ a => arm_sql self graphs a
  | Undeclared pid arms =>
      "SELECT z.s, z.p, z.o, z.g FROM (" +:+ all arms +:+ ") z WHERE NOT " +:+ declared_sql self pid "z.g"
  | Walk pid check arms s o =>
      let u := if check then "SELECT z.s, z.p, z.o, z.g FROM (" +:+ all arms +:+ ") z WHERE " +:+ declared_sql self pid "z.g"
               else all arms in
      "SELECT * FROM (WITH RECURSIVE u(s, p, o, g) AS (" +:+ u +:+ "), " +:+ walk_sql pid s o +:+ ")"
  end.

(** A [(s, p, o, g)] derived table of the entailed triples matching the constants. *)
Definition source self (s p o : option Z) graphs : string :=
  if bool_decide (en_reasoning self = Reasoning.None_) then
    "(SELECT " +:+ match graphs with Merge _ => "DISTINCT " | Keep => "" end +:+ "x.s AS s, x.p AS p, x.o AS o, " +:+
    graph_sql graphs "x" +:+ " AS g FROM " +:+ base self +:+ " x WHERE " +:+
    join " AND " (test_sql self <$> ([Always] ++ eq_test XS s ++ eq_test XP p ++ eq_test XO o ++ graph_test graphs)) +:+ ")"
  else
    "(SELECT DISTINCT s, p, o, g FROM (" +:+
    union_all (source_sql self graphs <$> source_arms self s p o graphs) (en_max_compound self) +:+ "))".
End entailment.
