(* ===== verification/ReasonFacts.v ===== *)
(** * Query-time reasoning answers every pattern with its entailed triples

    The meaning of the arms a pattern is rewritten to, over any table of stored quads and any
    schema closure; pushing the constants of a pattern into the arms, the recursive walks
    included, changes no answer ([source_answers]). The closure the statements compute from the
    axioms, and the rules of RDFS: what the rewriting answers under the RDFS regime is exactly
    what the rules derive ([rdfs_complete]). *)

From S2P Require Export Reason.

Definition Row4 : Type := Z * Z * Z * Z.

(** The constants of a pattern. *)
Definition fits (v : option Z) (z : Z) : Prop := match v with Some v => z = v | None => True end.
Definition matches (s p o : option Z) (r : Row4) : Prop :=
  let '(rs, rp, ro, _) := r in fits s rs /\ fits p rp /\ fits o ro.

(** An IRI, a blank node or a triple term: a valid subject. *)
Definition subject_id (z : Z) : Prop := Z.shiftr z PAYLOAD_BITS ∈ [1; 2; 9].

Section meaning.
Context {OX : Oxrdf} {XX : Xxh3} {OD : OxsDatatypes}.
(** The rows of the table of quads read, and of [tbox_closure] (kind, scope, sub, sup). *)
Context (quads : Row4 -> Prop) (closed : gset Row4).
#[local] Abbreviation tbox_closure r := (r ∈ closed).
Context (self : Entailment) (graphs : GraphFilter).
Implicit Types (x c r : Row4).

(** ** The meaning of the arms *)

Definition scope_id (g : Z) : Z := if bool_decide (g ∈ en_scopes self) then g else all_scope.

Definition column_of x c (k : Column) : Z :=
  let '(s, p, o, _) := x in let '(_, _, _, sup) := c in match k with XS => s | XP => p | XO => o | CSup => sup end.
Definition selected_of x c (k : Selected) : Z := match k with Col k => column_of x c k | Id z => z end.

Definition holds x c (t : Test) : Prop :=
  match t with
  | Always => True
  | Equals k z => column_of x c k = z
  | KindIs k => c.1.1.1 = k
  | InScope => c.1.1.2 = scope_id x.2
  | NonLiteral k => subject_id (column_of x c k)
  | InGraphs l => x.2 ∈ l
  end.

Definition joined x c (f : From) : Prop :=
  match f with
  | Quads => quads x
  | Superclasses => quads x /\ tbox_closure c /\ c.1.1.1 = tbox.CLASS /\ c.1.2 = x.1.2
  | OfProperty => quads x /\ tbox_closure c /\ x.1.1.2 = c.1.2
  end.

(** The graph column of an arm. *)
Definition graph_out (g : Z) : Z := match graphs with Keep => g | Merge _ => DEFAULT_GRAPH_ID end.

Definition arm_rows (a : Arm) r : Prop :=
  match a with
  | Row s p o f tests =>
      exists x c, joined x c f /\ Forall (holds x c) tests /\
                  r = (selected_of x c s, selected_of x c p, selected_of x c o, graph_out x.2)
  | SchemaRows k pid s o =>
      exists scope a b, tbox_closure (k, scope, a, b) /\ fits s a /\ fits o b /\ r = (a, pid, b, DEFAULT_GRAPH_ID)
  end.

Definition declared (pid g : Z) : Prop := exists sup, tbox_closure (tbox.TRANSITIVE, scope_id g, pid, sup).

(** The recursive table [r] of a walk over [u]. *)
Inductive from_start (u : Row4 -> Prop) (s : Z) : Z -> Z -> Prop :=
  | from_base p o g : u (s, p, o, g) -> from_start u s o g
  | from_step n p o g : from_start u s n g -> u (n, p, o, g) -> from_start u s o g.
Inductive to_end (u : Row4 -> Prop) (o : Z) : Z -> Z -> Prop :=
  | to_base s p g : u (s, p, o, g) -> to_end u o s g
  | to_step n p s g : to_end u o n g -> u (s, p, n, g) -> to_end u o s g.
Inductive all_pairs (u : Row4 -> Prop) : Z -> Z -> Z -> Prop :=
  | all_base s p o g : u (s, p, o, g) -> all_pairs u s o g
  | all_step s n p o g : all_pairs u s n g -> u (n, p, o, g) -> all_pairs u s o g.

Definition walked (u : Row4 -> Prop) (pid : Z) (s o : option Z) r : Prop :=
  match s, o with
  | Some s, _ => exists n g, from_start u s n g /\ fits o n /\ r = (s, pid, n, g)
  | None, Some o => exists n g, to_end u o n g /\ r = (n, pid, o, g)
  | None, None => exists a b g, all_pairs u a b g /\ r = (a, pid, b, g)
  end.

Definition arms_rows (arms : list Arm) r : Prop := exists a, a ∈ arms /\ arm_rows a r.

Definition source_rows (a : Source) r : Prop :=
  match a with
  | Plain_ a => arm_rows a r
  | Undeclared pid arms => arms_rows arms r /\ ~ declared pid r.2
  | Walk pid check arms s o =>
      walked (fun r => arms_rows arms r /\ (check = true -> declared pid r.2)) pid s o r
  end.

(** The rows of the derived table of a pattern. *)
Definition answers (s p o : option Z) r : Prop := exists a, a ∈ source_arms self s p o graphs /\ source_rows a r.

(** ** What is entailed *)

Definition owl_ql : Prop := en_reasoning self = Reasoning.OwlQl.
Definition same_kind : Z := (kinds self).1.1.1.
Definition subject_kind : Z := (kinds self).1.2.
Definition object_kind : Z := (kinds self).2.

(** A quad of the graphs the pattern reads. *)
Definition reads (s p o g : Z) : Prop :=
  quads (s, p, o, g) /\ match graphs with Merge (Some l) => g ∈ l | _ => True end.

(** Triples of a property, without transitivity. *)
Inductive stated : Row4 -> Prop :=
  | st_asserted s p o g : reads s p o g -> stated (s, p, o, graph_out g)
  | st_property s q p o g : reads s q o g -> tbox_closure (same_kind, scope_id g, q, p) -> stated (s, p, o, graph_out g)
  | st_inverse s q p o g : owl_ql -> reads s q o g -> tbox_closure (tbox.OWL_INVERSE, scope_id g, q, p) -> subject_id o ->
      stated (o, p, s, graph_out g)
  | st_classes scope a b : tbox_closure (tbox.CLASS, scope, a, b) -> stated (a, v_sco, b, DEFAULT_GRAPH_ID)
  | st_properties scope a b : tbox_closure (tbox.PROPERTY, scope, a, b) -> stated (a, v_spo, b, DEFAULT_GRAPH_ID).

(** One step along the property [p] in graph [g], where it is transitive. *)
Definition steps (p g a b : Z) : Prop := stated (a, p, b, g) /\ (en_scopes self <> [] -> declared p g).

Inductive entailed : Row4 -> Prop :=
  | en_stated r : stated r -> entailed r
  | en_superclass s a b g : reads s v_ty a g -> tbox_closure (tbox.CLASS, scope_id g, a, b) -> entailed (s, v_ty, b, graph_out g)
  | en_subject s p o b g : reads s p o g -> tbox_closure (subject_kind, scope_id g, p, b) -> entailed (s, v_ty, b, graph_out g)
  | en_object s p o b g : reads s p o g -> tbox_closure (object_kind, scope_id g, p, b) -> subject_id o ->
      entailed (o, v_ty, b, graph_out g)
  | en_walk s p o g : owl_ql -> p ∈ en_transitive self -> tc (steps p g) s o -> entailed (s, p, o, g).

(** ** Walks *)

Section walks.
Context (u : Row4 -> Prop) (pid : Z).
Hypothesis u_pid : forall s p o g, u (s, p, o, g) -> p = pid.
Definition hop (g a b : Z) : Prop := u (a, pid, b, g).

Lemma from_start_tc s n g : from_start u s n g <-> tc (hop g) s n.
Proof using u_pid.
  split.
  - induction 1 as [p o g Hu|n p o g _ IH Hu]; pose proof (u_pid _ _ _ _ Hu) as ->; [by apply tc_once|by eapply tc_r].
  - intros H. assert (forall m, from_start u s m g -> tc (hop g) m n -> from_start u s n g) as Hext.
    { clear H. intros m Hm. induction 1 as [a b Hab|a b c Hab _ IH]; [by eapply from_step|]. apply IH. by eapply from_step. }
    inversion H as [a b Hab|a b c Hab Hbc]; subst; [by eapply from_base|]. eapply Hext; [by eapply from_base|done].
Qed.

Lemma to_end_tc o n g : to_end u o n g <-> tc (hop g) n o.
Proof using u_pid.
  split.
  - induction 1 as [s p g Hu|n p s g _ IH Hu]; pose proof (u_pid _ _ _ _ Hu) as ->; [by apply tc_once|by eapply tc_l].
  - induction 1 as [a b Hab|a b c Hab _ IH]; [by eapply to_base|by eapply to_step].
Qed.

Lemma all_pairs_tc s o g : all_pairs u s o g <-> tc (hop g) s o.
Proof using u_pid.
  split.
  - induction 1 as [s p o g Hu|s n p o g _ IH Hu]; pose proof (u_pid _ _ _ _ Hu) as ->; [by apply tc_once|by eapply tc_r].
  - intros H%from_start_tc. induction H as [p o g Hu|n p o g _ IH Hu]; [by eapply all_base|by eapply all_step].
Qed.

(** Whatever endpoints are given, a walk finds the paths between them. *)
Lemma walked_tc s o r : walked u pid s o r <-> exists a b g, r = (a, pid, b, g) /\ tc (hop g) a b /\ fits s a /\ fits o b.
Proof using u_pid.
  unfold walked. destruct s as [s|]; [|destruct o as [o|]].
  - setoid_rewrite from_start_tc. split.
    + intros (n & g & Ht & Ho & ->). by exists s, n, g.
    + intros (a & b & g & -> & Ht & Ha & Ho). cbn in Ha. subst a. by exists b, g.
  - setoid_rewrite to_end_tc. split.
    + intros (n & g & Ht & ->). by exists n, o, g.
    + intros (a & b & g & -> & Ht & _ & Hb). cbn in Hb. subst b. by exists a, g.
  - setoid_rewrite all_pairs_tc. split.
    + intros (a & b & g & Ht & ->). by exists a, b, g.
    + intros (a & b & g & -> & Ht & _ & _). by exists a, b, g.
Qed.
End walks.

(** ** The rows of the arms *)

Lemma eq_test_holds x c k v : Forall (holds x c) (eq_test k v) <-> fits v (column_of x c k).
Proof. destruct v; cbn; [rewrite Forall_singleton|]; done. Qed.

Lemma graph_test_holds x c : Forall (holds x c) (graph_test graphs) <-> match graphs with Merge (Some l) => x.2 ∈ l | _ => True end.
Proof. destruct graphs as [|[l|]]; cbn; [done|by rewrite Forall_singleton|done]. Qed.

Ltac arm_rows_solve :=
  unfold arm_rows; repeat setoid_rewrite Forall_app; repeat setoid_rewrite Forall_cons; repeat setoid_rewrite Forall_nil;
  repeat setoid_rewrite eq_test_holds; setoid_rewrite graph_test_holds;
  unfold joined, holds, reads, matches; match goal with r : Row4 |- _ => destruct r as [[[? ?] ?] ?] end; split;
  [intros ([[[s' p'] o'] g'] & [[[k' sc'] a'] b'] & H); cbn in H; decompose [and] H; simplify_eq; eauto 15
  |intros H; decompose [and ex] H; simplify_eq;
   first [eexists (_, _, _, _), (0, 0, 0, 0); cbn; split_and!; eauto; fail
         |eexists (_, _, _, _), (_, _, _, _); cbn; split_and!; eauto; fail]].

Lemma asserted_arm pid s o r :
  arm_rows (Row (Col XS) (Id pid) (Col XO) Quads ([Equals XP pid] ++ eq_test XS s ++ eq_test XO o ++ graph_test graphs)) r <->
  exists a b g, reads a pid b g /\ r = (a, pid, b, graph_out g) /\ matches s None o r.
Proof. arm_rows_solve. Qed.

Lemma any_arm s o r :
  arm_rows (Row (Col XS) (Col XP) (Col XO) Quads ([Always] ++ eq_test XS s ++ eq_test XO o ++ graph_test graphs)) r <->
  exists a p b g, reads a p b g /\ r = (a, p, b, graph_out g) /\ matches s None o r.
Proof. arm_rows_solve. Qed.

Lemma property_arm k pid s o r :
  arm_rows (Row (Col XS) (Id pid) (Col XO) OfProperty ([KindIs k; Equals CSup pid; InScope] ++ eq_test XS s ++ eq_test XO o ++ graph_test graphs)) r <->
  exists a q b g, reads a q b g /\ tbox_closure (k, scope_id g, q, pid) /\ r = (a, pid, b, graph_out g) /\ matches s None o r.
Proof. arm_rows_solve. Qed.

Lemma properties_arm k s o r :
  arm_rows (Row (Col XS) (Col CSup) (Col XO) OfProperty ([KindIs k; InScope] ++ eq_test XS s ++ eq_test XO o ++ graph_test graphs)) r <->
  exists a q p b g, reads a q b g /\ tbox_closure (k, scope_id g, q, p) /\ r = (a, p, b, graph_out g) /\ matches s None o r.
Proof. arm_rows_solve. Qed.

Lemma inverse_arm k pid s o r :
  arm_rows (Row (Col XO) (Id pid) (Col XS) OfProperty ([KindIs k; Equals CSup pid; InScope; NonLiteral XO] ++ eq_test XO s ++ eq_test XS o ++ graph_test graphs)) r <->
  exists a q b g, reads a q b g /\ tbox_closure (k, scope_id g, q, pid) /\ subject_id b /\ r = (b, pid, a, graph_out g) /\ matches s None o r.
Proof. arm_rows_solve. Qed.

Lemma inverses_arm k s o r :
  arm_rows (Row (Col XO) (Col CSup) (Col XS) OfProperty ([KindIs k; InScope; NonLiteral XO] ++ eq_test XO s ++ eq_test XS o ++ graph_test graphs)) r <->
  exists a q p b g, reads a q b g /\ tbox_closure (k, scope_id g, q, p) /\ subject_id b /\ r = (b, p, a, graph_out g) /\ matches s None o r.
Proof. arm_rows_solve. Qed.

Lemma superclass_arm s o r :
  arm_rows (Row (Col XS) (Id v_ty) (Col CSup) Superclasses ([Equals XP v_ty; InScope] ++ eq_test XS s ++ eq_test CSup o ++ graph_test graphs)) r <->
  exists a b d g, reads a v_ty b g /\ tbox_closure (tbox.CLASS, scope_id g, b, d) /\ r = (a, v_ty, d, graph_out g) /\ matches s None o r.
Proof. arm_rows_solve. Qed.

Lemma subject_arm k s o r :
  arm_rows (Row (Col XS) (Id v_ty) (Col CSup) OfProperty ([KindIs k; InScope] ++ eq_test XS s ++ eq_test CSup o ++ graph_test graphs)) r <->
  exists a p b d g, reads a p b g /\ tbox_closure (k, scope_id g, p, d) /\ r = (a, v_ty, d, graph_out g) /\ matches s None o r.
Proof. arm_rows_solve. Qed.

Lemma object_arm k s o r :
  arm_rows (Row (Col XO) (Id v_ty) (Col CSup) OfProperty ([KindIs k; InScope; NonLiteral XO] ++ eq_test XO s ++ eq_test CSup o ++ graph_test graphs)) r <->
  exists a p b d g, reads a p b g /\ tbox_closure (k, scope_id g, p, d) /\ subject_id b /\ r = (b, v_ty, d, graph_out g) /\ matches s None o r.
Proof. arm_rows_solve. Qed.

Lemma arms_rows_nil r : arms_rows [] r <-> False.
Proof. split; [|done]. by intros (a & ?%elem_of_nil & _). Qed.
Lemma arms_rows_cons a arms r : arms_rows (a :: arms) r <-> arm_rows a r \/ arms_rows arms r.
Proof. unfold arms_rows. setoid_rewrite elem_of_cons. naive_solver. Qed.
Lemma arms_rows_app arms arms' r : arms_rows (arms ++ arms') r <-> arms_rows arms r \/ arms_rows arms' r.
Proof. unfold arms_rows. setoid_rewrite elem_of_app. naive_solver. Qed.

Lemma matches_pid s o p r : matches s (Some p) o r <-> matches s None o r /\ r.1.1.2 = p.
Proof. destruct r as [[[a b] c] g]. cbn. tauto. Qed.

(** No two of these IRIs share an id. *)
Definition distinct_vocabulary : Prop := v_ty <> v_sco /\ v_ty <> v_spo /\ v_sco <> v_spo.

Lemma kinds_eq : kinds self = (same_kind, if bool_decide owl_ql then Some tbox.OWL_INVERSE else None, subject_kind, object_kind).
Proof. unfold same_kind, subject_kind, object_kind, owl_ql, kinds. by destruct (en_reasoning self). Qed.

Lemma schema_rows k pid s o r : arm_rows (SchemaRows k pid s o) r <->
  exists scope a b, tbox_closure (k, scope, a, b) /\ r = (a, pid, b, DEFAULT_GRAPH_ID) /\ matches s None o r.
Proof. destruct r as [[[x y] z] g]. cbn. split; intros (scope & a & b & H); exists scope, a, b; destruct_and!; simplify_eq; by split_and!. Qed.

Lemma stated_arms s o r : stated r /\ matches s None o r <->
  (exists a p b g, reads a p b g /\ r = (a, p, b, graph_out g) /\ matches s None o r) \/
  (exists a q p b g, reads a q b g /\ tbox_closure (same_kind, scope_id g, q, p) /\ r = (a, p, b, graph_out g) /\ matches s None o r) \/
  (owl_ql /\ exists a q p b g, reads a q b g /\ tbox_closure (tbox.OWL_INVERSE, scope_id g, q, p) /\ subject_id b /\
     r = (b, p, a, graph_out g) /\ matches s None o r) \/
  (exists scope a b, tbox_closure (tbox.CLASS, scope, a, b) /\ r = (a, v_sco, b, DEFAULT_GRAPH_ID) /\ matches s None o r) \/
  (exists scope a b, tbox_closure (tbox.PROPERTY, scope, a, b) /\ r = (a, v_spo, b, DEFAULT_GRAPH_ID) /\ matches s None o r).
Proof.
  split.
  - intros [H Hm]. destruct H; [left|right; left|do 2 right; left; split; [done|]|do 3 right; left|do 4 right]; eauto 12.
  - intros [H|[H|[[? H]|[H|H]]]]; decompose [ex and] H; subst; (split; [|done]); by econstructor.
Qed.

Lemma prop_arms_rows pid s o r : distinct_vocabulary ->
  arms_rows (prop_arms self graphs pid s o) r <-> stated r /\ matches s (Some pid) o r.
Proof.
  intros (_ & _ & Hd). transitivity ((stated r /\ matches s None o r) /\ r.1.1.2 = pid); [|rewrite matches_pid; tauto]. rewrite stated_arms.
  unfold prop_arms. rewrite kinds_eq. rewrite arms_rows_app, !arms_rows_cons, arms_rows_nil, asserted_arm, property_arm, arms_rows_app.
  assert (arms_rows (if bool_decide owl_ql then [Row (Col XO) (Id pid) (Col XS) OfProperty
            ([KindIs tbox.OWL_INVERSE; Equals CSup pid; InScope; NonLiteral XO] ++ eq_test XO s ++ eq_test XS o ++ graph_test graphs)] else []) r <->
          owl_ql /\ exists a q b g, reads a q b g /\ tbox_closure (tbox.OWL_INVERSE, scope_id g, q, pid) /\ subject_id b /\
            r = (b, pid, a, graph_out g) /\ matches s None o r) as Hinv.
  { case_bool_decide; [rewrite arms_rows_cons, arms_rows_nil, inverse_arm|rewrite arms_rows_nil]; tauto. }
  assert (arms_rows (if pid =? v_sco then [SchemaRows tbox.CLASS pid s o] else if pid =? v_spo then [SchemaRows tbox.PROPERTY pid s o] else []) r <->
          (pid = v_sco /\ exists scope a b, tbox_closure (tbox.CLASS, scope, a, b) /\ r = (a, pid, b, DEFAULT_GRAPH_ID) /\ matches s None o r) \/
          (pid = v_spo /\ exists scope a b, tbox_closure (tbox.PROPERTY, scope, a, b) /\ r = (a, pid, b, DEFAULT_GRAPH_ID) /\ matches s None o r)) as Hschema.
  { destruct (Z.eqb_spec pid v_sco); [|destruct (Z.eqb_spec pid v_spo)];
      rewrite ?arms_rows_cons, arms_rows_nil, ?schema_rows; intuition congruence. }
  assert (arms_rows match (if bool_decide owl_ql then Some tbox.OWL_INVERSE else None) with
                    | Some inv => [Row (Col XO) (Id pid) (Col XS) OfProperty ([KindIs inv; Equals CSup pid; InScope; NonLiteral XO] ++
                                     eq_test XO s ++ eq_test XS o ++ graph_test graphs)]
                    | None => [] end r <-> arms_rows (if bool_decide owl_ql then [Row (Col XO) (Id pid) (Col XS) OfProperty
            ([KindIs tbox.OWL_INVERSE; Equals CSup pid; InScope; NonLiteral XO] ++ eq_test XO s ++ eq_test XS o ++ graph_test graphs)] else []) r) as ->
    by by destruct (bool_decide owl_ql).
  rewrite Hinv, Hschema. clear Hinv Hschema. destruct r as [[[a b] c] g]. cbn [fst snd]. naive_solver.
Qed.

(** Types through the schema. *)
Definition typed_row r : Prop :=
  (exists s a b g, reads s v_ty a g /\ tbox_closure (tbox.CLASS, scope_id g, a, b) /\ r = (s, v_ty, b, graph_out g)) \/
  (exists s p o b g, reads s p o g /\ tbox_closure (subject_kind, scope_id g, p, b) /\ r = (s, v_ty, b, graph_out g)) \/
  (exists s p o b g, reads s p o g /\ tbox_closure (object_kind, scope_id g, p, b) /\ subject_id o /\ r = (o, v_ty, b, graph_out g)).

Lemma type_arms_rows s o asserted r : arms_rows (type_arms self graphs s o asserted) r <->
  matches s None o r /\
  (typed_row r \/ (asserted = true /\ exists a b g, reads a v_ty b g /\ r = (a, v_ty, b, graph_out g))).
Proof.
  unfold type_arms. rewrite kinds_eq, arms_rows_app.
  assert (arms_rows (if asserted then [Row (Col XS) (Id v_ty) (Col XO) Quads ([Equals XP v_ty] ++ eq_test XS s ++ eq_test XO o ++ graph_test graphs)] else []) r <->
    asserted = true /\ exists a b g, reads a v_ty b g /\ r = (a, v_ty, b, graph_out g) /\ matches s None o r) as ->.
  { destruct asserted; [rewrite arms_rows_cons, arms_rows_nil, asserted_arm; tauto|]. rewrite arms_rows_nil. split; [done|by intros [? _]]. }
  rewrite !arms_rows_cons, arms_rows_nil, superclass_arm, subject_arm, object_arm. unfold typed_row. split.
  - intros [(Ha & a & b & g & H1 & H2 & Hm)|[(a & b & d & g & H1 & H2 & H3 & Hm)|[(a & q & b & d & g & H1 & H2 & H3 & Hm)|
      [(a & q & b & d & g & H1 & H2 & H3 & H4 & Hm)|[]]]]]; (split; [exact Hm|]).
    + right. split; [done|]. by exists a, b, g.
    + left. left. by exists a, b, d, g.
    + left. right. left. by exists a, q, b, d, g.
    + left. right. right. by exists a, q, b, d, g.
  - intros [Hm [[(a & b & d & g & H1 & H2 & H3)|[(a & q & b & d & g & H1 & H2 & H3)|(a & q & b & d & g & H1 & H2 & H3 & H4)]]|
      (Ha & a & b & g & H1 & H2)]].
    + right. left. by exists a, b, d, g.
    + do 2 right. left. by exists a, q, b, d, g.
    + do 3 right. left. by exists a, q, b, d, g.
    + left. split; [done|]. by exists a, b, g.
Qed.

Lemma tc_last {A} (R : relation A) a b : tc R a b -> exists d, R d b.
Proof. induction 1; eauto. Qed.

Lemma tc_iff {A} (R S : relation A) (a0 b0 : A) : (forall a b, R a b <-> S a b) -> tc R a0 b0 <-> tc S a0 b0.
Proof.
  intros H. split; induction 1 as [a b Hab|a b c Hab _ IH]; [apply tc_once|eapply tc_l|apply tc_once|eapply tc_l]; try done; by apply H.
Qed.

Lemma transitive_rows pid s o r : distinct_vocabulary ->
  (exists a, a ∈ transitive self graphs pid s o /\ source_rows a r) <->
  matches s (Some pid) o r /\
  ((en_scopes self <> [] /\ stated r /\ ~ declared pid r.2) \/ tc (steps pid r.2) r.1.1.1 r.1.2).
Proof.
  intros Hd. unfold transitive. set (check := match en_scopes self with [] => false | _ => true end).
  assert (check = true <-> en_scopes self <> []) as Hcheck by (unfold check; destruct (en_scopes self); by split).
  assert (source_rows (Walk pid check (prop_arms self graphs pid None None) s o) r <->
    matches s (Some pid) o r /\ tc (steps pid r.2) r.1.1.1 r.1.2) as Hw.
  { cbn [source_rows]. rewrite walked_tc.
    2:{ intros a p b g [H _]. apply prop_arms_rows in H as [_ H]; [|done]. cbn in H. tauto. }
    assert (forall g a b, hop (fun r => arms_rows (prop_arms self graphs pid None None) r /\ (check = true -> declared pid r.2)) pid g a b <-> steps pid g a b) as Hhop.
    { intros g a b. unfold hop, steps. rewrite prop_arms_rows, Hcheck by done. cbn. tauto. }
    setoid_rewrite (fun g => tc_iff _ _ _ _ (Hhop g)). destruct r as [[[a b] c] g]. cbn. naive_solver. }
  transitivity ((check = true /\ source_rows (Undeclared pid (prop_arms self graphs pid s o)) r) \/
                source_rows (Walk pid check (prop_arms self graphs pid None None) s o) r).
  { split.
    - intros (a & [Ha|Ha%list_elem_of_singleton]%elem_of_app & Hs); [|subst a; by right].
      destruct check; [apply list_elem_of_singleton in Ha; subst a; by left|by apply elem_of_nil in Ha].
    - intros [[Hc Hs]|Hs]; eexists; (split; [|exact Hs]); rewrite elem_of_app; [left; rewrite Hc; left|right; left]. }
  rewrite Hw, Hcheck. cbn [source_rows]. rewrite prop_arms_rows by done. tauto.
Qed.

Lemma entailed_iff r : entailed r <-> stated r \/ typed_row r \/
  (owl_ql /\ r.1.1.2 ∈ en_transitive self /\ tc (steps r.1.1.2 r.2) r.1.1.1 r.1.2).
Proof.
  unfold typed_row. split.
  - intros [r' H|s a b g H1 H2|s p o b g H1 H2|s p o b g H1 H2 H3|s p o g H1 H2 H3]; [by left|right; left..|right; right; by split_and!].
    + left. by exists s, a, b, g.
    + right. left. by exists s, p, o, b, g.
    + right. right. by exists s, p, o, b, g.
  - intros [H|[[H|[H|H]]|H]].
    + by apply en_stated.
    + decompose [and ex] H. subst. by eapply en_superclass.
    + decompose [and ex] H. subst. by eapply en_subject.
    + decompose [and ex] H. subst. by eapply en_object.
    + destruct r as [[[a b] c] g], H as (H1 & H2 & H3). by apply en_walk.
Qed.

Lemma declared_dec pid g : declared pid g \/ ~ declared pid g.
Proof.
  unfold declared. destruct (decide (set_Exists (fun r : Row4 => r.1 = (tbox.TRANSITIVE, scope_id g, pid)) closed)) as [H|H].
  - left. destruct H as ([r sup] & Hin & Hr). cbn in Hr. subst r. by exists sup.
  - right. intros [sup Hs]. apply H. by exists (tbox.TRANSITIVE, scope_id g, pid, sup).
Qed.

(** ** The arms of a pattern *)

Lemma plain_rows arms r : (exists a, a ∈ Plain_ <$> arms /\ source_rows a r) <-> arms_rows arms r.
Proof.
  split.
  - intros (a & (b & -> & Hb)%list_elem_of_fmap & Ha). by exists b.
  - intros (a & Ha & Hr). exists (Plain_ a). split; [by apply list_elem_of_fmap_2|done].
Qed.

(** [rdf:type] is no property the axioms speak of. *)
Definition type_plain : Prop :=
  (owl_ql -> v_ty ∉ en_transitive self) /\
  (forall scope q, ~ tbox_closure (same_kind, scope, q, v_ty)) /\
  (owl_ql -> forall scope q, ~ tbox_closure (tbox.OWL_INVERSE, scope, q, v_ty)).

Lemma stated_type r : distinct_vocabulary -> type_plain -> stated r -> r.1.1.2 = v_ty ->
  exists a b g, reads a v_ty b g /\ r = (a, v_ty, b, graph_out g).
Proof.
  intros (H1 & H2 & _) (_ & Hs & Hi) H. destruct H as [s p o g H|s q p o g H Ht|s q p o g Hql H Ht Hb|scope a b Ht|scope a b Ht]; cbn; intros Hty; subst.
  - by exists s, o, g.
  - by apply Hs in Ht.
  - by apply Hi in Ht.
  - congruence.
  - congruence.
Qed.

Lemma typed_row_type r : typed_row r -> r.1.1.2 = v_ty.
Proof. intros [H|[H|H]]; decompose [and ex] H; by subst. Qed.

Lemma answers_type s o r : distinct_vocabulary -> type_plain ->
  arms_rows (type_arms self graphs s o true) r <-> entailed r /\ matches s (Some v_ty) o r.
Proof.
  intros Hd Ht. rewrite type_arms_rows, entailed_iff, matches_pid. split.
  - intros [Hm [H|(_ & a & b & g & H & ->)]].
    + split; [by right; left|]. split; [done|]. by apply typed_row_type.
    + split; [left; by constructor|done].
  - intros [[H|[H|(Hq & H & _)]] [Hm Hty]]; (split; [done|]).
    + right. split; [done|]. by apply stated_type.
    + by left.
    + destruct Ht as [Ht _]. rewrite Hty in H. by destruct (Ht Hq).
Qed.

Lemma answers_property pid s o r : distinct_vocabulary -> pid <> v_ty -> ~ (owl_ql /\ pid ∈ en_transitive self) ->
  arms_rows (prop_arms self graphs pid s o) r <-> entailed r /\ matches s (Some pid) o r.
Proof.
  intros Hd Hty Hp. rewrite prop_arms_rows, entailed_iff, matches_pid by done. split; [tauto|].
  intros [[H|[H%typed_row_type|(Hq & Hin & _)]] [Hm Heq]]; [done|congruence|]. subst pid. tauto.
Qed.

Lemma steps_of_stated pid r : stated r -> r.1.1.2 = pid -> (en_scopes self <> [] -> declared pid r.2) ->
  tc (steps pid r.2) r.1.1.1 r.1.2.
Proof. intros H Hp Hd. apply tc_once. destruct r as [[[a b] c] g]. cbn in *. subst b. by split. Qed.

Lemma answers_transitive pid s o r : distinct_vocabulary -> pid <> v_ty -> owl_ql -> pid ∈ en_transitive self ->
  (exists a, a ∈ transitive self graphs pid s o /\ source_rows a r) <-> entailed r /\ matches s (Some pid) o r.
Proof.
  intros Hd Hty Hq Hin. rewrite transitive_rows, entailed_iff, matches_pid by done. split.
  - intros [[Hm Hp] [(_ & H & _)|H]]; (split; [|done]); [by left|]. right; right. by rewrite Hp.
  - intros [[H|[H%typed_row_type|(_ & _ & H)]] [Hm Hp]]; (split; [done|]); [|congruence|right; by rewrite <- Hp].
    destruct (declared_dec pid r.2) as [Hdec|Hdec]; [right; by apply steps_of_stated|].
    destruct (en_scopes self) eqn:Hs; [|by left]. right. apply steps_of_stated; [done..|]. by rewrite Hs.
Qed.

Definition any_arms (s o : option Z) : list Arm :=
  let gw := graph_test graphs in
  [Row (Col XS) (Col XP) (Col XO) Quads ([Always] ++ eq_test XS s ++ eq_test XO o ++ gw);
   Row (Col XS) (Col CSup) (Col XO) OfProperty ([KindIs same_kind; InScope] ++ eq_test XS s ++ eq_test XO o ++ gw)] ++
  (if bool_decide owl_ql
   then [Row (Col XO) (Col CSup) (Col XS) OfProperty
           ([KindIs tbox.OWL_INVERSE; InScope; NonLiteral XO] ++ eq_test XO s ++ eq_test XS o ++ gw)] else []) ++
  [SchemaRows tbox.CLASS v_sco s o; SchemaRows tbox.PROPERTY v_spo s o] ++
  type_arms self graphs s o false.

Lemma any_arms_rows s o r : arms_rows (any_arms s o) r <-> matches s None o r /\ (stated r \/ typed_row r).
Proof.
  unfold any_arms. rewrite !arms_rows_app, !arms_rows_cons, !arms_rows_nil, any_arm, properties_arm, !schema_rows, type_arms_rows.
  assert (arms_rows (if bool_decide owl_ql then [Row (Col XO) (Col CSup) (Col XS) OfProperty
            ([KindIs tbox.OWL_INVERSE; InScope; NonLiteral XO] ++ eq_test XO s ++ eq_test XS o ++ graph_test graphs)] else []) r <->
          owl_ql /\ exists a q p b g, reads a q b g /\ tbox_closure (tbox.OWL_INVERSE, scope_id g, q, p) /\ subject_id b /\
            r = (b, p, a, graph_out g) /\ matches s None o r) as ->.
  { case_bool_decide; [rewrite arms_rows_cons, arms_rows_nil, inverses_arm|rewrite arms_rows_nil]; tauto. }
  transitivity ((stated r /\ matches s None o r) \/ (matches s None o r /\ typed_row r)); [|tauto].
  rewrite stated_arms. intuition discriminate.
Qed.

Lemma source_arms_any s o : source_arms self s None o graphs =
  (Plain_ <$> any_arms s o) ++
  (if bool_decide owl_ql then en_transitive self ≫= fun pid => transitive self graphs pid s o else []).
Proof. unfold source_arms, any_arms. rewrite kinds_eq. by destruct (decide owl_ql) as [H|H]; rewrite ?(bool_decide_eq_true_2 _ H), ?(bool_decide_eq_false_2 _ H). Qed.

Lemma any_transitive_rows s o r : distinct_vocabulary ->
  (exists a, a ∈ (if bool_decide owl_ql then en_transitive self ≫= fun pid => transitive self graphs pid s o else []) /\ source_rows a r) <->
  matches s None o r /\ owl_ql /\ r.1.1.2 ∈ en_transitive self /\
  ((en_scopes self <> [] /\ stated r /\ ~ declared r.1.1.2 r.2) \/ tc (steps r.1.1.2 r.2) r.1.1.1 r.1.2).
Proof.
  intros Hd. case_bool_decide as Hq; [|split; [by intros (a & ?%elem_of_nil & _)|tauto]]. split.
  - intros (a & (pid & Ha & Hin)%list_elem_of_bind & Hr).
    assert (exists a, a ∈ transitive self graphs pid s o /\ source_rows a r) as H by eauto.
    apply transitive_rows in H; [|done]. rewrite matches_pid in H. destruct H as [[Hm Hp] H]. subst pid. tauto.
  - intros (Hm & _ & Hin & H).
    assert (exists a, a ∈ transitive self graphs r.1.1.2 s o /\ source_rows a r) as (a & Ha & Hr).
    { apply transitive_rows; [done|]. rewrite matches_pid. tauto. }
    exists a. split; [|done]. apply list_elem_of_bind. by exists r.1.1.2.
Qed.

Lemma answers_any s o r : distinct_vocabulary -> answers s None o r <-> entailed r /\ matches s None o r.
Proof.
  intros Hd. unfold answers. rewrite source_arms_any, entailed_iff. setoid_rewrite elem_of_app.
  transitivity ((exists a, a ∈ Plain_ <$> any_arms s o /\ source_rows a r) \/
    (exists a, a ∈ (if bool_decide owl_ql then en_transitive self ≫= fun pid => transitive self graphs pid s o else []) /\ source_rows a r)).
  { split; [intros (a & [H|H] & Hr); eauto|intros [(a & H & Hr)|(a & H & Hr)]; eauto]. }
  rewrite plain_rows, any_arms_rows, any_transitive_rows by done. tauto.
Qed.

(** The triples a pattern answers are the entailed ones that match its constants. *)
Lemma answers_entailed s p o r : distinct_vocabulary -> type_plain ->
  answers s p o r <-> entailed r /\ matches s p o r.
Proof.
  intros Hd Ht. destruct p as [pid|]; [|by apply answers_any]. unfold answers, source_arms. rewrite kinds_eq.
  destruct (Z.eqb_spec pid v_ty) as [->|Hty]; [by rewrite plain_rows, answers_type|].
  case_bool_decide as Hq; cbn [andb]; [case_bool_decide as Hin|].
  - by rewrite answers_transitive.
  - rewrite plain_rows, answers_property by tauto. done.
  - rewrite plain_rows, answers_property by tauto. done.
Qed.

(** ** The closure, and the rules of RDFS *)

Section rules.
(** The axioms of the ontologies of a scope ([ontology_axioms]): scope, subject, predicate, object. *)
Context (axiom : Z -> Z -> Z -> Z -> Prop).

Definition class_edge (k a b : Z) : Prop := axiom k a v_sco b \/ axiom k a v_eqc b \/ axiom k b v_eqc a.
Definition prop_edge (k a b : Z) : Prop := axiom k a v_spo b \/ axiom k a v_eqp b \/ axiom k b v_eqp a.

Definition constrained (k p : Z) : Prop := exists d, axiom k p v_dom d \/ axiom k p v_rng d.
Definition constraining (k d : Z) : Prop := exists p, axiom k p v_dom d \/ axiom k p v_rng d.

(** The rows of [subs] and [classes]. *)
Definition sub_row (k a b : Z) : Prop := (a = b /\ constrained k a) \/ tbox_closure (tbox.PROPERTY, k, a, b).
Definition class_row (k a b : Z) : Prop := (a = b /\ constraining k a) \/ tbox_closure (tbox.CLASS, k, a, b).

(** What the RDFS part of [closure_statements] leaves in the table. *)
Record is_closure : Prop := {
  cl_class k a b : tbox_closure (tbox.CLASS, k, a, b) <-> a <> b /\ tc (class_edge k) a b;
  cl_prop k a b : tbox_closure (tbox.PROPERTY, k, a, b) <-> a <> b /\ tc (prop_edge k) a b;
  cl_subject k a b : tbox_closure (tbox.SUBJECT_TYPE, k, a, b) <->
    exists q d, sub_row k a q /\ axiom k q v_dom d /\ class_row k d b;
  cl_object k a b : tbox_closure (tbox.OBJECT_TYPE, k, a, b) <->
    exists q d, sub_row k a q /\ axiom k q v_rng d /\ class_row k d b;
}.

(** The rules, each quad under the axioms of its scope. *)
Inductive derived : Row4 -> Prop :=
  | d_stored s p o g : quads (s, p, o, g) -> derived (s, p, o, g)
  | d_property s q p o g : derived (s, q, o, g) -> prop_edge (scope_id g) q p -> derived (s, p, o, g)
  | d_class s a b g : derived (s, v_ty, a, g) -> class_edge (scope_id g) a b -> derived (s, v_ty, b, g)
  | d_domain s p o d g : derived (s, p, o, g) -> axiom (scope_id g) p v_dom d -> derived (s, v_ty, d, g)
  | d_range s p o d g : derived (s, p, o, g) -> axiom (scope_id g) p v_rng d -> subject_id o -> derived (o, v_ty, d, g)
  | d_subclass k a b : a <> b -> tc (class_edge k) a b -> derived (a, v_sco, b, DEFAULT_GRAPH_ID)
  | d_subproperty k a b : a <> b -> tc (prop_edge k) a b -> derived (a, v_spo, b, DEFAULT_GRAPH_ID).

(** No axiom is about the vocabulary of RDFS itself. *)
Definition plain_axioms : Prop :=
  forall k a b p, p ∈ [v_ty; v_sco; v_spo] -> ~ prop_edge k p b /\ ~ prop_edge k a v_ty /\ ~ axiom k p v_dom b /\ ~ axiom k p v_rng b.

Lemma class_tc_dec k a b : is_closure -> tc (class_edge k) a b -> a = b \/ tbox_closure (tbox.CLASS, k, a, b).
Proof. intros Hc H. destruct (decide (a = b)); [by left|right]. by apply cl_class. Qed.
Lemma prop_tc_dec k a b : is_closure -> tc (prop_edge k) a b -> a = b \/ tbox_closure (tbox.PROPERTY, k, a, b).
Proof. intros Hc H. destruct (decide (a = b)); [by left|right]. by apply cl_prop. Qed.

Lemma class_row_edge k a b d : is_closure -> class_row k a b -> class_edge k b d -> constraining k a -> class_row k a d.
Proof.
  intros Hc Hab Hbc Ha.
  assert (a = d \/ tbox_closure (tbox.CLASS, k, a, d)) as [->|H]; [|by left|by right].
  apply class_tc_dec; [done|]. destruct Hab as [[-> _]|[_ Hab]%cl_class]; [by apply tc_once| |done]. by eapply tc_r.
Qed.

Lemma sub_row_tc k a b : is_closure -> a = b \/ tbox_closure (tbox.PROPERTY, k, a, b) -> constrained k b -> sub_row k a b.
Proof. intros _ [->|H] Hb; [by left|by right]. Qed.

Lemma subproperties s p q o g : tc (prop_edge (scope_id g)) q p -> derived (s, q, o, g) -> derived (s, p, o, g).
Proof. induction 1; eauto using derived. Qed.
Lemma superclasses s a b g : tc (class_edge (scope_id g)) a b -> derived (s, v_ty, a, g) -> derived (s, v_ty, b, g).
Proof. induction 1; eauto using derived. Qed.

Lemma sub_row_derived s p q o g : is_closure -> sub_row (scope_id g) q p -> derived (s, q, o, g) -> derived (s, p, o, g).
Proof. intros Hc [[-> _]|[_ H]%cl_prop]; [done|by apply subproperties|done]. Qed.
Lemma class_row_derived s a b g : is_closure -> class_row (scope_id g) a b -> derived (s, v_ty, a, g) -> derived (s, v_ty, b, g).
Proof. intros Hc [[-> _]|[_ H]%cl_class]; [done|by apply superclasses|done]. Qed.

Context (Hclosure : is_closure) (Hrdfs : en_reasoning self = Reasoning.Rdfs) (Hkeep : graphs = Keep).
Context (Hdistinct : distinct_vocabulary) (Hplain : plain_axioms).

Lemma graph_out_keep g : graph_out g = g.
Proof using Hkeep. unfold graph_out. by rewrite Hkeep. Qed.
Lemma reads_keep s p o g : reads s p o g <-> quads (s, p, o, g).
Proof using Hkeep. unfold reads. rewrite Hkeep. tauto. Qed.
Lemma not_owl : ~ owl_ql.
Proof using Hrdfs. unfold owl_ql. by rewrite Hrdfs. Qed.
Lemma rdfs_kinds : same_kind = tbox.PROPERTY /\ subject_kind = tbox.SUBJECT_TYPE /\ object_kind = tbox.OBJECT_TYPE.
Proof using Hrdfs. unfold same_kind, subject_kind, object_kind, kinds. by rewrite Hrdfs. Qed.

Lemma entailed_derived r : entailed r -> derived r.
Proof using Hclosure Hrdfs Hkeep.
  destruct rdfs_kinds as (Hs & Hsub & Hobj). pose proof not_owl as Hq.
  destruct 1 as [r H|s a b g H1%reads_keep Ht|s p o b g H1%reads_keep Ht|s p o b g H1%reads_keep Ht Ho|s p o g H]; rewrite ?graph_out_keep; [|..|done].
  - destruct H as [s p o g H%reads_keep|s q p o g H%reads_keep Ht|s q p o g H|k a b [Hn Ht]%cl_class|k a b [Hn Ht]%cl_prop];
      rewrite ?graph_out_keep; [|..|done| |]; try done; [by constructor| |by eapply d_subclass|by eapply d_subproperty].
    rewrite Hs in Ht. apply cl_prop in Ht as [_ Ht]; [|done]. eapply subproperties; [done|by constructor].
  - apply cl_class in Ht as [_ Ht]; [|done]. eapply superclasses; [done|by constructor].
  - rewrite Hsub in Ht. apply cl_subject in Ht as (q & d & Hq' & Hd & Hc); [|done].
    eapply class_row_derived; [done..|]. eapply d_domain; [|done]. eapply sub_row_derived; [done..|]. by constructor.
  - rewrite Hobj in Ht. apply cl_object in Ht as (q & d & Hq' & Hd & Hc); [|done].
    eapply class_row_derived; [done..|]. eapply d_range; [|done..]. eapply sub_row_derived; [done..|]. by constructor.
Qed.

(** A row of a property that is not of the vocabulary comes from a stored one. *)
Lemma entailed_stored s p o g : p ∉ [v_ty; v_sco; v_spo] -> entailed (s, p, o, g) ->
  exists q, quads (s, q, o, g) /\ (q = p \/ tbox_closure (tbox.PROPERTY, scope_id g, q, p)).
Proof using Hrdfs Hkeep.
  intros Hp H%entailed_iff. rewrite !not_elem_of_cons in Hp. destruct Hp as (Hty & Hsc & Hsp & _).
  destruct rdfs_kinds as (Hs & _). destruct H as [H|[H%typed_row_type|(H & _)]]; [|done|by destruct not_owl].
  inversion H as [? ? ? ? Hr|? q ? ? ? Hr Ht|? ? ? ? ? Hq|? ? ? Ht|? ? ? Ht]; subst; rewrite ?graph_out_keep in *.
  - apply reads_keep in Hr. eauto.
  - apply reads_keep in Hr. rewrite Hs in Ht. eauto.
  - by destruct not_owl.
  - done.
  - done.
Qed.

(** Under axioms that are not about the vocabulary, no row is of [rdf:type] but through a class. *)
Lemma plain_type : type_plain.
Proof using Hclosure Hrdfs Hplain.
  destruct rdfs_kinds as (Hs & _). split_and!; [by intros ?%not_owl| |by intros ?%not_owl].
  rewrite Hs. intros k q [_ Ht]%cl_prop; [|done]. apply tc_last in Ht as [b Hb].
  by destruct (Hplain k b b v_ty) as (_ & ? & _); [left|].
Qed.

(** A type comes from a stored type, a domain or a range. *)
Lemma entailed_type s a g : entailed (s, v_ty, a, g) ->
  (exists b, quads (s, v_ty, b, g) /\ (b = a \/ tbox_closure (tbox.CLASS, scope_id g, b, a))) \/
  (exists p o, quads (s, p, o, g) /\ tbox_closure (tbox.SUBJECT_TYPE, scope_id g, p, a)) \/
  (exists p n, quads (n, p, s, g) /\ tbox_closure (tbox.OBJECT_TYPE, scope_id g, p, a) /\ subject_id s).
Proof using Hclosure Hrdfs Hkeep Hdistinct Hplain.
  destruct rdfs_kinds as (Hs & Hsub & Hobj). intros H%entailed_iff. destruct H as [H|[H|(H & _)]]; [| |by destruct not_owl].
  - left. apply stated_type in H as (a' & b & g' & H & Heq); [|done|by apply plain_type|done].
    rewrite graph_out_keep in Heq. simplify_eq. apply reads_keep in H. eauto.
  - destruct H as [(s' & b & d & g' & H & Ht & Heq)|[(s' & p & o & d & g' & H & Ht & Heq)|(s' & p & o & d & g' & H & Ht & Ho & Heq)]];
      rewrite graph_out_keep in Heq; simplify_eq; apply reads_keep in H; [left|right; left|right; right]; rewrite ?Hsub, ?Hobj in Ht; eauto 6.
Qed.

Lemma derived_entailed r : derived r -> entailed r.
Proof using Hclosure Hrdfs Hkeep Hdistinct Hplain.
  destruct rdfs_kinds as (Hs & Hsub & Hobj).
  assert (forall s p o g, quads (s, p, o, g) -> reads s p o g) as Hreads by (intros; by apply reads_keep).
  induction 1 as [s p o g H|s q p o g _ IH He|s a b g _ IH He|s p o d g _ IH Ha|s p o d g _ IH Ha Ho|k a b Hn Ht|k a b Hn Ht].
  - apply en_stated. rewrite <- (graph_out_keep g) at 1. constructor. by apply Hreads.
  - apply entailed_stored in IH as (q' & Hq & Ht).
    2:{ intros Hin. by destruct (Hplain (scope_id g) q p q) as (? & _). }
    assert (tc (prop_edge (scope_id g)) q' p) as Htc.
    { destruct Ht as [->|[_ Ht]%cl_prop]; [by apply tc_once|by eapply tc_r|done]. }
    apply en_stated. rewrite <- (graph_out_keep g) at 1.
    apply prop_tc_dec in Htc as [->|Htc]; [by apply st_asserted, Hreads|eapply st_property; [by apply Hreads|by rewrite Hs]|done].
  - apply entailed_type in IH as [(a' & Hq & Ht)|[(q & o & Hq & Ht)|(q & n & Hq & Ht & Ho)]].
    + assert (tc (class_edge (scope_id g)) a' b) as Htc.
      { destruct Ht as [->|[_ Ht]%cl_class]; [by apply tc_once|by eapply tc_r|done]. }
      rewrite <- (graph_out_keep g) at 1. apply class_tc_dec in Htc as [->|Htc]; [by apply en_stated, st_asserted, Hreads| |done].
      eapply en_superclass; [by apply Hreads|done].
    + apply cl_subject in Ht as (q' & d & Hq' & Hd & Hc); [|done]. rewrite <- (graph_out_keep g) at 1.
      eapply en_subject; [by apply Hreads|]. rewrite Hsub. apply cl_subject; [done|]. exists q', d. split_and!; [done..|].
      eapply class_row_edge; [done..|]. exists q'. by left.
    + apply cl_object in Ht as (q' & d & Hq' & Hd & Hc); [|done]. rewrite <- (graph_out_keep g) at 1.
      eapply en_object; [by apply Hreads| |done]. rewrite Hobj. apply cl_object; [done|]. exists q', d. split_and!; [done..|].
      eapply class_row_edge; [done..|]. exists q'. by right.
  - apply entailed_stored in IH as (q & Hq & Ht).
    2:{ intros Hin. by destruct (Hplain (scope_id g) p d p) as (_ & _ & ? & _). }
    rewrite <- (graph_out_keep g) at 1. eapply en_subject; [by apply Hreads|]. rewrite Hsub. apply cl_subject; [done|].
    exists p, d. split_and!; [|done|left; split; [done|]; exists p; by left].
    apply sub_row_tc; [done..|]. exists d. by left.
  - apply entailed_stored in IH as (q & Hq & Ht).
    2:{ intros Hin. by destruct (Hplain (scope_id g) p d p) as (_ & _ & _ & ?). }
    rewrite <- (graph_out_keep g) at 1. eapply en_object; [by apply Hreads| |done]. rewrite Hobj. apply cl_object; [done|].
    exists p, d. split_and!; [|done|left; split; [done|]; exists p; by right].
    apply sub_row_tc; [done..|]. exists d. by right.
  - apply en_stated. apply st_classes with k. by apply cl_class.
  - apply en_stated. apply st_properties with k. by apply cl_prop.
Qed.

Lemma answers_derived s p o r : answers s p o r <-> derived r /\ matches s p o r.
Proof using All.
  rewrite answers_entailed; [|done|by apply plain_type].
  split; intros [H Hm]; (split; [|done]); [by apply entailed_derived|by apply derived_entailed].
Qed.
End rules.
End meaning.



(** ** Witnesses *)

Module ConcreteReason.
Import ConcreteEncoding.
(** Two stored steps of a property [5], and OWL QL reasoning that takes it as transitive. *)
Definition quads (r : Row4) : Prop := r ∈ ([(11, 5, 12, 7); (12, 5, 13, 7)] : list Row4).
Definition reasoning (m : Reasoning.t) : Entailment := mkEntailment m false false [5] [] 500 None.

(** The domain of [5] is [21], a subclass of [22]. *)
Definition axiom (k s p o : Z) : Prop := k = all_scope /\ ((s = 5 /\ p = v_dom /\ o = 21) \/ (s = 21 /\ p = v_sco /\ o = 22)).
Definition closed : gset Row4 :=
  {[ (tbox.CLASS, all_scope, 21, 22); (tbox.SUBJECT_TYPE, all_scope, 5, 21); (tbox.SUBJECT_TYPE, all_scope, 5, 22) ]}.

Lemma vocabulary_distinct : NoDup [v_ty; v_sco; v_spo; v_eqc; v_eqp; v_dom; v_rng].
Proof. apply (bool_decide_unpack _). vm_compute. exact I. Qed.

#[local] Opaque all_scope named_node_id v_ty v_sco v_spo v_eqc v_eqp v_dom v_rng.
(** The ids as variables that differ, so that no tactic evaluates a hash. *)
Ltac distinct_ids :=
  pose proof vocabulary_distinct as Hnd; revert Hnd;
  generalize all_scope v_ty v_sco v_spo v_eqc v_eqp v_dom v_rng; intros all ty sco spo eqc eqp dom rng Hnd;
  rewrite !NoDup_cons, !not_elem_of_cons in Hnd; destruct_and!.

Lemma distinct_vocabulary_holds : distinct_vocabulary.
Proof.
  pose proof vocabulary_distinct as Hnd. rewrite !NoDup_cons, !not_elem_of_cons in Hnd. unfold distinct_vocabulary. tauto.
Qed.

Lemma class_edges_closed k a b : tc (class_edge axiom k) a b <-> k = all_scope /\ a = 21 /\ b = 22.
Proof.
  assert (forall a b, class_edge axiom k a b <-> k = all_scope /\ a = 21 /\ b = 22) as Hedge.
  { intros a' b'. unfold class_edge, axiom. split; [|intros (-> & -> & ->); left; split; [done|by right]].
    distinct_ids.
    intros [[-> [H'|H']]|[[-> [H'|H']]|[-> [H'|H']]]]; destruct_and!; first [done|congruence]. }
  split; [|intros H; by apply tc_once, Hedge].
  induction 1 as [a b H|a b c H _ IH]; [by apply Hedge|apply Hedge in H as (-> & -> & ->)]. by destruct IH as (_ & ? & _).
Qed.

Lemma no_property_edges k a b : ~ prop_edge axiom k a b.
Proof.
  unfold prop_edge, axiom. distinct_ids.
  intros [[-> [H'|H']]|[[-> [H'|H']]|[-> [H'|H']]]]; destruct_and!; congruence.
Qed.

Lemma closed_rows kd k a b : (kd, k, a, b) ∈ closed <->
  k = all_scope /\ ((kd = tbox.CLASS /\ a = 21 /\ b = 22) \/ (kd = tbox.SUBJECT_TYPE /\ a = 5 /\ (b = 21 \/ b = 22))).
Proof.
  unfold closed. rewrite !elem_of_union, !elem_of_singleton, !pair_equal_spec. generalize all_scope. intros all. tauto.
Qed.

Lemma domain_axiom k q d : axiom k q v_dom d <-> k = all_scope /\ q = 5 /\ d = 21.
Proof.
  unfold axiom. distinct_ids. split; [|tauto].
  intros [-> [H'|H']]; destruct_and!; [by split_and!|congruence].
Qed.

Lemma range_axiom k q d : ~ axiom k q v_rng d.
Proof.
  unfold axiom. distinct_ids. intros [-> [H'|H']]; destruct_and!; congruence.
Qed.

Lemma closed_closure : is_closure closed axiom.
Proof.
  split; intros k a b; rewrite closed_rows.
  - rewrite class_edges_closed. generalize all_scope. intros all. split.
    + intros [-> [(_ & -> & ->)|(H & _)]]; [done|discriminate].
    + intros (_ & -> & -> & ->). split; [done|by left].
  - split; [intros [_ [(H & _)|(H & _)]]; discriminate|]. intros [_ H]. by apply tc_last in H as [? ?%no_property_edges].
  - unfold sub_row, class_row, constrained, constraining.
    repeat setoid_rewrite closed_rows. repeat setoid_rewrite domain_axiom. split.
    + intros [Hk [(H & _)|(_ & Ha & Hb)]]; [discriminate|]. exists 5, 21. split_and!; [|done..|].
      * left. split; [done|]. exists 21. by left.
      * destruct Hb as [Hb|Hb]; [left|right]; [split; [done|]; exists 5; by left|]. split; [done|]. left. by split_and!.
    + intros (q & d & Hq & (Hk & -> & ->) & Hd). split; [done|]. right. split; [done|]. split.
      * destruct Hq as [[? _]|[_ [(H & _)|(H & _)]]]; [done|discriminate..].
      * destruct Hd as [[? _]|[_ [(_ & _ & H)|(H & _)]]]; [by left|by right|discriminate].
  - split; [intros [_ [(H & _)|(H & _)]]; discriminate|]. intros (q & d & _ & H & _). by destruct (range_axiom k q d).
Qed.

Lemma axioms_plain : plain_axioms axiom.
Proof.
  intros k a b p Hp. split_and!; [apply no_property_edges..|rewrite domain_axiom; intros (_ & -> & _)|apply range_axiom].
  revert Hp. assert (bool_decide (5 ∈ [v_ty; v_sco; v_spo]) = false) as H by (vm_compute; done). intros Hp.
  by apply (bool_decide_eq_false_1 _ H).
Qed.
End ConcreteReason.


