(* ===== verification/VersionHistory.v ===== *)
(** * Levels, history and time travel ([crates/oxilite-core/src/version.rs], continued)

    The statements that change the versioning level of a store, as a small syntax with its text
    ([TimeTravel] gives it a meaning); version references and the job that resolves them to
    ticks; the jobs that read the status, the log, the changes and the differences; purges. The
    write side is in [Version]. *)

From S2P Require Export Reason Resolve.

#[global] Instance history_eq_dec : EqDecision History.t.
Proof. solve_decision. Defined.

Record LevelChange := mkLevelChange {
  lc_as_of_index : option bool;
  lc_stamp_index : option bool;
  lc_allow_loss : bool;
  lc_author : option string;
  lc_message : option string;
}.

(** ** Schema *)

Definition meta (entries : list (string * string)) : Statement :=
  Statement_new ("INSERT OR REPLACE INTO oxilite_meta(key, value) VALUES " +:+
    join ", " ((fun '(k, v) => "(" +:+ sql_str k +:+ ", " +:+ sql_str v +:+ ")") <$> entries)).

Definition PURGING : string := "EXISTS (SELECT 1 FROM oxilite_meta WHERE key = 'purging')".

Definition clock_ddl : list Statement :=
  Statement_new <$>
  ["CREATE TABLE IF NOT EXISTS ticks (t INTEGER PRIMARY KEY, time REAL NOT NULL, kind INTEGER NOT NULL DEFAULT 0, author TEXT, message TEXT, time_id INTEGER, author_id INTEGER, message_id INTEGER) STRICT";
   "CREATE INDEX IF NOT EXISTS ticks_boundary ON ticks(t) WHERE kind > 0";
   "CREATE TRIGGER IF NOT EXISTS ticks_immutable_update BEFORE UPDATE ON ticks WHEN NOT " +:+ PURGING +:+
   " BEGIN SELECT RAISE(ABORT, 'oxilite: history is immutable'); END";
   "CREATE TRIGGER IF NOT EXISTS ticks_immutable_delete BEFORE DELETE ON ticks WHEN NOT " +:+ PURGING +:+
   " BEGIN SELECT RAISE(ABORT, 'oxilite: history is immutable'); END"].

Definition log_tables_ddl : list Statement :=
  let past := "OLD.tx < " +:+ CURRENT_TICK +:+ " AND NOT " +:+ PURGING in
  Statement_new <$>
  ["CREATE TABLE IF NOT EXISTS quad_log (s INTEGER NOT NULL, p INTEGER NOT NULL, o INTEGER NOT NULL, g INTEGER NOT NULL, tx INTEGER NOT NULL, op INTEGER NOT NULL, PRIMARY KEY (s, p, o, g, tx)) WITHOUT ROWID, STRICT";
   "CREATE INDEX IF NOT EXISTS quad_log_tx ON quad_log(tx)";
   "CREATE TABLE IF NOT EXISTS commits (tx INTEGER PRIMARY KEY) STRICT";
   "CREATE TRIGGER IF NOT EXISTS quad_log_immutable_update BEFORE UPDATE ON quad_log WHEN " +:+ past +:+
   " BEGIN SELECT RAISE(ABORT, 'oxilite: history is immutable'); END";
   "CREATE TRIGGER IF NOT EXISTS quad_log_immutable_delete BEFORE DELETE ON quad_log WHEN " +:+ past +:+
   " BEGIN SELECT RAISE(ABORT, 'oxilite: history is immutable'); END";
   "CREATE TRIGGER IF NOT EXISTS commits_immutable_delete BEFORE DELETE ON commits WHEN NOT " +:+ PURGING +:+
   " BEGIN SELECT RAISE(ABORT, 'oxilite: history is immutable'); END"].

(** A trigger of [capture_ddl]: after [event], the row [x] is logged with [op], unless the tick
    had logged the inverse, which is removed. *)
Definition capture_trigger (name event x : string) (op : Z) : Statement :=
  let same r := r +:+ ".s = " +:+ x +:+ ".s AND " +:+ r +:+ ".p = " +:+ x +:+ ".p AND " +:+ r +:+ ".o = " +:+ x +:+ ".o AND " +:+
                r +:+ ".g = " +:+ x +:+ ".g" in
  let plain := "s = " +:+ x +:+ ".s AND p = " +:+ x +:+ ".p AND o = " +:+ x +:+ ".o AND g = " +:+ x +:+ ".g" in
  let inverse := show_Z (1 - op) in
  Statement_new ("CREATE TRIGGER IF NOT EXISTS " +:+ name +:+ " AFTER " +:+ event +:+ " ON quads WHEN NOT " +:+ PURGING +:+
    " BEGIN INSERT INTO quad_log(s, p, o, g, tx, op) SELECT " +:+ x +:+ ".s, " +:+ x +:+ ".p, " +:+ x +:+ ".o, " +:+ x +:+ ".g, " +:+
    CURRENT_TICK +:+ ", " +:+ show_Z op +:+ " WHERE NOT EXISTS (SELECT 1 FROM quad_log l WHERE " +:+ same "l" +:+ " AND l.tx = " +:+
    CURRENT_TICK +:+ " AND l.op = " +:+ inverse +:+ "); DELETE FROM quad_log WHERE " +:+ plain +:+ " AND tx = " +:+ CURRENT_TICK +:+
    " AND op = " +:+ inverse +:+ "; INSERT OR IGNORE INTO commits(tx) SELECT " +:+ CURRENT_TICK +:+ "; END").
Definition capture_ddl : list Statement :=
  [capture_trigger "quads_log_insert" "INSERT" "NEW" 1; capture_trigger "quads_log_delete" "DELETE" "OLD" 0].

Definition as_of_index_ddl (on : bool) : list Statement :=
  Statement_new <$>
  (if on then ["CREATE INDEX IF NOT EXISTS quad_log_posg ON quad_log(p, o, s, g, tx)";
               "CREATE INDEX IF NOT EXISTS quad_log_ospg ON quad_log(o, s, p, g, tx)"]
   else ["DROP INDEX IF EXISTS quad_log_posg"; "DROP INDEX IF EXISTS quad_log_ospg"]).

Definition stamp_index_ddl (on : bool) : Statement :=
  Statement_new (if on then "CREATE INDEX IF NOT EXISTS quads_t ON quads(t)" else "DROP INDEX IF EXISTS quads_t").

(** ** Changing the level *)

(** What a level change does, in order; each is one or a few statements. *)
Inductive Op :=
  | ClockDdl
  | AddStampColumn
  | OpenTick (k : Z) (author message : option string)
  | Meta (entries : list (string * string))
  | LogTablesDdl
  | LogRemovedInGap
  | LogAddedInGap
  | LogAll
  | MarkCommit
  | CaptureDdl
  | DropCapture
  | DropLog
  | DropClock
  | AsOfIndexDdl (on : bool)
  | StampIndexDdl (on : bool).

(** The state the log froze at. *)
Definition frozen_sql : string := as_of_sql ("(SELECT max(t) FROM ticks WHERE kind = " +:+ show_Z kind.FREEZE +:+ ")").

Definition op_statements (op : Op) : list Statement :=
  match op with
  | ClockDdl => clock_ddl
  | AddStampColumn => [Statement_new "ALTER TABLE quads ADD COLUMN t INTEGER NOT NULL DEFAULT 0"]
  | OpenTick k author message => [tick_statement k author message]
  | Meta entries => [meta entries]
  | LogTablesDdl => log_tables_ddl
  | LogRemovedInGap =>
      [Statement_new ("INSERT INTO quad_log(s, p, o, g, tx, op) SELECT f.s, f.p, f.o, f.g, " +:+ CURRENT_TICK +:+ ", 0 FROM " +:+ frozen_sql +:+
         " f WHERE NOT EXISTS (SELECT 1 FROM quads q WHERE q.s = f.s AND q.p = f.p AND q.o = f.o AND q.g = f.g)")]
  | LogAddedInGap =>
      [Statement_new ("INSERT INTO quad_log(s, p, o, g, tx, op) SELECT q.s, q.p, q.o, q.g, " +:+ CURRENT_TICK +:+ ", 1 FROM quads q " +:+
         "WHERE NOT EXISTS (SELECT 1 FROM " +:+ frozen_sql +:+ " f WHERE q.s = f.s AND q.p = f.p AND q.o = f.o AND q.g = f.g)")]
  | LogAll => [Statement_new ("INSERT INTO quad_log(s, p, o, g, tx, op) SELECT s, p, o, g, " +:+ CURRENT_TICK +:+ ", 1 FROM quads")]
  | MarkCommit => [Statement_new ("INSERT OR IGNORE INTO commits(tx) SELECT " +:+ CURRENT_TICK)]
  | CaptureDdl => capture_ddl
  | DropCapture => Statement_new <$> ["DROP TRIGGER IF EXISTS quads_log_insert"; "DROP TRIGGER IF EXISTS quads_log_delete"]
  | DropLog => Statement_new <$> ["DROP TABLE IF EXISTS quad_log"; "DROP TABLE IF EXISTS commits"]
  | DropClock =>
      Statement_new <$> ["DROP INDEX IF EXISTS quads_t"; "ALTER TABLE quads DROP COLUMN t"; "DROP TABLE IF EXISTS ticks"]
  | AsOfIndexDdl on => as_of_index_ddl on
  | StampIndexDdl on => [stamp_index_ddl on]
  end.

Section change.
Context (change : LevelChange).
Implicit Types (state : VersionState).

Definition msg (default_ : string) : option string := Some (default default_ (lc_message change)).
Definition open_tick (k : Z) (default_ : string) : Op := OpenTick k (lc_author change) (msg default_).

(** One iteration of [while state.level < to]. *)
Definition raise_one state : VersionState * list Op :=
  let '(mkVersionState l h c i a) := state in
  match l with
  | Versioning.Off =>
      (mkVersionState Versioning.Stamped h true i a,
       [ClockDdl] ++ (if c then [] else [AddStampColumn]) ++
       [open_tick kind.LEVEL "versioning: stamped"; Meta [("versioning", "stamped"); ("stamp_column", "1")]])
  | Versioning.Stamped =>
      (mkVersionState Versioning.Log History.Live c i a,
       [LogTablesDdl] ++
       (if bool_decide (h = History.Frozen)
        then [open_tick kind.RESUME "history resumed"; LogRemovedInGap; LogAddedInGap]
        else [open_tick kind.GENESIS "history starts"; LogAll]) ++
       [MarkCommit; CaptureDdl; Meta [("versioning", "log"); ("history", "live")]])
  | Versioning.Log => (state, [])
  end.

(** One iteration of [while state.level > to]. *)
Definition lower_one state : result Error (VersionState * list Op) :=
  let '(mkVersionState l h c i a) := state in
  match l with
  | Versioning.Log =>
      Ok (if lc_allow_loss change
          then (mkVersionState Versioning.Stamped History.None_ c i false,
                [DropCapture; DropLog; open_tick kind.DROPPED "history deleted";
                 Meta [("versioning", "stamped"); ("history", "none"); ("as_of_index", "0")]])
          else (mkVersionState Versioning.Stamped History.Frozen c i a,
                [DropCapture; open_tick kind.FREEZE "history frozen"; Meta [("versioning", "stamped"); ("history", "frozen")]]))
  | Versioning.Stamped =>
      if lc_allow_loss change then
        if bool_decide (h <> History.None_) then
          Err (Other "the frozen history needs the clock: delete it first (lower the level to `stamped` with allow_loss from `log`)")
        else Ok (mkVersionState Versioning.Off h false false a,
                 [DropClock; Meta [("versioning", "off"); ("stamp_column", "0"); ("stamp_index", "0")]])
      else Ok (mkVersionState Versioning.Off h c i a,
               [open_tick kind.LEVEL "versioning: off"; Meta [("versioning", "off")]])
  | Versioning.Off => Ok (state, [])
  end.

(** The loops; two iterations reach any level. *)
Fixpoint raise (fuel : nat) (to : Versioning.t) state : VersionState * list Op :=
  match fuel with
  | S fuel =>
      if Versioning.leb to (level state) then (state, [])
      else let '(state, ops) := raise_one state in
           let '(state, ops') := raise fuel to state in (state, ops ++ ops')
  | O => (state, [])
  end.
Fixpoint lower (fuel : nat) (to : Versioning.t) state : result Error (VersionState * list Op) :=
  match fuel with
  | S fuel =>
      if Versioning.leb (level state) to then Ok (state, [])
      else '(state, ops) ← lower_one state;
           '(state, ops') ← lower fuel to state; Ok (state, ops ++ ops')
  | O => Ok (state, [])
  end.

Definition flag (on : bool) : string := if on then "1" else "0".

Definition as_of_index_ops state : result Error (list Op) :=
  match lc_as_of_index change with
  | Some on =>
      if on && bool_decide (history state = History.None_) then Err (Other "the as-of index needs a change log (level `log`)")
      else Ok (if Bool.eqb on (as_of_index state) then [] else [AsOfIndexDdl on; Meta [("as_of_index", flag on)]])
  | None => Ok []
  end.

Definition stamp_index_ops state : result Error (list Op) :=
  match lc_stamp_index change with
  | Some on =>
      if on && negb (stamp_column state) then Err (Other "the stamp index needs the store clock (level `stamped`)")
      else Ok (if Bool.eqb on (stamp_index state) then [] else [StampIndexDdl on; Meta [("stamp_index", flag on)]])
  | None => Ok []
  end.

Definition change_ops (from : VersionState) (to : Versioning.t) : result Error (list Op) :=
  let '(state, up) := raise 2 to from in
  '(state, down) ← lower 2 to state;
  as_of ← as_of_index_ops state;
  stamp ← stamp_index_ops state;
  Ok (up ++ down ++ as_of ++ stamp).

Definition change_statements (from : VersionState) (to : Versioning.t) : result Error (list Statement) :=
  ops ← change_ops from to; Ok (ops ≫= op_statements).
End change.

(** ** Version references *)

Inductive VersionRef := Head | Back (n : Z) | Tick (t : Z) | Time (t : f64).

Definition format_time (secs : f64) : string :=
  let ms := F64.to_i64 (f64_round (F64.mul secs (F64.of_Z 1000))) in
  let '(days, rem) := (ms / 86400000, ms mod 86400000) in
  let z := days + 719468 in
  let era := z / 146097 in
  let doe := z mod 146097 in
  let yoe := (doe - doe / 1460 + doe / 36524 - doe / 146096) / 365 in
  let doy := doe - (365 * yoe + yoe / 4 - yoe / 100) in
  let mp := (5 * doy + 2) / 153 in
  let d := doy - (153 * mp + 2) / 5 + 1 in
  let m := if mp <? 10 then mp + 3 else mp - 9 in
  let y := yoe + era * 400 + (if m <=? 2 then 1 else 0) in
  fmt_0 4 y +:+ "-" +:+ fmt_0 2 m +:+ "-" +:+ fmt_0 2 d +:+ "T" +:+ fmt_0 2 (rem / 3600000) +:+ ":" +:+
  fmt_0 2 (rem / 60000 mod 60) +:+ ":" +:+ fmt_0 2 (rem / 1000 mod 60) +:+ "." +:+ fmt_0 3 (rem mod 1000) +:+ "Z".

Module VersionRef.
Definition to_string (self : VersionRef) : string :=
  match self with
  | Head => "HEAD"
  | Back n => "HEAD~" +:+ show_Z n
  | Tick t => "#" +:+ show_Z t
  | Time t => "@" +:+ format_time t
  end.

Definition XSD_DATE : string := "http://www.w3.org/2001/XMLSchema#date".

Definition from_str `{OxsDatatypes} (s : string) : result Error VersionRef :=
  let s := trim s in
  let bad := Other ("invalid version `" +:+ s +:+ "` (expected HEAD, HEAD~n, a tick number such as #42, or @<xsd:dateTime>)") in
  let rest := match strip_prefix s "HEAD" with
              | Some r => r
              | None => match strip_prefix s "main" with Some r => r | None => s end
              end in
  match rest with
  | "" => Ok Head
  | String "~" n => Back <$> ok_or (parse_u64 n) bad
  | String "@" t =>
      let dt := if (String.length t =? 10)%nat then XSD_DATE else XSD_DATE_TIME in
      Time <$> ok_or (timestamp t dt) bad
  | String "#" n => Tick <$> ok_or (parse_i64 n) bad
  | n => Tick <$> ok_or (parse_i64 n) bad
  end.
End VersionRef.

Definition ref_sql (r : VersionRef) : string :=
  match r with
  | Head => "SELECT max(t) FROM ticks"
  | Back n => "SELECT tx FROM commits ORDER BY tx DESC LIMIT 1 OFFSET " +:+ show_Z n
  | Tick t => "SELECT t FROM ticks WHERE t = " +:+ show_Z t
  | Time x => "SELECT max(t) FROM ticks WHERE time <= " +:+ sql_f64 x
  end.

Record ResolveJob := mkResolveJob { rj_refs : list VersionRef; rj_state : VersionState; rj_sent : bool }.
Definition resolve_job (refs : list VersionRef) (state : VersionState) : ResolveJob := mkResolveJob refs state false.

Definition boundary_kinds : list Z := [kind.GENESIS; kind.FREEZE; kind.RESUME; kind.DROPPED].

Definition version_statement (r : VersionRef) : Statement :=
  let b := "kind IN (" +:+ join ", " (show_Z <$> boundary_kinds) +:+ ")" in
  Statement_new ("WITH r(t) AS (" +:+ ref_sql r +:+ ") SELECT r.t, (SELECT b.t FROM ticks b WHERE " +:+ b +:+
    " AND b.t <= r.t ORDER BY b.t DESC LIMIT 1), (SELECT b.kind FROM ticks b WHERE " +:+ b +:+
    " AND b.t <= r.t ORDER BY b.t DESC LIMIT 1) FROM r").

(** The tick of a reference, from the row its statement returned. *)
Definition check_version (r : VersionRef) (rs : ResultSet) : result Error Z :=
  match head (rows rs) ≫= fun row => ok (col row 0) ≫= fun v => t ← SqlValue.as_i64 v; Some (row, t) with
  | None => Err (Other ("unknown version " +:+ VersionRef.to_string r))
  | Some (row, t) =>
      boundary ← col row 1;
      k ← col row 2;
      let before := Err (Other ("version " +:+ VersionRef.to_string r +:+ " (#" +:+ show_Z t +:+ ") is before the recorded history")) in
      match SqlValue.as_i64 boundary, SqlValue.as_i64 k with
      | Some b, Some k =>
          if (k =? kind.GENESIS) || (k =? kind.RESUME) then Ok t
          else if k =? kind.FREEZE then
            if t =? b then Ok t
            else Err (Other ("version " +:+ VersionRef.to_string r +:+ " (#" +:+ show_Z t +:+
                   ") falls in a gap: history was frozen at #" +:+ show_Z b +:+ " and not recorded after it"))
          else before
      | _, _ => before
      end
  end.

#[global] Instance resolve_job_job : Job ResolveJob := {
  Output := list Z;
  step self response :=
    if bool_decide (history (rj_state self) = History.None_) then
      Err (Failed (Other "this store keeps no history: raise its versioning level to `log` for as-of queries"))
    else match rj_refs self with
    | [] => Ok (Done [], self)
    | refs =>
        if rj_sent self then
          let response := default [] response in
          _ ← try (expect_len response (length refs));
          out ← try (try_map (fun '(r, rs) => check_version r rs) (zip refs response));
          Ok (Done out, self)
        else Ok (Execute (Request_read (version_statement <$> refs)), mkResolveJob refs (rj_state self) true)
    end;
}.

(** ** History jobs *)

Record VersionStatus := mkVersionStatus {
  vs_state : VersionState;
  vs_head : option Z;
  vs_head_time : option f64;
  vs_genesis : option Z;
  vs_frozen_at : option Z;
  vs_commits : option Z;
}.

(** [iter.next()] and the first row, when there is one. *)
Definition next_row (rs : Response) : option (list SqlValue) * Response :=
  match rs with [] => (None, []) | x :: rs => (head (rows x), rs) end.

Definition read_clock (state : VersionState) (row : list SqlValue) : result Error VersionStatus :=
  head ← col row 0; time ← col row 1; genesis ← col row 2; freeze ← col row 3;
  Ok (mkVersionStatus state (SqlValue.as_i64 head) (SqlValue.as_f64 time) (SqlValue.as_i64 genesis)
        (if bool_decide (history state = History.Frozen) then SqlValue.as_i64 freeze else None) None).

Definition read_commits (s : VersionStatus) (row : list SqlValue) : result Error VersionStatus :=
  n ← col row 0;
  let '(mkVersionStatus st h t g f _) := s in Ok (mkVersionStatus st h t g f (wrap_u64 <$> SqlValue.as_i64 n)).

Definition status_statements (state : VersionState) : list Statement :=
  (if has_ticks state
   then [Statement_new ("SELECT max(t), (SELECT time FROM ticks WHERE t = (SELECT max(t) FROM ticks)), " +:+
           "(SELECT max(t) FROM ticks WHERE kind IN (" +:+ show_Z kind.GENESIS +:+ ", " +:+ show_Z kind.RESUME +:+
           ")), (SELECT max(t) FROM ticks WHERE kind = " +:+ show_Z kind.FREEZE +:+ ") FROM ticks")]
   else []) ++
  (if bool_decide (history state = History.None_) then [] else [Statement_new "SELECT count(*) FROM commits"]).

Definition read_status (state : VersionState) (r : Response) : result Error VersionStatus :=
  let s := mkVersionStatus state None None None None None in
  let '(clock, rs) := if has_ticks state then next_row r else (None, r) in
  s ← match clock with Some row => read_clock state row | None => Ok s end;
  if bool_decide (history state = History.None_) then Ok s
  else match (next_row rs).1 with Some row => read_commits s row | None => Ok s end.

Definition status_job (state : VersionState) : OneShot VersionStatus :=
  OneShot_new (Request_read (status_statements state)) (read_status state).

Record CommitRecord := mkCommitRecord {
  cr_tick : Z; cr_time : f64; cr_kind : string; cr_author : option string; cr_message : option string;
  cr_added : option Z; cr_removed : option Z;
}.

Definition log_sql (state : VersionState) (limit : Z) : string :=
  if bool_decide (history state = History.None_) then
    "SELECT t, time, kind, author, message, NULL, NULL FROM ticks ORDER BY t DESC LIMIT " +:+ show_Z limit
  else
    let filter := if bool_decide (level state = Versioning.Log)
                  then "WHERE k.kind <> 0 OR EXISTS (SELECT 1 FROM commits c WHERE c.tx = k.t)" else "" in
    "SELECT k.t, k.time, k.kind, k.author, k.message, (SELECT count(*) FROM quad_log l WHERE l.tx = k.t AND l.op = 1), " +:+
    "(SELECT count(*) FROM quad_log l WHERE l.tx = k.t AND l.op = 0) FROM ticks k " +:+ filter +:+ " ORDER BY k.t DESC LIMIT " +:+ show_Z limit.

Definition read_commit (row : list SqlValue) : result Error CommitRecord :=
  t ← col row 0; time ← col row 1; k ← col row 2; author ← col row 3; message ← col row 4; added ← col row 5; removed ← col row 6;
  Ok (mkCommitRecord (default 0 (SqlValue.as_i64 t)) (default F64.zero (SqlValue.as_f64 time))
        (kind.name (default 0 (SqlValue.as_i64 k))) (SqlValue.into_string author) (SqlValue.into_string message)
        (wrap_u64 <$> SqlValue.as_i64 added) (wrap_u64 <$> SqlValue.as_i64 removed)).

Definition log_job (state : VersionState) (limit : Z) : result Error (OneShot (list CommitRecord)) :=
  if has_ticks state then
    Ok (OneShot_new (Request_read [Statement_new (log_sql state limit)])
          (fun r => _ ← expect_len r 1; try_map read_commit (match r with x :: _ => rows x | [] => [] end)))
  else Err (Other "this store keeps no history: raise its versioning level to `stamped` or `log`").

(** *** Changes *)

Section changes.
Context {OX : Oxrdf}.

Record Change := mkChange { ch_tick : Z; ch_added : bool; ch_quad : Quad }.

(** A row [tick, op, s, p, o, g]. *)
Definition ChangeRow : Type := Z * bool * (Z * Z * Z * Z).

Record ChangeJob := mkChangeJob {
  cj_sql : option string;
  cj_caps : Capabilities;
  cj_resolver : TermResolver;
  cj_rows : list ChangeRow;
  cj_started : bool;
}.
Definition ChangeJob_new (sql : string) (caps : Capabilities) : ChangeJob :=
  mkChangeJob (Some sql) caps (with_constants ∅) [] false.

Definition read_change (s : TermResolver * list ChangeRow) (row : list SqlValue) : result Error (TermResolver * list ChangeRow) :=
  match omap SqlValue.as_i64 row with
  | [t; op; s'; p; o; g] =>
      let r := foldl want s.1 [s'; p; o] in
      let r := if g =? DEFAULT_GRAPH_ID then r else want r g in
      Ok (r, s.2 ++ [(t, op =? 1, (s', p, o, g))])
  | _ => Err (Error.corrupted "bad change row")
  end.

Definition change_of (resolver : TermResolver) (r : ChangeRow) : result Error Change :=
  let '(t, added, (s, p, o, g)) := r in
  gname ← (if g =? DEFAULT_GRAPH_ID then Ok GnDefaultGraph
           else t ← get resolver g; to_graph_name g (Some t));
  s ← get resolver s; p ← get resolver p; o ← get resolver o;
  q ← make_quad s p o gname;
  Ok (mkChange t added q).

(** The state once the response is read. *)
Definition cj_absorb (self : ChangeJob) (response : Response) : result Error ChangeJob :=
  if cj_started self then
    r ← absorb (cj_resolver self) response;
    Ok (mkChangeJob None (cj_caps self) r (cj_rows self) true)
  else
    '(r, rows) ← try_fold read_change (cj_resolver self, cj_rows self) (response ≫= rows);
    Ok (mkChangeJob None (cj_caps self) r rows true).

#[global] Instance change_job_job : Job ChangeJob := {
  Output := list Change;
  step self response :=
    match cj_sql self with
    | Some sql =>
        Ok (Execute (Request_read [Statement_new sql]),
            mkChangeJob None (cj_caps self) (cj_resolver self) (cj_rows self) (cj_started self))
    | None =>
        self ← try (cj_absorb self (default [] response));
        match request (cj_resolver self) (cj_caps self) with
        | (Some r, resolver) => Ok (Execute r, mkChangeJob None (cj_caps self) resolver (cj_rows self) true)
        | (None, _) => out ← try (try_map (change_of (cj_resolver self)) (cj_rows self)); Ok (Done out, self)
        end
    end;
}.

Definition changes_job (state : VersionState) (after : Z) (until : option Z) (caps : Capabilities) : result Error ChangeJob :=
  let upto t := match until with Some u => " AND " +:+ t +:+ " <= " +:+ show_Z u | None => "" end in
  let cols t op := id_col caps t +:+ ", " +:+ op +:+ ", " +:+ id_col caps "s" +:+ ", " +:+ id_col caps "p" +:+ ", " +:+
                   id_col caps "o" +:+ ", " +:+ id_col caps "g" in
  if negb (bool_decide (history state = History.None_)) then
    Ok (ChangeJob_new ("SELECT " +:+ cols "tx" "op" +:+ " FROM quad_log WHERE tx > " +:+ show_Z after +:+ upto "tx" +:+
          " ORDER BY tx, op") caps)
  else if stamp_column state then
    Ok (ChangeJob_new ("SELECT " +:+ cols "t" "1" +:+ " FROM quads WHERE t > " +:+ show_Z after +:+ upto "t" +:+ " ORDER BY t") caps)
  else Err (Other "this store keeps no history: raise its versioning level to `stamped` or `log`").

Definition diff_job (state : VersionState) (from to : Z) (caps : Capabilities) : result Error ChangeJob :=
  if bool_decide (history state = History.None_) then
    Err (Other "this store keeps no history: raise its versioning level to `log` to compare versions")
  else
    let '(a, b) := (as_of_sql (show_Z from), as_of_sql (show_Z to)) in
    let cols x := id_col caps (x +:+ ".s") +:+ ", " +:+ id_col caps (x +:+ ".p") +:+ ", " +:+ id_col caps (x +:+ ".o") +:+ ", " +:+
                  id_col caps (x +:+ ".g") in
    let not_in x other := "NOT EXISTS (SELECT 1 FROM " +:+ other +:+ " y WHERE y.s = " +:+ x +:+ ".s AND y.p = " +:+ x +:+
                          ".p AND y.o = " +:+ x +:+ ".o AND y.g = " +:+ x +:+ ".g)" in
    Ok (ChangeJob_new ("SELECT " +:+ show_Z to +:+ ", 1, " +:+ cols "x" +:+ " FROM " +:+ b +:+ " x WHERE " +:+ not_in "x" a +:+
          " UNION ALL SELECT " +:+ show_Z to +:+ ", 0, " +:+ cols "x" +:+ " FROM " +:+ a +:+ " x WHERE " +:+ not_in "x" b) caps).
End changes.

(** ** Purging *)

(** The pattern of a purge: an id, or anything. *)
Definition QuadFilter : Type := option Z * option Z * option Z * option Z.

Definition filter_sql (f : QuadFilter) : string :=
  let '(s, p, o, g) := f in
  let cond (cv : string * option Z) := v ← cv.2; Some (cv.1 +:+ " = " +:+ show_Z v) in
  match omap cond [("s", s); ("p", p); ("o", o); ("g", g)] with [] => "1" | w => join " AND " w end.

Definition purge_request (state : VersionState) (pattern : QuadFilter) (author reason : option string) : Request :=
  let w := filter_sql pattern in
  Request_atomic
    ((if has_ticks state then [tick_statement kind.PURGE author (Some (default "purge" reason))] else []) ++
     [Statement_new "INSERT OR REPLACE INTO oxilite_meta(key, value) VALUES ('purging', '1')";
      Statement_new ("DELETE FROM quads WHERE " +:+ w)] ++
     (if bool_decide (history state = History.None_) then [] else [Statement_new ("DELETE FROM quad_log WHERE " +:+ w)]) ++
     [Statement_new "DELETE FROM oxilite_meta WHERE key = 'purging'"]).
