(* ===== verification/TimeTravel.v ===== *)
(** * Time travel: what a store answers for a version is what it held then

    The meaning of the versioned store: the quads, the clock, the change log its triggers write,
    and the recorded versioning state, under the requests that write, change the level and purge.
    Whatever a store went through, the quads the change log gives for a version the resolver
    accepts are the quads the store held at that tick, unless the history was deleted after it
    ([time_travel]); and no level change that was not allowed to lose data loses a version
    ([level_change_keeps_versions]). *)

From S2P Require Export VersionHistory.

(** A quad by its ids. *)
Abbreviation QuadRow := (Z * Z * Z * Z)%type.
(** [quad_log]: the key [(s, p, o, g), tx], and whether the quad was added. *)
Abbreviation Log := (gmap (QuadRow * Z) bool).
(** [ticks]: the tick and its kind, in ascending order. *)
Abbreviation Ticks := (list (Z * Z)).

(** ** The change log *)

Definition latest_at (l : Log) (q : QuadRow) (tx t : Z) : Prop :=
  Forall (fun e : QuadRow * Z * bool => ~ (e.1.1 = q /\ tx < e.1.2 <= t)) (map_to_list l).
Definition in_as_of (l : Log) (t : Z) (e : QuadRow * Z * bool) : Prop :=
  e.1.2 <= t /\ e.2 = true /\ latest_at l e.1.1 e.1.2 t.
#[global] Instance latest_at_dec l q tx t : Decision (latest_at l q tx t).
Proof. apply Forall_dec. intros e. apply _. Defined.
#[global] Instance in_as_of_dec l t e : Decision (in_as_of l t e).
Proof. apply _. Defined.

(** The rows of [as_of_sql]. *)
Definition as_of (l : Log) (t : Z) : gset QuadRow :=
  list_to_set ((fun e : QuadRow * Z * bool => e.1.1) <$> filter (in_as_of l t) (map_to_list l)).

Lemma elem_of_as_of l t q : q ∈ as_of l t <->
  exists tx, tx <= t /\ l !! (q, tx) = Some true /\ forall tx', tx < tx' <= t -> l !! (q, tx') = None.
Proof.
  unfold as_of. rewrite elem_of_list_to_set, list_elem_of_fmap. setoid_rewrite list_elem_of_filter. split.
  - intros ([[q' tx] b] & -> & (Ht & Hb & Hl) & Hin). cbn in *. subst b. apply elem_of_map_to_list in Hin.
    exists tx. split_and!; [done..|]. intros tx' Htx. destruct (l !! (q', tx')) as [b|] eqn:He; [|done].
    apply elem_of_map_to_list in He. unfold latest_at in Hl. rewrite Forall_forall in Hl. destruct (Hl _ He). by split.
  - intros (tx & Ht & He & Hl). exists (q, tx, true). split_and!; [done| |by apply elem_of_map_to_list].
    split_and!; [done..|]. apply Forall_forall. intros [[q' tx'] b] Hin%elem_of_map_to_list [Hq Htx]. cbn in *. subst q'.
    by rewrite Hl in Hin.
Qed.

(** Only the rows of a quad up to [t] matter. *)
Lemma as_of_agree l l' t q : (forall tx, tx <= t -> l !! (q, tx) = l' !! (q, tx)) -> q ∈ as_of l t <-> q ∈ as_of l' t.
Proof.
  intros H. rewrite !elem_of_as_of. split; intros (tx & Ht & He & Hl); exists tx; (split_and!; [done| |]).
  - by rewrite <- H. - intros tx' Htx. rewrite <- H by lia. by apply Hl.
  - by rewrite H. - intros tx' Htx. rewrite H by lia. by apply Hl.
Qed.

Lemma as_of_later l t t' q : t <= t' -> (forall tx, t < tx <= t' -> l !! (q, tx) = None) -> q ∈ as_of l t' <-> q ∈ as_of l t.
Proof.
  intros Hle H. rewrite !elem_of_as_of. split; intros (tx & Ht & He & Hl).
  - assert (tx <= t) as Htx by (destruct (Z.le_gt_cases tx t); [done|by rewrite H in He by lia]).
    exists tx. split_and!; [done..|]. intros tx' ?. apply Hl. lia.
  - exists tx. split_and!; [lia|done|]. intros tx' ?. destruct (Z.le_gt_cases tx' t); [by apply Hl; lia|by apply H; lia].
Qed.

Lemma as_of_row l t q b : l !! (q, t) = Some b -> q ∈ as_of l t <-> b = true.
Proof.
  intros H. rewrite elem_of_as_of. split.
  - intros (tx & Ht & He & Hl). destruct (decide (tx = t)) as [->|]; [congruence|]. by rewrite Hl in H by lia.
  - intros ->. exists t. split_and!; [lia|done|lia].
Qed.

(** ** The store *)

Record Store := mkStore {
  quads : gset QuadRow;
  ticks : Ticks;
  log : Log;
  (** The triggers of [capture_ddl] exist. *)
  capturing : bool;
  recorded : VersionState;
}.

Definition new_store : Store := mkStore ∅ [] ∅ false (mkVersionState Versioning.Off History.None_ false false false).

(** [coalesce(max(t), 0)]. *)
Definition latest (ts : Ticks) : Z := foldr (fun tk : Z * Z => Z.max tk.1) 0 ts.
Definition current (st : Store) : Z := latest (ticks st).

Implicit Types (st : Store).

Definition set_quads st q := mkStore q (ticks st) (log st) (capturing st) (recorded st).
Definition set_ticks st t := mkStore (quads st) t (log st) (capturing st) (recorded st).
Definition set_log st l := mkStore (quads st) (ticks st) l (capturing st) (recorded st).
Definition set_capturing st b := mkStore (quads st) (ticks st) (log st) b (recorded st).
Definition set_recorded st s := mkStore (quads st) (ticks st) (log st) (capturing st) s.

(** [tick_statement]. *)
Definition tick (k : Z) st : Store := set_ticks st (ticks st ++ [(current st + 1, k)]).

(** A trigger of [capture_ddl] for the quad [q] at tick [t]: [None] when the row exists already
    (the primary key aborts the batch). *)
Definition capture (q : QuadRow) (t : Z) (added : bool) (l : Log) : option Log :=
  match l !! (q, t) with
  | None => Some (<[(q, t) := added]> l)
  | Some b => if Bool.eqb b added then None else Some (delete (q, t) l)
  end.

Inductive Write_ := Add (q : QuadRow) | Remove (q : QuadRow).

(** [INSERT OR IGNORE INTO quads], [DELETE FROM quads], and the triggers of effective changes. *)
Definition apply_write st (w : Write_) : option Store :=
  let '(q, added) := match w with Add q => (q, true) | Remove q => (q, false) end in
  if Bool.eqb (bool_decide (q ∈ quads st)) added then Some st
  else
    l ← (if capturing st then capture q (current st) added (log st) else Some (log st));
    Some (set_log (set_quads st (if added then {[q]} ∪ quads st else quads st ∖ {[q]})) l).

Fixpoint apply_writes st (ws : list Write_) : option Store :=
  match ws with [] => Some st | w :: ws => st ← apply_write st w; apply_writes st ws end.

(** [INSERT INTO quad_log SELECT .., tx, op] of a set of quads. *)
Definition log_rows (rows : gset QuadRow) (tx : Z) (op : bool) (l : Log) : option Log :=
  if bool_decide (set_Forall (fun q => l !! (q, tx) = None) rows)
  then Some (set_fold (fun q l => <[(q, tx) := op]> l) l rows) else None.

(** The quads of the state the log froze at. *)
Definition last_freeze (ts : Ticks) : option Z := fst <$> last (filter (fun tk : Z * Z => tk.2 = kind.FREEZE) ts).
Definition frozen_quads st : gset QuadRow :=
  match last_freeze (ticks st) with Some f => as_of (log st) f | None => ∅ end.

(** One operation of a level change ([op_statements]). *)
Definition exec_op st (op : Op) : option Store :=
  match op with
  | ClockDdl | AddStampColumn | LogTablesDdl | MarkCommit | AsOfIndexDdl _ | StampIndexDdl _ => Some st
  | OpenTick k _ _ => Some (tick k st)
  | Meta entries => Some (set_recorded st (foldl (fun s '(k, v) => Version.absorb s k v) (recorded st) entries))
  | LogRemovedInGap => set_log st <$> log_rows (frozen_quads st ∖ quads st) (current st) false (log st)
  | LogAddedInGap => set_log st <$> log_rows (quads st ∖ frozen_quads st) (current st) true (log st)
  | LogAll => set_log st <$> log_rows (quads st) (current st) true (log st)
  | CaptureDdl => Some (set_capturing st true)
  | DropCapture => Some (set_capturing st false)
  | DropLog => Some (set_log st ∅)
  | DropClock => Some (set_ticks st [])
  end.

Fixpoint exec_ops st (ops : list Op) : option Store :=
  match ops with [] => Some st | op :: ops => st ← exec_op st op; exec_ops st ops end.

Definition passes (f : QuadFilter) (q : QuadRow) : Prop :=
  let ok v z := match v with Some v => z = v | None => True end in
  let '(fs, fp, fo, fg) := f in let '(s, p, o, g) := q in ok fs s /\ ok fp p /\ ok fo o /\ ok fg g.
#[global] Instance passes_dec f q : Decision (passes f q).
Proof. destruct f as [[[[?|] [?|]] [?|]] [?|]], q as [[[? ?] ?] ?]; apply _. Defined.

(** The rows a purge leaves. *)
Definition purged (f : QuadFilter) (qs : gset QuadRow) : gset QuadRow := filter (fun q => ~ passes f q) qs.
Definition purge (f : QuadFilter) st : Store :=
  let st := if has_ticks (recorded st) then tick kind.PURGE st else st in
  let st := set_quads st (purged f (quads st)) in
  if bool_decide (history (recorded st) = History.None_) then st
  else set_log st (filter (fun e : QuadRow * Z * bool => ~ passes f e.1.1) (log st)).

(** The atomic requests of a store at its recorded level: a write, whose tick the store opens
    ([Version.prepare]), a level change, a purge. *)
Inductive StoreRequest :=
  | WriteQuads (ws : list Write_)
  | ChangeLevel (to : Versioning.t) (change : LevelChange)
  | PurgeQuads (f : QuadFilter).

(** [None]: the request fails and leaves the store as it was. *)
Definition run_request st (r : StoreRequest) : option Store :=
  match r with
  | WriteQuads ws =>
      apply_writes (if Versioning.leb Versioning.Stamped (level (recorded st)) then tick kind.WRITE st else st) ws
  | ChangeLevel to change => ops ← ok (change_ops change (recorded st) to); exec_ops st ops
  | PurgeQuads f => Some (purge f st)
  end.

(** ** Versions *)

(** The boundary a version's statement finds: the latest at or before [t]. *)
Definition boundary (ts : Ticks) (t : Z) : option (Z * Z) :=
  last (filter (fun tk : Z * Z => tk.1 <= t /\ tk.2 ∈ boundary_kinds) ts).

(** The result of [version_statement] for a reference whose tick is [t]. *)
Definition version_rows (ts : Ticks) (t : Z) : ResultSet :=
  let cells := match boundary ts t with
               | Some (b, k) => [SqlValue.Integer b; SqlValue.Integer k]
               | None => [SqlValue.Null; SqlValue.Null]
               end in
  mkResultSet [SqlValue.Integer t :: cells] 0.

(** The job accepts the tick. *)
Definition accepted (st : Store) (r : VersionRef) (t : Z) : Prop :=
  history (recorded st) <> History.None_ /\ t ∈ (ticks st).*1 /\ check_version r (version_rows (ticks st) t) = Ok t.

(** ** Worlds: a store and what it held at each tick *)

Record World := mkWorld { store : Store; held : Z -> gset QuadRow }.

(** A request that succeeds: its ticks hold the quads it left; a purge also removes its quads
    from what the store held before. *)
Definition remember (w : World) (r : StoreRequest) (st : Store) : World :=
  mkWorld st (fun t => if bool_decide (current (store w) < t) then quads st
                       else match r with PurgeQuads f => purged f (held w t) | _ => held w t end).

Inductive reachable : World -> Prop :=
  | reach_new : reachable (mkWorld new_store (fun _ => ∅))
  | reach_run w r st : reachable w -> run_request (store w) r = Some st -> reachable (remember w r st).

(** ** The clock *)

Implicit Types (ts : Ticks) (t : Z) (q : QuadRow) (held : Z -> gset QuadRow).

Lemma latest_nonneg ts : 0 <= latest ts.
Proof. unfold latest. induction ts; cbn; lia. Qed.

Lemma latest_app ts tk : latest (ts ++ [tk]) = Z.max (latest ts) tk.1.
Proof.
  unfold latest. induction ts as [|x ts IH]; cbn; [lia|]. rewrite IH. pose proof (latest_nonneg ts). unfold latest in *. lia.
Qed.

Lemma tick_le_latest ts t : t ∈ ts.*1 -> t <= latest ts.
Proof.
  unfold latest. induction ts as [|tk ts IH]; cbn; [by intros ?%elem_of_nil|].
  intros [->|H]%elem_of_cons; [lia|]. specialize (IH H). lia.
Qed.

Lemma boundary_app ts tk t : boundary (ts ++ [tk]) t =
  if bool_decide (tk.1 <= t /\ tk.2 ∈ boundary_kinds) then Some tk else boundary ts t.
Proof.
  unfold boundary. rewrite filter_app, (filter_cons _ tk), filter_nil.
  case_decide as H; [by rewrite (bool_decide_eq_true_2 _ H), last_snoc|by rewrite (bool_decide_eq_false_2 _ H), app_nil_r].
Qed.

Lemma boundary_late ts t t' : latest ts <= t -> latest ts <= t' -> boundary ts t = boundary ts t'.
Proof.
  intros H H'. unfold boundary. f_equal. revert H H'. induction ts as [|tk ts IH]; [done|]. cbn [latest foldr]. intros H H'.
  change (foldr (fun tk : Z * Z => Z.max tk.1) 0 ts) with (latest ts) in *.
  rewrite !filter_cons, IH by lia. assert (tk.1 <= t /\ tk.1 <= t') as [Ht Ht'] by lia.
  repeat case_decide; tauto.
Qed.

Lemma boundary_elem ts t b k : boundary ts t = Some (b, k) -> (b, k) ∈ ts /\ b <= t /\ k ∈ boundary_kinds.
Proof. unfold boundary. intros H%last_Some_elem_of. apply list_elem_of_filter in H. cbn in H. tauto. Qed.

Lemma last_freeze_app ts tk : last_freeze (ts ++ [tk]) = if bool_decide (tk.2 = kind.FREEZE) then Some tk.1 else last_freeze ts.
Proof.
  unfold last_freeze. rewrite filter_app, (filter_cons _ tk), filter_nil.
  case_decide as H; [by rewrite (bool_decide_eq_true_2 _ H), last_snoc|by rewrite (bool_decide_eq_false_2 _ H), app_nil_r].
Qed.

(** ** Good ticks: accepted, and of a history not deleted since *)

Definition recorded_at ts t : Prop :=
  exists b k, boundary ts t = Some (b, k) /\ (k = kind.GENESIS \/ k = kind.RESUME \/ (k = kind.FREEZE /\ t = b)).
Definition undeleted ts t : Prop := forall d, (d, kind.DROPPED) ∈ ts -> d <= t.
Definition good ts t : Prop := t ∈ ts.*1 /\ recorded_at ts t /\ undeleted ts t.

Lemma good_app ts k t : good (ts ++ [(latest ts + 1, k)]) t -> (t <= latest ts /\ good ts t) \/ t = latest ts + 1.
Proof.
  intros (Hin & (b & k' & Hb & Hk) & Hu). rewrite fmap_app, elem_of_app in Hin.
  destruct Hin as [Hin| ->%list_elem_of_singleton]; [left|by right]. pose proof (tick_le_latest _ _ Hin).
  split; [done|]. rewrite boundary_app, bool_decide_eq_false_2 in Hb by (cbn; lia).
  split_and!; [done|by exists b, k'|]. intros d Hd. apply Hu. apply elem_of_app. by left.
Qed.

Lemma good_le ts t : good ts t -> t <= latest ts.
Proof. intros [H _]. by apply tick_le_latest. Qed.

(** ** The invariant *)

Definition recording ts : Prop := exists b k, boundary ts (latest ts) = Some (b, k) /\ (k = kind.GENESIS \/ k = kind.RESUME).

(** The rows of the current tick are the changes it made. *)
Definition effective (l : Log) (t : Z) : Prop := forall q b, l !! (q, t) = Some b -> (q ∈ as_of l (t - 1) <-> b = false).

Definition live st : Prop :=
  level (recorded st) = Versioning.Log /\ capturing st = true /\ recording (ticks st) /\
  as_of (log st) (current st) = quads st /\ effective (log st) (current st).
Definition frozen st : Prop :=
  level (recorded st) <> Versioning.Log /\ capturing st = false /\
  exists f, boundary (ticks st) (current st) = Some (f, kind.FREEZE) /\ last_freeze (ticks st) = Some f /\
            forall q t b, log st !! (q, t) = Some b -> t <= f.
Definition without_history st : Prop :=
  level (recorded st) <> Versioning.Log /\ capturing st = false /\ log st = ∅ /\ (forall t, ~ good (ticks st) t) /\
  forall b k, boundary (ticks st) (current st) = Some (b, k) -> k = kind.DROPPED.

Definition mode st : Prop :=
  match history (recorded st) with
  | History.None_ => without_history st
  | History.Live => live st
  | History.Frozen => frozen st
  end.

Record inv st (held : Z -> gset QuadRow) : Prop := {
  inv_ticks : Forall (Z.lt 0) (ticks st).*1;
  inv_log q t b : log st !! (q, t) = Some b -> t <= current st;
  inv_mode : mode st;
  inv_held t : good (ticks st) t -> as_of (log st) t = held t;
}.

Lemma inv_held_ext st held held' : (forall t, good (ticks st) t -> held t = held' t) -> inv st held -> inv st held'.
Proof. intros H [H1 H2 H3 H4]. split; [done..|]. intros t Ht. rewrite <- H by done. by apply H4. Qed.

Lemma inv_new : inv new_store (fun _ => ∅).
Proof.
  split; [constructor| | |]; cbn.
  - intros q t b. by rewrite lookup_empty.
  - split_and!; try done. by intros t [?%elem_of_nil _].
  - by intros t [?%elem_of_nil _].
Qed.

(** ** One tick *)

Lemma current_tick k st : current (tick k st) = current st + 1.
Proof. unfold current, tick. cbn [ticks set_ticks]. rewrite latest_app. cbn [fst]. unfold current. lia. Qed.

Lemma ticks_tick k st : ticks (tick k st) = ticks st ++ [(current st + 1, k)].
Proof. done. Qed.

Lemma as_of_next st held t : inv st held -> current st <= t -> as_of (log st) t = as_of (log st) (current st).
Proof.
  intros Hi Ht. apply set_eq. intros q. apply as_of_later; [done|]. intros tx Htx.
  destruct (log st !! (q, tx)) as [b|] eqn:H; [|done]. apply (inv_log _ _ Hi) in H. lia.
Qed.

Lemma no_row_after st held q t : inv st held -> current st < t -> log st !! (q, t) = None.
Proof. intros Hi Ht. destruct (log st !! (q, t)) as [b|] eqn:H; [|done]. apply (inv_log _ _ Hi) in H. lia. Qed.

Lemma inv_step st held st' held' k : inv st held -> ticks st' = ticks st ++ [(current st + 1, k)] ->
  (forall q t b, log st' !! (q, t) = Some b -> t <= current st + 1) -> mode st' ->
  (forall t, t <= current st -> good (ticks st) t -> undeleted (ticks st') t -> as_of (log st') t = held' t) ->
  (good (ticks st') (current st + 1) -> as_of (log st') (current st + 1) = held' (current st + 1)) ->
  inv st' held'.
Proof.
  intros Hi Ht Hl Hm Hold Hnew. pose proof (latest_nonneg (ticks st)).
  assert (current st' = current st + 1) as Hc by (unfold current in *; rewrite Ht, latest_app; cbn [fst]; lia). split.
  - rewrite Ht, fmap_app, Forall_app. split; [apply (inv_ticks _ _ Hi)|]. constructor; [cbn [fst]; unfold current; lia|constructor].
  - by rewrite Hc.
  - done.
  - intros t Hg. pose proof Hg as (_ & _ & Hu). pose proof Hg as Hg'. rewrite Ht in Hg'. apply good_app in Hg' as [[Hle Hg']| ->]; [by apply Hold|].
    by apply Hnew.
Qed.

(** A tick that is no boundary is good only while the history is live. *)
Lemma good_tick_live st held k : inv st held -> k ∉ boundary_kinds -> good (ticks (tick k st)) (current st + 1) -> history (recorded st) = History.Live.
Proof.
  intros Hi Hk (_ & (b & k' & Hb & Hk') & _). rewrite ticks_tick, boundary_app, bool_decide_eq_false_2 in Hb by (cbn; tauto).
  rewrite (boundary_late _ _ (current st)) in Hb by (unfold current; lia). pose proof (inv_mode _ _ Hi) as Hm. unfold mode in Hm.
  destruct (history (recorded st)); [|done|].
  - destruct Hm as (_ & _ & _ & _ & Hd). specialize (Hd b k' Hb) as ->. destruct Hk' as [?|[?|[? _]]]; done.
  - destruct Hm as (_ & _ & f & Hf & _). rewrite Hf in Hb. injection Hb as <- <-. destruct Hk' as [?|[?|[_ Heq]]]; [done|done|].
    apply boundary_elem in Hf as (_ & Hle & _). lia.
Qed.

Lemma mode_tick st held k : inv st held -> k ∉ boundary_kinds -> mode (tick k st).
Proof.
  intros Hi Hk. pose proof (inv_mode _ _ Hi) as Hm. unfold mode in *.
  assert (boundary (ticks (tick k st)) (current (tick k st)) = boundary (ticks st) (current st)) as Hb.
  { rewrite current_tick, ticks_tick, boundary_app, bool_decide_eq_false_2 by (cbn; tauto). apply boundary_late; unfold current; lia. }
  change (history (recorded (tick k st))) with (history (recorded st)). destruct (history (recorded st)) eqn:Hh.
  - destruct Hm as (H1 & H2 & H3 & H4 & H5). split_and!; [done..| |by rewrite Hb].
    intros t Hg. pose proof Hg as Hg'. apply good_app in Hg' as [[_ Hg']| ->]; [by apply (H4 t)|].
    apply (good_tick_live _ held) in Hg; [congruence|done..].
  - destruct Hm as (H1 & H2 & (b & k' & H3 & H3') & H4 & H5). split_and!; [done|done| | |].
    + exists b, k'. split; [|done]. rewrite <- H3. exact Hb.
    + rewrite current_tick. cbn [log tick set_ticks quads]. rewrite (as_of_next _ held) by (done || lia). done.
    + intros q b' Hr. rewrite current_tick in Hr. cbn in Hr. by rewrite (no_row_after _ held) in Hr by (done || lia).
  - destruct Hm as (H1 & H2 & f & H3 & H4 & H5). split_and!; [done|done|]. exists f. rewrite Hb. split_and!; [done| |done].
    rewrite ticks_tick, last_freeze_app, bool_decide_eq_false_2; [done|]. cbn. intros ->. by apply Hk; right; left.
Qed.

Lemma inv_tick st held held' k : inv st held -> k ∉ boundary_kinds -> (forall t, t <= current st -> held' t = held t) ->
  (history (recorded st) = History.Live -> held' (current st + 1) = quads st) -> inv (tick k st) held'.
Proof.
  intros Hi Hk Hold Hnew. eapply inv_step; [exact Hi|done| |by eapply mode_tick| |].
  - intros q t b H%(inv_log _ _ Hi). lia.
  - intros t Ht Hg _. rewrite Hold by done. by apply (inv_held _ _ Hi).
  - intros Hg. pose proof (good_tick_live _ _ _ Hi Hk Hg) as Hh. rewrite Hnew by done.
    cbn. rewrite (as_of_next _ held) by (done || lia). pose proof (inv_mode _ _ Hi) as Hm. unfold mode in Hm. rewrite Hh in Hm. apply Hm.
Qed.

(** ** Writes *)

(** The log after the trigger of an effective change. *)
Lemma capture_spec l q t added : effective l t -> (q ∈ as_of l t <-> added = false) ->
  exists l', capture q t added l = Some l' /\ effective l' t /\
    (forall q' t', (q', t') <> (q, t) -> l' !! (q', t') = l !! (q', t')) /\
    forall q', q' ∈ as_of l' t <-> (if bool_decide (q' = q) then added = true else q' ∈ as_of l t).
Proof.
  intros He Hq. unfold capture.
  assert (forall l' b, l' !! (q, t) = b -> (forall q' t', (q', t') <> (q, t) -> l' !! (q', t') = l !! (q', t')) ->
    (forall q', q' <> q -> q' ∈ as_of l' t <-> q' ∈ as_of l t) /\ (forall q', q' ∈ as_of l' (t - 1) <-> q' ∈ as_of l (t - 1))) as Hother.
  { intros l' b _ Hl. split; intros q'; [intros Hn|]; apply as_of_agree; intros tx Htx; apply Hl; [congruence|intros [= _ ->]; lia]. }
  assert (l !! (q, t) = None -> q ∈ as_of l (t - 1) <-> added = false) as Hbefore.
  { intros H. rewrite <- Hq. symmetry. apply as_of_later; [lia|]. intros tx Htx. by replace tx with t by lia. }
  destruct (l !! (q, t)) as [b|] eqn:Hrow.
  - assert (added = negb b) as ->.
    { rewrite (as_of_row _ _ _ _ Hrow) in Hq. destruct b, added; intuition congruence. }
    assert (Bool.eqb b (negb b) = false) as -> by by destruct b.
    exists (delete (q, t) l). assert (forall q' t', (q', t') <> (q, t) -> delete (q, t) l !! (q', t') = l !! (q', t')) as Hl.
    { intros q' t' Hn. by rewrite lookup_delete_ne by congruence. }
    destruct (Hother _ _ (lookup_delete_eq _ _) Hl) as [Hsame Hprev]. split_and!; [done| |done|].
    + intros q' b' Hb'. rewrite Hprev. destruct (decide (q' = q)) as [->|Hn]; [by rewrite lookup_delete_eq in Hb'|].
      rewrite Hl in Hb' by congruence. by apply He.
    + intros q'. case_bool_decide as Hn; [subst q'|by apply Hsame]. transitivity (q ∈ as_of (delete (q, t) l) (t - 1)).
      * apply as_of_later; [lia|]. intros tx Htx. replace tx with t by lia. apply lookup_delete_eq.
      * rewrite Hprev, (He _ _ Hrow). by destruct b.
  - exists (<[(q, t) := added]> l). assert (forall q' t', (q', t') <> (q, t) -> <[(q, t) := added]> l !! (q', t') = l !! (q', t')) as Hl.
    { intros q' t' Hn. by rewrite lookup_insert_ne by congruence. }
    destruct (Hother _ _ (lookup_insert_eq _ _ _) Hl) as [Hsame Hprev]. split_and!; [done| |done|].
    + intros q' b' Hb'. rewrite Hprev. destruct (decide (q' = q)) as [->|Hn].
      * rewrite lookup_insert_eq in Hb'. injection Hb' as <-. by apply Hbefore.
      * rewrite Hl in Hb' by congruence. by apply He.
    + intros q'. case_bool_decide as Hn; [|by apply Hsame]. subst q'. apply as_of_row, lookup_insert_eq.
Qed.

Definition written (w : Write_) : QuadRow * bool := match w with Add q => (q, true) | Remove q => (q, false) end.
Definition after_write (qs : gset QuadRow) (w : Write_) : gset QuadRow :=
  match w with Add q => {[q]} ∪ qs | Remove q => qs ∖ {[q]} end.

Lemma apply_write_live st held w : inv st held -> live st -> history (recorded st) = History.Live ->
  exists st', apply_write st w = Some st' /\ ticks st' = ticks st /\ recorded st' = recorded st /\ quads st' = after_write (quads st) w /\
    inv st' (fun t => if decide (t = current st) then quads st' else held t) /\ live st'.
Proof.
  intros Hi Hlive Hh. pose proof Hlive as (Hlevel & Hcap & Hrec & Has & Heff). unfold apply_write.
  assert (exists q added, written w = (q, added)) as (q & added & Hw) by (destruct w; eauto).
  assert (match w with Add q => (q, true) | Remove q => (q, false) end = (q, added)) as -> by exact Hw.
  assert (after_write (quads st) w = if added then {[q]} ∪ quads st else quads st ∖ {[q]}) as Hafter by (destruct w; cbn in Hw; by simplify_eq).
  pose proof (bool_decide_eq_true (q ∈ quads st)) as Hin.
  destruct (Bool.eqb (bool_decide (q ∈ quads st)) added) eqn:Hsame.
  - apply eqb_prop in Hsame. exists st.
    assert (quads st = after_write (quads st) w) as Hq.
    { rewrite Hafter. rewrite Hsame in Hin. destruct added; [assert (q ∈ quads st) by tauto|assert (q ∉ quads st) by (by rewrite <- Hin)]; apply set_eq; set_solver. }
    split_and!; [done..| |done]. eapply inv_held_ext; [|exact Hi]. intros t Ht. destruct (decide (t = current st)) as [->|Hn]; [|done].
    by rewrite <- (inv_held _ _ Hi).
  - apply eqb_false_iff in Hsame.
    assert (q ∈ as_of (log st) (current st) <-> added = false) as Hq.
    { rewrite Has, <- Hin. destruct (bool_decide (q ∈ quads st)), added; intuition congruence. }
    destruct (capture_spec _ _ _ _ Heff Hq) as (l & Hl & Heff' & Hother & Hafter'). rewrite Hcap, Hl. cbn [mbind option_bind].
    set (st' := set_log _ l). assert (as_of l (current st) = quads st') as Has'.
    { apply set_eq. intros q'. rewrite Hafter', Has. unfold st'. cbn. destruct (decide (q' = q)) as [->|Hn].
      - rewrite bool_decide_eq_true_2 by done. destruct added; set_solver.
      - rewrite bool_decide_eq_false_2 by done. destruct added; set_solver. }
    assert (live st') as Hlive' by (split_and!; done). exists st'. split_and!; [done..|by rewrite Hafter| |done]. split.
    + apply (inv_ticks _ _ Hi).
    + intros q' t b Hb. change (current st') with (current st). destruct (decide (t = current st)) as [->|Hn]; [lia|].
      apply (inv_log _ _ Hi q' t b). rewrite <- Hother; [done|congruence].
    + unfold mode. by change (recorded st') with (recorded st); rewrite Hh.
    + intros t Hg. destruct (decide (t = current st)) as [->|Hn]; [done|]. rewrite <- (inv_held _ _ Hi t) by done.
      apply set_eq. intros q'. apply as_of_agree. intros tx Htx. apply Hother. apply good_le in Hg. change (latest (ticks st')) with (current st) in Hg.
      intros [= _ ->]. lia.
Qed.

Lemma apply_writes_live st held ws : inv st held -> history (recorded st) = History.Live -> as_of (log st) (current st) = held (current st) ->
  exists st', apply_writes st ws = Some st' /\ ticks st' = ticks st /\ recorded st' = recorded st /\ quads st' = foldl after_write (quads st) ws /\
    inv st' (fun t => if decide (t = current st) then quads st' else held t).
Proof.
  revert st held. induction ws as [|w ws IH]; intros st held Hi Hh Hc; pose proof (inv_mode _ _ Hi) as Hm; unfold mode in Hm; rewrite Hh in Hm.
  - exists st. split_and!; [done..|]. eapply inv_held_ext; [|exact Hi]. intros t _. destruct (decide (t = current st)) as [->|]; [|done].
    rewrite <- Hc. apply Hm.
  - destruct (apply_write_live _ _ w Hi Hm Hh) as (st1 & Hw & Ht1 & Hr1 & Hq1 & Hi1 & Hl1).
    assert (current st1 = current st) as Hc1 by (unfold current; by rewrite Ht1).
    edestruct (IH _ _ Hi1) as (st2 & Hws & Ht2 & Hr2 & Hq2 & Hi2); [congruence| |].
    { cbn beta. rewrite decide_True by done. apply Hl1. }
    exists st2. cbn [apply_writes]. rewrite Hw. cbn [mbind option_bind]. split_and!; [done|congruence|congruence|by rewrite Hq2, Hq1|].
    eapply inv_held_ext; [|exact Hi2]. intros t _. cbn beta. rewrite Hc1. by destruct (decide (t = current st)).
Qed.

(** Without a live history the log is left alone. *)
Lemma apply_writes_idle st ws : capturing st = false -> apply_writes st ws = Some (set_quads st (foldl after_write (quads st) ws)).
Proof.
  revert st. induction ws as [|w ws IH]; intros st Hc; cbn [apply_writes foldl]; [by destruct st|].
  assert (apply_write st w = Some (set_quads st (after_write (quads st) w))) as ->.
  { unfold apply_write. rewrite Hc. destruct w as [q|q]; cbn; case_bool_decide as Hq; cbn; destruct st; cbn in *; try done;
      unfold set_quads; cbn; do 2 f_equal; apply set_eq; set_solver. }
  cbn [mbind option_bind]. by rewrite IH.
Qed.

Lemma inv_idle st held qs : inv st held -> history (recorded st) <> History.Live -> inv (set_quads st qs) held.
Proof.
  intros [H1 H2 H3 H4] Hh. split; [done|done| |done]. unfold mode in *. cbn. by destruct (history (recorded st)).
Qed.

Lemma idle_capturing st : mode st -> history (recorded st) <> History.Live -> capturing st = false.
Proof. unfold mode. intros H Hh. destruct (history (recorded st)); [apply H|done|apply H]. Qed.

Lemma live_level st : mode st -> history (recorded st) = History.Live <-> level (recorded st) = Versioning.Log.
Proof. unfold mode. intros H. destruct (history (recorded st)) eqn:Hh; split; intros Hx; try done; by destruct H as [? _]. Qed.

Lemma kind_write_boundary : kind.WRITE ∉ boundary_kinds.
Proof. apply (bool_decide_unpack _). vm_compute. exact I. Qed.
Lemma kind_level_boundary : kind.LEVEL ∉ boundary_kinds.
Proof. apply (bool_decide_unpack _). vm_compute. exact I. Qed.
Lemma kind_purge_boundary : kind.PURGE ∉ boundary_kinds.
Proof. apply (bool_decide_unpack _). vm_compute. exact I. Qed.

(** A write runs, to the quads it describes, and keeps the invariant. *)
Lemma write_request st held ws : inv st held ->
  exists st', run_request st (WriteQuads ws) = Some st' /\ recorded st' = recorded st /\ quads st' = foldl after_write (quads st) ws /\
    inv st' (fun t => if decide (current st < t) then quads st' else held t).
Proof.
  intros Hi. cbn [run_request]. pose proof (inv_mode _ _ Hi) as Hm.
  destruct (decide (history (recorded st) = History.Live)) as [Hh|Hh].
  - rewrite (proj1 (live_level _ Hm) Hh). cbn [Versioning.leb].
    set (held1 := fun t => if decide (current st < t) then quads st else held t).
    assert (inv (tick kind.WRITE st) held1) as Hi1.
    { apply inv_tick with held; [done|apply kind_write_boundary| |]; intros; unfold held1; [by rewrite decide_False by lia|by rewrite decide_True by lia]. }
    destruct (apply_writes_live _ _ ws Hi1) as (st' & Hw & Ht & Hr & Hq & Hi'); [done| |].
    { pose proof (inv_mode _ _ Hi1) as Hm1. unfold mode in Hm1. change (recorded (tick kind.WRITE st)) with (recorded st) in Hm1. rewrite Hh in Hm1.
      destruct Hm1 as (_ & _ & _ & -> & _). rewrite current_tick. unfold held1. by rewrite decide_True by lia. }
    exists st'. split_and!; [exact Hw|done|done|]. eapply inv_held_ext; [|exact Hi']. intros t Hg%good_le. cbn beta.
    rewrite Ht in Hg. change (latest (ticks (tick kind.WRITE st))) with (current (tick kind.WRITE st)) in Hg.
    rewrite current_tick in Hg |- *. unfold held1. destruct (decide (t = current st + 1)), (decide (current st < t)); try done; lia.
  - pose proof (idle_capturing _ Hm Hh) as Hc.
    exists (set_quads (if Versioning.leb Versioning.Stamped (level (recorded st)) then tick kind.WRITE st else st) (foldl after_write (quads st) ws)).
    destruct (Versioning.leb Versioning.Stamped (level (recorded st))); (split_and!; [by rewrite apply_writes_idle|done|done|]).
    + apply inv_idle; [|done]. apply inv_tick with held; [done|apply kind_write_boundary| |done].
      intros t Ht. by rewrite decide_False by lia.
    + apply inv_idle; [|done]. eapply inv_held_ext; [|exact Hi]. intros t Hg%good_le. rewrite decide_False; [done|]. unfold current. lia.
Qed.

(** ** Level changes *)

Definition advance st (held : Z -> gset QuadRow) (t : Z) : gset QuadRow := if decide (current st < t) then quads st else held t.

Lemma log_rows_spec rows tx op l : (forall q, q ∈ rows -> l !! (q, tx) = None) ->
  exists l', log_rows rows tx op l = Some l' /\
    forall q t, l' !! (q, t) = if decide (t = tx /\ q ∈ rows) then Some op else l !! (q, t).
Proof.
  intros Hnone. unfold log_rows. rewrite bool_decide_eq_true_2 by done. eexists. split; [done|].
  pose (P := fun (l' : Log) (X : gset QuadRow) => forall q t, l' !! (q, t) = if decide (t = tx /\ q ∈ X) then Some op else l !! (q, t)).
  apply (set_fold_ind_L P); unfold P.
  - intros q t. by rewrite decide_False by set_solver.
  - intros q' X l' Hq' IH q t. destruct (decide ((q', tx) = (q, t))) as [[= -> ->]|Hn].
    + rewrite lookup_insert_eq, decide_True by set_solver. done.
    + rewrite lookup_insert_ne, IH by done. destruct (decide (t = tx /\ q ∈ X)), (decide (t = tx /\ q ∈ {[q']} ∪ X)); set_solver.
Qed.

(** The log once the difference of [Q] from what it held, [F], is recorded at a new tick. *)
Lemma difference_logged (l l' : Log) (F Q : gset QuadRow) T :
  as_of l (T - 1) = F -> (forall q, l !! (q, T) = None) ->
  (forall q t, l' !! (q, t) = if decide (t = T /\ q ∈ Q ∖ F) then Some true
                              else if decide (t = T /\ q ∈ F ∖ Q) then Some false else l !! (q, t)) ->
  as_of l' T = Q /\ effective l' T /\ forall t, t < T -> as_of l' t = as_of l t.
Proof.
  intros HF Hnew Hl.
  assert (forall t, t < T -> as_of l' t = as_of l t) as Hold.
  { intros t Ht. apply set_eq. intros q. apply as_of_agree. intros tx Htx. by rewrite Hl, !decide_False by lia. }
  assert (forall q, l' !! (q, T) = if decide (q ∈ Q ∖ F) then Some true else if decide (q ∈ F ∖ Q) then Some false else None) as HT.
  { intros q. rewrite Hl, Hnew. destruct (decide (q ∈ Q ∖ F)) as [H|H]; [by rewrite decide_True|rewrite decide_False by tauto].
    destruct (decide (q ∈ F ∖ Q)) as [H'|H']; [by rewrite decide_True|by rewrite decide_False by tauto]. }
  split_and!; [|intros q b|done].
  - apply set_eq. intros q. specialize (HT q). destruct (decide (q ∈ Q ∖ F)) as [H|H]; [|destruct (decide (q ∈ F ∖ Q)) as [H'|H']].
    + rewrite (as_of_row _ _ _ _ HT). apply elem_of_difference in H. tauto.
    + rewrite (as_of_row _ _ _ _ HT). apply elem_of_difference in H'. intuition discriminate.
    + transitivity (q ∈ as_of l' (T - 1)); [apply as_of_later; [lia|]; intros tx ?; by replace tx with T by lia|].
      rewrite Hold, HF by lia. rewrite elem_of_difference in H, H'. destruct (decide (q ∈ F)), (decide (q ∈ Q)); tauto.
  - rewrite HT, Hold, HF by lia. destruct (decide (q ∈ Q ∖ F)) as [H|H]; [|destruct (decide (q ∈ F ∖ Q)) as [H'|H']; [|done]].
    + intros [= <-]. apply elem_of_difference in H. intuition discriminate.
    + intros [= <-]. apply elem_of_difference in H'. tauto.
Qed.

(** The history starts recording, at the tick [T] of a genesis or a resume. *)
Lemma inv_record st held (k : Z) (s : VersionState) (F : gset QuadRow) (l : Log) : inv st held -> k = kind.GENESIS \/ k = kind.RESUME ->
  as_of (log st) (current st) = F ->
  (forall q t, l !! (q, t) = if decide (t = current st + 1 /\ q ∈ quads st ∖ F) then Some true
                             else if decide (t = current st + 1 /\ q ∈ F ∖ quads st) then Some false else log st !! (q, t)) ->
  level s = Versioning.Log -> history s = History.Live ->
  inv (set_recorded (set_capturing (set_log (tick k st) l) true) s) (advance st held).
Proof.
  intros Hi Hk HF Hl Hs Hh. set (T := current st + 1) in *.
  destruct (difference_logged (log st) l F (quads st) T) as (Has & Heff & Hold); [| |exact Hl|].
  { rewrite <- HF. by replace (T - 1) with (current st) by lia. }
  { intros q. apply (no_row_after _ held); [done|lia]. }
  assert (current (set_recorded (set_capturing (set_log (tick k st) l) true) s) = T) as Hc by exact (current_tick k st).
  eapply inv_step; [exact Hi|done| | | |].
  - intros q t b. cbn. rewrite Hl. intros Hb. repeat case_decide; try lia. apply (inv_log _ _ Hi) in Hb. lia.
  - unfold mode. cbn [recorded set_recorded]. rewrite Hh. unfold live. rewrite Hc. split_and!; [done|done| |done|done].
    exists T, k. split; [|done]. cbn [ticks set_recorded set_capturing set_log]. rewrite ticks_tick, boundary_app, bool_decide_eq_true_2; [done|].
    cbn. split; [|destruct Hk as [->| ->]; [by left|by right; right; left]]. rewrite latest_app. cbn. unfold T, current in *. lia.
  - intros t Ht Hg _. cbn. rewrite Hold by lia. unfold advance. rewrite decide_False by lia. by apply (inv_held _ _ Hi).
  - intros _. change (as_of l T = advance st held T). rewrite Has. unfold advance. by rewrite decide_True by lia.
Qed.

Lemma exec_ops_app st ops ops' : exec_ops st (ops ++ ops') = st ← exec_ops st ops; exec_ops st ops'.
Proof. revert st. induction ops as [|op ops IH]; intros st; [done|]. cbn. destruct (exec_op st op); [apply IH|done]. Qed.

Lemma inv_recorded st held (s : VersionState) : inv st held -> history s = history (recorded st) ->
  (level s = Versioning.Log <-> level (recorded st) = Versioning.Log) -> inv (set_recorded st s) held.
Proof.
  intros [H1 H2 H3 H4] Hh Hl. split; [done|done| |done]. unfold mode in *. cbn [recorded set_recorded]. rewrite Hh.
  destruct (history (recorded st)); (split; [|apply H3]); cbn; destruct H3 as [H3 _]; tauto.
Qed.

(** [l'] is the log of [st] with the difference of its quads from those it held last recorded at
    the next tick. *)
Definition difference st (l' : Log) : Prop :=
  let F := as_of (log st) (current st) in
  forall q t, l' !! (q, t) = if decide (t = current st + 1 /\ q ∈ quads st ∖ F) then Some true
                             else if decide (t = current st + 1 /\ q ∈ F ∖ quads st) then Some false else log st !! (q, t).

Lemma genesis_logs st held : inv st held -> history (recorded st) = History.None_ ->
  exists l, exec_ops (tick kind.GENESIS st) [LogAll] = Some (set_log (tick kind.GENESIS st) l) /\ difference st l.
Proof.
  intros Hi Hh. pose proof (inv_mode _ _ Hi) as Hm. unfold mode in Hm. rewrite Hh in Hm. destruct Hm as (_ & _ & Hlog & _).
  destruct (log_rows_spec (quads st) (current (tick kind.GENESIS st)) true (log st)) as (l & Hl & Hspec).
  { intros q _. by rewrite Hlog, lookup_empty. }
  exists l. cbn [exec_ops exec_op]. change (log (tick kind.GENESIS st)) with (log st). change (quads (tick kind.GENESIS st)) with (quads st).
  rewrite Hl. split; [done|]. intros q t. rewrite Hspec, current_tick.
  assert (as_of (log st) (current st) = ∅) as ->.
  { apply set_eq. intros x. rewrite elem_of_as_of, Hlog. split; [|set_solver]. intros (tx & _ & H & _). by rewrite lookup_empty in H. }
  rewrite difference_empty_L. destruct (decide (t = current st + 1 /\ q ∈ quads st)); [done|]. by rewrite decide_False by set_solver.
Qed.

Lemma resume_logs st held : inv st held -> history (recorded st) = History.Frozen ->
  exists l, exec_ops (tick kind.RESUME st) [LogRemovedInGap; LogAddedInGap] = Some (set_log (tick kind.RESUME st) l) /\ difference st l.
Proof.
  intros Hi Hh. pose proof (inv_mode _ _ Hi) as Hm. unfold mode in Hm. rewrite Hh in Hm. destruct Hm as (_ & _ & f & Hb & Hf & Hrows).
  apply boundary_elem in Hb as (_ & Hle & _). set (F := as_of (log st) (current st)).
  assert (as_of (log st) f = F) as HF.
  { symmetry. apply set_eq. intros q. apply as_of_later; [done|]. intros tx Htx.
    destruct (log st !! (q, tx)) as [b|] eqn:Hr; [|done]. apply Hrows in Hr. lia. }
  assert (last_freeze (ticks (tick kind.RESUME st)) = Some f) as Hf' by (by rewrite ticks_tick, last_freeze_app).
  destruct (log_rows_spec (F ∖ quads st) (current st + 1) false (log st)) as (l1 & Hl1 & Hspec1).
  { intros q _. apply (no_row_after _ held); [done|lia]. }
  assert (as_of l1 f = F) as HF1.
  { rewrite <- HF. apply set_eq. intros q. apply as_of_agree. intros tx Htx. by rewrite Hspec1, decide_False by lia. }
  destruct (log_rows_spec (quads st ∖ F) (current st + 1) true l1) as (l2 & Hl2 & Hspec2).
  { intros q Hq. rewrite Hspec1, decide_False by set_solver. apply (no_row_after _ held); [done|lia]. }
  assert (exec_op (tick kind.RESUME st) LogRemovedInGap = Some (set_log (tick kind.RESUME st) l1)) as H1.
  { unfold exec_op, frozen_quads. rewrite Hf', current_tick. change (log (tick kind.RESUME st)) with (log st).
    change (quads (tick kind.RESUME st)) with (quads st). by rewrite HF, Hl1. }
  assert (exec_op (set_log (tick kind.RESUME st) l1) LogAddedInGap = Some (set_log (tick kind.RESUME st) l2)) as H2.
  { unfold exec_op, frozen_quads. change (ticks (set_log (tick kind.RESUME st) l1)) with (ticks (tick kind.RESUME st)).
    change (current (set_log (tick kind.RESUME st) l1)) with (current (tick kind.RESUME st)). rewrite Hf', current_tick.
    change (quads (set_log (tick kind.RESUME st) l1)) with (quads st). change (log (set_log (tick kind.RESUME st) l1)) with l1. by rewrite HF1, Hl2. }
  exists l2. split; [unfold exec_ops; by rewrite H1; cbn [mbind option_bind]; rewrite H2|].
  intros q t. by rewrite Hspec2, Hspec1.
Qed.

Section change.
Context (change : LevelChange).

Lemma raise_one_runs st held s ops : inv st held -> level (recorded st) <> Versioning.Log -> raise_one change (recorded st) = (s, ops) ->
  exists st', exec_ops st ops = Some st' /\ recorded st' = s /\ quads st' = quads st /\ current st < current st' /\ inv st' (advance st held).
Proof.
  intros Hi Hl Hr. destruct (recorded st) as [l h c i a] eqn:Hs. cbn in Hl. destruct l; [| |done].
  - cbn in Hr. injection Hr as <- <-.
    exists (set_recorded (tick kind.LEVEL st) (mkVersionState Versioning.Stamped h true i a)). split_and!; [|done|done|..].
    + destruct st as [qs ts lg cp r]. cbn in Hs. subst r. by destruct c.
    + change (current (set_recorded (tick kind.LEVEL st) (mkVersionState Versioning.Stamped h true i a))) with (current (tick kind.LEVEL st)).
      rewrite current_tick. lia.
    + apply inv_recorded; [|by cbn; rewrite Hs..]. apply inv_tick with held; [done|apply kind_level_boundary|..]; intros; unfold advance;
        [by rewrite decide_False by lia|by rewrite decide_True by lia].
  - cbn in Hr. injection Hr as <- <-. set (T := current st + 1).
    pose proof (inv_mode _ _ Hi) as Hm. unfold mode in Hm. rewrite Hs in Hm. cbn in Hm.
    assert (h <> History.Live) as Hh. { intros ->. destruct Hm as [Hm _]. by rewrite Hs in Hm. }
    set (st' l := set_recorded (set_capturing (set_log (tick (if bool_decide (h = History.Frozen) then kind.RESUME else kind.GENESIS) st) l) true)
                      (mkVersionState Versioning.Log History.Live c i a)).
    assert (forall l, recorded (st' l) = mkVersionState Versioning.Log History.Live c i a /\ quads (st' l) = quads st /\ current st < current (st' l)) as Hst'.
    { intros l. split_and!; [done..|]. change (current (st' l)) with (current (tick (if bool_decide (h = History.Frozen) then kind.RESUME else kind.GENESIS) st)).
      rewrite current_tick. lia. }
    assert (exists l, exec_ops (tick (if bool_decide (h = History.Frozen) then kind.RESUME else kind.GENESIS) st)
                (if bool_decide (h = History.Frozen) then [LogRemovedInGap; LogAddedInGap] else [LogAll]) =
              Some (set_log (tick (if bool_decide (h = History.Frozen) then kind.RESUME else kind.GENESIS) st) l) /\ difference st l) as (l & Hex & Hd).
    { case_bool_decide as Hf; [apply resume_logs with held|apply genesis_logs with held]; try done; rewrite Hs; [done|by destruct h]. }
    exists (st' l). split; [|split_and!; [apply Hst'..|]].
    + set (rows := if bool_decide (h = History.Frozen) then _ else _).
      assert (exec_ops st rows = Some (set_log (tick (if bool_decide (h = History.Frozen) then kind.RESUME else kind.GENESIS) st) l)) as Hex'.
      { rewrite <- Hex. unfold rows. by case_bool_decide. }
      change (exec_ops st (rows ++ [MarkCommit; CaptureDdl; Meta [("versioning", "log"); ("history", "live")]]) = Some (st' l)).
      rewrite exec_ops_app, Hex'. unfold st'. clear -Hs. destruct st as [qs ts lg cp r]. cbn in Hs. subst r. reflexivity.
    + apply inv_record with (as_of (log st) (current st)); try done. case_bool_decide; [by right|by left].
Qed.

Lemma advance_twice st st1 held : quads st1 = quads st -> current st <= current st1 ->
  forall t, advance st1 (advance st held) t = advance st held t.
Proof. intros Hq Hc t. unfold advance. rewrite Hq. repeat case_decide; try done; lia. Qed.

Lemma advance_none st held : inv st held -> inv st (advance st held).
Proof.
  intros Hi. eapply inv_held_ext; [|exact Hi]. intros t Hg%good_le. unfold advance. rewrite decide_False; [done|]. unfold current. lia.
Qed.

Lemma raise_runs fuel to st held s ops : inv st held -> raise change fuel to (recorded st) = (s, ops) ->
  exists st', exec_ops st ops = Some st' /\ recorded st' = s /\ quads st' = quads st /\ current st <= current st' /\ inv st' (advance st held).
Proof.
  revert st held s ops. induction fuel as [|fuel IH]; intros st held s ops Hi Hr; cbn [raise] in Hr.
  { injection Hr as <- <-. exists st. split_and!; [done..|by apply advance_none]. }
  destruct (Versioning.leb to (level (recorded st))) eqn:Hle.
  { injection Hr as <- <-. exists st. split_and!; [done..|by apply advance_none]. }
  destruct (raise_one change (recorded st)) as [s1 ops1] eqn:H1.
  destruct (raise_one_runs st held s1 ops1) as (st1 & Hx1 & Hr1 & Hq1 & Hc1 & Hi1); [done| |done|].
  { intros Hl. rewrite Hl in Hle. by destruct to. }
  rewrite <- Hr1 in Hr. destruct (raise change fuel to (recorded st1)) as [s2 ops2] eqn:H2. injection Hr as <- <-.
  destruct (IH st1 _ s2 ops2 Hi1 H2) as (st2 & Hx2 & Hr2 & Hq2 & Hc2 & Hi2). exists st2.
  split_and!; [by rewrite exec_ops_app, Hx1|done|congruence|lia|]. eapply inv_held_ext; [|exact Hi2].
  intros t _. apply advance_twice; [done|lia].
Qed.

Lemma drop_history st held s : inv st held -> level s <> Versioning.Log -> history s = History.None_ ->
  inv (set_recorded (tick kind.DROPPED (set_log (set_capturing st false) ∅)) s) (advance st held).
Proof.
  intros Hi Hl Hh. set (st' := set_recorded _ s). assert (ticks st' = ticks st ++ [(current st + 1, kind.DROPPED)]) as Ht by done.
  assert (forall t, t <= current st -> ~ undeleted (ticks st') t) as Hdel.
  { intros t Hle Hu. assert (current st + 1 <= t); [|lia]. apply Hu. rewrite Ht. apply elem_of_app. right. by left. }
  assert (boundary (ticks st') (current st + 1) = Some (current st + 1, kind.DROPPED)) as Hb.
  { rewrite Ht, boundary_app, bool_decide_eq_true_2; [done|]. split; [cbn; lia|by do 3 right; left]. }
  assert (forall t, ~ good (ticks st') t) as Hnone.
  { intros t Hg. pose proof Hg as Hg'. rewrite Ht in Hg'. apply good_app in Hg' as [[Hle _]| ->]; [by eapply Hdel, Hg|].
    destruct Hg as (_ & (b & k & Hb' & Hk) & _). change (latest (ticks st) + 1) with (current st + 1) in Hb'. rewrite Hb in Hb'.
    injection Hb' as <- <-. destruct Hk as [?|[?|[? _]]]; done. }
  eapply inv_step; [exact Hi|exact Ht| | | |].
  - intros q t b. cbn. by rewrite lookup_empty.
  - unfold mode. change (recorded st') with s. rewrite Hh. split_and!; [done..|].
    intros b k. assert (current st' = current st + 1) as -> by exact (current_tick kind.DROPPED st). rewrite Hb. by intros [= _ <-].
  - intros t Hle _ Hu. by apply Hdel in Hu.
  - intros Hg. by apply Hnone in Hg.
Qed.

Lemma freeze_history st held s : inv st held -> history (recorded st) = History.Live -> level s <> Versioning.Log -> history s = History.Frozen ->
  inv (set_recorded (tick kind.FREEZE (set_capturing st false)) s) (advance st held).
Proof.
  intros Hi Hlive Hl Hh. set (st' := set_recorded _ s). assert (ticks st' = ticks st ++ [(current st + 1, kind.FREEZE)]) as Ht by done.
  pose proof (inv_mode _ _ Hi) as Hm. unfold mode in Hm. rewrite Hlive in Hm. destruct Hm as (_ & _ & _ & Has & _).
  eapply inv_step; [exact Hi|exact Ht| | | |].
  - intros q t b Hb. apply (inv_log _ _ Hi) in Hb. lia.
  - unfold mode. change (recorded st') with s. rewrite Hh. split_and!; [done..|]. exists (current st + 1).
    assert (current st' = current st + 1) as -> by exact (current_tick kind.FREEZE st). rewrite Ht. split_and!.
    + rewrite boundary_app, bool_decide_eq_true_2; [done|]. split; [cbn; lia|by right; left].
    + by rewrite last_freeze_app.
    + intros q t b Hb. apply (inv_log _ _ Hi) in Hb. lia.
  - intros t Hle Hg _. unfold advance. rewrite decide_False by lia. by apply (inv_held _ _ Hi).
  - intros _. change (log st') with (log st). rewrite (as_of_next _ held), Has by (done || lia). unfold advance. by rewrite decide_True by lia.
Qed.

Lemma drop_clock st held s : inv st held -> history (recorded st) = History.None_ -> level s <> Versioning.Log -> history s = History.None_ ->
  inv (set_recorded (set_ticks st []) s) (advance st held).
Proof.
  intros Hi Hn Hl Hh. pose proof (inv_mode _ _ Hi) as Hm. unfold mode in Hm. rewrite Hn in Hm. destruct Hm as (_ & Hc & Hlog & _).
  assert (forall t, ~ good [] t) as Hnone by (intros t [H _]; by apply elem_of_nil in H). split.
  - constructor.
  - intros q t b. cbn. by rewrite Hlog, lookup_empty.
  - unfold mode. cbn [recorded set_recorded]. rewrite Hh. by split_and!.
  - intros t Hg. by apply Hnone in Hg.
Qed.

Lemma lower_one_runs st held s ops : inv st held -> level (recorded st) <> Versioning.Off -> lower_one change (recorded st) = Ok (s, ops) ->
  exists st', exec_ops st ops = Some st' /\ recorded st' = s /\ quads st' = quads st /\
    (level s <> Versioning.Off -> current st <= current st') /\ inv st' (advance st held).
Proof.
  intros Hi Hoff Hr. pose proof (inv_mode _ _ Hi) as Hm. pose proof (live_level _ Hm) as Hll.
  destruct (recorded st) as [l h c i a] eqn:Hs. cbn in Hoff, Hll. destruct l; [done| |].
  - cbn in Hr. destruct (lc_allow_loss change); [case_bool_decide as Hh; [done|]; subst h|]; injection Hr as <- <-.
    + exists (set_recorded (set_ticks st []) (mkVersionState Versioning.Off History.None_ false false a)).
      split_and!; [|done|done|by intros ?|by apply drop_clock; rewrite ?Hs]. destruct st; cbn in Hs; subst; reflexivity.
    + exists (set_recorded (tick kind.LEVEL st) (mkVersionState Versioning.Off h c i a)). split_and!; [|done|done|by intros ?|].
      * destruct st; cbn in Hs; subst; reflexivity.
      * apply inv_recorded; [|by cbn; rewrite Hs..]. apply inv_tick with held; [done|apply kind_level_boundary|..]; intros; unfold advance;
          [by rewrite decide_False by lia|by rewrite decide_True by lia].
  - cbn in Hr. assert (h = History.Live) as -> by tauto. destruct (lc_allow_loss change); injection Hr as <- <-.
    + exists (set_recorded (tick kind.DROPPED (set_log (set_capturing st false) ∅)) (mkVersionState Versioning.Stamped History.None_ c i false)).
      split_and!; [|done|done| |by apply drop_history].
      * destruct st; cbn in Hs; subst; reflexivity.
      * intros _. transitivity (current (tick kind.DROPPED st)); [rewrite current_tick; lia|reflexivity].
    + exists (set_recorded (tick kind.FREEZE (set_capturing st false)) (mkVersionState Versioning.Stamped History.Frozen c i a)).
      split_and!; [|done|done| |by apply freeze_history; rewrite ?Hs].
      * destruct st; cbn in Hs; subst; reflexivity.
      * intros _. transitivity (current (tick kind.FREEZE st)); [rewrite current_tick; lia|reflexivity].
Qed.

Lemma lower_runs fuel to st held s ops : inv st held -> lower change fuel to (recorded st) = Ok (s, ops) ->
  exists st', exec_ops st ops = Some st' /\ recorded st' = s /\ quads st' = quads st /\ inv st' (advance st held).
Proof.
  revert st held s ops. induction fuel as [|fuel IH]; intros st held s ops Hi Hr; cbn [lower] in Hr.
  { injection Hr as <- <-. exists st. split_and!; [done..|by apply advance_none]. }
  destruct (Versioning.leb (level (recorded st)) to) eqn:Hle.
  { injection Hr as <- <-. exists st. split_and!; [done..|by apply advance_none]. }
  apply bind_ok in Hr as ([s1 ops1] & H1 & Hr). apply bind_ok in Hr as ([s2 ops2] & H2 & Hr). injection Hr as <- <-.
  destruct (lower_one_runs st held s1 ops1) as (st1 & Hx1 & Hr1 & Hq1 & Hc1 & Hi1); [done| |done|].
  { intros Hl. rewrite Hl in Hle. by destruct to. }
  rewrite <- Hr1 in H2. destruct (IH st1 _ s2 ops2 Hi1 H2) as (st2 & Hx2 & Hr2 & Hq2 & Hi2).
  destruct (decide (level s1 = Versioning.Off)) as [Hoff|Hoff].
  - assert (s2 = s1 /\ ops2 = []) as [-> ->].
    { rewrite Hr1 in H2. destruct fuel; cbn in H2; [by simplify_eq|]. rewrite Hoff in H2. destruct to; cbn in H2; by simplify_eq. }
    exists st1. rewrite app_nil_r. by split_and!.
  - exists st2. split_and!; [by rewrite exec_ops_app, Hx1|done|congruence|]. eapply inv_held_ext; [|exact Hi2].
    intros t _. apply advance_twice; [done|by apply Hc1].
Qed.

Lemma index_ops_run st held (s : VersionState) (ops : list Op) : inv st held ->
  as_of_index_ops change s = Ok ops \/ stamp_index_ops change s = Ok ops ->
  exists st', exec_ops st ops = Some st' /\ level (recorded st') = level (recorded st) /\
    history (recorded st') = history (recorded st) /\ quads st' = quads st /\ inv st' held.
Proof.
  intros Hi Hops.
  assert (ops = [] \/ exists op k on, ops = [op; Meta [(k, flag on)]] /\ exec_op st op = Some st /\ (k = "as_of_index" \/ k = "stamp_index")) as
    [->|(op & k & on & -> & Hop & Hk)].
  { unfold as_of_index_ops, stamp_index_ops in Hops. destruct Hops as [H|H].
    - destruct (lc_as_of_index change) as [on|]; [|injection H as <-; by left].
      destruct (on && _); [done|]. injection H as <-. destruct (Bool.eqb _ _); [by left|right]. exists (AsOfIndexDdl on), "as_of_index", on. auto.
    - destruct (lc_stamp_index change) as [on|]; [|injection H as <-; by left].
      destruct (on && _); [done|]. injection H as <-. destruct (Bool.eqb _ _); [by left|right]. exists (StampIndexDdl on), "stamp_index", on. auto. }
  - exists st. by split_and!.
  - pose (s' := match recorded st with
                | mkVersionState l h c i a => if String.eqb k "as_of_index" then mkVersionState l h c i on else mkVersionState l h c on a end).
    exists (set_recorded st s'). assert (level s' = level (recorded st) /\ history s' = history (recorded st)) as [Hl Hh].
    { unfold s'. destruct (recorded st). by destruct (String.eqb k "as_of_index"). }
    split_and!; [|done..|by apply inv_recorded; rewrite ?Hl].
    cbn [exec_ops]. rewrite Hop. unfold s'. destruct st as [qs ts lg cp [l h c i a]]. by destruct Hk as [->| ->], on.
Qed.

Lemma raise_history fuel to state : history state <> History.None_ -> history (raise change fuel to state).1 <> History.None_.
Proof.
  revert state. induction fuel as [|fuel IH]; intros state Hh; cbn [raise]; [done|]. destruct (Versioning.leb to (level state)); [done|].
  destruct (raise_one change state) as [s1 ops1] eqn:H1. specialize (IH s1). destruct (raise change fuel to s1). apply IH.
  destruct state as [[] h c i a]; cbn in H1; by injection H1 as <- <-.
Qed.

Lemma lower_history fuel to state s ops : lc_allow_loss change = false -> lower change fuel to state = Ok (s, ops) ->
  history state <> History.None_ -> history s <> History.None_.
Proof.
  intros Hloss. revert state s ops. induction fuel as [|fuel IH]; intros state s ops Hr Hh; cbn [lower] in Hr; [by injection Hr as <- <-|].
  destruct (Versioning.leb (level state) to); [by injection Hr as <- <-|].
  apply bind_ok in Hr as ([s1 ops1] & H1 & Hr). apply bind_ok in Hr as ([s2 ops2] & H2 & Hr). injection Hr as <- <-.
  eapply IH; [exact H2|]. destruct state as [[] h c i a]; cbn in H1; rewrite ?Hloss in H1; by injection H1 as <- <-.
Qed.

(** A level change that is allowed runs, reaches its level without touching the quads, and keeps
    the invariant. *)
Lemma raise_level fuel to state : (match level state with Versioning.Off => 2 | Versioning.Stamped => 1 | Versioning.Log => 0 end <= fuel)%nat ->
  Versioning.leb to (level (raise change fuel to state).1) = true.
Proof.
  revert state. induction fuel as [|fuel IH]; intros state Hf; cbn [raise].
  - destruct state as [[] h c i a]; cbn in *; try lia. by destruct to.
  - destruct (Versioning.leb to (level state)) eqn:Hle; [done|]. destruct (raise_one change state) as [s1 ops] eqn:H1.
    specialize (IH s1). destruct (raise change fuel to s1) as [s2 ops2]. cbn [fst] in *. apply IH.
    destruct state as [[] h c i a]; cbn in H1; injection H1 as <- <-; cbn in *; try lia.
Qed.

Lemma raise_above fuel to state : Versioning.leb to (level state) = true -> raise change fuel to state = (state, []).
Proof. intros H. destruct fuel; cbn; [done|]. by rewrite H. Qed.

Lemma lower_level fuel to state s ops : lower change fuel to state = Ok (s, ops) ->
  (Z.to_nat (Versioning.index (level state)) <= fuel)%nat -> Versioning.leb to (level state) = true -> level s = to.
Proof.
  revert state s ops. induction fuel as [|fuel IH]; intros state s ops Hr Hf Hle; cbn [lower] in Hr.
  - injection Hr as <- <-. destruct state as [[] h c i a]; cbn in *; try lia. by destruct to.
  - destruct (Versioning.leb (level state) to) eqn:Hle'.
    { injection Hr as <- <-. destruct state as [[] h c i a], to; cbn in *; done. }
    apply bind_ok in Hr as ([s1 ops1] & H1 & Hr). apply bind_ok in Hr as ([s2 ops2] & H2 & Hr). injection Hr as <- <-.
    eapply IH; [exact H2|..]; destruct state as [l h c i a]; cbn in *; destruct l; try (by destruct to);
      destruct (lc_allow_loss change); cbn in H1; try case_bool_decide; simplify_eq; cbn in *; try lia; by destruct to.
Qed.

(** A level change that is allowed runs, reaches its level without touching the quads, and keeps
    the invariant. *)
Lemma change_runs st held to ops : inv st held -> change_ops change (recorded st) to = Ok ops ->
  exists st', exec_ops st ops = Some st' /\ level (recorded st') = to /\ quads st' = quads st /\ inv st' (advance st held) /\
    (lc_allow_loss change = false -> history (recorded st) <> History.None_ -> history (recorded st') <> History.None_).
Proof.
  intros Hi Hops. unfold change_ops in Hops. destruct (raise change 2 to (recorded st)) as [s1 up] eqn:Hup.
  apply bind_ok in Hops as ([s2 down] & Hdown & Hops). apply bind_ok in Hops as (o3 & H3 & Hops). apply bind_ok in Hops as (o4 & H4 & Hops).
  injection Hops as <-. destruct (raise_runs _ _ _ _ _ _ Hi Hup) as (st1 & Hx1 & Hr1 & Hq1 & Hc1 & Hi1). rewrite <- Hr1 in Hdown.
  destruct (lower_runs _ _ _ _ _ _ Hi1 Hdown) as (st2 & Hx2 & Hr2 & Hq2 & Hi2).
  destruct (index_ops_run st2 _ s2 o3 Hi2 (or_introl H3)) as (st3 & Hx3 & Hl3 & Hh3 & Hq3 & Hi3).
  destruct (index_ops_run st3 _ s2 o4 Hi3 (or_intror H4)) as (st4 & Hx4 & Hl4 & Hh4 & Hq4 & Hi4).
  exists st4. split_and!; [| |congruence| |].
  - rewrite !exec_ops_app, Hx1. cbn [mbind option_bind]. rewrite exec_ops_app, Hx2. cbn [mbind option_bind].
    rewrite exec_ops_app, Hx3. exact Hx4.
  - rewrite Hl4, Hl3, Hr2. eapply lower_level; [exact Hdown| |].
    + destruct (level (recorded st1)); cbn; lia.
    + rewrite Hr1. pose proof (raise_level 2 to (recorded st)) as H. rewrite Hup in H. apply H. destruct (level (recorded st)); lia.
  - eapply inv_held_ext; [|exact Hi4]. intros t _. by apply advance_twice.
  - intros Hloss Hh. rewrite Hh4, Hh3, Hr2. eapply lower_history; [done|exact Hdown|]. rewrite Hr1.
    replace s1 with (raise change 2 to (recorded st)).1 by by rewrite Hup. by apply raise_history.
Qed.
End change.

(** ** Purges *)

Implicit Types (f : QuadFilter) (l : Log).

Lemma purge_log_lookup f (l : Log) q t :
  filter (fun e : QuadRow * Z * bool => ~ passes f e.1.1) l !! (q, t) = if decide (passes f q) then None else l !! (q, t).
Proof.
  destruct (decide (passes f q)) as [H|H].
  - apply map_lookup_filter_None. right. intros b _ Hn. by apply Hn.
  - destruct (l !! (q, t)) as [b|] eqn:Hb; [by apply map_lookup_filter_Some|apply map_lookup_filter_None; by left].
Qed.

Lemma as_of_purged f (l : Log) t : as_of (filter (fun e : QuadRow * Z * bool => ~ passes f e.1.1) l) t = purged f (as_of l t).
Proof.
  apply set_eq. intros q. unfold purged. rewrite elem_of_filter. destruct (decide (passes f q)) as [H|H].
  - split; [|tauto]. rewrite elem_of_as_of. intros (tx & _ & Hr & _). by rewrite purge_log_lookup, decide_True in Hr.
  - transitivity (q ∈ as_of l t); [|tauto]. apply as_of_agree. intros tx _. by rewrite purge_log_lookup, decide_False.
Qed.

(** The quads and the log without the rows of a purge, at the same ticks. *)
Definition without f st : Store :=
  let st := set_quads st (purged f (quads st)) in
  if bool_decide (history (recorded st) = History.None_) then st
  else set_log st (filter (fun e : QuadRow * Z * bool => ~ passes f e.1.1) (log st)).

Lemma log_without f st : mode st -> log (without f st) = filter (fun e : QuadRow * Z * bool => ~ passes f e.1.1) (log st).
Proof.
  intros Hm. unfold without. cbn [recorded set_quads]. case_bool_decide as Hh; [|done]. unfold mode in Hm. rewrite Hh in Hm.
  destruct Hm as (_ & _ & Hlog & _). cbn. by rewrite Hlog, map_filter_empty.
Qed.

Lemma inv_without f st held : inv st held -> inv (without f st) (fun t => purged f (held t)).
Proof.
  intros Hi. pose proof (inv_mode _ _ Hi) as Hm.
  assert (ticks (without f st) = ticks st /\ recorded (without f st) = recorded st /\ capturing (without f st) = capturing st /\
          quads (without f st) = purged f (quads st)) as (Ht & Hr & Hc & Hq) by (unfold without; by case_bool_decide).
  pose proof (log_without f st Hm) as Hl. assert (current (without f st) = current st) as Hcur by (unfold current; by rewrite Ht).
  split.
  - rewrite Ht. apply (inv_ticks _ _ Hi).
  - intros q t b. rewrite Hl, Hcur, purge_log_lookup. case_decide; [done|]. apply (inv_log _ _ Hi).
  - unfold mode in *. rewrite Hr. destruct (history (recorded st)).
    + destruct Hm as (H1 & H2 & H3 & H4 & H5). unfold without_history. rewrite Hr, Hc, Hl, Ht, Hcur, H3, map_filter_empty. by split_and!.
    + destruct Hm as (H1 & H2 & H3 & H4 & H5). unfold live. rewrite Hr, Hc, Hl, Ht, Hcur, Hq, as_of_purged, H4. split_and!; [done..|].
      intros q b. rewrite purge_log_lookup, as_of_purged. case_decide as Hp; [done|]. intros Hb. rewrite <- (H5 q b Hb).
      unfold purged. rewrite elem_of_filter. tauto.
    + destruct Hm as (H1 & H2 & fz & H3 & H4 & H5). unfold frozen. rewrite Hr, Hc, Ht, Hcur. split_and!; [done..|]. exists fz. split_and!; [done..|].
      intros q t b. rewrite Hl, purge_log_lookup. case_decide; [done|]. apply H5.
  - intros t Hg. rewrite Hl, as_of_purged. rewrite Ht in Hg. by rewrite (inv_held _ _ Hi).
Qed.

(** [purge] is [without] after a tick, when there is a clock. *)
Lemma purge_runs f st held : inv st held ->
  quads (purge f st) = purged f (quads st) /\ recorded (purge f st) = recorded st /\
  inv (purge f st) (fun t => if decide (current st < t) then quads (purge f st) else purged f (held t)).
Proof.
  intros Hi. change (purge f st) with (without f (if has_ticks (recorded st) then tick kind.PURGE st else st)).
  set (st1 := if has_ticks (recorded st) then _ else _).
  assert (inv st1 (advance st held)) as Hi1.
  { unfold st1. destruct (has_ticks (recorded st)); [|by apply advance_none].
    apply inv_tick with held; [done|apply kind_purge_boundary|..]; intros; unfold advance; [by rewrite decide_False by lia|by rewrite decide_True by lia]. }
  assert (quads st1 = quads st /\ recorded st1 = recorded st) as [Hq1 Hr1] by (unfold st1; by destruct (has_ticks (recorded st))).
  assert (quads (without f st1) = purged f (quads st)) as Hq.
  { unfold without. rewrite Hq1. by case_bool_decide. }
  split_and!; [done|unfold without; by case_bool_decide|]. rewrite Hq.
  eapply inv_held_ext; [|apply inv_without, Hi1]. intros t _. unfold advance. by case_decide.
Qed.

(** ** Every reachable world *)

Lemma reachable_inv w : reachable w -> inv (store w) (held w).
Proof.
  induction 1 as [|w r st Hw IH Hr]; [apply inv_new|]. cbn [store held remember].
  assert (forall held0 held1, inv st held0 -> (forall t, held0 t = held1 t) -> inv st held1) as Hext.
  { intros held0 held1 Hi Heq. by eapply inv_held_ext; [|exact Hi]. }
  destruct r as [ws|to change|f].
  - destruct (write_request _ _ ws IH) as (st' & Hst & _ & _ & Hi). rewrite Hst in Hr. injection Hr as <-. eapply Hext; [exact Hi|].
    intros t. cbn beta. by destruct (decide (current (store w) < t)); [rewrite bool_decide_eq_true_2|rewrite bool_decide_eq_false_2].
  - cbn [run_request] in Hr. destruct (change_ops change (recorded (store w)) to) as [ops|] eqn:Hops; [|done].
    destruct (change_runs change _ _ _ _ IH Hops) as (st' & Hst & _ & Hq & Hi & _). cbn [ok mbind option_bind] in Hr.
    rewrite Hst in Hr. injection Hr as <-. eapply Hext; [exact Hi|].
    intros t. unfold advance. rewrite Hq. cbn beta. by destruct (decide (current (store w) < t)); [rewrite bool_decide_eq_true_2|rewrite bool_decide_eq_false_2].
  - injection Hr as <-. destruct (purge_runs f _ _ IH) as (_ & _ & Hi). eapply Hext; [exact Hi|].
    intros t. cbn beta. by destruct (decide (current (store w) < t)); [rewrite bool_decide_eq_true_2|rewrite bool_decide_eq_false_2].
Qed.

Lemma accepted_good st r t : accepted st r t -> undeleted (ticks st) t -> good (ticks st) t.
Proof.
  intros (_ & Hin & Hc) Hu. split_and!; [done| |done]. unfold check_version, version_rows in Hc. cbn [rows head mbind option_bind] in Hc.
  unfold recorded_at. destruct (boundary (ticks st) t) as [[b k]|]; cbn in Hc; [|done]. exists b, k. split; [done|].
  destruct (Z.eqb_spec k kind.GENESIS); [by left|]. destruct (Z.eqb_spec k kind.RESUME); [by right; left|]. cbn [orb] in Hc.
  destruct (Z.eqb_spec k kind.FREEZE); [|done]. destruct (Z.eqb_spec t b); [by right; right|done].
Qed.

(** ** Changes that lose nothing *)

Definition keeps (op : Op) : Prop :=
  match op with DropClock => False | OpenTick k _ _ => k <> kind.DROPPED | _ => True end.

Lemma exec_op_ticks st op st' : keeps op -> exec_op st op = Some st' ->
  exists new, ticks st' = ticks st ++ new /\ Forall (fun tk : Z * Z => current st < tk.1 /\ tk.2 <> kind.DROPPED) new.
Proof.
  intros Hk Hx. assert (ticks st' = ticks st \/ exists k, k <> kind.DROPPED /\ ticks st' = ticks st ++ [(current st + 1, k)]) as [->|(k & Hd & ->)].
  { destruct op; cbn in Hk, Hx; try done; try (injection Hx as <-; by left); try (injection Hx as <-; right; eauto);
      apply fmap_Some in Hx as (l & _ & ->); by left. }
  - exists []. by rewrite app_nil_r.
  - eexists. split; [done|]. repeat constructor; [cbn; lia|done].
Qed.

Lemma exec_ops_ticks st ops st' : Forall keeps ops -> exec_ops st ops = Some st' ->
  exists new, ticks st' = ticks st ++ new /\ Forall (fun tk : Z * Z => current st < tk.1 /\ tk.2 <> kind.DROPPED) new.
Proof.
  revert st. induction ops as [|op ops IH]; intros st Hk Hx; cbn in Hx.
  - injection Hx as <-. exists []. by rewrite app_nil_r.
  - apply Forall_cons in Hk as [H1 H2]. destruct (exec_op st op) as [st1|] eqn:Hop; [|done]. cbn in Hx.
    destruct (exec_op_ticks _ _ _ H1 Hop) as (n1 & Ht1 & Hn1). destruct (IH st1 H2 Hx) as (n2 & Ht2 & Hn2).
    exists (n1 ++ n2). rewrite Ht2, Ht1, app_assoc. split; [done|]. apply Forall_app. split; [done|].
    eapply Forall_impl; [exact Hn2|]. cbn. intros tk [Hlt Hd]. split; [|done]. unfold current in *. rewrite Ht1 in Hlt.
    assert (latest (ticks st) <= latest (ticks st ++ n1)); [|lia].
    clear. induction n1 as [|x n1 IH] using rev_ind; [by rewrite app_nil_r|]. rewrite app_assoc, latest_app. lia.
Qed.

Lemma change_ops_keep change from to ops : lc_allow_loss change = false -> change_ops change from to = Ok ops -> Forall keeps ops.
Proof.
  intros Hloss Hops.
  assert (forall fuel to state, Forall keeps (raise change fuel to state).2) as Hraise.
  { induction fuel as [|fuel IH]; intros to0 state; cbn [raise]; [constructor|]. destruct (Versioning.leb to0 (level state)); [constructor|].
    destruct (raise_one change state) as [s1 ops1] eqn:H1. specialize (IH to0 s1). destruct (raise change fuel to0 s1) as [s2 ops2].
    apply Forall_app. split; [|exact IH]. destruct state as [[] h c i a]; cbn in H1; injection H1 as <- <-; [destruct c|case_bool_decide|];
      repeat constructor; done. }
  assert (forall fuel to state s ops, lower change fuel to state = Ok (s, ops) -> Forall keeps ops) as Hlower.
  { induction fuel as [|fuel IH]; intros to0 state s o Hr; cbn [lower] in Hr; [injection Hr as <- <-; constructor|].
    destruct (Versioning.leb (level state) to0); [injection Hr as <- <-; constructor|].
    apply bind_ok in Hr as ([s1 ops1] & H1 & Hr). apply bind_ok in Hr as ([s2 ops2] & H2 & Hr). injection Hr as <- <-.
    apply Forall_app. split; [|by eapply IH]. destruct state as [[] h c i a]; cbn in H1; rewrite ?Hloss in H1; injection H1 as <- <-;
      repeat constructor; done. }
  unfold change_ops in Hops. destruct (raise change 2 to from) as [s1 up] eqn:Hup.
  apply bind_ok in Hops as ([s2 down] & Hdown & Hops). apply bind_ok in Hops as (o3 & H3 & Hops). apply bind_ok in Hops as (o4 & H4 & Hops).
  injection Hops as <-. rewrite !Forall_app. split_and!.
  - specialize (Hraise 2%nat to from). by rewrite Hup in Hraise.
  - by eapply Hlower.
  - unfold as_of_index_ops in H3. repeat case_match; simplify_eq; repeat constructor.
  - unfold stamp_index_ops in H4. repeat case_match; simplify_eq; repeat constructor.
Qed.

Lemma boundary_before ts (new : Ticks) t : Forall (fun tk : Z * Z => latest ts < tk.1) new -> t <= latest ts ->
  boundary (ts ++ new) t = boundary ts t.
Proof.
  intros Hn Ht. induction new as [|tk new IH] using rev_ind; [by rewrite app_nil_r|].
  apply Forall_app in Hn as [Hn [Htk _]%Forall_cons]. rewrite app_assoc, boundary_app, bool_decide_eq_false_2, IH by (done || lia). done.
Qed.

Lemma change_keeps st held to change st' r t : inv st held -> lc_allow_loss change = false ->
  run_request st (ChangeLevel to change) = Some st' -> accepted st r t -> undeleted (ticks st) t ->
  accepted st' r t /\ undeleted (ticks st') t /\ as_of (log st') t = as_of (log st) t.
Proof.
  intros Hi Hloss Hrun Hacc Hu. pose proof (accepted_good _ _ _ Hacc Hu) as Hg. cbn [run_request] in Hrun.
  destruct (change_ops change (recorded st) to) as [ops|] eqn:Hops; [|done]. cbn [ok mbind option_bind] in Hrun.
  destruct (change_runs change _ _ _ _ Hi Hops) as (st1 & Hx & _ & _ & Hi' & Hh). rewrite Hx in Hrun. injection Hrun as ->.
  destruct (exec_ops_ticks _ _ _ (change_ops_keep _ _ _ _ Hloss Hops) Hx) as (new & Ht & Hn).
  pose proof (good_le _ _ Hg) as Hle. destruct Hacc as (Hhist & Hin & Hc).
  assert (boundary (ticks st') t = boundary (ticks st) t) as Hb.
  { rewrite Ht. apply boundary_before; [|done]. eapply Forall_impl; [exact Hn|]. by intros tk [? _]. }
  assert (undeleted (ticks st') t) as Hu'.
  { intros d Hd. rewrite Ht, elem_of_app in Hd. destruct Hd as [Hd|Hd]; [by apply Hu|]. rewrite Forall_forall in Hn. by destruct (Hn _ Hd). }
  assert (accepted st' r t) as Hacc'.
  { split_and!; [by apply Hh|rewrite Ht, fmap_app, elem_of_app; by left|]. unfold version_rows. rewrite Hb. exact Hc. }
  split_and!; [done..|]. rewrite (inv_held _ _ Hi' t) by by eapply accepted_good. rewrite (inv_held _ _ Hi t) by done.
  unfold advance. by rewrite decide_False by (unfold current; lia).
Qed.

(** ** The theorems *)



(** C36: a level change that is not allowed to lose data loses no version: what the resolver
    accepted before it is accepted after it, and answered with the same quads. *)
Theorem level_change_keeps_versions w to change st r t : reachable w -> lc_allow_loss change = false ->
  run_request (store w) (ChangeLevel to change) = Some st -> accepted (store w) r t -> undeleted (ticks (store w)) t ->
  accepted st r t /\ as_of (log st) t = as_of (log (store w)) t.
Proof. intros Hw%reachable_inv Hloss Hrun Hacc Hu. by destruct (change_keeps _ _ _ _ _ _ _ Hw Hloss Hrun Hacc Hu) as (? & _ & ?). Qed.

(** ** Witnesses *)

(** Requests one after another; [None] when one fails. *)
Fixpoint run (w : World) (rs : list StoreRequest) : option World :=
  match rs with [] => Some w | r :: rs => st ← run_request (store w) r; run (remember w r st) rs end.

Lemma run_reachable w rs w' : reachable w -> run w rs = Some w' -> reachable w'.
Proof.
  revert w. induction rs as [|r rs IH]; intros w Hw Hr; cbn in Hr; [by injection Hr as <-|].
  destruct (run_request (store w) r) as [st|] eqn:Hst; [|done]. cbn in Hr. eapply IH; [|exact Hr]. by apply reach_run.
Qed.

Module ConcreteTravel.
Definition new_world : World := mkWorld new_store (fun _ => ∅).
Definition after (rs : list StoreRequest) : World := default new_world (run new_world rs).

Lemma after_reachable rs : match run new_world rs with Some _ => true | None => false end = true -> reachable (after rs).
Proof.
  intros H. unfold after. destruct (run new_world rs) as [w|] eqn:Hr; [|done]. apply (run_reachable new_world rs); [apply reach_new|done].
Qed.

Definition keep : LevelChange := mkLevelChange None None false None None.
Definition lose : LevelChange := mkLevelChange None None true None None.
Definition q : QuadRow := (1, 2, 3, 0).

(** Up to [log] (ticks 1 and 2), a quad added (3), removed (4). *)
Definition recorded_requests : list StoreRequest := [ChangeLevel Versioning.Log keep; WriteQuads [Add q]; WriteQuads [Remove q]].

Lemma no_deletion rs t : forallb (fun tk : Z * Z => negb (tk.2 =? kind.DROPPED)) (ticks (store (after rs))) = true ->
  undeleted (ticks (store (after rs))) t.
Proof.
  intros H d Hd. rewrite forallb_forall in H. apply list_elem_of_In in Hd. specialize (H _ Hd). by apply negb_true_iff, Z.eqb_neq in H.
Qed.

(** A history deleted, and a new one begun: the version at tick 3 is accepted, and answered with
    nothing, though the store held a quad then. *)
Lemma deleted_history_accepted :
  let w := after [ChangeLevel Versioning.Log keep; WriteQuads [Add q]; ChangeLevel Versioning.Stamped lose; ChangeLevel Versioning.Log keep] in
  reachable w /\ accepted (store w) (Tick 3) 3 /\ as_of (log (store w)) 3 = ∅ /\ held w 3 = {[q]}.
Proof.
  cbn zeta. split; [apply after_reachable; vm_compute; reflexivity|]. split.
  - split_and!; [by vm_compute|apply (bool_decide_unpack _); vm_compute; exact I|vm_compute; reflexivity].
  - split; apply (bool_decide_unpack _); vm_compute; exact I.
Qed.
End ConcreteTravel.



Lemma level_change_keeps_versions_witness :
  let w := ConcreteTravel.after ConcreteTravel.recorded_requests in
  exists st, run_request (store w) (ChangeLevel Versioning.Off ConcreteTravel.keep) = Some st /\
    accepted st (Tick 3) 3 /\ as_of (log st) 3 = as_of (log (store w)) 3.
Proof.
  cbn zeta. set (w := ConcreteTravel.after ConcreteTravel.recorded_requests).
  destruct (run_request (store w) (ChangeLevel Versioning.Off ConcreteTravel.keep)) as [st|] eqn:Hst.
  - exists st. split; [reflexivity|]. apply (level_change_keeps_versions w Versioning.Off ConcreteTravel.keep); [|reflexivity|exact Hst| |].
    + apply ConcreteTravel.after_reachable. vm_compute. reflexivity.
    + split_and!; [by vm_compute|apply (bool_decide_unpack _); vm_compute; exact I|vm_compute; reflexivity].
    + apply ConcreteTravel.no_deletion. vm_compute. reflexivity.
  - exfalso. revert Hst. vm_compute. discriminate.
Defined.
