(* ===== verification/Shapes.v ===== *)
(** * The compiled SHACL shape index ([crates/oxilite-core/src/shapes.rs])

    The statements that rebuild [shapes_index] and [shapes_in], which writes invalidate them, and
    the reader of the two tables. *)

From S2P Require Export Reason TreeMap.

Definition SH : string := "http://www.w3.org/ns/shacl#".

(** SHACL predicates whose triples change the compiled index. *)
Definition SHAPE_LOCALS : list string :=
  ["targetClass"; "property"; "path"; "datatype"; "minCount"; "maxCount"; "pattern"; "class"; "node"; "in"].

Definition sh `{Xxh3} (local : string) : Z := named_node_id (SH +:+ local).

(** ** What changes the index *)

Definition is_shape_iri (p : string) : bool :=
  match strip_prefix p SH with Some l => bool_decide (l ∈ SHAPE_LOCALS) | None => false end.

Section changes.
Context {OX : Oxrdf}.

Definition is_shape_quad (q : Quad) : bool := is_registry_quad q || is_shape_iri (qd_predicate q).

Definition shape_pattern (p : NamedNodePattern) : bool :=
  match p with NnpVariable _ => true | NnpNamedNode n => is_shape_iri n end.

Definition op_touches_shapes (op : GraphUpdateOperation) : bool :=
  match op with
  | InsertData data | DeleteData data => existsb (fun q => is_shape_iri (qd_predicate q)) data
  | DeleteInsert delete insert =>
      existsb (fun q => shape_pattern (gqp_predicate q)) delete || existsb (fun q => shape_pattern (qp_predicate q)) insert
  | Create => false
  | Load | Clear | Drop => true
  end.

Definition touches_shape_triples (update : Update) : bool := existsb op_touches_shapes update.
Definition update_touches_shapes (update : Update) : bool := update_touches_registry update || touches_shape_triples update.
End changes.

(** ** Rebuilding it *)

Module Shapes.
Section shapes.
Context {OX : Oxrdf} {XX : Xxh3} {OD : OxsDatatypes}.

Definition int_value (x : string) : string :=
  "CASE WHEN ((" +:+ x +:+ ") >> " +:+ show_Z PAYLOAD_BITS +:+ ") = " +:+ show_Z (Tag.to_u8 Integer) +:+ " THEN (" +:+ x +:+ ") - " +:+
  show_Z (Tag.base Integer + INT_OFFSET) +:+ " ELSE (SELECT CAST(n.num AS INTEGER) FROM terms n WHERE n.id = (" +:+ x +:+
  ") AND n.nt IS NOT NULL) END".

Definition sq : string := scoped_quads SchemaRole.Shacl.

(** Every (shape, target class, property shape, path) the shapes graphs declare. *)
Definition ps : string :=
  "SELECT t.o AS target, pr.o AS pshape, pa.o AS path FROM " +:+ sq +:+ " t JOIN " +:+ sq +:+ " pr ON pr.s = t.s AND pr.p = " +:+
  show_Z (sh "property") +:+ " JOIN " +:+ sq +:+ " pa ON pa.s = pr.o AND pa.p = " +:+ show_Z (sh "path") +:+ " WHERE t.p = " +:+
  show_Z (sh "targetClass").

Definition lex_of (local : string) : string :=
  "(SELECT v.lex FROM " +:+ sq +:+ " x JOIN terms v ON v.id = x.o WHERE x.s = ps.pshape AND x.p = " +:+ show_Z (sh local) +:+ ")".
Definition int_of (local : string) : string :=
  "(SELECT " +:+ int_value "x.o" +:+ " FROM " +:+ sq +:+ " x WHERE x.s = ps.pshape AND x.p = " +:+ show_Z (sh local) +:+ ")".
Definition rel : string :=
  "(SELECT EXISTS (SELECT 1 FROM " +:+ sq +:+ " x WHERE x.s = ps.pshape AND x.p IN (" +:+ show_Z (sh "class") +:+ ", " +:+
  show_Z (sh "node") +:+ ")))".

Definition index_sql : string :=
  "INSERT OR REPLACE INTO shapes_index(target, path, datatype, min_count, max_count, pattern, relationship) " +:+
  "SELECT tt.lex, pt.lex, MAX(" +:+ lex_of "datatype" +:+ "), MAX(" +:+ int_of "minCount" +:+ "), MAX(" +:+ int_of "maxCount" +:+
  "), MAX(" +:+ lex_of "pattern" +:+ "), MAX(" +:+ rel +:+ ") FROM (" +:+ ps +:+
  ") ps JOIN terms tt ON tt.id = ps.target JOIN terms pt ON pt.id = ps.path GROUP BY tt.lex, pt.lex".

Definition REST : string := "http://www.w3.org/1999/02/22-rdf-syntax-ns#rest".
Definition FIRST : string := "http://www.w3.org/1999/02/22-rdf-syntax-ns#first".

Definition values_sql : string :=
  "WITH RECURSIVE cells(pshape, node) AS (SELECT x.s, x.o FROM " +:+ sq +:+ " x WHERE x.p = " +:+ show_Z (sh "in") +:+
  " UNION SELECT c.pshape, r.o FROM cells c JOIN " +:+ sq +:+ " r ON r.s = c.node AND r.p = " +:+ show_Z (named_node_id REST) +:+
  ") INSERT OR REPLACE INTO shapes_in(target, path, id, lex, dt, lang, dir) " +:+
  "SELECT tt.lex, pt.lex, f.o, v.lex, v.dt, v.lang, v.dir FROM (" +:+ ps +:+ ") ps JOIN cells c ON c.pshape = ps.pshape JOIN " +:+ sq +:+
  " f ON f.s = c.node AND f.p = " +:+ show_Z (named_node_id FIRST) +:+
  " JOIN terms tt ON tt.id = ps.target JOIN terms pt ON pt.id = ps.path LEFT JOIN terms v ON v.id = f.o".

Definition refresh_statements : list Statement :=
  Statement_new <$> ["DELETE FROM shapes_index"; "DELETE FROM shapes_in"; index_sql; values_sql].
End shapes.
End Shapes.

(** ** Reading it *)

Section index.
Context {OX : Oxrdf}.

Record PropertyShape := mkPropertyShape {
  sp_datatype : option NamedNode;
  sp_min : option Z;
  sp_max : option Z;
  sp_values_in : list Term;
  sp_pattern : option string;
  sp_relationship : bool;
}.
Definition default_shape : PropertyShape := mkPropertyShape None None None [] None false.

Record ShapeIndex := mkShapeIndex { by_class : gmap NamedNode (gmap NamedNode PropertyShape) }.
Definition default_index : ShapeIndex := mkShapeIndex ∅.

Definition si_is_empty (self : ShapeIndex) : bool := bool_decide (by_class self = ∅).
Definition si_get (self : ShapeIndex) (class path : NamedNode) : option PropertyShape :=
  m ← by_class self !! class; m !! path.

(** [entry(target).or_default().entry(path).or_default()], changed by [f]. *)
Definition upsert (self : ShapeIndex) (target path : NamedNode) (f : PropertyShape -> PropertyShape) : ShapeIndex :=
  let m := default ∅ (by_class self !! target) in
  mkShapeIndex (<[target := <[path := f (default default_shape (m !! path))]> m]> (by_class self)).

Definition named (v : SqlValue) : option NamedNode := s ← SqlValue.as_str v; ok (named_node_new s).

Definition read_shape (self : ShapeIndex) (row : list SqlValue) : result Error ShapeIndex :=
  target ← col row 0; path ← col row 1;
  match named target, named path with
  | Some target, Some path =>
      datatype ← col row 2; min ← col row 3; max ← col row 4; pattern ← col row 5; relationship ← col row 6;
      Ok (upsert self target path (fun shape =>
            mkPropertyShape (named datatype) (SqlValue.as_i64 min) (SqlValue.as_i64 max) (sp_values_in shape)
              (SqlValue.into_string pattern) (negb (default 0 (SqlValue.as_i64 relationship) =? 0))))
  | _, _ => Ok self
  end.

(** The value of a row of [shapes_in]; [None] skips the row. *)
Definition read_term (id : Z) (row : list SqlValue) : result Error (option Term) :=
  lex ← col row 3;
  match SqlValue.into_string lex with
  | Some lex =>
      dt ← col row 4; lang ← col row 5; dir ← col row 6;
      Some <$> decode_row id lex (SqlValue.into_string dt) (SqlValue.into_string lang) (SqlValue.as_i64 dir)
  | None => Ok (decode_inline id)
  end.

Definition push_value (t : Term) (shape : PropertyShape) : PropertyShape :=
  let '(mkPropertyShape dt min max vs pattern rel) := shape in
  mkPropertyShape dt min max (if bool_decide (t ∈ vs) then vs else vs ++ [t]) pattern rel.

Definition read_value (self : ShapeIndex) (row : list SqlValue) : result Error ShapeIndex :=
  target ← col row 0; path ← col row 1; id ← col row 2;
  match named target, named path, SqlValue.as_i64 id with
  | Some target, Some path, Some id =>
      t ← read_term id row;
      Ok (match t with Some t => upsert self target path (push_value t) | None => self end)
  | _, _, _ => Ok self
  end.

Definition si_load_request (caps : Capabilities) : Request :=
  let id := if int64_as_text caps then "CAST(id AS TEXT)" else "id" in
  Request_read [Statement_new "SELECT target, path, datatype, min_count, max_count, pattern, relationship FROM shapes_index";
                Statement_new ("SELECT target, path, " +:+ id +:+ ", lex, dt, lang, dir FROM shapes_in")].

Definition si_from_response (response : Response) : result Error ShapeIndex :=
  match response with
  | [] => Ok default_index
  | index :: rest =>
      me ← try_fold read_shape default_index (rows index);
      match rest with
      | [] => Ok me
      | values :: _ => try_fold read_value me (rows values)
      end
  end.
End index.
