(* ===== verification/Stats.v ===== *)
(** * Planner statistics ([crates/oxilite-core/src/stats.rs])

    The statements that recompute the statistics, the request that loads them with the settings
    of the store, and the reader of its response. *)

From S2P Require Export Shapes Vector Resolve.

Record PredicateStats := mkPredicateStats { triples : f64; distinct_subjects : f64; distinct_objects : f64 }.

Record Stats := mkStats {
  st_available : bool;
  st_total : f64;
  st_predicates : gmap Z PredicateStats;
  st_classes : gmap Z f64;
  st_pairs : gmap (Z * Z) f64;
  st_graph_index : bool;
  st_text_index : bool;
  st_transitive : gset Z;
  st_schema_scopes : gset Z;
  st_version : VersionState;
  st_vector_indexes : list VectorIndex;
  st_vector_problems : list string;
  st_vector_built : gmap string string;
}.

Module Stats.
Section stats.
Context {OX : Oxrdf} {XX : Xxh3} {OD : OxsDatatypes} {SD : StrDebug} {LC : Lowercase}.
Implicit Types (self : Stats) (row : list SqlValue).

Definition default_ : Stats :=
  mkStats false F64.zero ∅ ∅ ∅ false false ∅ ∅
    (mkVersionState Versioning.Off History.None_ false false false) [] [] ∅.

Definition load_request (caps : Capabilities) : Request :=
  let id c := id_col caps c in
  Request_read
    ([Statement_new "SELECT key, value FROM oxilite_meta";
      Statement_new ("SELECT " +:+ id "p" +:+ ", triples, distinct_s, distinct_o FROM stats_pred");
      Statement_new ("SELECT " +:+ id "o" +:+ ", instances FROM stats_class");
      transitive_statement id;
      Statement_new ("SELECT " +:+ id "p" +:+ ", " +:+ id "o" +:+ ", n FROM stats_po");
      scopes_statement id] ++
     (if vectors caps then [vector.definitions_statement id] else [])).

(** ** Reading the response *)

Definition set_built self name value :=
  let '(mkStats a t p c pr g x tr sc v vi vp vb) := self in mkStats a t p c pr g x tr sc v vi vp (<[name := value]> vb).
Definition set_graph_index self b :=
  let '(mkStats a t p c pr g x tr sc v vi vp vb) := self in mkStats a t p c pr b x tr sc v vi vp vb.
Definition set_text_index self b :=
  let '(mkStats a t p c pr g x tr sc v vi vp vb) := self in mkStats a t p c pr g b tr sc v vi vp vb.
Definition set_version self v' :=
  let '(mkStats a t p c pr g x tr sc v vi vp vb) := self in mkStats a t p c pr g x tr sc v' vi vp vb.
Definition set_total self n :=
  let '(mkStats a t p c pr g x tr sc v vi vp vb) := self in mkStats true n p c pr g x tr sc v vi vp vb.
Definition add_predicate self id ps :=
  let '(mkStats a t p c pr g x tr sc v vi vp vb) := self in mkStats a t (<[id := ps]> p) c pr g x tr sc v vi vp vb.
Definition add_class self id n :=
  let '(mkStats a t p c pr g x tr sc v vi vp vb) := self in mkStats a t p (<[id := n]> c) pr g x tr sc v vi vp vb.
Definition add_pair self ids n :=
  let '(mkStats a t p c pr g x tr sc v vi vp vb) := self in mkStats a t p c (<[ids := n]> pr) g x tr sc v vi vp vb.
Definition add_transitive self id :=
  let '(mkStats a t p c pr g x tr sc v vi vp vb) := self in mkStats a t p c pr g x ({[id]} ∪ tr) sc v vi vp vb.
Definition add_scope self id :=
  let '(mkStats a t p c pr g x tr sc v vi vp vb) := self in mkStats a t p c pr g x tr ({[id]} ∪ sc) v vi vp vb.
Definition set_vectors self indexes problems :=
  let '(mkStats a t p c pr g x tr sc v vi vp vb) := self in mkStats a t p c pr g x tr sc v indexes problems vb.

Definition version_keys : list string := ["versioning"; "history"; "stamp_column"; "stamp_index"; "as_of_index"].

Definition read_meta self row : result Error Stats :=
  key ← col row 0; value ← col row 1;
  let key := default "" (SqlValue.as_str key) in
  let value := default "" (SqlValue.into_string value) in
  Ok (match strip_prefix key "vector:" with
      | Some name => set_built self name value
      | None =>
          if String.eqb key "graph_index" then set_graph_index self (String.eqb value "1")
          else if String.eqb key "text_index" then set_text_index self (String.eqb value "1")
          else if bool_decide (key ∈ version_keys) then set_version self (Version.absorb (st_version self) key value)
          else if String.eqb key "total" then set_total self (default F64.zero (F64.parse value))
          else self
      end).

Definition read_predicate self row : result Error Stats :=
  p ← col row 0; t ← col row 1; ds ← col row 2; d_o ← col row 3;
  Ok (match SqlValue.as_i64 p, SqlValue.as_f64 t, SqlValue.as_f64 ds, SqlValue.as_f64 d_o with
      | Some p, Some t, Some ds, Some d_o =>
          add_predicate self p (mkPredicateStats t (F64.max ds (F64.of_Z 1)) (F64.max d_o (F64.of_Z 1)))
      | _, _, _, _ => self
      end).

Definition read_class self row : result Error Stats :=
  o ← col row 0; n ← col row 1;
  Ok (match SqlValue.as_i64 o, SqlValue.as_f64 n with Some o, Some n => add_class self o n | _, _ => self end).

Definition read_id (add : Stats -> Z -> Stats) self row : result Error Stats :=
  v ← col row 0; Ok (match SqlValue.as_i64 v with Some p => add self p | None => self end).

Definition read_pair self row : result Error Stats :=
  p ← col row 0; o ← col row 1; n ← col row 2;
  Ok (match SqlValue.as_i64 p, SqlValue.as_i64 o, SqlValue.as_f64 n with
      | Some p, Some o, Some n => add_pair self (p, o) n
      | _, _, _ => self
      end).

Definition result_rows (response : Response) (i : nat) : list (list SqlValue) :=
  match response !! i with Some r => rows r | None => [] end.

Definition from_response (response : Response) : result Error Stats :=
  _ ← (if (length response =? 7)%nat then Ok tt else expect_len response 6);
  stats ← try_fold read_meta default_ (result_rows response 0);
  stats ← try_fold read_predicate stats (result_rows response 1);
  stats ← try_fold read_class stats (result_rows response 2);
  stats ← try_fold (read_id add_transitive) stats (result_rows response 3);
  stats ← try_fold (read_id add_scope) stats (result_rows response 5);
  stats ← try_fold read_pair stats (result_rows response 4);
  Ok (match response !! 6%nat with
      | Some defs => let '(indexes, problems) := vector.definitions_from_rows (rows defs) in set_vectors stats indexes problems
      | None => stats
      end).

(** ** Recomputing them *)

Definition refresh_statements : list Statement :=
  Statement_new <$>
  ["DELETE FROM stats_pred";
   "INSERT INTO stats_pred(p, triples, distinct_s, distinct_o) SELECT p, COUNT(*), COUNT(DISTINCT s), COUNT(DISTINCT o) FROM quads GROUP BY p";
   "DELETE FROM stats_class";
   "INSERT INTO stats_class(o, instances) SELECT o, COUNT(*) FROM quads WHERE p = " +:+ show_Z rdf_type_id +:+ " GROUP BY o";
   "INSERT OR REPLACE INTO oxilite_meta(key, value) SELECT 'total', CAST(COUNT(*) AS TEXT) FROM quads";
   "DELETE FROM stats_po";
   "INSERT INTO stats_po(p, o, n) SELECT q.p, q.o, COUNT(*) FROM quads q JOIN stats_pred sp ON sp.p = q.p " +:+
   "WHERE sp.distinct_o <= 1024 AND q.p <> " +:+ show_Z rdf_type_id +:+ " GROUP BY q.p, q.o, sp.triples, sp.distinct_o " +:+
   "HAVING COUNT(*) >= 4.0 * sp.triples / sp.distinct_o ORDER BY COUNT(*) DESC LIMIT 2000"].

Definition refresh_request : Request :=
  Request_atomic (refresh_statements ++ closure_statements ++ Shapes.refresh_statements).
End stats.
End Stats.
