(* ===== verification/HistoryJobs.v ===== *)
(** * Changing the level, and the history as data ([crates/oxilite-core/src/version.rs], the end)

    The job that changes the level of a store and reloads its statistics, and the SQL of the
    history graph. *)

From S2P Require Export VersionHistory Stats.

Section jobs.
Context {OX : Oxrdf} {XX : Xxh3} {OD : OxsDatatypes} {SD : StrDebug} {LC : Lowercase}.

Record LevelChangeJob := mkLevelChangeJob { lj_change : option Request; lj_load : option Request }.

Definition level_change_job (state : VersionState) (to : Versioning.t) (change : LevelChange) (caps : Capabilities)
  : result Error LevelChangeJob :=
  statements ← change_statements change state to;
  Ok (mkLevelChangeJob (match statements with [] => None | _ => Some (Request_atomic statements) end) (Some (Stats.load_request caps))).

#[global] Instance level_change_job_job : Job LevelChangeJob := {
  Output := Stats;
  step self response :=
    match lj_change self, lj_load self with
    | Some r, load => Ok (Execute r, mkLevelChangeJob None load)
    | None, Some r => Ok (Execute r, mkLevelChangeJob None None)
    | None, None => stats ← try (Stats.from_response (default [] response)); Ok (Done stats, self)
    end;
}.
End jobs.

(** The vocabulary of the history graph. *)
Module history.
Definition ADDED : string := "https://oxilite.dev/ns#added".
Definition REMOVED : string := "https://oxilite.dev/ns#removed".
Definition ACTIVITY : string := "http://www.w3.org/ns/prov#Activity".
Definition STARTED : string := "http://www.w3.org/ns/prov#startedAtTime".
Definition AGENT : string := "http://www.w3.org/ns/prov#wasAssociatedWith".
Definition INFORMED_BY : string := "http://www.w3.org/ns/prov#wasInformedBy".
Definition COMMENT : string := "http://www.w3.org/2000/01/rdf-schema#comment".
Definition TYPE : string := "http://www.w3.org/1999/02/22-rdf-syntax-ns#type".
End history.

Section history_sql.
Context {XX : Xxh3}.

Definition history_arm (state : VersionState) (p o extra : string) : string :=
  "SELECT k.t + " +:+ show_Z expr_int_base +:+ " AS s, " +:+ show_Z (named_node_id p) +:+ " AS p, " +:+ o +:+
  " AS o, 0 AS g FROM ticks k WHERE " +:+ activity_filter state "k" +:+ extra.

Definition history_sql (state : VersionState) : result Error string :=
  if has_ticks state then
    let fj := activity_filter state "j" in
    Ok ("(" +:+ union_all
      [history_arm state history.TYPE (show_Z (named_node_id history.ACTIVITY)) "";
       history_arm state history.STARTED "k.time_id" " AND k.time_id IS NOT NULL";
       history_arm state history.AGENT "k.author_id" " AND k.author_id IS NOT NULL";
       history_arm state history.COMMENT "k.message_id" " AND k.message_id IS NOT NULL";
       history_arm state history.INFORMED_BY
         ("(SELECT max(j.t) FROM ticks j WHERE j.t < k.t AND " +:+ fj +:+ ") + " +:+ show_Z expr_int_base)
         (" AND EXISTS (SELECT 1 FROM ticks j WHERE j.t < k.t AND " +:+ fj +:+ ")")] 5 +:+ ")")
  else Err (Other "this store keeps no history: raise its versioning level to `stamped` or `log`").
End history_sql.
