(* ===== verification/StoreSchema.v ===== *)
(** * The schema of a store ([crates/oxilite-core/src/schema.rs], [text.rs])

    The statements that create a store: its tables, the optional indexes and text index, its
    versioning and its system graphs. The schema script is total but for one combination of
    options, for which it panics ([create_schema_panics]). *)

From S2P Require Export HistoryJobs.

Definition SCHEMA_VERSION : string := "2".

Definition TBOX_TABLE : string :=
  "CREATE TABLE IF NOT EXISTS tbox_closure (kind INTEGER NOT NULL, scope INTEGER NOT NULL, sub INTEGER NOT NULL, sup INTEGER NOT NULL, PRIMARY KEY (kind, scope, sup, sub)) WITHOUT ROWID, STRICT".
Definition TBOX_INDEX : string := "CREATE INDEX IF NOT EXISTS tbox_closure_sub ON tbox_closure(kind, scope, sub, sup)".

Record StoreOptions := mkStoreOptions {
  so_graph_index : bool;
  so_text_index : bool;
  so_versioning : Versioning.t;
  so_stamp_index : bool;
  so_as_of_index : bool;
  so_system_graphs : bool;
}.
Definition default_options : StoreOptions := mkStoreOptions true false Versioning.Off false false false.

(** [then_some(true)] of the flags. *)
Definition so_level_change (self : StoreOptions) : LevelChange :=
  mkLevelChange (if so_as_of_index self then Some true else None) (if so_stamp_index self then Some true else None) false None None.

(** ** The text index *)

Module text.
Definition is_text (x : string) : string := "((" +:+ x +:+ ") >> " +:+ show_Z PAYLOAD_BITS +:+ ") IN (3, 4, 10)".

Definition schema_statements : list Statement :=
  Statement_new <$>
  ["CREATE VIRTUAL TABLE IF NOT EXISTS terms_fts USING fts5(lex, content='terms', content_rowid='id', tokenize='unicode61 remove_diacritics 2')";
   "CREATE TRIGGER IF NOT EXISTS terms_fts_insert AFTER INSERT ON terms WHEN " +:+ is_text "NEW.id" +:+
   " BEGIN INSERT INTO terms_fts(rowid, lex) VALUES (NEW.id, NEW.lex); END";
   "CREATE TRIGGER IF NOT EXISTS terms_fts_delete AFTER DELETE ON terms WHEN " +:+ is_text "OLD.id" +:+
   " BEGIN INSERT INTO terms_fts(terms_fts, rowid, lex) VALUES ('delete', OLD.id, OLD.lex); END";
   "INSERT INTO terms_fts(rowid, lex) SELECT id, lex FROM terms WHERE " +:+ is_text "id" +:+
   " AND NOT EXISTS (SELECT 1 FROM oxilite_meta WHERE key = 'text_index' AND value = '1')";
   "INSERT OR REPLACE INTO oxilite_meta(key, value) VALUES ('text_index', '1')"].
End text.

(** ** The tables *)

Definition base_tables : list string :=
  ["CREATE TABLE IF NOT EXISTS oxilite_meta (key TEXT PRIMARY KEY, value TEXT NOT NULL) STRICT";
   "CREATE TABLE IF NOT EXISTS terms (id INTEGER PRIMARY KEY, lex TEXT NOT NULL, dt TEXT, lang TEXT, dir INTEGER, num REAL, nt INTEGER, ts REAL) STRICT";
   "CREATE INDEX IF NOT EXISTS terms_num ON terms(num) WHERE num IS NOT NULL";
   "CREATE INDEX IF NOT EXISTS terms_ts ON terms(ts) WHERE ts IS NOT NULL";
   "CREATE TRIGGER IF NOT EXISTS terms_collision BEFORE INSERT ON terms WHEN EXISTS (SELECT 1 FROM terms t WHERE t.id = NEW.id AND (t.lex IS NOT NEW.lex OR t.dt IS NOT NEW.dt OR t.lang IS NOT NEW.lang OR t.dir IS NOT NEW.dir)) BEGIN SELECT RAISE(ABORT, 'oxilite: term hash collision'); END";
   "CREATE TABLE IF NOT EXISTS triple_terms (id INTEGER PRIMARY KEY, s INTEGER NOT NULL, p INTEGER NOT NULL, o INTEGER NOT NULL, vk TEXT NOT NULL, sk TEXT NOT NULL) STRICT";
   "CREATE TABLE IF NOT EXISTS quads (s INTEGER NOT NULL, p INTEGER NOT NULL, o INTEGER NOT NULL, g INTEGER NOT NULL DEFAULT 0, PRIMARY KEY (s, p, o, g)) WITHOUT ROWID, STRICT";
   "CREATE INDEX IF NOT EXISTS quads_posg ON quads(p, o, s, g)";
   "CREATE INDEX IF NOT EXISTS quads_ospg ON quads(o, s, p, g)";
   "CREATE TABLE IF NOT EXISTS graphs (id INTEGER PRIMARY KEY) STRICT";
   "CREATE TABLE IF NOT EXISTS stats_pred (p INTEGER PRIMARY KEY, triples INTEGER NOT NULL, distinct_s INTEGER NOT NULL, distinct_o INTEGER NOT NULL) STRICT";
   "CREATE TABLE IF NOT EXISTS stats_class (o INTEGER PRIMARY KEY, instances INTEGER NOT NULL) STRICT";
   "CREATE TABLE IF NOT EXISTS stats_po (p INTEGER NOT NULL, o INTEGER NOT NULL, n INTEGER NOT NULL, PRIMARY KEY (p, o)) WITHOUT ROWID, STRICT";
   TBOX_TABLE;
   TBOX_INDEX;
   "CREATE TABLE IF NOT EXISTS quads_inf (s INTEGER NOT NULL, p INTEGER NOT NULL, o INTEGER NOT NULL, g INTEGER NOT NULL DEFAULT 0, PRIMARY KEY (s, p, o, g)) WITHOUT ROWID, STRICT";
   "CREATE INDEX IF NOT EXISTS quads_inf_posg ON quads_inf(p, o, s, g)";
   "CREATE INDEX IF NOT EXISTS quads_inf_ospg ON quads_inf(o, s, p, g)";
   "CREATE TABLE IF NOT EXISTS quads_inf_src (src INTEGER NOT NULL, s INTEGER NOT NULL, p INTEGER NOT NULL, o INTEGER NOT NULL, g INTEGER NOT NULL DEFAULT 0, PRIMARY KEY (s, p, o, g, src)) WITHOUT ROWID, STRICT";
   "CREATE TABLE IF NOT EXISTS inf_producers (id INTEGER PRIMARY KEY, name TEXT NOT NULL) STRICT";
   "CREATE TABLE IF NOT EXISTS shapes_index (target TEXT NOT NULL, path TEXT NOT NULL, datatype TEXT, min_count INTEGER, max_count INTEGER, pattern TEXT, relationship INTEGER NOT NULL DEFAULT 0, PRIMARY KEY (target, path)) WITHOUT ROWID, STRICT";
   "CREATE TABLE IF NOT EXISTS shapes_in (target TEXT NOT NULL, path TEXT NOT NULL, id INTEGER NOT NULL, lex TEXT, dt TEXT, lang TEXT, dir INTEGER, PRIMARY KEY (target, path, id)) WITHOUT ROWID, STRICT";
   "CREATE TABLE IF NOT EXISTS datalog_work (run INTEGER NOT NULL, rel INTEGER NOT NULL, c0 INTEGER NOT NULL DEFAULT 0, c1 INTEGER NOT NULL DEFAULT 0, c2 INTEGER NOT NULL DEFAULT 0, c3 INTEGER NOT NULL DEFAULT 0, c4 INTEGER NOT NULL DEFAULT 0, c5 INTEGER NOT NULL DEFAULT 0, PRIMARY KEY (run, rel, c0, c1, c2, c3, c4, c5)) WITHOUT ROWID, STRICT";
   "CREATE TABLE IF NOT EXISTS update_buffer (op INTEGER NOT NULL, s INTEGER NOT NULL, p INTEGER NOT NULL, o INTEGER NOT NULL, g INTEGER NOT NULL) STRICT";
   "CREATE TABLE IF NOT EXISTS oxilite_guard (graph_does_not_exist INTEGER CHECK (graph_does_not_exist IS NULL), graph_already_exists INTEGER CHECK (graph_already_exists IS NULL), computed_value_not_storable INTEGER CHECK (computed_value_not_storable IS NULL)) STRICT"].

Definition base_schema (options : StoreOptions) : Request :=
  Request_atomic
    ((Statement_new <$> base_tables) ++
     (if so_graph_index options then [Statement_new "CREATE INDEX IF NOT EXISTS quads_gspo ON quads(g, s, p, o)"] else []) ++
     (if so_text_index options then text.schema_statements else []) ++
     [Statement_new ("INSERT OR IGNORE INTO oxilite_meta(key, value) VALUES ('schema_version', '" +:+ SCHEMA_VERSION +:+ "'), ('graph_index', '" +:+
        flag (so_graph_index options) +:+ "'), ('int_offset', '" +:+ show_Z INT_OFFSET +:+ "'), ('payload_bits', '" +:+ show_Z PAYLOAD_BITS +:+
        "'), ('integer_tag', '" +:+ show_Z (Tag.to_u8 Integer) +:+ "')")]).

Section schema.
Context {OX : Oxrdf} {XX : Xxh3} {OD : OxsDatatypes}.
(** The triples of the bundled vocabulary file, read by a third-party parser. *)
Context (vocabulary : list Triple).

Definition system_graph_statements (caps : Capabilities) : list Statement :=
  EncodedQuads_insert_statements (EncodedQuads_new (system_quads vocabulary)) caps ++ closure_statements ++ Shapes.refresh_statements.

Definition no_versioning : VersionState := mkVersionState Versioning.Off History.None_ false false false.

Definition create_schema (options : StoreOptions) : result Fault Request :=
  change ← (if Versioning.leb (so_versioning options) Versioning.Off then Ok []
            else expect (ok (change_statements (so_level_change options) no_versioning (so_versioning options)))
                   "versioning from off is always possible");
  Ok (mkRequest (statements (base_schema options) ++ change ++
                 (if so_system_graphs options then system_graph_statements d1 else []))
        (mode (base_schema options))).

Definition schema_sql_with (options : StoreOptions) (extra : list Statement) : result Fault string :=
  r ← create_schema options;
  Ok (foldl (fun out s => out +:+ sql s +:+ ";" +:+ NEWLINE)
        ("-- oxilite schema (generated by oxilite_core::schema::schema_sql)" +:+ NEWLINE) (statements r ++ extra)).

Definition schema_sql (options : StoreOptions) : result Fault string := schema_sql_with options [].
End schema.

(** C37: the schema of a store is created for every combination of options but one: with stamped
    versioning and the as-of index the code panics, although it takes versioning from [off] to
    be always possible; the index needs a change log, which only the level [log] has. *)
Theorem create_schema_panics {OX : Oxrdf} {XX : Xxh3} {OD : OxsDatatypes} vocabulary options :
  is_ok (create_schema vocabulary options) = negb (bool_decide (so_versioning options = Versioning.Stamped) && so_as_of_index options).
Proof. unfold create_schema. destruct options as [gi ti [] si [] sg]; try reflexivity; by destruct si. Qed.
