(* ===== verification/JoinOrder.v ===== *)
(** * Join ordering ([crates/oxilite-core/src/compiler/plan.rs])

    The greedy, statistics-driven order of the triple patterns of a basic graph pattern. *)

From S2P Require Export Stats.

(** A position of a triple pattern after constant encoding. *)
Inductive Pos := Const (id : Z) | PVar (v : nat).

Definition is_bound (p : Pos) (bound : gset nat) : bool :=
  match p with Const _ => true | PVar v => bool_decide (v ∈ bound) end.
Definition pos_var (p : Pos) : option nat := match p with PVar v => Some v | Const _ => None end.

(** [[Pos; 3]]. *)
Definition TriplePositions : Type := Pos * Pos * Pos.
Definition positions (tp : TriplePositions) : list Pos := let '(s, p, o) := tp in [s; p; o].

Module Plan.
Section plan.
Context {OX : Oxrdf} {XX : Xxh3}.
Implicit Types (bound : gset nat) (stats : Stats).

Definition one : f64 := F64.of_Z 1.
Definition half : f64 := F64.div (F64.of_Z 1) (F64.of_Z 2).

(** The triples with this predicate and object: a class, a frequent value, or the average. *)
Definition with_object stats (ps : PredicateStats) (pid : Z) (o : Pos) (sb : bool) (c : f64) : f64 :=
  match o with
  | Const oid =>
      let c := if pid =? rdf_type_id then default half (st_classes stats !! oid)
               else default (F64.div c (distinct_objects ps)) (st_pairs stats !! (pid, oid)) in
      if sb then F64.min c one else c
  | PVar _ => F64.div c (distinct_objects ps)
  end.

Definition estimate_predicate stats (ps : PredicateStats) (pid : Z) (o : Pos) (sb ob : bool) : f64 :=
  let c := triples ps in
  let c := if sb then F64.div c (distinct_subjects ps) else c in
  let c := if ob then with_object stats ps pid o sb c else c in
  F64.max c half.

Definition estimate_any stats (total : f64) (sb pb ob : bool) : f64 :=
  let c := total in
  let c := if pb then F64.div c (F64.of_Z (Z.max (Z.of_nat (size (st_predicates stats))) 1)) else c in
  let c := if sb then F64.div c (F64.mul (F64.max (F64.sqrt total) one) (F64.of_Z 4)) else c in
  let c := if ob then F64.div c (F64.max (F64.sqrt total) one) else c in
  F64.max c half.

(** Without statistics: subject, then object, then predicate selectivity. *)
Definition heuristic (p o : Pos) (sb pb ob : bool) : f64 :=
  let c := F64.of_Z (10 ^ 7) in
  let c := if sb then F64.div c (F64.of_Z (10 ^ 5)) else c in
  let c := if ob then F64.div c (F64.of_Z (10 ^ 4)) else c in
  if pb then
    let c := F64.div c (F64.of_Z (10 ^ 2)) in
    match p, o with
    | Const pid, Const _ => if pid =? rdf_type_id then F64.mul c (F64.of_Z 50) else c
    | _, _ => c
    end
  else c.

(** Estimated number of matches of a pattern given the bound variables. *)
Definition estimate (tp : TriplePositions) bound stats : f64 :=
  let '(s, p, o) := tp in
  let '(sb, pb, ob) := (is_bound s bound, is_bound p bound, is_bound o bound) in
  if st_available stats then
    let total := F64.max (st_total stats) one in
    match p with
    | Const pid =>
        match st_predicates stats !! pid with
        | None => half
        | Some ps => estimate_predicate stats ps pid o sb ob
        end
    | PVar _ => estimate_any stats total sb pb ob
    end
  else heuristic p o sb pb ob.

Context (patterns : list TriplePositions) (stats : Stats).

(** [patterns[i]]; the indices are those of the list. *)
Definition pattern_at (i : nat) : TriplePositions := nth i patterns (PVar 0, PVar 0, PVar 0).

Definition shares bound (i : nat) : bool :=
  existsb (fun p => match pos_var p with Some v => bool_decide (v ∈ bound) | None => false end) (positions (pattern_at i)).

(** The order of the candidates: by estimate, then by position. *)
Definition better bound (a b : nat) : bool :=
  match F64.total_cmp (estimate (pattern_at a) bound stats) (estimate (pattern_at b) bound stats) with
  | Lt => true
  | Eq => (a <=? b)%nat
  | Gt => false
  end.

(** [min_by]: the first of the least. *)
Definition best_of bound (first : nat) (rest : list nat) : nat :=
  foldl (fun m i => if better bound m i then m else i) first rest.

Definition candidates bound (remaining out : list nat) : list nat :=
  let connected := List.filter (shares bound) remaining in
  if bool_decide (connected = []) || bool_decide (out = []) && bool_decide (bound = ∅) then remaining else connected.

Definition bind_pattern bound (i : nat) : gset nat :=
  foldl (fun b p => match pos_var p with Some v => {[v]} ∪ b | None => b end) bound (positions (pattern_at i)).

Fixpoint order_loop (fuel : nat) bound (remaining out : list nat) : option (list nat) :=
  match remaining with
  | [] => Some out
  | _ =>
      match fuel, candidates bound remaining out with
      | S fuel, c :: cs =>
          let best := best_of bound c cs in
          order_loop fuel (bind_pattern bound best) (List.filter (fun i => negb (Nat.eqb i best)) remaining) (out ++ [best])
      | _, _ => None
      end
  end.

(** The indices of the patterns: cheapest first, then the cheapest connected one, and so on. *)
Definition order (pre_bound : gset nat) : option (list nat) :=
  order_loop (length patterns) pre_bound (seq 0 (length patterns)) [].
End plan.
End Plan.
