(* ===== verification/JoinOrderFacts.v ===== *)
(** * The join order: every pattern once, greedily, without needless cross products *)

From S2P Require Export JoinOrder.

Section order.
Context {XX : Xxh3} (patterns : list TriplePositions) (stats : Stats).
Implicit Types (bound : gset nat) (i j : nat) (l out : list nat).
#[local] Abbreviation at_ := (Plan.pattern_at patterns).
#[local] Abbreviation shares := (Plan.shares patterns).
#[local] Abbreviation better := (Plan.better patterns stats).

(** The variables bound once the patterns [l] are joined. *)
Definition bound_after bound l : gset nat := foldl (Plan.bind_pattern patterns) bound l.

(** ** The order of candidates *)

Lemma better_iff bound a b : better bound a b = true <->
  (let key i := F64.total_key (Plan.estimate (at_ i) bound stats) in key a < key b \/ key a = key b /\ (a <= b)%nat).
Proof. unfold Plan.better, F64.total_cmp. cbn. destruct (Z.compare_spec (F64.total_key (Plan.estimate (at_ a) bound stats))
  (F64.total_key (Plan.estimate (at_ b) bound stats))); rewrite ?Nat.leb_le; split; intros; try lia; done. Qed.

Lemma better_refl bound a : better bound a a = true.
Proof. apply better_iff. cbn. lia. Qed.
Lemma better_trans bound a b c : better bound a b = true -> better bound b c = true -> better bound a c = true.
Proof. rewrite !better_iff. cbn. lia. Qed.
Lemma better_total bound a b : better bound a b = false -> better bound b a = true.
Proof.
  destruct (better bound b a) eqn:H; [done|]. apply not_true_iff_false in H. rewrite better_iff in H. cbn in H.
  intros H2%not_true_iff_false. rewrite better_iff in H2. cbn in H2. lia.
Qed.

Lemma best_of_spec bound l i :
  Plan.best_of patterns stats bound i l ∈ i :: l /\ forall j, j ∈ i :: l -> better bound (Plan.best_of patterns stats bound i l) j = true.
Proof.
  revert i. induction l as [|k l IH]; intros i; cbn.
  - split; [by left|]. intros j ->%list_elem_of_singleton. apply better_refl.
  - destruct (better bound i k) eqn:H; [destruct (IH i) as [Hin Hle]|destruct (IH k) as [Hin Hle]];
      unfold Plan.best_of in Hin, Hle; (split; [rewrite !elem_of_cons in *; tauto|]); intros j; rewrite !elem_of_cons.
    + intros [->|[->|Hj]]; [apply Hle; left|eapply better_trans; [apply Hle; left|done]|apply Hle; by right].
    + intros [->|[->|Hj]]; [eapply better_trans; [apply Hle; left|by apply better_total]|apply Hle; left|apply Hle; by right].
Qed.

(** ** One choice *)

(** [i] may come next, before all of [l]: it is connected if any is, and the cheapest, then the
    first, of those as connected as it is. *)
Definition next_choice bound i l : Prop :=
  forall j, j ∈ l -> (shares bound j = true -> shares bound i = true) /\ (shares bound j = shares bound i -> better bound i j = true).

Lemma shares_empty i : shares ∅ i = false.
Proof.
  apply not_true_iff_false. unfold Plan.shares. rewrite existsb_exists. intros (p & _ & H).
  destruct (pos_var p); [|done]. apply bool_decide_eq_true in H. set_solver.
Qed.

Lemma candidates_cons bound remaining out : remaining <> [] ->
  exists c cs, Plan.candidates patterns bound remaining out = c :: cs /\
    Plan.best_of patterns stats bound c cs ∈ remaining /\ next_choice bound (Plan.best_of patterns stats bound c cs) remaining.
Proof.
  intros Hr. unfold Plan.candidates. set (connected := List.filter (shares bound) remaining).
  assert (forall j, j ∈ connected <-> j ∈ remaining /\ shares bound j = true) as Hc.
  { intros j. unfold connected. by rewrite !list_elem_of_In, filter_In. }
  assert ((bool_decide (connected = []) || bool_decide (out = []) && bool_decide (bound = ∅)) = bool_decide (connected = [])) as ->.
  { destruct (decide (bound = ∅)) as [->|H]; [|rewrite (bool_decide_eq_false_2 _ H), andb_false_r; apply orb_false_r].
    rewrite (bool_decide_eq_true_2 (connected = [])); [done|]. destruct connected as [|j cs] eqn:Hj; [done|].
    assert (shares ∅ j = true) by (apply Hc; left). by rewrite shares_empty in *. }
  case_bool_decide as Hn.
  - destruct remaining as [|c cs]; [done|]. exists c, cs. destruct (best_of_spec bound cs c) as [Hin Hle]. split_and!; [done..|].
    intros j Hj. split; [|intros _; by apply Hle]. intros Hs. assert (j ∈ connected) as H by (by apply Hc). by rewrite Hn in H; apply elem_of_nil in H.
  - destruct connected as [|c cs] eqn:Hcs; [done|]. exists c, cs. destruct (best_of_spec bound cs c) as [Hin Hle].
    apply Hc in Hin as [Hin Hs]. split_and!; [done..|]. intros j Hj. split; [done|]. rewrite Hs. intros Hsj. apply Hle, Hc. done.
Qed.

(** ** The loop *)

Lemma order_loop_spec fuel bound remaining out : NoDup remaining -> (length remaining <= fuel)%nat ->
  exists l, Plan.order_loop patterns stats fuel bound remaining out = Some (out ++ l) /\ l ≡ₚ remaining /\
    forall pre i post, l = pre ++ i :: post -> next_choice (bound_after bound pre) i post.
Proof.
  revert bound remaining out. induction fuel as [|fuel IH]; intros bound remaining out Hnd Hlen.
  { destruct remaining; cbn in Hlen; [|lia]. exists []. cbn. rewrite app_nil_r. split_and!; [done..|]. by intros [|? pre]. }
  destruct (decide (remaining = [])) as [->|Hr].
  { exists []. cbn. rewrite app_nil_r. split_and!; [done..|]. by intros [|? pre]. }
  destruct (candidates_cons bound remaining out Hr) as (c & cs & Hc & Hin & Hnext). cbn [Plan.order_loop].
  destruct remaining as [|r rs] eqn:Hrem; [done|]. rewrite <- Hrem in *. clear Hrem r rs. rewrite Hc.
  set (best := Plan.best_of patterns stats bound c cs) in *. set (rest := List.filter (fun i => negb (Nat.eqb i best)) remaining).
  assert (forall j, j ∈ rest <-> j ∈ remaining /\ j <> best) as Hrest.
  { intros j. unfold rest. rewrite !list_elem_of_In, filter_In, negb_true_iff, Nat.eqb_neq. done. }
  assert (NoDup rest) as Hnd' by (apply NoDup_ListNoDup, List.NoDup_filter, NoDup_ListNoDup, Hnd).
  assert (best :: rest ≡ₚ remaining) as Hperm.
  { apply NoDup_Permutation; [|done|].
    - apply NoDup_cons. split; [|done]. rewrite Hrest. by intros [_ ?].
    - intros j. rewrite elem_of_cons, Hrest. destruct (decide (j = best)) as [->|]; tauto. }
  destruct (IH (Plan.bind_pattern patterns bound best) rest (out ++ [best])) as (l & Hl & Hp & Hg); [done| |].
  { apply Permutation_length in Hperm. cbn in Hperm. lia. }
  exists (best :: l). rewrite Hl. split_and!; [by rewrite <- app_assoc|by rewrite Hp|].
  intros [|b pre] i post [= -> ->]; [|by apply Hg].
  intros j Hj. apply Hnext. rewrite Hp in Hj. by apply Hrest in Hj as [? _].
Qed.

Lemma order_spec pre_bound : exists l, Plan.order patterns stats pre_bound = Some l /\ l ≡ₚ seq 0 (length patterns) /\
  forall pre i post, l = pre ++ i :: post -> next_choice (bound_after pre_bound pre) i post.
Proof. apply (order_loop_spec _ _ _ []); [apply NoDup_ListNoDup, seq_NoDup|by rewrite length_seq]. Qed.

(** ** Connectedness *)

Definition has_var i (v : nat) : Prop := PVar v ∈ positions (at_ i).

Lemma shares_iff bound i : shares bound i = true <-> exists v, has_var i v /\ v ∈ bound.
Proof.
  unfold Plan.shares, has_var. rewrite existsb_exists. split.
  - intros (p & Hp & H). destruct p as [|v]; [done|]. apply bool_decide_eq_true in H. exists v. by rewrite list_elem_of_In.
  - intros (v & Hv & H). exists (PVar v). rewrite list_elem_of_In in Hv. split; [done|]. by apply bool_decide_eq_true.
Qed.

Lemma bind_pattern_elem bound i v : v ∈ Plan.bind_pattern patterns bound i <-> v ∈ bound \/ has_var i v.
Proof.
  unfold Plan.bind_pattern, has_var. generalize (positions (at_ i)). intros l. revert bound.
  induction l as [|p l IH]; intros bound; cbn [foldl]; [rewrite elem_of_nil; tauto|]. rewrite IH, elem_of_cons.
  destruct p as [id|w]; cbn; [naive_solver|]. rewrite elem_of_union, elem_of_singleton. naive_solver.
Qed.

Lemma bound_after_elem bound l v : v ∈ bound_after bound l <-> v ∈ bound \/ exists i, i ∈ l /\ has_var i v.
Proof.
  revert bound. induction l as [|i l IH]; intros bound; cbn; [setoid_rewrite elem_of_nil; naive_solver|].
  unfold bound_after in IH. rewrite IH, bind_pattern_elem. setoid_rewrite elem_of_cons. naive_solver.
Qed.

(** Two patterns of the list that share a variable. *)
Definition linked i j : Prop := (j < length patterns)%nat /\ exists v, has_var i v /\ has_var j v.

(** A path from a pattern of [pre] to one of [post] leaves [pre] by a link. *)
Lemma path_leaves (pre post : list nat) i j : rtc linked i j -> i ∈ pre -> j ∈ post -> (forall k, k ∈ pre -> k ∉ post) ->
  (forall k, (k < length patterns)%nat -> k ∈ pre \/ k ∈ post) ->
  exists a b, a ∈ pre /\ b ∈ post /\ exists v, has_var a v /\ has_var b v.
Proof.
  intros Hp. induction Hp as [i|i k j [Hk (v & Hi & Hkv)] _ IH]; intros Hin Hout Hdisj Hall; [by destruct (Hdisj i)|].
  destruct (Hall k Hk) as [Hk'|Hk']; [by apply IH|]. exists i, k. eauto.
Qed.

Lemma connected_order pre_bound l pre i post : Plan.order patterns stats pre_bound = Some l ->
  (forall i j, (i < length patterns)%nat -> (j < length patterns)%nat -> rtc linked i j) ->
  l = pre ++ i :: post -> pre <> [] -> exists v, has_var i v /\ (v ∈ pre_bound \/ exists j, j ∈ pre /\ has_var j v).
Proof.
  intros Hl Hconn Heq Hpre. destruct (order_spec pre_bound) as (l' & Hl' & Hperm & Hgreedy).
  assert (l' = l) as -> by congruence. setoid_rewrite <- bound_after_elem. apply shares_iff.
  assert (forall k, (k < length patterns)%nat <-> k ∈ pre \/ k ∈ i :: post) as Hall.
  { intros k. rewrite <- elem_of_app, <- Heq, Hperm, list_elem_of_In, in_seq. lia. }
  assert (NoDup (pre ++ i :: post)) as (_ & Hdisj & _)%NoDup_app.
  { rewrite <- Heq, Hperm. apply NoDup_ListNoDup, seq_NoDup. }
  destruct pre as [|p pre]; [done|].
  destruct (path_leaves (p :: pre) (i :: post) p i) as (a & b & Ha & Hb & v & Hav & Hbv); [|by left|by left|done|by intros k ?%Hall|].
  { apply Hconn; apply Hall; [left|right]; left. }
  assert (shares (bound_after pre_bound (p :: pre)) b = true) as Hs.
  { apply shares_iff. exists v. split; [done|]. apply bound_after_elem. right. by exists a. }
  apply elem_of_cons in Hb as [->|Hb]; [done|]. by apply (Hgreedy _ _ _ Heq b).
Qed.
End order.


(** C33: when shared variables connect all the patterns, no pattern but the first is joined as a
    cross product: each shares a variable with an earlier one, or with what is bound before. *)
Theorem order_connected `{Xxh3} patterns stats pre_bound l pre i post :
  Plan.order patterns stats pre_bound = Some l ->
  (forall i j, (i < length patterns)%nat -> (j < length patterns)%nat -> rtc (linked patterns) i j) ->
  l = pre ++ i :: post -> pre <> [] ->
  exists v, has_var patterns i v /\ (v ∈ pre_bound \/ exists j, j ∈ pre /\ has_var patterns j v).
Proof. apply connected_order. Qed.

(** ** Witnesses: the chain [?0 9 ?1 . ?2 8 ?3 . ?1 8 ?2] of the source's test *)

Module ConcretePlan.
Import ConcreteEncoding.
Definition stats : Stats :=
  mkStats true (F64.of_Z 1010) {[ 9 := mkPredicateStats (F64.of_Z 1000) (F64.of_Z 1000) (F64.of_Z 1);
                                  8 := mkPredicateStats (F64.of_Z 10) (F64.of_Z 10) (F64.of_Z 10) ]}
    ∅ ∅ true false ∅ ∅ (mkVersionState Versioning.Off History.None_ false false false) [] [] ∅.
Definition patterns : list TriplePositions := [(PVar 0, Const 9, PVar 1); (PVar 2, Const 8, PVar 3); (PVar 1, Const 8, PVar 2)].

Example chain_order : Plan.order patterns stats ∅ = Some [1; 2; 0]%nat.
Proof. vm_compute. reflexivity. Qed.

Lemma chain_linked i j : (i < 3)%nat -> (j < 3)%nat -> rtc (linked patterns) i j.
Proof.
  assert (forall a b v, has_var patterns a v -> has_var patterns b v -> (b < 3)%nat -> linked patterns a b) as Hlink by (unfold linked; eauto).
  assert (forall v, v = 1%nat -> has_var patterns 0 v /\ has_var patterns 2 v) as H1 by (intros v ->; split; [by right; right; left|by left]).
  assert (forall v, v = 2%nat -> has_var patterns 1 v /\ has_var patterns 2 v) as H2 by (intros v ->; split; [by left|by right; right; left]).
  assert (forall k, (k < 3)%nat -> rtc (linked patterns) k 2%nat /\ rtc (linked patterns) 2%nat k) as Hk.
  { intros [|[|[|k]]] ?; [| |done|lia]; split; apply rtc_once.
    - by eapply Hlink; [apply (H1 1%nat)..|lia].
    - by eapply Hlink; [apply (H1 1%nat)..|lia].
    - by eapply Hlink; [apply (H2 2%nat)..|lia].
    - by eapply Hlink; [apply (H2 2%nat)..|lia]. }
  intros Hi Hj. etransitivity; by apply Hk.
Qed.
End ConcretePlan.

Lemma order_connected_witness : let _ := ConcreteEncoding.xxh3 in
  exists v, has_var ConcretePlan.patterns 0 v /\ (v ∈ (∅ : gset nat) \/ exists j, j ∈ [1; 2]%nat /\ has_var ConcretePlan.patterns j v).
Proof.
  intros X. apply (order_connected ConcretePlan.patterns ConcretePlan.stats ∅ [1; 2; 0]%nat [1; 2]%nat 0%nat []);
    [apply ConcretePlan.chain_order|apply ConcretePlan.chain_linked|done|done].
Defined.
