(* ===== verification/Host.v ===== *)
(** * Rules that call host functions ([crates/oxilite-datalog/src/host.rs])

    A rule that calls a function of the application is split: an auxiliary rule over what the
    store binds runs as SQL, the calls are applied to its rows, and the tuples that survive
    replace the rule as facts. Host rules are resolved in dependency order, then the whole
    program runs. The theorems are in [HostFacts]. The entry points of the crate ([lib.rs]) are
    at the end. *)

From S2P Require Export Parse Exec.

(** ** What a program calls *)

Definition is_iri (name : string) : bool := contains_char name ":".

Section host.
Context {OX : Oxrdf}.

(** [walk_calls]: the visitor on every called name, in order, until one fails. *)
Fixpoint walk_calls {E} (e : Expr) (f : string -> result E unit) : result E unit :=
  match e with
  | ECall name args =>
      _ ← f name;
      (fix go (args : list Expr) : result E unit :=
         match args with [] => Ok tt | a :: args => _ ← walk_calls a f; go args end) args
  | EBinary _ l r => _ ← walk_calls l f; walk_calls r f
  | ENot x | ENeg x => walk_calls x f
  | EVar _ | EConst _ => Ok tt
  end.

(** The names called in an expression, in the order of the visit. *)
Fixpoint called (e : Expr) : list string :=
  match e with
  | ECall name args =>
      name :: (fix go (args : list Expr) : list string :=
                 match args with [] => [] | a :: args => called a ++ go args end) args
  | EBinary _ l r => called l ++ called r
  | ENot x | ENeg x => called x
  | EVar _ | EConst _ => []
  end.

Definition calls_host (e : Expr) : bool := existsb is_iri (called e).

Implicit Types (functions : Functions).

Definition is_host_atom (a : Atom) functions : bool :=
  match pred a with
  | Edb iri => match functions.get functions iri with Some _ => true | None => false end
  | _ => false
  end.

Definition is_host_rule (rule : Rule) functions : bool :=
  existsb (fun i => match i with
                    | BAtom a => is_host_atom a functions
                    | Constraint e => calls_host e
                    | Negated _ => false
                    end) (body rule).

(** The visitor of [uses_host_functions]: whether a call is the application's. *)
Definition visit functions (e : Expr) (any : bool) : result DatalogError bool :=
  _ ← walk_calls e (fun name =>
        if is_iri name && match functions.get functions name with Some _ => false | None => true end
        then Err (DatalogError.unsupported ("unknown function <" +:+ name +:+ ">: register it as a host function"))
        else Ok tt);
  Ok (any || calls_host e).

Definition uses_in_item functions (any : bool) (i : BodyItem) : result DatalogError bool :=
  match i with
  | Constraint e => visit functions e any
  | BAtom a => Ok (any || is_host_atom a functions)
  | Negated a =>
      if is_host_atom a functions then
        Err (DatalogError.unsupported ("host function " +:+ Pred.to_string (pred a) +:+
          " cannot be negated; negate a constraint that calls it"))
      else Ok any
  end.

Definition uses_host_functions (program : Program) functions : result DatalogError bool :=
  any ← try_fold (uses_in_item functions) false (rules program ≫= body);
  match goal program with
  | Some g => try_fold (fun any c => visit functions c any) any (goal_constraints g)
  | None => Ok any
  end.

(** ** Dependencies *)

(** The derived relations a rule body reads. *)
Definition body_preds (rule : Rule) : list Pred :=
  omap (fun i => match i with
                 | BAtom a | Negated a => match pred a with Idb _ => Some (pred a) | _ => None end
                 | Constraint _ => None
                 end) (body rule).

(** The [while] loop; [todo] is a stack, its last element is popped. *)
Fixpoint closure_loop (fuel : nat) (program : Program) (seen todo : list Pred) : list Pred :=
  match fuel, last todo with
  | _, None => seen
  | O, _ => seen
  | S fuel, Some p =>
      let rest := removelast todo in
      if decide (p ∈ seen) then closure_loop fuel program seen rest
      else closure_loop fuel program (p :: seen) (rest ++ (rules_for program p ≫= body_preds))
  end.

(** Every pop reads the rules of a new predicate or drops a known one ([HostFacts.closure_enough]). *)
Definition closure (program : Program) (preds : list Pred) : list Pred :=
  closure_loop (length preds + length (rules program ≫= body_preds)) program [] preds.

(** ** The Rust side of a rule *)

(** Variables the store binds: those of the positive atoms that are not host calls. *)
Definition sql_bound (rule : Rule) functions : list string :=
  foldl (fun vars i => match i with
                       | BAtom a => if is_host_atom a functions then vars else atom_vars a vars
                       | _ => vars
                       end) [] (body rule).

Definition is_sql_item (item : BodyItem) (rule : Rule) functions : bool :=
  match item with
  | BAtom a => negb (is_host_atom a functions)
  | Negated _ => true
  | Constraint e =>
      negb (calls_host e) && forallb (fun v => bool_decide (v ∈ sql_bound rule functions)) (expr_vars e [])
  end.

Definition split (rule : Rule) functions : list BodyItem * list string :=
  (List.filter (fun i => is_sql_item i rule functions) (body rule), sql_bound rule functions).

(** *** Values *)

(** A number and whether it is an integer. *)
Definition number (t : Term) : option (f64 * bool) :=
  match t with
  | TermLiteral l =>
      rank ← numeric_rank (lit_datatype l); v ← F64.parse (lit_value l); Some (v, rank =? 1)
  | _ => None
  end.

Definition num_term (v : f64) (integer : bool) : Term :=
  if integer && F64.eqb (F64.fract v) F64.zero && F64.ltb (F64.abs v) (F64.of_Z (9 * 10 ^ 15))
  then TermLiteral (literal_from_i64 (F64.to_i64 v)) else TermLiteral (literal_from_f64 v).

Definition ebv (t : Term) : option bool :=
  match t with
  | TermLiteral l =>
      if String.eqb (lit_datatype l) xsd.BOOLEAN
      then Some (String.eqb (lit_value l) "true" || String.eqb (lit_value l) "1")
      else match number t with
           | Some (n, _) => Some (negb (F64.eqb n F64.zero) && negb (F64.is_nan n))
           | None =>
               if String.eqb (lit_datatype l) xsd.STRING || match lit_language l with Some _ => true | None => false end
               then Some (negb (String.eqb (lit_value l) "")) else None
           end
  | _ => None
  end.

(** RDF term equality, with numbers compared by value. *)
Definition same (a b : Term) : bool :=
  match number a, number b with
  | Some (x, _), Some (y, _) => F64.eqb x y
  | _, _ => bool_decide (a = b)
  end.

Definition bool_term (v : bool) : option Term := Some (TermLiteral (literal_from_bool v)).

Definition compare_terms (a b : Term) : option comparison :=
  match number a, number b, a, b with
  | Some (x, _), Some (y, _), _, _ => F64.partial_cmp x y
  | _, _, TermLiteral x, TermLiteral y =>
      if bool_decide (lit_datatype x = lit_datatype y) then Some (String.compare (lit_value x) (lit_value y)) else None
  | _, _, _, _ => None
  end.

Definition arithmetic (op : BinOp) (x y : f64) : option f64 :=
  match op with
  | OAdd => Some (F64.add x y)
  | OSub => Some (F64.sub x y)
  | OMul => Some (F64.mul x y)
  | _ => if F64.eqb y F64.zero then None else Some (F64.div x y)
  end.

Definition binary (op : BinOp) (a b : Term) : option Term :=
  match op with
  | OAnd => x ← ebv a; if (x : bool) then (y ← ebv b; bool_term y) else bool_term false
  | OOr => x ← ebv a; if (x : bool) then bool_term true else (y ← ebv b; bool_term y)
  | OAdd | OSub | OMul | ODiv =>
      '(x, xi) ← number a;
      '(y, yi) ← number b;
      v ← arithmetic op x y;
      Some (num_term v (xi && yi && negb (bool_decide (op = ODiv))))
  | OEq => bool_term (same a b)
  | ONe => bool_term (negb (same a b))
  | OLt => o ← compare_terms a b; bool_term (match o with Lt => true | _ => false end)
  | OLe => o ← compare_terms a b; bool_term (match o with Gt => false | _ => true end)
  | OGt => o ← compare_terms a b; bool_term (match o with Gt => true | _ => false end)
  | OGe => o ← compare_terms a b; bool_term (match o with Lt => false | _ => true end)
  end.

Definition Bindings : Type := gmap string (@Term OX).

(** [None] is an evaluation error: the row is dropped. *)
Fixpoint eval (e : Expr) (env : Bindings) functions : result DatalogError (option Term) :=
  match e with
  | EVar v => t ← ok_or (env !! v) (DatalogError.unsupported ("?" +:+ v +:+ " is not bound")); Ok (Some t)
  | EConst t => Ok (Some t)
  | ECall name args =>
      match functions.get functions name with
      | None => Err (DatalogError.unsupported (name +:+
          " cannot be evaluated with a host function in one constraint; give it a constraint of its own"))
      | Some f =>
          terms ← (fix go (args : list Expr) : result DatalogError (option (list (@Term OX))) :=
                     match args with
                     | [] => Ok (Some [])
                     | a :: args =>
                         t ← eval a env functions;
                         match t with
                         | Some t => ts ← go args; Ok (option_map (cons t) ts)
                         | None => Ok None
                         end
                     end) args;
          Ok (terms ≫= functions.call f)
      end
  | ENot x => t ← eval x env functions; Ok (b ← t ≫= ebv; bool_term (negb b))
  | ENeg x => t ← eval x env functions; Ok ('(n, i) ← t ≫= number; Some (num_term (F64.neg n) i))
  | EBinary op l r =>
      a ← eval l env functions;
      b ← eval r env functions;
      Ok (x ← a; y ← b; binary op x y)
  end.
End host.

(** ** Applying the calls to rows *)

Section rows.
Context {OX : Oxrdf} {TD : TermDisplay}.
Implicit Types (functions : Functions).

Definition unbound (v f : string) : DatalogError :=
  DatalogError.unsupported ("?" +:+ v +:+ " is not bound when host function <" +:+ f +:+
    "> is called: bind it with an atom or an earlier call").

(** The inputs of a host atom and its output; a single argument is an input. *)
Definition host_args (a : Atom) : list Arg * option Arg :=
  if (length (args a) =? 1)%nat then (args a, None) else (removelast (args a), last (args a)).

Definition input_term (iri : string) (env : Bindings) (arg : Arg) : result DatalogError Term :=
  match arg with
  | ArgConst t => Ok t
  | ArgVar v => ok_or (env !! v) (unbound v iri)
  | Wildcard => Err (DatalogError.unsupported ("`_` cannot be an input of host function <" +:+ iri +:+ ">"))
  end.

(** What a result does to the bindings; [None] drops the row. *)
Definition take_result (output : option Arg) (res : Term) (env : Bindings) : option Bindings :=
  match output with
  | None => if default false (ebv res) then Some env else None
  | Some Wildcard => Some env
  | Some (ArgConst t) => if same res t then Some env else None
  | Some (ArgVar v) =>
      match env !! v with
      | Some t => if same res t then Some env else None
      | None => Some (<[v := res]> env)
      end
  end.

(** [?v = expr] with [?v] not yet bound is an assignment. *)
Definition assignment (e : Expr) (env : Bindings) : option (string * Expr) :=
  match e with
  | EBinary OEq l r =>
      match l with
      | EVar v => if decide (env !! v = None) then Some (v, r)
                  else match r with EVar w => if decide (env !! w = None) then Some (w, l) else None | _ => None end
      | _ => match r with EVar w => if decide (env !! w = None) then Some (w, l) else None | _ => None end
      end
  | _ => None
  end.

Definition run_item functions (env : Bindings) (item : BodyItem) : result CompileFault (option Bindings) :=
  match item with
  | BAtom a =>
      match pred a with
      | Edb iri =>
          match functions.get functions iri with
          | None => Err (Panicked "a host atom")
          | Some f =>
              let '(inputs, output) := host_args a in
              terms ← map_err Refused (try_map (input_term iri env) inputs);
              Ok (res ← functions.call f terms; take_result output res env)
          end
      | _ => Err (Panicked "only host atoms run in Rust")
      end
  | Constraint e =>
      match assignment e env with
      | Some (v, other) =>
          t ← map_err Refused (eval other env functions);
          Ok (t ← t; Some (<[v := t]> env))
      | None =>
          t ← map_err Refused (eval e env functions);
          Ok (t ← t; if bool_decide (ebv t = Some true) then Some env else None)
      end
  | Negated _ => Err (Panicked "negation runs in SQL")
  end.

(** Applies the Rust-evaluated items to one row; [None] drops the row. *)
Fixpoint run_items functions (env : Bindings) (items : list BodyItem) : result CompileFault (option Bindings) :=
  match items with
  | [] => Ok (Some env)
  | i :: items =>
      r ← run_item functions env i;
      match r with Some env => run_items functions env items | None => Ok None end
  end.

Definition fact (h : Head) (tuple : list Term) : Rule :=
  mkRule (mkHead (head_pred h) ((fun t => Plain (ArgConst t)) <$> tuple) (head_span h)) [].

(** A rule that keeps the relation defined and derives nothing. *)
Definition empty_relation (h : Head) : Rule :=
  let f := fact h (replicate (length (head_args h)) (TermLiteral (new_simple_literal ""))) in
  mkRule (head f) [Constraint (EConst (TermLiteral (literal_from_bool false)))].

Definition head_term_of (h : Head) (env : Bindings) (arg : HeadArg) : result DatalogError Term :=
  match arg with
  | Plain (ArgVar v) =>
      ok_or (env !! v) (DatalogError.Unsafe (Pred.to_string (head_pred h)) ("?" +:+ v))
  | Plain (ArgConst t) => Ok t
  | _ => Err (DatalogError.unsupported ("the head of " +:+ Pred.to_string (head_pred h) +:+
      " must be variables and constants"))
  end.

Definition row_env (vars : list string) (row : list (option Term)) : Bindings :=
  foldl (fun env '(v, t) => match t with Some t => <[v := t]> env | None => env end) ∅ (zip vars row).

(** One row: the printed tuples seen, the facts. *)
Definition apply_row functions (rule : Rule) (vars : list string)
    (s : list (list string) * list Rule) (row : list (option Term)) : result CompileFault (list (list string) * list Rule) :=
  let rust := List.filter (fun i => negb (is_sql_item i rule functions)) (body rule) in
  kept ← run_items functions (row_env vars row) rust;
  match kept with
  | None => Ok s
  | Some env =>
      tuple ← map_err Refused (try_map (head_term_of (head rule) env) (head_args (head rule)));
      let key := term_to_string <$> tuple in
      Ok (if decide (key ∈ s.1) then s else (key :: s.1, s.2 ++ [fact (head rule) tuple]))
  end.

(** The facts a host rule derives from the rows of its auxiliary rule. *)
Definition apply functions (rule : Rule) (vars : list string) (rows : list (list (option Term)))
  : result CompileFault (list Rule) :=
  '(_, facts) ← try_fold (apply_row functions rule vars) ([], []) rows;
  Ok (match facts with [] => [empty_relation (head rule)] | _ => facts end).
End rows.

(** ** The job *)

Section job.
Context {OX : Oxrdf} {XX : Xxh3} {OD : OxsDatatypes} {SD : StrDebug} {TD : TermDisplay} `{LC : Lowercase}.

(** Sources of run ids: the [n]th compilation of the job takes the [n]th. *)
Context (runs : nat -> Z).

Record HostJob := mkHostJob {
  hj_caps : Capabilities;
  hj_options : Options;
  hj_program : Program;
  hj_queue : list nat;
  hj_facts : gmap nat (list Rule);
  hj_current : option (option nat * DatalogJob * list string);
  hj_filters : list Expr;
  hj_rounds : list nat;
  hj_compiled : nat;
}.
Implicit Types (self : HostJob).

Definition hj_functions self : Functions := o_functions (hj_options self).

(** [program.rules[i]]. *)
Definition rule_at (program : Program) (i : nat) : result CompileFault Rule :=
  match rules program !! i with Some r => Ok r | None => Err (Panicked "index out of bounds") end.

Definition head_at (program : Program) (i : nat) : option Pred := (fun r => head_pred (head r)) <$> rules program !! i.

(** The relations the rule [i] depends on. *)
Definition deps_of (program : Program) (i : nat) : list Pred :=
  match rules program !! i with Some r => closure program (body_preds r) | None => [] end.

Definition depends (program : Program) (i j : nat) : bool :=
  match head_at program j with Some p => bool_decide (p ∈ deps_of program i) | None => false end.

Definition host_rules (program : Program) (functions : Functions) : list nat :=
  List.filter (fun i => match rules program !! i with Some r => is_host_rule r functions | None => false end)
    (seq 0 (length (rules program))).

Definition check_host_rule (program : Program) (i : nat) : result DatalogError unit :=
  match rules program !! i with
  | None => Ok tt
  | Some rule =>
      let name := Pred.to_string (head_pred (head rule)) in
      if aggregates (head rule) then
        Err (DatalogError.unsupported ("the rule for " +:+ name +:+
          " aggregates and calls a host function; aggregate in a rule over its result instead"))
      else if depends program i i then
        Err (DatalogError.unsupported ("a rule calling a host function cannot be recursive: the rule for " +:+ name +:+
          " depends on itself"))
      else Ok tt
  end.

(** [left.remove(pos)] of the first rule that depends on no other left. *)
Fixpoint order_rules (fuel : nat) (program : Program) (left : list nat) : result DatalogError (list nat) :=
  match left, fuel with
  | [], _ => Ok []
  | _, O => Ok []
  | _, S fuel =>
      match list_find (fun i => existsb (fun j => negb (j =? i)%nat && depends program i j) left = false) left with
      | None => Err (DatalogError.unsupported "rules calling host functions depend on each other in a cycle")
      | Some (pos, i) => q ← order_rules fuel program (delete pos left); Ok (i :: q)
      end
  end.

Definition HostJob_new (program : Program) (caps : Capabilities) (options : Options) : result DatalogError HostJob :=
  let host := host_rules program (o_functions options) in
  _ ← for_each (check_host_rule program) host;
  queue ← order_rules (length host) program host;
  let filters := match goal program with Some g => List.filter calls_host (goal_constraints g) | None => [] end in
  let goal := (fun g => mkGoal (goal_atom g) (List.filter (fun e => negb (calls_host e)) (goal_constraints g))) <$> goal program in
  Ok (mkHostJob caps options (mkProgram (rules program) goal (version program)) queue ∅ None filters [] 0).

(** The rules with resolved host rules replaced by their facts, and unresolved ones left out. *)
Fixpoint resolved_rules (queue : list nat) (facts : gmap nat (list Rule)) (i : nat) (rs : list Rule) : list Rule :=
  match rs with
  | [] => []
  | r :: rs =>
      match facts !! i with
      | Some fs => fs
      | None => if bool_decide (i ∈ queue) then [] else [r]
      end ++ resolved_rules queue facts (S i) rs
  end.

Definition resolved_program self : Program :=
  let p := hj_program self in
  mkProgram (resolved_rules (hj_queue self) (hj_facts self) 0 (rules p)) (goal p) (version p).

Definition hj_compile self (program : Program) : result CompileFault DatalogJob :=
  analysis ← map_err Refused (analyse program);
  compiled ← compile program analysis (hj_caps self) (hj_options self) (runs (hj_compiled self));
  Ok (DatalogJob_new compiled (hj_caps self)).

Definition set_current self (c : option (option nat * DatalogJob * list string)) : HostJob :=
  mkHostJob (hj_caps self) (hj_options self) (hj_program self) (hj_queue self) (hj_facts self) c (hj_filters self)
    (hj_rounds self) (hj_compiled self).

(** A run starts with a fresh id. *)
Definition start_run self (which : option nat) (job : DatalogJob) (vars : list string) : HostJob :=
  mkHostJob (hj_caps self) (hj_options self) (hj_program self) (hj_queue self) (hj_facts self)
    (Some (which, job, vars)) (hj_filters self) (hj_rounds self) (S (hj_compiled self)).

(** The first rule of the queue is resolved. *)
Definition resolve_rule self (i : nat) (facts : list Rule) : HostJob :=
  mkHostJob (hj_caps self) (hj_options self) (hj_program self) (tail (hj_queue self)) (<[i := facts]> (hj_facts self))
    (hj_current self) (hj_filters self) (hj_rounds self) (hj_compiled self).

Definition AUX : Pred := Idb "__host_rule".

Definition aux_rule (rule : Rule) (sql_body : list BodyItem) (vars : list string) : Rule :=
  mkRule (mkHead AUX ((fun v => Plain (ArgVar v)) <$> vars) (head_span (head rule))) sql_body.

(** The program of a host rule: its auxiliary rule and what that depends on. *)
Definition aux_program self (rule : Rule) (sql_body : list BodyItem) (vars : list string) : Program :=
  let aux := aux_rule rule sql_body vars in
  let base := resolved_program self in
  let needed := closure base (body_preds aux) in
  mkProgram (List.filter (fun r => bool_decide (head_pred (head r) ∈ needed)) (rules base) ++ [aux])
    (Some (mkGoal (mkAtom AUX (ArgVar <$> vars) (head_span (head rule)) None) []))
    (version (hj_program self)).

(** Starts the next run: the auxiliary rule of the next host rule, or the whole program. *)
Definition hj_next self : result CompileFault HostJob :=
  match hj_queue self with
  | i :: _ =>
      rule ← rule_at (hj_program self) i;
      let '(sql_body, vars) := split rule (hj_functions self) in
      match vars with
      | [] =>
          facts ← apply (hj_functions self) rule [] [[]];
          Ok (resolve_rule self i facts)
      | _ =>
          job ← hj_compile self (aux_program self rule sql_body vars);
          Ok (start_run self (Some i) job vars)
      end
  | [] =>
      job ← hj_compile self (resolved_program self);
      Ok (start_run self None job [])
  end.

(** The rows the goal's host constraints keep. *)
Fixpoint keep_rows (functions : Functions) (items : list BodyItem) (vars : list string) (rows : list (list (option Term)))
  : result CompileFault (list (list (option Term))) :=
  match rows with
  | [] => Ok []
  | row :: rows =>
      kept ← run_items functions (row_env vars row) items;
      rest ← keep_rows functions items vars rows;
      Ok (match kept with Some _ => row :: rest | None => rest end)
  end.

Definition hj_finish self (res : DatalogResult) : result CompileFault DatalogResult :=
  rows ← match hj_filters self with
         | [] => Ok (r_rows res)
         | filters => keep_rows (hj_functions self) (Constraint <$> filters) (r_variables res) (r_rows res)
         end;
  Ok (mkResult (r_variables res) rows (hj_rounds self)).

Definition set_finished self (rs : list nat) : HostJob :=
  mkHostJob (hj_caps self) (hj_options self) (hj_program self) (hj_queue self) (hj_facts self) None (hj_filters self)
    (hj_rounds self ++ rs) (hj_compiled self).

(** The end of a run: the facts of its host rule, or the result. *)
Definition run_ended self (which : option nat) (vars : list string) (res : DatalogResult)
  : result CompileFault (option DatalogResult * HostJob) :=
  let self := set_finished self (r_rounds res) in
  match which with
  | Some i =>
      rule ← rule_at (hj_program self) i;
      facts ← apply (hj_functions self) rule vars (r_rows res);
      Ok (None, resolve_rule self i facts)
  | None => out ← hj_finish self res; Ok (Some out, self)
  end.

(** [From<oxilite_core::Error>], then the conversion of [Job::step]. *)
Definition host_fault (e : CompileFault) : Fault :=
  match e with
  | Refused (DatalogError.Store e) => Failed e
  | Refused other => Failed (Other (DatalogError.to_string other))
  | Panicked m => Panic m
  end.
Definition hosted {A} (r : result CompileFault A) : result Fault A := map_err host_fault r.

(** The [loop] of [step_inner]: every turn that does not send a request resolves a rule of the
    queue or ends the job, so a turn more than the queue is long is enough. *)
Fixpoint step_inner (fuel : nat) self (response : option Response)
  : fueled Fault (Step DatalogResult * HostJob) :=
  match fuel with
  | O => OutOfFuel
  | S fuel =>
      started ← run (match hj_current self with
                     | Some _ => Ok (self, response)
                     | None => self ← hosted (hj_next self); Ok (self, None)
                     end);
      let '(self, response) := started in
      match hj_current self with
      | None => step_inner fuel self response
      | Some (which, job, vars) =>
          '(st, job) ← run (datalog_step job response);
          match st with
          | Execute r => Returned (Execute r, set_current self (Some (which, job, vars)))
          | Done res =>
              '(out, self) ← run (hosted (run_ended self which vars res));
              match out with
              | Some out => Returned (Done out, self)
              | None => step_inner fuel self None
              end
          end
      end
  end.

Definition host_step self (response : option Response) : result Fault (Step DatalogResult * HostJob) :=
  match step_inner (S (length (hj_queue self))) self response with
  | Returned r => Ok r
  | Raised e => Err e
  | OutOfFuel => Err (Panic "out of fuel")
  end.

#[global] Instance host_job : Job HostJob := { Output := DatalogResult; step := host_step }.
End job.

(** ** The entry points of the crate ([lib.rs]) *)

Section entry.
Context {OX : Oxrdf} {XX : Xxh3} {OD : OxsDatatypes} {SD : StrDebug} {TD : TermDisplay} `{LC : Lowercase}.

(** A parsed program, or the reason there is none. *)
Definition parsed {A} (src : string) (f : Program -> result CompileFault A) : fueled CompileFault A :=
  match Parser.parse src with
  | Returned program => run (f program)
  | Raised e => Raised (Refused e)
  | OutOfFuel => OutOfFuel
  end.

Definition compile_checked (program : Program) (caps : Capabilities) (options : Options) (run_no : Z)
  : result CompileFault Compiled :=
  analysis ← map_err Refused (analyse program);
  compile program analysis caps options run_no.

Definition compile_source (src : string) (caps : Capabilities) (options : Options) (run_no : Z)
  : fueled CompileFault Compiled := parsed src (fun p => compile_checked p caps options run_no).

Definition version_of (src : string) (options : Options) : fueled CompileFault (option string) :=
  match o_as_of options with
  | Some v => Returned (Some v)
  | None => parsed src (fun p => Ok (version p))
  end.

Definition push_ref (refs : list string) (a : Atom) : list string :=
  match at_ a with Some (AtVersion r) => push_new refs r | _ => refs end.

Definition version_refs (src : string) (options : Options) : fueled CompileFault (option string * list string) :=
  parsed src (fun p =>
    let whole := match o_as_of options with Some v => Some v | None => version p end in
    let refs := foldl (fun refs i => match i with BAtom a | Negated a => push_ref refs a | Constraint _ => refs end) []
                  (rules p ≫= body) in
    Ok (whole, match goal p with Some g => push_ref refs (goal_atom g) | None => refs end)).

Definition prepare (src : string) (caps : Capabilities) (options : Options) (run_no : Z)
  : fueled CompileFault DatalogJob :=
  compiled ← compile_source src caps options run_no; Returned (DatalogJob_new compiled caps).

Inductive ProgramJob := PlainJob (j : DatalogJob) | HostedJob (j : HostJob).

Definition program_step (runs : nat -> Z) (j : ProgramJob) (response : option Response)
  : result Fault (Step DatalogResult * ProgramJob) :=
  match j with
  | PlainJob j => '(st, j) ← datalog_step j response; Ok (st, PlainJob j)
  | HostedJob j => '(st, j) ← host_step runs j response; Ok (st, HostedJob j)
  end.

Definition prepare_program (src : string) (caps : Capabilities) (options : Options) (run_no : Z)
  : fueled CompileFault ProgramJob :=
  parsed src (fun program =>
    hosts ← map_err Refused (uses_host_functions program (o_functions options));
    if (hosts : bool) then j ← map_err Refused (HostJob_new program caps options); Ok (HostedJob j)
    else compiled ← compile_checked program caps options run_no; Ok (PlainJob (DatalogJob_new compiled caps))).

Definition shape_text (s : Shape) : string :=
  match s with
  | NonRecursive => "not recursive"
  | Linear => "linear recursion, one WITH RECURSIVE member"
  | LinearMutual => "mutual recursion, one tagged WITH RECURSIVE member"
  | NonLinear => "non-linear recursion"
  end.

Definition stratum_line (st : nat * Stratum) : string :=
  "-- stratum " +:+ show_nat st.1 +:+ ": " +:+ join ", " (Pred.to_string <$> preds st.2) +:+ " [" +:+
  shape_text (shape st.2) +:+ "]" +:+ LF.

(** [String::concat] of a list. *)
Definition concat_strings (l : list string) : string := foldr String.append "" l.

Definition explain (src : string) (caps : Capabilities) (options : Options) (run_no : Z) : fueled CompileFault string :=
  parsed src (fun program =>
    analysis ← map_err Refused (analyse program);
    let head := "-- oxilite datalog" +:+ LF +:+ concat_strings (stratum_line <$> enumerate (strata analysis)) in
    match compile program analysis caps options run_no with
    | Ok c => Ok (head +:+ concat_strings ((fun n => "-- " +:+ n +:+ LF) <$> c_notes c) +:+ c_sql c +:+ LF)
    | Err (Refused e) => Ok (head +:+ "-- cannot compile: " +:+ DatalogError.to_string e +:+ LF)
    | Err e => Err e
    end).
End entry.
