(* ===== verification/HostFacts.v ===== *)
(** * Host rules are resolved in dependency order

    The relations a rule depends on are the transitive closure of what it reads; the queue of a
    job lists the host rules so that each comes after all it depends on, and a program is
    refused exactly when that is impossible or a host rule aggregates. A job runs as the
    sequence of its sub-programs: their results become facts, in the order of the queue. *)

From S2P Require Export Host.

Section closure.
Context {OX : Oxrdf}.
Implicit Types (program : Program) (p q : Pred) (seen todo : list Pred).

(** A rule for [p] reads the derived relation [q]. *)
Definition reads program p q : Prop := q ∈ rules_for program p ≫= body_preds.

(** The body predicates of the rules of predicates not yet seen. *)
Definition pending program seen : list Pred :=
  filter (fun r => head_pred (head r) ∉ seen) (rules program) ≫= body_preds.

Lemma pending_cons program seen p : p ∉ seen ->
  length (pending program seen) = (length (pending program (p :: seen)) + length (rules_for program p ≫= body_preds))%nat.
Proof.
  intros Hp. unfold pending, rules_for. induction (rules program) as [|r rs IH]; [done|].
  destruct (decide (head_pred (head r) = p)) as [Heq|Hne].
  - rewrite (filter_cons_True _ r) by (by rewrite Heq). rewrite (filter_cons_False _ r) by (rewrite Heq; set_solver).
    rewrite (filter_cons_True _ r) by done. cbn. rewrite !length_app. unfold mbind in *. lia.
  - rewrite (filter_cons_False (fun r => head_pred (head r) = p)) by done.
    destruct (decide (head_pred (head r) ∈ seen)) as [Hs|Hs].
    + rewrite !filter_cons_False by (set_solver). done.
    + rewrite !filter_cons_True by (set_solver). cbn. rewrite !length_app. unfold mbind in *. lia.
Qed.

Lemma closure_loop_spec fuel program seen todo :
  (length todo + length (pending program seen) <= fuel)%nat ->
  (forall p q, p ∈ seen -> reads program p q -> q ∈ seen \/ q ∈ todo) ->
  let out := closure_loop fuel program seen todo in
  (forall p, p ∈ out <-> p ∈ seen \/ exists q, q ∈ todo /\ rtc (reads program) q p).
Proof.
  revert seen todo. induction fuel as [|fuel IH]; intros seen todo Hf Hclosed; cbn [closure_loop].
  - destruct todo as [|x todo]; [|cbn in Hf; lia]. cbn. intros p. split; [by left|].
    intros [?|(q & ?%elem_of_nil & _)]; done.
  - destruct (last todo) as [x|] eqn:Hl.
    2:{ apply last_None in Hl as ->. intros p. split; [by left|]. intros [?|(q & ?%elem_of_nil & _)]; done. }
    destruct todo as [|y todo _] using rev_ind; [done|]. rewrite last_snoc in Hl. injection Hl as ->.
    rewrite removelast_last. rewrite length_app in Hf. cbn in Hf.
    assert (forall p, (exists q, q ∈ todo ++ [x] /\ rtc (reads program) q p) <->
      rtc (reads program) x p \/ exists q, q ∈ todo /\ rtc (reads program) q p) as Htodo.
    { intros p. setoid_rewrite elem_of_app. setoid_rewrite list_elem_of_singleton. naive_solver. }
    destruct (decide (x ∈ seen)) as [Hx|Hx].
    + intros p. rewrite IH; [|lia|].
      * rewrite Htodo. split; [naive_solver|]. intros [?|[Hxp|?]]; [by left| |by right].
        assert (forall r, rtc (reads program) r p -> r ∈ seen -> p ∈ seen \/ exists q, q ∈ todo /\ rtc (reads program) q p) as Hr;
          [|by apply (Hr x)].
        clear Hxp. intros r Hr. induction Hr as [r|r s t Hrs Hst IHr]; [by left|]. intros Hs.
        destruct (Hclosed r s Hs Hrs) as [Hs'|Hs']; [by apply IHr|].
        apply elem_of_app in Hs' as [Hs'|Hs'%list_elem_of_singleton]; [right; by exists s|subst; by apply IHr].
      * intros q r Hq Hqr. destruct (Hclosed q r Hq Hqr) as [?|[?|Hr%list_elem_of_singleton]%elem_of_app]; [by left|by right|].
        left. by subst.
    + intros p. rewrite IH.
      * rewrite Htodo, elem_of_cons. setoid_rewrite elem_of_app.
        assert (rtc (reads program) x p <-> p = x \/ exists q, q ∈ rules_for program x ≫= body_preds /\ rtc (reads program) q p) as ->.
        { split; [|intros [->|(q & Hq & Hqp)]; [done|by eapply rtc_l]].
          intros [->|(y & Hy & Hz)]%rtc_inv; [by left|right]. by exists y. }
        naive_solver.
      * rewrite length_app. pose proof (pending_cons program seen x Hx). lia.
      * intros q r [->|Hq]%elem_of_cons Hqr; [right; apply elem_of_app; by right|].
        destruct (Hclosed q r Hq Hqr) as [?|[?|Hr%list_elem_of_singleton]%elem_of_app];
          [left; by right|right; apply elem_of_app; by left|left; subst; left].
Qed.

(** The fuel is enough: the closure is the transitive one. *)
Lemma closure_enough program ps p : p ∈ closure program ps <-> exists q, q ∈ ps /\ rtc (reads program) q p.
Proof.
  unfold closure. rewrite closure_loop_spec.
  - split; [intros [?%elem_of_nil|?]; done|by right].
  - assert (filter (fun r => head_pred (head r) ∉ []) (rules program) = rules program) as Hall.
    { induction (rules program) as [|r rs IH]; [done|]. by rewrite filter_cons_True, IH by apply not_elem_of_nil. }
    unfold pending. by rewrite Hall.
  - by intros q r ?%elem_of_nil.
Qed.
End closure.

(** ** The order of the host rules *)

Section order.
Context {OX : Oxrdf}.
Implicit Types (program : Program) (i j : nat).

(** The rule [i] depends on a relation that the rule [j] derives. *)
Definition relies program i j : Prop :=
  exists r s q, rules program !! i = Some r /\ rules program !! j = Some s /\
    q ∈ body_preds r /\ rtc (reads program) q (head_pred (head s)).

Lemma depends_relies program i j : depends program i j = true <-> relies program i j.
Proof.
  unfold depends, head_at, deps_of, relies. destruct (rules program !! j) as [s|] eqn:Hj; cbn.
  2:{ split; [done|]. by intros (r & s & q & _ & ? & _). }
  rewrite bool_decide_eq_true. destruct (rules program !! i) as [r|] eqn:Hi.
  - rewrite closure_enough. naive_solver.
  - rewrite elem_of_nil. split; [done|]. by intros (r & ? & q & ? & _).
Qed.

(** Every rule comes after all the rules of the queue that it relies on. *)
Definition ordered program (queue : list nat) : Prop :=
  forall pre i post, queue = pre ++ i :: post -> Forall (fun j => ~ relies program i j) post.

(** Some rules rely on each other in a cycle. *)
Definition cyclic program (l : list nat) : Prop :=
  exists group, group <> [] /\ group ⊆ l /\ forall i, i ∈ group -> exists j, j ∈ group /\ j <> i /\ relies program i j.

Lemma blocked_relies program left i :
  existsb (fun j => negb (j =? i)%nat && depends program i j) left = true <-> exists j, j ∈ left /\ j <> i /\ relies program i j.
Proof.
  rewrite existsb_exists. setoid_rewrite list_elem_of_In. setoid_rewrite andb_true_iff.
  setoid_rewrite negb_true_iff. setoid_rewrite Nat.eqb_neq. setoid_rewrite depends_relies. naive_solver.
Qed.

Lemma order_rules_step program fuel left : left <> [] -> order_rules (S fuel) program left =
  match list_find (fun i => existsb (fun j => negb (j =? i)%nat && depends program i j) left = false) left with
  | None => Err (DatalogError.unsupported "rules calling host functions depend on each other in a cycle")
  | Some (pos, i) => q ← order_rules fuel program (delete pos left); Ok (i :: q)
  end.
Proof. by destruct left. Qed.

Lemma order_rules_spec program fuel left : (length left <= fuel)%nat -> NoDup left ->
  match order_rules fuel program left with
  | Ok queue => queue ≡ₚ left /\ ordered program queue
  | Err e => cyclic program left
  end.
Proof.
  revert left. induction fuel as [|fuel IH]; intros left Hf Hn;
    (destruct (decide (left = [])) as [->|Hne]; [split; [done|by intros [|] i post]|]); [by destruct left; [|cbn in Hf; lia]|].
  rewrite order_rules_step by done. destruct (list_find _ left) as [[pos i]|] eqn:Hfind.
  - apply list_find_Some in Hfind as (Hi & Hready & _).
    assert (left ≡ₚ i :: delete pos left) as Hperm by by apply delete_Permutation.
    assert (length (delete pos left) <= fuel)%nat as Hlen by (apply Permutation_length in Hperm; cbn in Hperm; lia).
    assert (NoDup (i :: delete pos left)) as [Hni Hn']%NoDup_cons by by rewrite <- Hperm.
    specialize (IH _ Hlen Hn'). destruct (order_rules fuel program (delete pos left)) as [queue|e]; cbn [mbind result_bind].
    + destruct IH as [Hq Ho]. split; [by rewrite Hq|]. intros [|y pre] k post [= -> Heq]; [|by apply (Ho pre)].
      subst post. apply Forall_forall. intros j Hj Hr. apply not_true_iff_false in Hready. apply Hready.
      apply blocked_relies. rewrite Hq in Hj. exists j. split_and!; [|by intros ->|done]. rewrite Hperm. by right.
    + destruct IH as (group & Hg & Hsub & Hcyc). exists group. split_and!; [done| |done].
      intros j Hj. rewrite Hperm. right. by apply Hsub.
  - exists left. split_and!; [done|done|]. intros i Hi. apply blocked_relies.
    apply list_find_None in Hfind. rewrite Forall_forall in Hfind. by apply not_false_is_true, Hfind.
Qed.

Lemma ordered_acyclic program l queue : queue ≡ₚ l -> ordered program queue -> ~ cyclic program l.
Proof.
  intros Hq Ho (group & Hne & Hsub & Hcyc).
  destruct (list_find (fun i => i ∈ group) queue) as [[pos i]|] eqn:Hfind.
  - apply list_find_Some in Hfind as (Hi & Hg & Hfirst). destruct (Hcyc i Hg) as (j & Hj & Hji & Hr).
    pose proof (take_drop_middle queue pos i Hi) as Hsplit. pose proof (Ho _ _ _ (eq_sym Hsplit)) as Hpost.
    rewrite Forall_forall in Hpost. assert (j ∈ queue) as Hin by (rewrite Hq; by apply Hsub).
    rewrite <- Hsplit in Hin. apply elem_of_app in Hin as [Hin|[?|Hin]%elem_of_cons]; [|done|by apply (Hpost j)].
    apply list_elem_of_lookup in Hin as [k Hk]. apply lookup_take_Some in Hk as [Hk Hlt]. by apply (Hfirst k j).
  - apply list_find_None in Hfind. destruct group as [|g group]; [done|]. rewrite Forall_forall in Hfind.
    apply (Hfind g); [|left]. rewrite Hq. apply Hsub. left.
Qed.

(** *** The checks of a new job *)

Lemma check_host_rule_ok program i r : rules program !! i = Some r ->
  check_host_rule program i = Ok tt <-> aggregates (head r) = false /\ ~ relies program i i.
Proof.
  intros Hi. unfold check_host_rule. rewrite Hi, <- depends_relies.
  destruct (aggregates (head r)); [naive_solver|]. destruct (depends program i i); naive_solver.
Qed.

Lemma elem_of_host_rules program functions i : i ∈ host_rules program functions <->
  exists r, rules program !! i = Some r /\ is_host_rule r functions = true.
Proof.
  unfold host_rules. rewrite list_elem_of_In, List.filter_In, <- list_elem_of_In, elem_of_seq.
  destruct (rules program !! i) as [r|] eqn:Hi; [|naive_solver]. apply lookup_lt_Some in Hi. naive_solver lia.
Qed.

Lemma host_rules_nodup program functions : NoDup (host_rules program functions).
Proof. apply NoDup_ListNoDup, List.NoDup_filter, NoDup_ListNoDup, NoDup_seq. Qed.
End order.


(** ** The facts of a host rule *)

Section facts.
Context {OX : Oxrdf} {TD : TermDisplay}.
Implicit Types (functions : Functions) (rule : Rule) (tuple : list (@Term OX)) (row : list (option (@Term OX)))
  (rows : list (list (option (@Term OX)))).

(** The tuple a row derives through the calls of a rule. *)
Definition row_derives functions rule vars row tuple : Prop :=
  exists env, run_items functions (row_env vars row)
    (List.filter (fun i => negb (is_sql_item i rule functions)) (body rule)) = Ok (Some env) /\
  try_map (head_term_of (head rule) env) (head_args (head rule)) = Ok tuple.

(** The facts gathered so far stand for the tuples of the rows read so far. *)
Record gathered functions rule vars rows (s : list (list string) * list Rule) : Prop := {
  ga_sound f : f ∈ s.2 -> exists row tuple, row ∈ rows /\ row_derives functions rule vars row tuple /\ f = fact (head rule) tuple;
  ga_complete row tuple : row ∈ rows -> row_derives functions rule vars row tuple -> (term_to_string <$> tuple) ∈ s.1;
  ga_keys k : k ∈ s.1 -> exists tuple, k = term_to_string <$> tuple /\ fact (head rule) tuple ∈ s.2;
}.

Lemma apply_row_gathered functions rule vars rows row s s' : gathered functions rule vars rows s ->
  apply_row functions rule vars s row = Ok s' -> gathered functions rule vars (rows ++ [row]) s'.
Proof.
  intros [Hs Hc Hk] Ha. unfold apply_row in Ha. apply bind_ok in Ha as (kept & Hrun & Ha).
  assert (forall r, r ∈ rows ++ [row] <-> r ∈ rows \/ r = row) as Hrows by (intros r; rewrite elem_of_app, list_elem_of_singleton; tauto).
  destruct kept as [env|].
  2:{ injection Ha as <-. split; [|intros r t Hr Hd|done].
      - intros f (r & t & Hr & Hd & ->)%Hs. exists r, t. rewrite Hrows. eauto.
      - apply Hrows in Hr as [Hr|Hr]; [by eapply Hc|]. subst r. destruct Hd as (env & Hd & _). by rewrite Hrun in Hd. }
  apply bind_ok in Ha as (tuple & Ht & Ha).
  assert (row_derives functions rule vars row tuple) as Hnew.
  { exists env. split; [done|]. by destruct (try_map _ (head_args _)); [injection Ht as <-|]. }
  assert (forall t, row_derives functions rule vars row t -> t = tuple) as Hunique.
  { intros t (env' & Hd & Ht'). destruct Hnew as (env2 & Hd2 & Ht2). congruence. }
  destruct (decide _) as [Hseen|Hfresh]; injection Ha as <-.
  - split; [|intros r t Hr Hd|done].
    + intros f (r & t & Hr & Hd & ->)%Hs. exists r, t. rewrite Hrows. eauto.
    + apply Hrows in Hr as [Hr|Hr]; [by eapply Hc|]. subst r. by rewrite (Hunique t Hd).
  - split; cbn [fst snd].
    + intros f [(r & t & Hr & Hd & ->)%Hs|Hf%list_elem_of_singleton]%elem_of_app; [exists r, t; rewrite Hrows; eauto|].
      exists row, tuple. rewrite Hrows. eauto.
    + intros r t Hr Hd. apply Hrows in Hr as [Hr|Hr]; [right; by eapply Hc|]. subst r. rewrite (Hunique t Hd). left.
    + intros k [->|(t & -> & Hf)%Hk]%elem_of_cons; [exists tuple|exists t]; (split; [done|]); rewrite elem_of_app; [right; left|by left].
Qed.

Lemma try_fold_gathered functions rule vars rows rows' s s' : gathered functions rule vars rows s ->
  try_fold (apply_row functions rule vars) s rows' = Ok s' -> gathered functions rule vars (rows ++ rows') s'.
Proof.
  revert rows s. induction rows' as [|row rows' IH]; intros rows s Hg; cbn.
  - intros [= <-]. by rewrite app_nil_r.
  - intros (s1 & H1 & Hs')%bind_ok. rewrite (app_assoc rows [row] rows' : rows ++ row :: rows' = _).
    by eapply IH; [eapply apply_row_gathered|].
Qed.

(** The relation a host rule leaves: its facts are tuples its rows derive, every tuple a row
    derives is there, up to the text of its terms, and when there is none the relation is
    still defined, by a rule whose body is false. *)
Lemma apply_facts functions rule vars rows facts : apply functions rule vars rows = Ok facts ->
  (facts = [empty_relation (head rule)] /\ forall row tuple, row ∈ rows -> ~ row_derives functions rule vars row tuple) \/
  (facts <> [] /\
   (forall f, f ∈ facts -> exists row tuple, row ∈ rows /\ row_derives functions rule vars row tuple /\ f = fact (head rule) tuple) /\
   (forall row tuple, row ∈ rows -> row_derives functions rule vars row tuple ->
      exists tuple', fact (head rule) tuple' ∈ facts /\ term_to_string <$> tuple' = term_to_string <$> tuple)).
Proof.
  unfold apply. intros ([seen out] & Hf & Ho)%bind_ok. injection Ho as <-.
  apply (try_fold_gathered _ _ _ []) in Hf as [Hs Hc Hk]; [|by split; [intros ? ?%elem_of_nil|intros ? ? ?%elem_of_nil|intros ? ?%elem_of_nil]].
  cbn [app fst snd] in *. destruct out as [|f out].
  - left. split; [done|]. intros row tuple Hr Hd. destruct (Hk _ (Hc _ _ Hr Hd)) as (t & _ & ?%elem_of_nil). done.
  - right. split_and!; [done|done|]. intros row tuple Hr Hd. destruct (Hk _ (Hc _ _ Hr Hd)) as (t & Ht & Hin). by exists t.
Qed.
End facts.

(** ** The job as a sequence of runs *)

Section sequence.
Context {OX : Oxrdf} {XX : Xxh3} {SD : StrDebug} {TD : TermDisplay} {LC : Lowercase}.
Context (runs : nat -> Z) {W : Type} `{!SyncBackend W}.
Implicit Types (self : HostJob) (w : W) (out : result Fault DatalogResult).

(** A Datalog job started on its own ends with [out]. *)
Definition plain_run (job : DatalogJob) w out w' : Prop :=
  exists n, run_loop n job None w = Some (out, w').

(** What a host job between two runs evaluates to: the rules of its queue in order, each by a
    run of its auxiliary program whose rows become facts, then the program itself. *)
Inductive evaluates : HostJob -> W -> result Fault DatalogResult -> W -> Prop :=
  | ev_refused self w e :
      hj_next runs self = Err e -> evaluates self w (Err (host_fault e)) w
  | ev_in_place self self' w out w' :
      hj_next runs self = Ok self' -> hj_current self' = None -> evaluates self' w out w' -> evaluates self w out w'
  | ev_run_fails self self' which job vars w e w' :
      hj_next runs self = Ok self' -> hj_current self' = Some (which, job, vars) ->
      plain_run job w (Err e) w' -> evaluates self w (Err e) w'
  | ev_ended_badly self self' which job vars w res w' e :
      hj_next runs self = Ok self' -> hj_current self' = Some (which, job, vars) ->
      plain_run job w (Ok res) w' -> run_ended self' which vars res = Err e -> evaluates self w (Err (host_fault e)) w'
  | ev_resolved self self' which job vars w res w1 self2 out w' :
      hj_next runs self = Ok self' -> hj_current self' = Some (which, job, vars) ->
      plain_run job w (Ok res) w1 -> run_ended self' which vars res = Ok (None, self2) ->
      evaluates self2 w1 out w' -> evaluates self w out w'
  | ev_done self self' which job vars w res w' answer self2 :
      hj_next runs self = Ok self' -> hj_current self' = Some (which, job, vars) ->
      plain_run job w (Ok res) w' -> run_ended self' which vars res = Ok (Some answer, self2) ->
      evaluates self w (Ok answer) w'.

(** *** The queue shrinks *)

Lemma next_in_place self self' : hj_next runs self = Ok self' -> hj_current self = None -> hj_current self' = None ->
  (length (hj_queue self') < length (hj_queue self))%nat.
Proof.
  unfold hj_next. intros Hn Hc Hc'. destruct (hj_queue self) as [|i q] eqn:Hq.
  - apply bind_ok in Hn as (job & _ & Hn). by injection Hn as <-.
  - apply bind_ok in Hn as (rule & _ & Hn). destruct (split rule _) as [sql vars]. destruct vars as [|v vars].
    + apply bind_ok in Hn as (facts & _ & Hn). injection Hn as <-. cbn. rewrite Hq. cbn. lia.
    + apply bind_ok in Hn as (job & _ & Hn). by injection Hn as <-.
Qed.

Lemma next_starts self self' which job vars : hj_next runs self = Ok self' -> hj_current self = None ->
  hj_current self' = Some (which, job, vars) ->
  hj_queue self' = hj_queue self /\ (which = None -> hj_queue self = []) /\ (forall i, which = Some i -> hj_queue self <> []).
Proof.
  unfold hj_next. intros Hn Hc Hc'. destruct (hj_queue self) as [|i q] eqn:Hq.
  - apply bind_ok in Hn as (j & _ & Hn). injection Hn as <-. cbn in Hc' |- *. rewrite Hq. by injection Hc' as <- _ _.
  - apply bind_ok in Hn as (rule & _ & Hn). destruct (split rule _) as [sql vs]. destruct vs as [|v vs].
    + apply bind_ok in Hn as (facts & _ & Hn). injection Hn as <-. cbn in Hc'. congruence.
    + apply bind_ok in Hn as (j & _ & Hn). injection Hn as <-. cbn in Hc' |- *. rewrite Hq. by injection Hc' as <- _ _.
Qed.

Lemma ended_resolves self which vars res self' : run_ended self which vars res = Ok (None, self') ->
  exists i, which = Some i /\ hj_queue self' = tail (hj_queue self) /\ hj_current self' = None.
Proof.
  unfold run_ended. destruct which as [i|].
  - intros (rule & _ & (facts & _ & H)%bind_ok)%bind_ok. injection H as <-. by exists i.
  - intros (out & _ & H)%bind_ok. done.
Qed.

(** *** Runs inside the job *)

(** Between two runs nothing is asked of the queue; during the run of a rule the rule heads it. *)
Definition queued self : Prop :=
  match hj_current self with Some (Some _, _, _) => hj_queue self <> [] | _ => True end.

(** The turn a response starts. *)
Definition turn self (response : option Response) : result Fault (HostJob * option Response) :=
  match hj_current self with
  | Some _ => Ok (self, response)
  | None => self ← hosted (hj_next runs self); Ok (self, None)
  end.

Lemma step_inner_S n self response : step_inner runs (S n) self response =
  ('(self, response) ← run (turn self response);
   match hj_current self with
   | None => step_inner runs n self response
   | Some (which, job, vars) =>
       '(st, job) ← run (datalog_step job response);
       match st with
       | Execute r => Returned (Execute r, set_current self (Some (which, job, vars)))
       | Done res =>
           '(out, self) ← run (hosted (run_ended self which vars res));
           match out with
           | Some out => Returned (Done out, self)
           | None => step_inner runs n self None
           end
       end
   end).
Proof. reflexivity. Qed.

(** The fuel of the [loop] only has to be enough. *)
Lemma step_inner_mono n m self response : (n <= m)%nat ->
  step_inner runs n self response <> OutOfFuel -> step_inner runs m self response = step_inner runs n self response.
Proof.
  revert m self response. induction n as [|n IH]; intros [|m] self response Hm; try done; [lia|].
  rewrite !step_inner_S. destruct (turn self response) as [[self1 resp1]|e]; [|done]. cbn [run mbind fueled_bind].
  destruct (hj_current self1) as [[[which job] vars]|]; [|apply IH; lia].
  destruct (datalog_step job resp1) as [[[q|res] job']|e]; [done| |done]. cbn [run mbind fueled_bind].
  destruct (run_ended self1 which vars res) as [[[a|] self2]|e]; [done| |done]. apply IH. lia.
Qed.

Lemma turn_queued self response self1 resp1 : queued self -> turn self response = Ok (self1, resp1) ->
  queued self1 /\ (length (hj_queue self1) <= length (hj_queue self))%nat /\
  (hj_current self1 = None -> (length (hj_queue self1) < length (hj_queue self))%nat).
Proof.
  unfold turn. intros Hq Ht. destruct (hj_current self) as [c|] eqn:Hc.
  - injection Ht as <- <-. split_and!; [done|done|]. by rewrite Hc.
  - destruct (hj_next runs self) as [self'|e] eqn:Hn; [|done]. injection Ht as <- <-. unfold queued.
    destruct (hj_current self') as [[[which job] vars]|] eqn:Hc'.
    + destruct (next_starts _ _ _ _ _ Hn Hc Hc') as (-> & _ & Hne). split_and!; [|done|done]. destruct which as [i|]; [|done].
      by apply (Hne i).
    + pose proof (next_in_place _ _ Hn Hc Hc'). split_and!; [done|lia|done].
Qed.

Lemma ended_shrinks self which job vars vars' res self' : queued self -> hj_current self = Some (which, job, vars) ->
  run_ended self which vars' res = Ok (None, self') ->
  (length (hj_queue self') < length (hj_queue self))%nat /\ hj_current self' = None.
Proof.
  intros Hq Hc (i & -> & Hq' & Hc')%ended_resolves. split; [|done]. unfold queued in Hq. rewrite Hc in Hq. rewrite Hq'.
  destruct (hj_queue self); [done|]. cbn. lia.
Qed.

Lemma step_inner_total n self response : queued self -> (length (hj_queue self) < n)%nat ->
  step_inner runs n self response <> OutOfFuel.
Proof.
  revert self response. induction n as [|n IH]; intros self response Hq Hn; [lia|]. rewrite step_inner_S.
  destruct (turn self response) as [[self1 resp1]|e] eqn:Ht; [|done]. cbn [run mbind fueled_bind].
  destruct (turn_queued _ _ _ _ Hq Ht) as (Hq1 & Hle & Hlt).
  destruct (hj_current self1) as [[[which job] vars]|] eqn:Hc; [|apply IH; [done|specialize (Hlt eq_refl); lia]].
  destruct (datalog_step job resp1) as [[[q|res] job']|e]; [done| |done]. cbn [run mbind fueled_bind].
  destruct (run_ended self1 which vars res) as [[[a|] self2]|e] eqn:He; [done| |done]. cbn [hosted map_err run mbind fueled_bind].
  destruct (ended_shrinks _ _ _ _ _ _ _ Hq1 Hc He) as [Hlt2 Hc2]. apply IH; [unfold queued; by rewrite Hc2|lia].
Qed.

(** *** What one step does *)

Lemma host_step_enough n self response : queued self -> (length (hj_queue self) < n)%nat ->
  host_step runs self response = match step_inner runs n self response with
                                 | Returned r => Ok r | Raised e => Err e | OutOfFuel => Err (Panic "out of fuel")
                                 end.
Proof.
  intros Hq Hn. unfold host_step. rewrite (step_inner_mono (S (length (hj_queue self))) n); [done|lia|].
  apply step_inner_total; [done|lia].
Qed.

Lemma step_between self response : hj_current self = None ->
  host_step runs self response = match hj_next runs self with
                                 | Err e => Err (host_fault e) | Ok self' => host_step runs self' None
                                 end.
Proof.
  intros Hc. assert (queued self) as Hq by (unfold queued; by rewrite Hc). unfold host_step at 1. rewrite step_inner_S. unfold turn.
  rewrite Hc. destruct (hj_next runs self) as [self'|e] eqn:Hn; [|done]. cbn [hosted map_err mbind result_bind run fueled_bind].
  destruct (hj_current self') as [[[which job] vars]|] eqn:Hc'.
  - destruct (next_starts _ _ _ _ _ Hn Hc Hc') as (<- & _). unfold host_step. rewrite step_inner_S. unfold turn. rewrite Hc'. cbn [run mbind fueled_bind]. by rewrite Hc'.
  - pose proof (next_in_place _ _ Hn Hc Hc'). symmetry. apply host_step_enough; [unfold queued; by rewrite Hc'|lia].
Qed.

Lemma step_during self which job vars response : queued self -> hj_current self = Some (which, job, vars) ->
  host_step runs self response =
  match datalog_step job response with
  | Err e => Err e
  | Ok (Execute q, job) => Ok (Execute q, set_current self (Some (which, job, vars)))
  | Ok (Done res, _) =>
      match run_ended self which vars res with
      | Err e => Err (host_fault e)
      | Ok (Some out, self) => Ok (Done out, self)
      | Ok (None, self) => host_step runs self None
      end
  end.
Proof.
  intros Hq Hc. unfold host_step at 1. rewrite step_inner_S. unfold turn. rewrite Hc. cbn [run mbind fueled_bind].
  rewrite Hc. destruct (datalog_step job response) as [[[q|res] job']|e]; [done| |done]. cbn [run mbind fueled_bind].
  destruct (run_ended self which vars res) as [[[a|] self2]|e] eqn:He; [done| |done]. cbn [hosted map_err run mbind fueled_bind].
  destruct (ended_shrinks _ _ _ _ _ _ _ Hq Hc He) as [Hlt Hc2]. symmetry.
  apply host_step_enough; [unfold queued; by rewrite Hc2|lia].
Qed.

(** *** Runs *)

#[local] Instance run_job : Job HostJob := host_job runs.

(** The driver only sees what the next step does. *)
Lemma run_same n self self' response response' w : host_step runs self response = host_step runs self' response' ->
  run_loop n self response w = run_loop n self' response' w.
Proof. intros H. destruct n as [|n]; [done|]. cbn [run_loop step host_job run_job]. by rewrite H. Qed.

Lemma run_more n m self response w out w' : (n <= m)%nat ->
  run_loop n self response w = Some (out, w') -> run_loop m self response w = Some (out, w').
Proof. intros Hm H. exact (run_loop_mono n m self response w (out, w') Hm H). Qed.

(** What follows the run of the current job. *)
Definition afterwards n self which vars (res : result Fault DatalogResult) w out w' : Prop :=
  match res with
  | Err e => out = Err e /\ w' = w
  | Ok res =>
      match run_ended self which vars res with
      | Err e => out = Err (host_fault e) /\ w' = w
      | Ok (Some answer, _) => out = Ok answer /\ w' = w
      | Ok (None, self') => run_loop n self' None w = Some (out, w')
      end
  end.

Lemma queued_current self which job job' vars : hj_current self = Some (which, job, vars) -> queued self ->
  queued (set_current self (Some (which, job', vars))).
Proof. unfold queued. intros ->. done. Qed.

(** The job running inside is run by the same driver: first it, then what follows it. *)
Lemma run_current n m self which job vars response w res w1 out w' : queued self -> hj_current self = Some (which, job, vars) ->
  run_loop n job response w = Some (res, w1) -> afterwards (S m) self which vars res w1 out w' ->
  run_loop (n + m) self response w = Some (out, w').
Proof.
  revert self job response w. induction n as [|n IH]; intros self job response w Hq Hc Hr Ha; [done|].
  change (S n + m)%nat with (S (n + m)). cbn [run_loop]. cbn [step host_job run_job]. rewrite (step_during _ _ _ _ _ Hq Hc).
  cbn [run_loop step datalog_job] in Hr. destruct (datalog_step job response) as [[[q|r] job']|e].
  - destruct (execute q w) as [[resp|e] w2].
    + eapply IH; [by eapply queued_current|reflexivity|exact Hr|exact Ha].
    + injection Hr as <- <-. by destruct Ha as [-> ->].
  - injection Hr as <- <-. unfold afterwards in Ha. destruct (run_ended self which vars r) as [[[a|] self2]|e].
    + by destruct Ha as [-> ->].
    + pose proof (run_more (S m) (S (n + m)) self2 None w out w' ltac:(lia) Ha) as Ha'.
      cbn [run_loop step host_job run_job] in Ha'. exact Ha'.
    + by destruct Ha as [-> ->].
  - injection Hr as <- <-. by destruct Ha as [-> ->].
Qed.

Lemma current_run n self which job vars response w out w' : queued self -> hj_current self = Some (which, job, vars) ->
  run_loop n self response w = Some (out, w') ->
  exists res w1, run_loop n job response w = Some (res, w1) /\ afterwards n self which vars res w1 out w'.
Proof.
  revert self job response w. induction n as [|n IH]; intros self job response w Hq Hc Hr; [done|].
  pose proof Hr as Hr0. cbn [run_loop] in Hr. cbn [step host_job run_job] in Hr. rewrite (step_during _ _ _ _ _ Hq Hc) in Hr.
  cbn [run_loop step datalog_job]. destruct (datalog_step job response) as [[[q|r] job']|e] eqn:Hd.
  - destruct (execute q w) as [[resp|e] w2].
    + destruct (IH (set_current self (Some (which, job', vars))) job' (Some resp) w2) as (res & w1 & H1 & H2);
        [by eapply queued_current|done|done|]. exists res, w1. split; [done|]. destruct res as [res|e]; [|done].
      unfold afterwards in *. change (run_ended (set_current self _) which vars res) with (run_ended self which vars res) in H2.
      destruct (run_ended self which vars res) as [[[a|] self2]|e]; [done| |done]. eapply run_more; [|done]. lia.
    + injection Hr as <- <-. by exists (Err (Failed e)), w2.
  - exists (Ok r), w. split; [done|]. unfold afterwards. destruct (run_ended self which vars r) as [[[a|] self2]|e] eqn:He.
    + by injection Hr as <- <-.
    + rewrite <- Hr0. apply run_same. by rewrite (step_during _ _ _ _ _ Hq Hc), Hd, He.
    + by injection Hr as <- <-.
  - exists (Err e), w. by injection Hr as <- <-.
Qed.

Lemma idle_queued self : hj_current self = None -> queued self.
Proof. unfold queued. by intros ->. Qed.

Lemma next_queued self self' : hj_next runs self = Ok self' -> hj_current self = None -> queued self'.
Proof.
  intros Hn Hc. destruct (turn_queued self None self' None (idle_queued _ Hc)) as [? _]; [|done].
  unfold turn. by rewrite Hc, Hn.
Qed.

Lemma evaluates_runs self w out w' : evaluates self w out w' -> hj_current self = None ->
  exists n, run_loop n self None w = Some (out, w').
Proof.
  induction 1 as [self w e Hn|self self' w out w' Hn Hc' _ IH|self self' which job vars w e w' Hn Hc' [n Hr]
    |self self' which job vars w res w' e Hn Hc' [n Hr] He|self self' which job vars w res w1 self2 out w' Hn Hc' [n Hr] He _ IH
    |self self' which job vars w res w' answer self2 Hn Hc' [n Hr] He]; intros Hc.
  - exists 1%nat. cbn [run_loop step host_job run_job]. by rewrite (step_between _ _ Hc), Hn.
  - destruct (IH Hc') as [n Hr]. exists n. rewrite <- Hr. apply run_same. by rewrite (step_between _ _ Hc), Hn.
  - exists (n + 0)%nat. rewrite (run_same _ self self' None None) by (by rewrite (step_between _ _ Hc), Hn).
    eapply run_current; [by eapply next_queued|done|done|done].
  - exists (n + 0)%nat. rewrite (run_same _ self self' None None) by (by rewrite (step_between _ _ Hc), Hn).
    eapply run_current; [by eapply next_queued|done|done|]. unfold afterwards. by rewrite He.
  - destruct (ended_shrinks _ _ _ _ _ _ _ (next_queued _ _ Hn Hc) Hc' He) as [_ Hc2]. destruct (IH Hc2) as [m Hm].
    exists (n + m)%nat. rewrite (run_same _ self self' None None) by (by rewrite (step_between _ _ Hc), Hn).
    eapply run_current; [by eapply next_queued|done|done|]. unfold afterwards. rewrite He. eapply run_more; [|done]. lia.
  - exists (n + 0)%nat. rewrite (run_same _ self self' None None) by (by rewrite (step_between _ _ Hc), Hn).
    eapply run_current; [by eapply next_queued|done|done|]. unfold afterwards. by rewrite He.
Qed.

Lemma runs_evaluate n self w out w' : hj_current self = None -> run_loop n self None w = Some (out, w') ->
  evaluates self w out w'.
Proof.
  remember (length (hj_queue self)) as k eqn:Hk. revert self w n Hk. induction (lt_wf k) as [k _ IH].
  intros self w n -> Hc Hr. destruct (hj_next runs self) as [self'|e] eqn:Hn.
  2:{ destruct n as [|n]; [done|]. cbn [run_loop step host_job run_job] in Hr. rewrite (step_between _ _ Hc), Hn in Hr. injection Hr as <- <-.
      by eapply ev_refused. }
  rewrite (run_same _ self self' None None) in Hr by (by rewrite (step_between _ _ Hc), Hn).
  destruct (hj_current self') as [[[which job] vars]|] eqn:Hc'.
  - pose proof (next_queued _ _ Hn Hc) as Hq. destruct (current_run _ _ _ _ _ _ _ _ _ Hq Hc' Hr) as (res & w1 & Hj & Ha).
    assert (plain_run job w res w1) as Hp by (by exists n). unfold afterwards in Ha. destruct res as [res|e].
    + destruct (run_ended self' which vars res) as [[[a|] self2]|e] eqn:He.
      * destruct Ha as [-> ->]. by eapply ev_done.
      * destruct (ended_shrinks _ _ _ _ _ _ _ Hq Hc' He) as [Hlt Hc2]. destruct (next_starts _ _ _ _ _ Hn Hc Hc') as (Hlen & _).
        eapply ev_resolved; [done..|]. rewrite Hlen in Hlt. by eapply (IH _ Hlt).
      * destruct Ha as [-> ->]. by eapply ev_ended_badly.
    + destruct Ha as [-> ->]. by eapply ev_run_fails.
  - pose proof (next_in_place _ _ Hn Hc Hc') as Hlt. eapply ev_in_place; [done..|]. by eapply (IH _ Hlt).
Qed.
End sequence.

