(* ===== verification/CypherValue.v ===== *)
(** * Cypher values ([crates/oxilite-cypher/src/value.rs], [error.rs])

    The data of [value.rs]: temporal kinds, nodes, relationships, paths and values, with the
    crate's error type. Maps ([BTreeMap]) are entries by ascending key. Functions that may
    panic (slicing a string inside a character, an [expect]) return [Err Panic]; their [Err]
    values are [Err (Raise e)]. *)

From S2P Require Export Machine Encoding.

(** ** Errors *)

(** [error.rs]. *)
Inductive CypherError :=
  | Syntax (pos : Z) (message : string)
  | CUnsupported (message : string)
  | Semantic (message : string)
  | Runtime (message : string)
  | ShapeViolation (message : string)
  | Store (e : Error).

(** How an evaluation can stop: with an error value, or by a panic. *)
Inductive Fault := Raise (e : CypherError) | Panic.
Abbreviation outcome := (result Fault).

#[global] Instance cypher_error_eq_dec : EqDecision CypherError.
Proof. solve_decision. Defined.
#[global] Instance fault_eq_dec : EqDecision Fault.
Proof. solve_decision. Defined.

Definition runtime {A} (msg : string) : outcome A := Err (Raise (Runtime msg)).
Definition semantic {A} (msg : string) : outcome A := Err (Raise (Semantic msg)).
Definition unsupported {A} (msg : string) : outcome A := Err (Raise (CUnsupported msg)).

(** [.ok()]: an error becomes [None]; a panic stays one. *)
Definition catch {A} (r : outcome A) : outcome (option A) :=
  match r with
  | Ok a => Ok (Some a)
  | Err (Raise _) => Ok None
  | Err Panic => Err Panic
  end.

(** [&s[a..b]]. *)
Definition slice (s : string) (a b : nat) : outcome string := ok_or (str_get s a b) Panic.

(** ** Values *)

Inductive TemporalKind := Date | DateTime | LocalDateTime | Time | LocalTime | Duration.
#[global] Instance temporal_kind_eq_dec : EqDecision TemporalKind.
Proof. solve_decision. Defined.

(** [TemporalKind::datatype]. *)
Definition kind_datatype (k : TemporalKind) : string :=
  match k with
  | Date => "http://www.w3.org/2001/XMLSchema#date"
  | DateTime | LocalDateTime => "http://www.w3.org/2001/XMLSchema#dateTime"
  | Time | LocalTime => "http://www.w3.org/2001/XMLSchema#time"
  | Duration => "http://www.w3.org/2001/XMLSchema#duration"
  end.

(** A relationship, over the values of its properties. *)
Record Relationship_ (V : Type) := mkRelationship {
  rel_start : NamedOrBlankNode;
  rel_predicate : NamedNode;
  rel_end : NamedOrBlankNode;
  rel_reifier : option NamedOrBlankNode;
  rel_type : string;
  rel_properties : list (string * V);
}.
Arguments mkRelationship {V}.
Arguments rel_start {V}.
Arguments rel_predicate {V}.
Arguments rel_end {V}.
Arguments rel_reifier {V}.
Arguments rel_type {V}.
Arguments rel_properties {V}.

(** A node, over the values of its properties. *)
Record Node_ (V : Type) := mkNode {
  node_id : NamedOrBlankNode;
  node_labels : list string;
  node_properties : list (string * V);
}.
Arguments mkNode {V}.
Arguments node_id {V}.
Arguments node_labels {V}.
Arguments node_properties {V}.

(** [Value]; the fields of [Path] are spread over its constructor. *)
Inductive Value :=
  | VNull
  | VBool (b : bool)
  | VInt (i : Z)
  | VFloat (f : f64)
  | VString (s : string)
  | VTemporal (k : TemporalKind) (s : string)
  | VList (items : list Value)
  | VMap (m : list (string * Value))
  | VNode (n : Node_ Value)
  | VRelationship (r : Relationship_ Value)
  | VPath (nodes : list (Node_ Value)) (relationships : list (Relationship_ Value)).
Abbreviation Node := (Node_ Value).
Abbreviation Relationship := (Relationship_ Value).

Definition subject_str (s : NamedOrBlankNode) : string :=
  match s with
  | NobNamedNode n => n
  | NobBlankNode b => "_:" +:+ b
  end.

(** [Node::element_id]. *)
Definition node_element_id (n : Node) : string := subject_str (node_id n).

(** [Relationship::element_id]. *)
Definition rel_element_id (r : Relationship) : string :=
  match rel_reifier r with
  | Some x => subject_str x
  | None =>
      "<<( " +:+ subject_str (rel_start r) +:+ " <" +:+ rel_predicate r +:+ "> "
      +:+ subject_str (rel_end r) +:+ " )>>"
  end.

(** [Relationship::same]. *)
Definition rel_same (a b : Relationship) : bool :=
  bool_decide (rel_start a = rel_start b) && String.eqb (rel_predicate a) (rel_predicate b)
  && bool_decide (rel_end a = rel_end b) && bool_decide (rel_reifier a = rel_reifier b).

Definition is_null (v : Value) : bool := match v with VNull => true | _ => false end.

Definition type_name (v : Value) : string :=
  match v with
  | VNull => "NULL"
  | VBool _ => "BOOLEAN"
  | VInt _ => "INTEGER"
  | VFloat _ => "FLOAT"
  | VString _ => "STRING"
  | VTemporal k _ =>
      match k with
      | Date => "DATE"
      | DateTime => "DATETIME"
      | LocalDateTime => "LOCALDATETIME"
      | Time => "TIME"
      | LocalTime => "LOCALTIME"
      | Duration => "DURATION"
      end
  | VList _ => "LIST"
  | VMap _ => "MAP"
  | VNode _ => "NODE"
  | VRelationship _ => "RELATIONSHIP"
  | VPath _ _ => "PATH"
  end.

Definition as_bool (v : Value) : option bool := match v with VBool b => Some b | _ => None end.

Definition as_f64 (v : Value) : option f64 :=
  match v with
  | VInt i => Some (F64.of_Z i)
  | VFloat f => Some f
  | _ => None
  end.
