(* ===== verification/CalendarFacts.v ===== *)
(** * The calendar is the proleptic Gregorian calendar

    [civil_from_days] counts the dates of a reference calendar one day at a time, and inverts
    [days_from_civil], for every day number up to 2^61 in magnitude (six quadrillion years);
    week dates, ordinal dates and months follow. *)

From S2P Require Export Calendar.

Ltac zdiv := Z.to_euclidean_division_equations; lia.

(** ** The reference calendar *)

Definition valid_date (t : Z * Z * Z) : bool :=
  let '(y, m, d) := t in (1 <=? m) && (m <=? 12) && (1 <=? d) && (d <=? days_in_month y m).

(** The day after a date. *)
Definition next_date (t : Z * Z * Z) : Z * Z * Z :=
  let '(y, m, d) := t in
  if d <? days_in_month y m then (y, m, d + 1)
  else if m <? 12 then (y, m + 1, 1) else (y + 1, 1, 1).

(** Order of dates: by year, month and day. *)
Definition date_lt (t u : Z * Z * Z) : Prop :=
  let '(y1, m1, d1) := t in
  let '(y2, m2, d2) := u in
  y1 < y2 \/ (y1 = y2 /\ (m1 < m2 \/ (m1 = m2 /\ d1 < d2))).

Definition day_ok (z : Z) : Prop := Z.abs z <= 2 ^ 61.
Definition year_ok (y : Z) : Prop := Z.abs y <= 2 ^ 53.

(** ** Exact arithmetic *)

(** Days before 1 March of year [y], from 0000-03-01. *)
Definition year_start (y : Z) : Z := 365 * y + y / 4 - y / 100 + y / 400.
(** Days before a month, counted from March as 0. *)
Definition month_start (mp : Z) : Z := (153 * mp + 2) / 5.

Definition march_year (y m : Z) : Z := if m <=? 2 then y - 1 else y.
Definition march_month (m : Z) : Z := if m <=? 2 then m + 9 else m - 3.

Lemma days_from_civil_exact y m d :
  Z.abs y <= 2 ^ 53 + 1 -> 1 <= m <= 12 -> Z.abs d <= 1000 ->
  days_from_civil y m d
  = year_start (march_year y m) + month_start (march_month m) + d - 1 - 719468.
Proof.
  intros Hy Hm Hd. unfold days_from_civil.
  assert (Hy' : (if m <=? 2 then (y - 1)%i64 else y) = march_year y m).
  { unfold march_year. destruct (m <=? 2); [|done]. unwrap. done. }
  rewrite Hy'. set (Y := march_year y m).
  assert (Hm' : ((m + 9) `rem` 12)%i64 = march_month m).
  { unwrap. unfold march_month. destruct (Z.leb_spec m 2); zdiv. }
  rewrite Hm'.
  assert (0 <= march_month m <= 11) by (unfold march_month; destruct (Z.leb_spec m 2); lia).
  assert (Z.abs Y <= 2 ^ 53 + 2) by (unfold Y, march_year; destruct (m <=? 2); lia).
  generalize dependent (march_month m). intros mp _ Hmp. clearbody Y. clear Hy' Hy Hm.
  unfold year_start, month_start. unwrap. zdiv.
Qed.

(** The year of the era from the day of the era. *)
Lemma yoe_spec doe yoe :
  0 <= doe < 146097 ->
  yoe = (doe - doe / 1460 + doe / 36524 - doe / 146096) / 365 ->
  0 <= yoe <= 399 /\ year_start yoe <= doe < year_start (yoe + 1).
Proof.
  intros H Hy. unfold year_start.
  assert (doe / 36524 = 0 \/ doe / 36524 = 1 \/ doe / 36524 = 2 \/ doe / 36524 = 3
          \/ doe / 36524 = 4) as Hc by zdiv.
  assert (doe / 146096 = 0 \/ doe / 146096 = 1) as Hl by zdiv.
  assert (0 <= yoe <= 399) by (subst; zdiv).
  split; [done|].
  assert (yoe / 400 = 0) as -> by zdiv.
  destruct Hc as [Hc|[Hc|[Hc|[Hc|Hc]]]], Hl as [Hl|Hl]; rewrite Hc, Hl in Hy; split; zdiv.
Qed.

Lemma year_start_era y e : year_start (y + e * 400) = year_start y + e * 146097.
Proof. unfold year_start. zdiv. Qed.

(** The month of the year from the day of the year. *)
Lemma month_spec doy mp :
  0 <= doy <= 365 -> mp = (5 * doy + 2) / 153 ->
  0 <= mp <= 11 /\ month_start mp <= doy < month_start (mp + 1).
Proof. intros H ->. unfold month_start. zdiv. Qed.

(** What [civil_from_days] finds: the March-based year, month and day. *)
Lemma civil_from_days_march z :
  day_ok z ->
  exists y mp d,
    civil_from_days z = (if mp <? 10 then y else y + 1, if mp <? 10 then mp + 3 else mp - 9, d) /\
    0 <= mp <= 11 /\ 1 <= d /\ Z.abs y <= 2 ^ 53 - 1 /\
    z + 719468 = year_start y + month_start mp + d - 1 /\
    month_start mp + d - 1 < month_start (mp + 1) /\
    z + 719468 < year_start (y + 1).
Proof.
  unfold day_ok. intros Hz.
  set (era := (z + 719468) / 146097). set (doe := (z + 719468) `mod` 146097).
  assert (Hera : z + 719468 = era * 146097 + doe /\ 0 <= doe < 146097) by (unfold era, doe; zdiv).
  destruct (yoe_spec doe _ ltac:(tauto) eq_refl) as [Hyoe Hdoe].
  set (yoe := (doe - doe / 1460 + doe / 36524 - doe / 146096) / 365) in *.
  assert (Hys : year_start yoe = 365 * yoe + yoe / 4 - yoe / 100) by (unfold year_start; zdiv).
  assert (Hlen : year_start (yoe + 1) <= year_start yoe + 366) by (unfold year_start; zdiv).
  set (doy := doe - year_start yoe).
  destruct (month_spec doy _ ltac:(unfold doy; lia) eq_refl) as [Hmp Hm].
  set (mp := (5 * doy + 2) / 153) in *.
  exists (yoe + era * 400), mp, (doy - month_start mp + 1).
  assert (Hy : Z.abs (yoe + era * 400) <= 2 ^ 53 - 1) by zdiv.
  split_and!; try lia.
  - unfold civil_from_days.
    assert ((z + 719468)%i64 = z + 719468) as -> by (unwrap; done).
    set (w := z + 719468) in *. change (w `div` 146097)%i64 with era.
    assert ((w - era * 146097)%i64 = doe) as -> by (unwrap; lia).
    assert (((doe - doe `quot` 1460 + doe `quot` 36524 - doe `quot` 146096) `quot` 365)%i64 = yoe)
      as -> by (unfold yoe; unwrap; zdiv).
    assert ((doe - (365 * yoe + yoe `quot` 4 - yoe `quot` 100))%i64 = doy) as ->
      by (unfold doy; rewrite Hys; clear Hys Hdoe Hm; unwrap; zdiv).
    assert (((5 * doy + 2) `quot` 153)%i64 = mp) as -> by (unfold mp; unwrap; zdiv).
    assert ((doy - (153 * mp + 2) `quot` 5 + 1)%i64 = doy - month_start mp + 1) as ->
      by (unfold month_start; clear Hm; unwrap; zdiv).
    assert ((yoe + era * 400)%i64 = yoe + era * 400) as -> by (unwrap; done).
    assert ((if mp <? 10 then mp + 3 else mp - 9)%i64 = if mp <? 10 then mp + 3 else mp - 9) as ->
      by (destruct (mp <? 10); unwrap; done).
    destruct (Z.ltb_spec mp 10).
    + destruct (Z.leb_spec (mp + 3) 2); [lia|done].
    + destruct (Z.leb_spec (mp - 9) 2); [|lia]. unwrap. done.
  - rewrite year_start_era. lia.
  - replace (yoe + era * 400 + 1) with (yoe + 1 + era * 400) by lia.
    rewrite year_start_era. lia.
Qed.

(** ** Day numbers of dates *)

(** The day number of a date, in exact arithmetic. *)
Definition day_number (t : Z * Z * Z) : Z :=
  let '(y, m, d) := t in
  year_start (march_year y m) + month_start (march_month m) + d - 1 - 719468.

Definition year_of (t : Z * Z * Z) : Z := t.1.1.

Lemma valid_date_spec y m d :
  valid_date (y, m, d) = true <-> 1 <= m <= 12 /\ 1 <= d <= days_in_month y m.
Proof. unfold valid_date. rewrite !andb_true_iff, !Z.leb_le. lia. Qed.

Lemma days_from_civil_day_number y m d :
  Z.abs y <= 2 ^ 53 + 1 -> 1 <= m <= 12 -> Z.abs d <= 1000 ->
  days_from_civil y m d = day_number (y, m, d).
Proof. apply days_from_civil_exact. Qed.

(** A leap year has 29 February, so the year that starts the March before it has 366 days. *)
Lemma year_start_succ y :
  year_start (y + 1) = year_start y + 365 + if is_leap (y + 1) then 1 else 0.
Proof.
  unfold year_start, is_leap.
  destruct (Z.eqb_spec ((y + 1) `rem` 4) 0), (Z.eqb_spec ((y + 1) `rem` 100) 0),
    (Z.eqb_spec ((y + 1) `rem` 400) 0); cbn [andb negb orb]; zdiv.
Qed.

(** The lengths of the months against the offsets of the March-based year. *)
Lemma month_length y m :
  1 <= m <= 12 ->
  month_start (march_month m) + days_in_month y m
  = if m =? 2 then 365 + (if is_leap y then 1 else 0) else month_start (march_month m + 1).
Proof.
  intros Hm.
  assert (m = 1 \/ m = 2 \/ m = 3 \/ m = 4 \/ m = 5 \/ m = 6 \/ m = 7 \/ m = 8 \/ m = 9 \/ m = 10
          \/ m = 11 \/ m = 12) as H by lia.
  repeat destruct H as [->|H]; try subst m; cbn; try done.
  by destruct (is_leap y).
Qed.

Lemma days_in_month_bounds y m : 28 <= days_in_month y m <= 31.
Proof.
  unfold days_in_month. destruct (existsb _ _); [lia|].
  destruct (existsb _ _); [lia|]. destruct (is_leap y); lia.
Qed.

(** A date's offset in its March-based year is below the length of the year. *)
Lemma day_number_year y m d :
  valid_date (y, m, d) = true ->
  year_start (march_year y m) <= day_number (y, m, d) + 719468 < year_start (march_year y m + 1).
Proof.
  intros [Hm Hd]%valid_date_spec. unfold day_number.
  pose proof (month_length y m Hm) as Hl. rewrite year_start_succ.
  assert (0 <= march_month m <= 11) by (unfold march_month; destruct (Z.leb_spec m 2); lia).
  assert (0 <= month_start (march_month m)) by (unfold month_start; zdiv).
  destruct (Z.eqb_spec m 2) as [->|].
  - change (march_year y 2) with (y - 1). change (march_month 2) with 11 in *.
    replace (y - 1 + 1) with y by lia. destruct (is_leap y); lia.
  - assert (march_month m + 1 <= 11) by (unfold march_month in *; destruct (Z.leb_spec m 2); lia).
    assert (month_start (march_month m + 1) <= 337) by (unfold month_start; zdiv).
    destruct (is_leap _); lia.
Qed.

Lemma year_start_mono y1 y2 : y1 < y2 -> year_start (y1 + 1) <= year_start y2.
Proof. intros. unfold year_start. zdiv. Qed.

(** [day_number] is strictly monotone on valid dates. *)
Lemma day_number_mono t u :
  valid_date t = true -> valid_date u = true -> date_lt t u -> day_number t < day_number u.
Proof.
  destruct t as [[y1 m1] d1], u as [[y2 m2] d2]. intros Ht Hu Hlt.
  pose proof (day_number_year _ _ _ Ht). pose proof (day_number_year _ _ _ Hu).
  pose proof Ht as [Hm1 Hd1]%valid_date_spec. pose proof Hu as [Hm2 Hd2]%valid_date_spec.
  destruct (Z.lt_trichotomy (march_year y1 m1) (march_year y2 m2)) as [Hy|[Hy|Hy]].
  - pose proof (year_start_mono _ _ Hy). lia.
  - cbn [day_number] in *. rewrite Hy.
    pose proof (month_length y1 m1 Hm1) as Hl.
    unfold march_year, march_month, date_lt in *.
    destruct (Z.eq_dec m1 m2) as [Heq|Hne]; [rewrite Heq in *; destruct (Z.leb_spec m2 2); lia|].
    destruct (Z.eqb_spec m1 2) as [|];
      destruct (Z.leb_spec m1 2), (Z.leb_spec m2 2); unfold month_start in *; zdiv.
  - exfalso. unfold march_year, date_lt in *.
    destruct (Z.leb_spec m1 2), (Z.leb_spec m2 2); lia.
Qed.

Lemma date_trichotomy t u : t = u \/ date_lt t u \/ date_lt u t.
Proof.
  destruct t as [[y1 m1] d1], u as [[y2 m2] d2]. unfold date_lt.
  destruct (Z.lt_trichotomy y1 y2) as [|[->|]]; [lia| |lia].
  destruct (Z.lt_trichotomy m1 m2) as [|[->|]]; [lia| |lia].
  destruct (Z.lt_trichotomy d1 d2) as [|[->|]]; [lia|by left|lia].
Qed.

Lemma day_number_inj t u :
  valid_date t = true -> valid_date u = true -> day_number t = day_number u -> t = u.
Proof.
  intros Ht Hu Heq. destruct (date_trichotomy t u) as [|[H|H]]; [done| |];
    apply day_number_mono in H; (done || lia).
Qed.

Lemma day_number_mono_iff t u :
  valid_date t = true -> valid_date u = true -> date_lt t u <-> day_number t < day_number u.
Proof.
  intros Ht Hu. split; [by apply day_number_mono|]. intros Hlt.
  destruct (date_trichotomy t u) as [->|[H|H]]; [lia|done|].
  apply day_number_mono in H; [lia|done..].
Qed.

Lemma next_date_valid t : valid_date t = true -> valid_date (next_date t) = true.
Proof.
  destruct t as [[y m] d]. intros [Hm Hd]%valid_date_spec. unfold next_date.
  pose proof (days_in_month_bounds y (m + 1)). pose proof (days_in_month_bounds (y + 1) 1).
  destruct (Z.ltb_spec d (days_in_month y m)); [|destruct (Z.ltb_spec m 12)];
    apply valid_date_spec; lia.
Qed.

(** The day number counts the days of the reference calendar. *)
Lemma day_number_next t : valid_date t = true -> day_number (next_date t) = day_number t + 1.
Proof.
  destruct t as [[y m] d]. intros [Hm Hd]%valid_date_spec. unfold next_date.
  pose proof (month_length y m Hm) as Hl.
  destruct (Z.ltb_spec d (days_in_month y m)); [unfold day_number; lia|].
  assert (d = days_in_month y m) as -> by lia. clear H Hd.
  destruct (Z.ltb_spec m 12); cbn [day_number].
  - destruct (Z.eqb_spec m 2) as [->|].
    + change (march_year y (2 + 1)) with y. change (march_year y 2) with (y - 1) in *.
      change (march_month (2 + 1)) with 0. change (march_month 2) with 11 in *.
      replace (year_start y) with (year_start (y - 1 + 1)) by (f_equal; lia).
      rewrite year_start_succ. replace (y - 1 + 1) with y by lia.
      change (month_start 0) with 0. lia.
    + assert (march_year y (m + 1) = march_year y m) as ->
        by (unfold march_year; destruct (Z.leb_spec m 2), (Z.leb_spec (m + 1) 2); lia).
      assert (march_month (m + 1) = march_month m + 1) as ->
        by (unfold march_month; destruct (Z.leb_spec m 2), (Z.leb_spec (m + 1) 2); lia).
      lia.
  - assert (m = 12) as -> by lia. clear Hl.
    change (march_year y 12) with y. change (march_year (y + 1) 1) with (y + 1 - 1).
    replace (y + 1 - 1) with y by lia. change (march_month 12) with 9.
    change (march_month 1) with 10. change (days_in_month y 12) with 31.
    change (month_start 10) with 306. change (month_start 9) with 275. lia.
Qed.

(** ** [civil_from_days] and [days_from_civil] *)

Lemma civil_from_days_spec z :
  day_ok z ->
  valid_date (civil_from_days z) = true /\ day_number (civil_from_days z) = z /\
  Z.abs (year_of (civil_from_days z)) <= 2 ^ 53.
Proof.
  intros Hz. destruct (civil_from_days_march z Hz) as (y & mp & d & -> & Hmp & Hd & Hy & Hz' & Hm & Hl).
  set (m := if mp <? 10 then mp + 3 else mp - 9). set (Y := if mp <? 10 then y else y + 1).
  assert (Hmonth : 1 <= m <= 12) by (unfold m; destruct (Z.ltb_spec mp 10); lia).
  assert (HY : march_year Y m = y)
    by (unfold march_year, Y, m; destruct (Z.ltb_spec mp 10);
        [destruct (Z.leb_spec (mp + 3) 2)|destruct (Z.leb_spec (mp - 9) 2)]; lia).
  assert (HM : march_month m = mp)
    by (unfold march_month, m; destruct (Z.ltb_spec mp 10);
        [destruct (Z.leb_spec (mp + 3) 2)|destruct (Z.leb_spec (mp - 9) 2)]; lia).
  split_and!.
  - apply valid_date_spec. split; [done|]. split; [done|].
    pose proof (month_length Y m Hmonth) as Hlen. rewrite HM in Hlen.
    destruct (Z.eqb_spec m 2) as [Hm2|]; [|lia].
    assert (Y = y + 1) as -> by (unfold Y, m in *; destruct (Z.ltb_spec mp 10); lia).
    rewrite year_start_succ in Hl. lia.
  - cbn [day_number]. rewrite HY, HM. lia.
  - cbn. unfold Y. destruct (mp <? 10); lia.
Qed.

Lemma civil_from_days_valid z : day_ok z -> valid_date (civil_from_days z) = true.
Proof. intros. by apply civil_from_days_spec. Qed.

(** What the proofs about dates use: a day number's year, month and day. *)
Lemma civil_from_days_inv z y m d :
  day_ok z -> civil_from_days z = (y, m, d) ->
  1 <= m <= 12 /\ 1 <= d <= days_in_month y m /\ day_number (y, m, d) = z /\ Z.abs y <= 2 ^ 53.
Proof.
  intros Hz Heq. destruct (civil_from_days_spec z Hz) as (Hv & Hn & Hy).
  rewrite Heq in *. apply valid_date_spec in Hv. cbn in Hy. tauto.
Qed.

Lemma days_from_civil_from_days z :
  day_ok z -> (let '(y, m, d) := civil_from_days z in days_from_civil y m d) = z.
Proof.
  intros Hz. destruct (civil_from_days z) as [[y m] d] eqn:Heq.
  apply civil_from_days_inv in Heq as (Hm & Hd & Hn & Hy); [|done].
  pose proof (days_in_month_bounds y m). rewrite days_from_civil_day_number; lia.
Qed.

(** Bounds of the day numbers of a year. *)
Lemma day_number_bounds y m d :
  valid_date (y, m, d) = true -> Z.abs (day_number (y, m, d) - 365 * y) <= Z.abs y + 720000.
Proof.
  intros Hv. pose proof (day_number_year _ _ _ Hv) as H. rewrite year_start_succ in H.
  assert (y - 1 <= march_year y m <= y) by (unfold march_year; destruct (m <=? 2); lia).
  unfold year_start in H. destruct (is_leap _); zdiv.
Qed.

Lemma civil_of_days_from_civil y m d :
  Z.abs y <= 2 ^ 52 -> valid_date (y, m, d) = true ->
  civil_from_days (days_from_civil y m d) = (y, m, d).
Proof.
  intros Hy Hv. pose proof Hv as [Hm Hd]%valid_date_spec.
  pose proof (days_in_month_bounds y m). pose proof (day_number_bounds _ _ _ Hv).
  rewrite days_from_civil_day_number by lia.
  assert (Hz : day_ok (day_number (y, m, d))) by (unfold day_ok; lia).
  apply day_number_inj; [by apply civil_from_days_valid|done|].
  by apply civil_from_days_spec.
Qed.

Lemma civil_from_days_eq z t :
  day_ok z -> valid_date t = true -> day_number t = z -> civil_from_days z = t.
Proof.
  intros Hz Ht Hn. destruct (civil_from_days_spec z Hz) as (Hv & Hn' & _).
  apply day_number_inj; [done..|congruence].
Qed.

Lemma civil_from_days_next z :
  Z.abs z < 2 ^ 61 -> civil_from_days (z + 1) = next_date (civil_from_days z).
Proof.
  intros Hz. assert (day_ok z /\ day_ok (z + 1)) as [H H1] by (unfold day_ok; lia).
  destruct (civil_from_days_spec z H) as (Hv & Hn & _).
  apply civil_from_days_eq; [done|by apply next_date_valid|].
  rewrite day_number_next; [by rewrite Hn|done].
Qed.

(** ** Years, weeks and quarters *)

(** The day number of 1 January. *)
Definition jan1 (y : Z) : Z := day_number (y, 1, 1).

Lemma jan1_valid y : valid_date (y, 1, 1) = true.
Proof. done. Qed.

Lemma days_from_civil_jan1 y : Z.abs y <= 2 ^ 53 + 1 -> days_from_civil y 1 1 = jan1 y.
Proof. intros. by apply days_from_civil_day_number. Qed.

Lemma jan1_day y d : Z.abs y <= 2 ^ 53 + 1 -> 1 <= d <= 31 -> days_from_civil y 1 d = jan1 y + (d - 1).
Proof.
  intros. rewrite days_from_civil_day_number by lia. unfold jan1, day_number. lia.
Qed.

(** A day lies in the year [civil_from_days] gives it. *)
Lemma civil_year_bounds z :
  day_ok z ->
  jan1 (year_of (civil_from_days z)) <= z < jan1 (year_of (civil_from_days z) + 1).
Proof.
  intros Hz. destruct (civil_from_days_spec z Hz) as (Hv & Hn & _).
  destruct (civil_from_days z) as [[y m] d]. cbn [year_of fst].
  pose proof Hv as [Hm Hd]%valid_date_spec.
  rewrite <- Hn. unfold jan1. split.
  - destruct (date_trichotomy (y, m, d) (y, 1, 1)) as [->|[H|H]]; [done| |].
    + cbn in H. lia.
    + apply day_number_mono in H; [lia|done..].
  - apply day_number_mono; [done..|]. cbn. lia.
Qed.

Lemma jan1_bounds y : Z.abs (jan1 y - 365 * y) <= Z.abs y + 720000.
Proof. by apply day_number_bounds. Qed.

Lemma weekday_exact z : Z.abs z <= 2 ^ 62 -> weekday z = (z + 3) mod 7 + 1.
Proof. intros. unfold weekday. unwrap. done. Qed.

Lemma weekday_range z : Z.abs z <= 2 ^ 62 -> 1 <= weekday z <= 7.
Proof. intros. rewrite weekday_exact by done. zdiv. Qed.

(** The Monday on or before 4 January. *)
Lemma week1_monday_spec wy :
  Z.abs wy <= 2 ^ 53 + 1 ->
  jan1 wy - 3 <= week1_monday wy <= jan1 wy + 3 /\ (week1_monday wy + 3) mod 7 = 0.
Proof.
  intros Hy. pose proof (jan1_bounds wy). unfold week1_monday.
  rewrite jan1_day by lia. rewrite weekday_exact by lia.
  generalize dependent (jan1 wy). intros j Hj. unwrap. zdiv.
Qed.

(** The ISO week of a day: the first week of a year is the one with its first Thursday. *)
Lemma iso_week_spec z :
  Z.abs z <= 2 ^ 60 ->
  let '(wy, w) := iso_week z in
  z = week1_monday wy + 7 * (w - 1) + (weekday z - 1) /\
  jan1 wy <= z + (4 - weekday z) < jan1 (wy + 1) /\ 1 <= w /\ Z.abs wy <= 2 ^ 53.
Proof.
  intros Hz. unfold iso_week.
  pose proof (weekday_range z ltac:(lia)) as Hw.
  assert ((z + (4 - weekday z))%i64 = z + (4 - weekday z)) as -> by (unwrap; done).
  set (t := z + (4 - weekday z)).
  assert (Ht : day_ok t) by (unfold day_ok, t; lia).
  pose proof (civil_year_bounds t Ht) as Hj.
  destruct (civil_from_days_spec t Ht) as (_ & _ & Hy).
  destruct (civil_from_days t) as [[wy m] d]. cbn [year_of fst] in *.
  rewrite days_from_civil_jan1 by lia.
  destruct (week1_monday_spec wy ltac:(lia)) as [HM HM7].
  pose proof (jan1_bounds wy).
  assert (t = z + (4 - ((z + 3) mod 7 + 1))) as Ht' by (unfold t; by rewrite weekday_exact by lia).
  clearbody t. rewrite weekday_exact in * by lia.
  assert (((t - jan1 wy) `quot` 7 + 1)%i64 = (t - jan1 wy) / 7 + 1) as -> by (unwrap; zdiv).
  clear Hw. generalize dependent (jan1 (wy + 1)). intros j' Hj.
  generalize dependent (jan1 wy). generalize dependent (week1_monday wy). intros M HM7 j HM Hj Hj2.
  split_and!; [|lia|lia|zdiv|done]. zdiv.
Qed.

Lemma weeks_in_year_exact wy :
  Z.abs wy <= 2 ^ 53 -> weeks_in_year wy = (week1_monday (wy + 1) - week1_monday wy) / 7.
Proof.
  intros Hy. unfold weeks_in_year.
  assert ((wy + 1)%i64 = wy + 1) as -> by (unwrap; done).
  destruct (week1_monday_spec wy ltac:(lia)). destruct (week1_monday_spec (wy + 1) ltac:(lia)).
  pose proof (jan1_bounds wy). pose proof (jan1_bounds (wy + 1)).
  assert (jan1 wy + 365 <= jan1 (wy + 1))
    by (unfold jan1, day_number, march_year; cbn; unfold year_start; zdiv).
  unwrap. zdiv.
Qed.

Lemma iso_week_range z :
  Z.abs z <= 2 ^ 60 -> let '(wy, w) := iso_week z in 1 <= w <= weeks_in_year wy /\ Z.abs wy <= 2 ^ 53.
Proof.
  intros Hz. pose proof (iso_week_spec z Hz) as H. destruct (iso_week z) as [wy w].
  destruct H as (Hz' & Hj & Hw & Hy). split; [|done]. split; [done|].
  rewrite weeks_in_year_exact by done.
  destruct (week1_monday_spec wy ltac:(lia)) as [HM HM7].
  destruct (week1_monday_spec (wy + 1) ltac:(lia)) as [HM' HM7'].
  generalize dependent (jan1 (wy + 1)). generalize dependent (jan1 wy). intros. zdiv.
Qed.

(** Week dates determine the day, and the day its week date. *)
Lemma iso_week_of_week_date wy w dow :
  Z.abs wy <= 2 ^ 50 -> 1 <= w <= weeks_in_year wy -> 1 <= dow <= 7 ->
  let z := week1_monday wy + 7 * (w - 1) + (dow - 1) in
  iso_week z = (wy, w) /\ weekday z = dow.
Proof.
  intros Hy Hw Hdow z.
  rewrite weeks_in_year_exact in Hw by lia.
  destruct (week1_monday_spec wy ltac:(lia)) as [HM HM7].
  destruct (week1_monday_spec (wy + 1) ltac:(lia)) as [HM' HM7'].
  pose proof (jan1_bounds wy). pose proof (jan1_bounds (wy + 1)).
  assert (Hz : Z.abs z <= 2 ^ 60) by (unfold z; zdiv).
  assert (Hd : weekday z = dow) by (rewrite weekday_exact by lia; unfold z; zdiv).
  split; [|done].
  pose proof (iso_week_spec z Hz) as Hspec. destruct (iso_week z) as [wy' w'].
  destruct Hspec as (Hz' & Hj & Hw' & Hy'). rewrite Hd in *.
  assert (wy' = wy) as ->; [|f_equal; unfold z in *; lia].
  assert (Ht : jan1 wy <= z + (4 - dow) < jan1 (wy + 1)) by (unfold z; zdiv).
  assert (Hmono : forall a b, a < b -> jan1 (a + 1) <= jan1 b).
  { intros a b Hab. destruct (Z.eq_dec (a + 1) b) as [<-|]; [done|].
    apply Z.lt_le_incl, day_number_mono; [done..|]. cbn. lia. }
  destruct (Z.lt_trichotomy wy' wy) as [Hlt|[|Hlt]]; [|done|]; apply Hmono in Hlt; lia.
Qed.

(** ** Adding months *)

Lemma day_number_abs y m d :
  valid_date (y, m, d) = true -> Z.abs (day_number (y, m, d)) <= 366 * Z.abs y + 720000.
Proof. intros Hv. pose proof (day_number_bounds y m d Hv). lia. Qed.

Lemma day_number_year_abs y m d :
  valid_date (y, m, d) = true -> 364 * Z.abs y <= Z.abs (day_number (y, m, d)) + 720000.
Proof. intros Hv. pose proof (day_number_bounds y m d Hv). lia. Qed.

(** The month [n] months later, and the last day of it when the day does not exist there. *)
Definition months_later (t : Z * Z * Z) (n : Z) : Z * Z * Z :=
  let '(y, m, d) := t in
  let k := y * 12 + (m - 1) + n in
  (k / 12, k mod 12 + 1, Z.min d (days_in_month (k / 12) (k mod 12 + 1))).

Lemma months_later_valid t n : valid_date t = true -> valid_date (months_later t n) = true.
Proof.
  destruct t as [[y m] d]. intros [Hm Hd]%valid_date_spec. unfold months_later.
  set (k := y * 12 + (m - 1) + n). pose proof (days_in_month_bounds (k / 12) (k mod 12 + 1)).
  apply valid_date_spec. split; [zdiv|lia].
Qed.

Lemma add_months_day_number d n :
  Z.abs d <= 2 ^ 58 -> Z.abs n <= 2 ^ 55 ->
  add_months d n = day_number (months_later (civil_from_days d) n) /\
  Z.abs (year_of (months_later (civil_from_days d) n)) <= 2 ^ 52.
Proof.
  intros Hd Hn. assert (Hok : day_ok d) by (unfold day_ok; lia).
  pose proof (months_later_valid _ n (civil_from_days_valid d Hok)) as Hv.
  unfold add_months. destruct (civil_from_days d) as [[y m] dd] eqn:Heq.
  apply civil_from_days_inv in Heq as (Hm & Hdd & Hnum & _); [|done].
  assert (Hy : Z.abs y <= 2 ^ 50).
  { pose proof (day_number_year_abs y m dd ltac:(by apply valid_date_spec)). lia. }
  unfold months_later in *. cbn [year_of fst].
  assert ((y * 12 + (m - 1) + n)%i64 = y * 12 + (m - 1) + n) as -> by (unwrap; done).
  set (k := y * 12 + (m - 1) + n) in *.
  change (k `div` 12)%i64 with (k / 12).
  assert ((k `mod` 12 + 1)%i64 = k mod 12 + 1) as -> by (unwrap; done).
  assert (Z.abs (k / 12) <= 2 ^ 52) by (unfold k; zdiv).
  split; [|done].
  apply valid_date_spec in Hv. pose proof (days_in_month_bounds (k / 12) (k mod 12 + 1)).
  apply days_from_civil_day_number; lia.
Qed.

Lemma add_months_bound d n :
  Z.abs d <= 2 ^ 58 -> Z.abs n <= 2 ^ 55 -> Z.abs (add_months d n) <= 2 ^ 61.
Proof.
  intros Hd Hn. destruct (add_months_day_number d n Hd Hn) as [-> Hy].
  assert (Hok : day_ok d) by (unfold day_ok; lia).
  pose proof (months_later_valid _ n (civil_from_days_valid d Hok)) as Hv.
  destruct (months_later _ _) as [[y m] dd]. cbn in Hy. pose proof (day_number_abs y m dd Hv). lia.
Qed.
