(* ===== verification/Temporal.v ===== *)
(** * Temporal values ([crates/oxilite-cypher/src/temporal.rs])

    Zones, durations, temporal values with their rendering, parsing, construction from maps,
    component access, truncation, arithmetic, comparison and differences. [i64] arithmetic
    wraps; [i128] intermediates are exact where they are bounded by their [i64] operands and
    wrap where a text of any length feeds them. The time zone database of the [jiff] crate and
    Unicode lower-casing are parameters. *)

From S2P Require Export CypherValue Calendar.

(** ** Parameters *)

(** The [jiff] calls: zones by name, the offset (seconds) a zone has at a civil date-time
    ([to_ambiguous_zoned(dt).compatible()], an error message otherwise) and at an instant. *)
Class Jiff := {
  TimeZone : Type;
  CivilDateTime : Type;
  Timestamp : Type;
  tz_get : string -> option TimeZone;
  civil_new : Z -> Z -> Z -> Z -> Z -> Z -> Z -> result string CivilDateTime;
  compatible_offset : TimeZone -> CivilDateTime -> result string Z;
  timestamp_from_second : Z -> result string Timestamp;
  to_offset : TimeZone -> Timestamp -> Z;
}.

(** Months in an average Gregorian year, in seconds. *)
Definition MONTH_SECONDS : Z := 2629746.

(** [i128] addition where the operands are unbounded. *)
Definition add128 (x y : Z) : Z := wrap 128 (x + y).

(** ** Zones *)

Inductive Zone := Offset (o : Z) | Named (name : string).
#[global] Instance zone_eq_dec : EqDecision Zone.
Proof. solve_decision. Defined.

(** Hours, minutes, seconds and nanoseconds of a time of day. *)
Definition split_time (nanos : Z) : Z * Z * Z * Z :=
  (let s := nanos `quot` NS in
   (s `quot` 3600, (s `quot` 60) `rem` 60, s `rem` 60, nanos `rem` NS))%i64.

Section jiff.
Context `{Jiff}.

Definition tz (name : string) : outcome TimeZone :=
  match tz_get name with
  | Some z => Ok z
  | None => runtime ("unknown time zone '" +:+ name +:+ "'")
  end.

Definition lift_err {A} (r : result string A) : outcome A :=
  match r with Ok a => Ok a | Err m => runtime m end.

Definition in_i16 (z : Z) : bool := (- 2 ^ 15 <=? z) && (z <? 2 ^ 15).

Definition offset_at_local (name : string) (days nanos : Z) : outcome Z :=
  z ← tz name;
  let '(y, m, d) := civil_from_days days in
  let '(h, mi, s, n) := split_time nanos in
  if negb (in_i16 y) then runtime "date out of the time zone database range"
  else
    dt ← lift_err (civil_new y m d h mi s n);
    lift_err (compatible_offset z dt).

Definition offset_at_instant (name : string) (epoch_seconds : Z) : outcome Z :=
  z ← tz name;
  ts ← lift_err (timestamp_from_second epoch_seconds);
  Ok (to_offset z ts).

Definition bad_offset {A} (s : string) : outcome A :=
  runtime ("invalid time zone offset '" +:+ s +:+ "'").

Definition parse_offset (s : string) : outcome Z :=
  if String.eqb s "Z" then Ok 0
  else
    sign ← (if starts_with s "+" then Ok 1 else if starts_with s "-" then Ok (-1) else bad_offset s);
    body ← slice s 1 (String.length s);
    let digits := filter_bytes (fun c => negb (Ascii.eqb c ":")) body in
    if negb (all_chars is_ascii_digit digits) then bad_offset s
    else
      let n a b :=
        match str_get digits a b ≫= parse_i64 with Some v => Ok v | None => bad_offset s end in
      '(h, m, sec) ← match String.length digits with
                     | 2%nat => h ← n 0%nat 2%nat; Ok (h, 0, 0)
                     | 4%nat => h ← n 0%nat 2%nat; m ← n 2%nat 4%nat; Ok (h, m, 0)
                     | 6%nat =>
                         h ← n 0%nat 2%nat; m ← n 2%nat 4%nat; sec ← n 4%nat 6%nat; Ok (h, m, sec)
                     | _ => bad_offset s
                     end;
      if (18 <? h) || (59 <? m) || (59 <? sec) then bad_offset s
      else Ok (sign * (h * 3600 + m * 60 + sec)).

Definition parse_zone (s : string) : outcome Zone :=
  if String.eqb s "Z" || String.eqb s "z" then Ok (Offset 0)
  else if starts_with s "+" || starts_with s "-" then Offset <$> parse_offset s
  else _ ← tz s; Ok (Named s).

Definition fmt_offset (o : Z) : string :=
  if o =? 0 then "Z"
  else
    let sign := if o <? 0 then "-" else "+" in
    let a := Z.abs o in
    let h := a `quot` 3600 in
    let m := (a `quot` 60) `rem` 60 in
    let s := a `rem` 60 in
    if negb (s =? 0) then sign +:+ fmt_0 2 h +:+ ":" +:+ fmt_0 2 m +:+ ":" +:+ fmt_0 2 s
    else sign +:+ fmt_0 2 h +:+ ":" +:+ fmt_0 2 m.

(** ** Durations *)

Record Dur := mkDur { months : Z; days : Z; seconds : Z; nanos : Z }.
#[global] Instance dur_eq_dec : EqDecision Dur.
Proof. solve_decision. Defined.
Definition Dur_default : Dur := mkDur 0 0 0 0.

Definition Dur_new (months days total_nanos : Z) : Dur :=
  mkDur months days (wrap_i64 (total_nanos `div` NS)) (wrap_i64 (total_nanos `mod` NS)).

Definition total_nanos (self : Dur) : Z := seconds self * NS + nanos self.

(** Months, days and nanoseconds as floats, or exactly. *)
Definition from_parts (months days nanos : f64) (exact : option (Z * Z * Z)) : Dur :=
  match exact with
  | Some (m, d, n) => Dur_new m d n
  | None =>
      let mi := F64.trunc months in
      let mf := F64.sub months mi in
      let month_ns :=
        f64_to_i128 (f64_round (F64.mul (F64.mul mf (F64.of_Z MONTH_SECONDS)) (F64.of_Z NS))) in
      let extra_days := month_ns `quot` DAY_NS in
      let month_rest := month_ns `rem` DAY_NS in
      let di := F64.trunc days in
      let df := F64.sub days di in
      let day_ns := f64_to_i128 (f64_round (F64.mul df (F64.of_Z DAY_NS))) in
      let total := add128 (add128 month_rest day_ns) (f64_to_i128 (F64.trunc nanos)) in
      Dur_new (F64.to_i64 mi) (F64.to_i64 di + wrap_i64 extra_days)%i64 total
  end.

(** One component of the time part. *)
Definition render_seconds (sign : string) (sec frac : Z) : string :=
  let f := pop_while "0" (fmt_0 9 frac) in
  if String.eqb f "" then sign +:+ show_Z sec +:+ "S"
  else sign +:+ show_Z sec +:+ "." +:+ f +:+ "S".

Definition Dur_render (self : Dur) : string :=
  if bool_decide (self = Dur_default) then "PT0S"
  else
    let years := months self `quot` 12 in
    let months := months self `rem` 12 in
    "P" +:+ (if negb (years =? 0) then show_Z years +:+ "Y" else "")
    +:+ (if negb (months =? 0) then show_Z months +:+ "M" else "")
    +:+ (if negb (days self =? 0) then show_Z (days self) +:+ "D" else "")
    +:+ let total := total_nanos self in
        if total =? 0 then ""
        else
          let a := Z.abs total in
          let secs := a `div` NS in
          let frac := a `mod` NS in
          let h := secs `quot` 3600 in
          let m := (secs `quot` 60) `rem` 60 in
          let sec := secs `rem` 60 in
          let sign := if total <? 0 then "-" else "" in
          "T" +:+ (if negb (h =? 0) then sign +:+ show_Z h +:+ "H" else "")
          +:+ (if negb (m =? 0) then sign +:+ show_Z m +:+ "M" else "")
          +:+ (if negb (sec =? 0) || negb (frac =? 0) then render_seconds sign sec frac else "").

(** [Dur::component]. *)
Definition component (self : Dur) (key : string) : option Value :=
  let n := total_nanos self in
  let s := wrap_i64 (n `div` NS) in
  let ns := wrap_i64 (n `mod` NS) in
  VInt <$>
  (let k := String.eqb key in
   if k "years" then Some (months self `quot` 12)
   else if k "quarters" then Some (months self `quot` 3)
   else if k "months" then Some (months self)
   else if k "monthsofyear" then Some (months self `rem` 12)
   else if k "quartersofyear" then Some ((months self `quot` 3) `rem` 4)%i64
   else if k "monthsofquarter" then Some (months self `rem` 3)
   else if k "weeks" then Some (days self `quot` 7)
   else if k "days" then Some (days self)
   else if k "daysofweek" then Some (days self `rem` 7)
   else if k "hours" then Some (s `quot` 3600)
   else if k "minutes" then Some (s `quot` 60)
   else if k "seconds" then Some s
   else if k "minutesofhour" then Some ((s `quot` 60) `rem` 60)%i64
   else if k "secondsofminute" then Some (s `rem` 60)
   else if k "milliseconds" then Some (s * 1000 + ns `quot` 1000000)%i64
   else if k "microseconds" then Some (s * 1000000 + ns `quot` 1000)%i64
   else if k "nanoseconds" then Some (wrap_i64 n)
   else if k "millisecondsofsecond" then Some (ns `quot` 1000000)
   else if k "microsecondsofsecond" then Some (ns `quot` 1000)
   else if k "nanosecondsofsecond" then Some ns
   else None).

Definition Dur_neg (self : Dur) : Dur :=
  Dur_new (- months self)%i64 (- days self)%i64 (- total_nanos self).

Definition Dur_add (self o : Dur) : outcome Dur :=
  match i64.checked_add (months self) (months o), i64.checked_add (days self) (days o) with
  | Some m, Some d => Ok (Dur_new m d (total_nanos self + total_nanos o))
  | _, _ => runtime "duration overflow"
  end.

Definition Dur_scale (self : Dur) (f : f64) : Dur :=
  let months := F64.mul (F64.of_Z (months self)) f in
  let days := F64.mul (F64.of_Z (days self)) f in
  let nanos := F64.mul (F64.of_Z (total_nanos self)) f in
  from_parts months days nanos None.

(** ** Temporal values *)

(** [T]. *)
Inductive T :=
  | TDate (d : Z)
  | TLocalTime (n : Z)
  | TTime (n o : Z)
  | TLocalDateTime (d n : Z)
  | TDateTime (d n : Z) (z : Zone) (o : Z)
  | TDuration (d : Dur).
#[global] Instance t_eq_dec : EqDecision T.
Proof. solve_decision. Defined.

Definition fmt_year (y : Z) : string :=
  if 9999 <? y then "+" +:+ show_Z y
  else if y <? 0 then "-" +:+ fmt_0 4 (- y)%i64
  else fmt_0 4 y.

Definition fmt_date (days : Z) : string :=
  let '(y, m, d) := civil_from_days days in
  fmt_year y +:+ "-" +:+ fmt_0 2 m +:+ "-" +:+ fmt_0 2 d.

Definition fmt_time (nanos : Z) : string :=
  let '(h, m, s, n) := split_time nanos in
  fmt_0 2 h +:+ ":" +:+ fmt_0 2 m
  +:+ (if negb (s =? 0) || negb (n =? 0) then ":" +:+ fmt_0 2 s else "")
  +:+ (if negb (n =? 0) then
         if n `rem` 1000000 =? 0 then "." +:+ fmt_0 3 (n `quot` 1000000)
         else if n `rem` 1000 =? 0 then "." +:+ fmt_0 6 (n `quot` 1000)
         else "." +:+ fmt_0 9 n
       else "").

(** XSD lexical forms always have seconds. *)
Definition xsd_time (nanos : Z) : string :=
  let '(h, m, s, n) := split_time nanos in
  fmt_0 2 h +:+ ":" +:+ fmt_0 2 m +:+ ":" +:+ fmt_0 2 s
  +:+ (if negb (n =? 0) then "." +:+ pop_while "0" (fmt_0 9 n) else "").

Definition ZONED_DATETIME : string := "urn:oxilite:cypher:zonedDateTime".

(** [T::kind]. *)
Definition T_kind (v : T) : TemporalKind :=
  match v with
  | TDate _ => Date
  | TLocalTime _ => LocalTime
  | TTime _ _ => Time
  | TLocalDateTime _ _ => LocalDateTime
  | TDateTime _ _ _ _ => DateTime
  | TDuration _ => Duration
  end.

(** [T::render]. *)
Definition T_render (v : T) : string :=
  match v with
  | TDate d => fmt_date d
  | TLocalTime n => fmt_time n
  | TTime n o => fmt_time n +:+ fmt_offset o
  | TLocalDateTime d n => fmt_date d +:+ "T" +:+ fmt_time n
  | TDateTime d n z o =>
      fmt_date d +:+ "T" +:+ fmt_time n +:+ fmt_offset o
      +:+ match z with Named name => "[" +:+ name +:+ "]" | Offset _ => "" end
  | TDuration d => Dur_render d
  end.

(** [T::value]. *)
Definition T_value (v : T) : Value := VTemporal (T_kind v) (T_render v).

(** [T::lexical]: the RDF literal's lexical form and datatype. *)
Definition lexical (v : T) : string * string :=
  match v with
  | TDate d => (fmt_date d, "http://www.w3.org/2001/XMLSchema#date")
  | TLocalTime n => (xsd_time n, "http://www.w3.org/2001/XMLSchema#time")
  | TTime n o => (xsd_time n +:+ fmt_offset o, "http://www.w3.org/2001/XMLSchema#time")
  | TLocalDateTime d n =>
      (fmt_date d +:+ "T" +:+ xsd_time n, "http://www.w3.org/2001/XMLSchema#dateTime")
  | TDateTime d n (Offset _) o =>
      (fmt_date d +:+ "T" +:+ xsd_time n +:+ fmt_offset o,
       "http://www.w3.org/2001/XMLSchema#dateTime")
  | TDateTime _ _ _ _ => (T_render v, ZONED_DATETIME)
  | TDuration d => (Dur_render d, "http://www.w3.org/2001/XMLSchema#duration")
  end.

Definition date_days (v : T) : option Z :=
  match v with
  | TDate d | TLocalDateTime d _ | TDateTime d _ _ _ => Some d
  | _ => None
  end.

Definition time_nanos (v : T) : option Z :=
  match v with
  | TLocalTime n | TTime n _ | TLocalDateTime _ n | TDateTime _ n _ _ => Some n
  | _ => None
  end.

Definition offset (v : T) : option Z :=
  match v with TTime _ o | TDateTime _ _ _ o => Some o | _ => None end.

Definition zone (v : T) : option Zone :=
  match v with
  | TTime _ o => Some (Offset o)
  | TDateTime _ _ z _ => Some z
  | _ => None
  end.

(** Epoch nanoseconds of a datetime. *)
Definition instant (v : T) : option Z :=
  match v with
  | TDateTime d n _ o => Some (d * DAY_NS + n - o * NS)
  | _ => None
  end.

(** [T::at_instant]. *)
Definition at_instant (inst : Z) (z : Zone) : outcome T :=
  o ← match z with
      | Offset o => Ok o
      | Named name => offset_at_instant name (wrap_i64 (inst `div` NS))
      end;
  let local := inst + o * NS in
  Ok (TDateTime (wrap_i64 (local `div` DAY_NS)) (wrap_i64 (local `mod` DAY_NS)) z o).

(** [T::zoned]. *)
Definition zoned (days nanos : Z) (z : Zone) (given_offset : option Z) : outcome T :=
  match z, given_offset with
  | Offset o, _ => Ok (TDateTime days nanos z o)
  | Named name, Some given =>
      o ← offset_at_local name days nanos;
      if negb (o =? given) then at_instant (days * DAY_NS + nanos - given * NS) z
      else Ok (TDateTime days nanos z o)
  | Named name, None =>
      o ← offset_at_local name days nanos;
      Ok (TDateTime days nanos z o)
  end.

(** ** Parsing *)

Definition all_digits (s : string) : bool :=
  negb (String.eqb s "") && all_chars is_ascii_digit s.

Definition num (s : string) : outcome Z :=
  match parse_i64 s with
  | Some z => Ok z
  | None => runtime ("invalid number '" +:+ s +:+ "' in a temporal string")
  end.

Definition check_date (y m d : Z) : outcome Z :=
  if negb ((1 <=? m) && (m <=? 12)) || (d <? 1) || (days_in_month y m <? d) then
    runtime ("invalid date " +:+ show_Z y +:+ "-" +:+ show_Z m +:+ "-" +:+ show_Z d)
  else Ok (days_from_civil y m d).

Definition from_week (wy w dow : Z) : outcome Z :=
  if (w <? 1) || (weeks_in_year wy <? w) || negb ((1 <=? dow) && (dow <=? 7)) then
    runtime ("invalid week date " +:+ show_Z wy +:+ "-W" +:+ show_Z w +:+ "-" +:+ show_Z dow)
  else Ok (week1_monday wy + (w - 1) * 7 + (dow - 1))%i64.

Definition from_ordinal (y od : Z) : outcome Z :=
  let len := if is_leap y then 366 else 365 in
  if (od <? 1) || (len <? od) then
    runtime ("invalid ordinal day " +:+ show_Z y +:+ "-" +:+ show_Z od)
  else Ok (days_from_civil y 1 1 + od - 1)%i64.

Definition from_quarter (y q dq : Z) : outcome Z :=
  if negb ((1 <=? q) && (q <=? 4)) then runtime ("invalid quarter " +:+ show_Z q)
  else
    let start := quarter_start y q in
    let len := (quarter_start (y + (q `quot` 4))%i64 ((q `rem` 4) + 1)%i64 - start)%i64 in
    if (dq <? 1) || (len <? dq) then runtime ("invalid day of quarter " +:+ show_Z dq)
    else Ok (start + dq - 1)%i64.

Definition bad_date {A} (s : string) : outcome A := runtime ("invalid date '" +:+ s +:+ "'").

(** The year of a date text and what follows it. *)
Definition parse_year (s : string) : outcome (Z * string) :=
  let signed := starts_with s "+" || starts_with s "-" in
  let sign := if starts_with s "-" then -1 else 1 in
  body ← (if signed then slice s 1 (String.length s) else Ok s);
  let len := String.length body in
  let year_len :=
    if signed then default len (find_byte (fun c => negb (is_ascii_digit c)) body)
    else Nat.min 4 len in
  if (year_len <? 4)%nat && negb ((year_len =? len)%nat && (0 <? year_len)%nat) then bad_date s
  else
    digits ← slice body 0 year_len;
    n ← num digits;
    rest ← slice body year_len len;
    Ok ((sign * n)%i64, rest).

(** [W30-2], [W302], [W30] after the year. *)
Definition parse_week (s : string) (y : Z) (dashed : bool) (w : string) : outcome Z :=
  '(wk, dow) ← (if dashed then
                  match split_once (Ascii.eqb "-") w with
                  | Some (a, b) => Ok (a, Some b)
                  | None => Ok (w, None)
                  end
                else if (String.length w =? 3)%nat then
                  a ← slice w 0 2; b ← slice w 2 3; Ok (a, Some b)
                else Ok (w, None));
  if negb (all_digits wk) || negb (String.length wk =? 2)%nat
     || match dow with
        | Some d => negb (all_digits d) || negb (String.length d =? 1)%nat
        | None => false
        end
  then bad_date s
  else
    w ← num wk;
    d ← match dow with Some d => num d | None => Ok 1 end;
    from_week y w d.

(** [2015-07-21], [20150721], [2015-07], [201507], [2015-W30-2], [2015W302], [2015-W30],
    [2015-202], [2015202], [2015]. *)
Definition parse_date (s : string) : outcome Z :=
  '(y, rest) ← parse_year s;
  if String.eqb rest "" then check_date y 1 1
  else
    let dashed := starts_with rest "-" in
    r ← (if dashed then slice rest 1 (String.length rest) else Ok rest);
    match strip_prefix r "W" with
    | Some w => parse_week s y dashed w
    | None =>
        let len := String.length r in
        if dashed then
          match split_once (Ascii.eqb "-") r with
          | Some (m, d) =>
              if (String.length m =? 2)%nat && (String.length d =? 2)%nat
                 && all_digits m && all_digits d
              then m ← num m; d ← num d; check_date y m d
              else bad_date s
          | None =>
              if (len =? 2)%nat && all_digits r then m ← num r; check_date y m 1
              else if (len =? 3)%nat && all_digits r then od ← num r; from_ordinal y od
              else bad_date s
          end
        else if (len =? 4)%nat && all_digits r then
          m ← slice r 0 2; m ← num m; d ← slice r 2 4; d ← num d; check_date y m d
        else if (len =? 2)%nat && all_digits r then m ← num r; check_date y m 1
        else if (len =? 3)%nat && all_digits r then od ← num r; from_ordinal y od
        else bad_date s
    end.

(** The text in slices of two bytes. *)
Fixpoint pairs (fuel i : nat) (main : string) : outcome (list string) :=
  match fuel with
  | O => Ok []
  | S fuel =>
      if (i <? String.length main)%nat then
        p ← slice main i (Nat.min (i + 2) (String.length main));
        l ← pairs fuel (i + 2) main;
        Ok (p :: l)
      else Ok []
  end.

Definition bad_time {A} (t : string) : outcome A := runtime ("invalid time '" +:+ t +:+ "'").

Definition parse_time (t : string) : outcome Z :=
  '(main, frac) ← match find_byte (one_of ["."; ","]%char) t with
                  | Some i =>
                      a ← slice t 0 i; b ← slice t (i + 1) (String.length t); Ok (a, Some b)
                  | None => Ok (t, None)
                  end;
  parts ← (if contains_char main ":" then Ok (split_char ":" main)
           else pairs (String.length main) 0 main);
  match parts with
  | [] => bad_time t
  | p0 :: ps =>
      if (3 <? length parts)%nat
         || existsb (fun p => negb (String.length p =? 2)%nat || negb (all_digits p)) parts
      then bad_time t
      else
        h ← num p0;
        m ← match ps with x :: _ => num x | [] => Ok 0 end;
        sec ← match ps with _ :: x :: _ => num x | _ => Ok 0 end;
        if (23 <? h) || (59 <? m) || (59 <? sec) then bad_time t
        else
          nanos ← match frac with
                  | Some f =>
                      if negb (length parts =? 3)%nat || negb (all_digits f)
                         || (9 <? String.length f)%nat
                      then bad_time t
                      else num (pad_right 9 f)
                  | None => Ok 0
                  end;
          Ok (((h * 60 + m) * 60 + sec) * NS + nanos)%i64
  end.

(** A time of day with an optional zone. *)
Definition parse_time_zone (s : string) : outcome (Z * option Zone) :=
  '(s, named) ← match find_byte (Ascii.eqb "[") s with
                | Some i =>
                    if ends_with s "]" then
                      a ← slice s 0 i; b ← slice s (i + 1) (String.length s - 1); Ok (a, Some b)
                    else Ok (s, None)
                | None => Ok (s, None)
                end;
  '(t, off) ← match find_byte (one_of ["Z"; "z"; "+"; "-"]%char) s with
              | Some i => a ← slice s 0 i; b ← slice s i (String.length s); Ok (a, Some b)
              | None => Ok (s, None)
              end;
  n ← parse_time t;
  z ← match off, named with
      | _, Some name => _ ← tz name; Ok (Some (Named name))
      | Some o, None =>
          o ← parse_offset (if String.eqb o "z" then "Z" else o); Ok (Some (Offset o))
      | None, None => Ok None
      end;
  Ok (n, z).

Definition parse_datetime (s : string) : outcome (Z * Z * option Zone) :=
  match find_byte (one_of ["T"; "t"]%char) s with
  | Some i =>
      a ← slice s 0 i;
      d ← parse_date a;
      b ← slice s (i + 1) (String.length s);
      '(n, z) ← parse_time_zone b;
      Ok (d, n, z)
  | None => d ← parse_date s; Ok (d, 0, None)
  end.

(** Nanoseconds of a decimal number of seconds, at most nine fractional digits. *)
Definition decimal_nanos (s : string) : option Z :=
  let '(neg, s) := match strip_prefix s "-" with
                   | Some r => (true, r)
                   | None => (false, default s (strip_prefix s "+"))
                   end in
  let '(i, f) := default (s, "") (split_once (Ascii.eqb ".") s) in
  if (9 <? String.length f)%nat then None
  else
    i ← parse_i128 i;
    f ← parse_i128 (pad_right 9 f);
    let v := add128 (wrap 128 (i * NS)) f in
    Some (if neg : bool then wrap 128 (- v) else v).

Definition bad_duration {A} (s : string) : outcome A :=
  runtime ("invalid duration '" +:+ s +:+ "'").

(** What [parse_duration] accumulates: float totals and, while every component is an integer,
    exact ones. *)
Record DurAcc := mkDurAcc {
  da_months : f64; da_days : f64; da_nanos : f64; da_exact : option (Z * Z * Z);
}.

(** One component of the date or the time part: [unit] in upper case, its number [cur] as
    text, as float and as integer. *)
Definition take_unit (date : bool) (unit : ascii) (cur : string) (v : f64) (int : option Z)
    (a : DurAcc) : option DurAcc :=
  let 'mkDurAcc mo da na exact := a in
  let exactly (f : Z -> Z * Z * Z -> Z * Z * Z) :=
    e ← exact; i ← int; Some (f i e) in
  let is_unit d u := Bool.eqb date d && Ascii.eqb unit u in
  let f z := F64.of_Z z in
  if is_unit true "Y"%char then
    Some (mkDurAcc (F64.add mo (F64.mul v (f 12))) da na
            (exactly (fun i '(m, d, n) => ((m + i * 12)%i64, d, n))))
  else if is_unit true "M"%char then
    Some (mkDurAcc (F64.add mo v) da na (exactly (fun i '(m, d, n) => ((m + i)%i64, d, n))))
  else if is_unit true "W"%char then
    Some (mkDurAcc mo (F64.add da (F64.mul v (f 7))) na
            (exactly (fun i '(m, d, n) => (m, (d + i * 7)%i64, n))))
  else if is_unit true "D"%char then
    Some (mkDurAcc mo (F64.add da v) na (exactly (fun i '(m, d, n) => (m, (d + i)%i64, n))))
  else if is_unit false "H"%char then
    Some (mkDurAcc mo da (F64.add na (F64.mul (F64.mul v (f 3600)) (f NS)))
            (exactly (fun i '(m, d, n) => (m, d, add128 n (i * 3600 * NS)))))
  else if is_unit false "M"%char then
    Some (mkDurAcc mo da (F64.add na (F64.mul (F64.mul v (f 60)) (f NS)))
            (exactly (fun i '(m, d, n) => (m, d, add128 n (i * 60 * NS)))))
  else if is_unit false "S"%char then
    Some (mkDurAcc mo da (F64.add na (F64.mul v (f NS)))
            ('(m, d, n) ← exact; x ← decimal_nanos cur; Some (m, d, add128 n x)))
  else None.

(** The characters of one part, with the number read so far. *)
Fixpoint take_part (s : string) (date : bool) (part cur : string) (a : DurAcc) : outcome DurAcc :=
  match part with
  | EmptyString => if String.eqb cur "" then Ok a else bad_duration s
  | String c part =>
      if is_ascii_digit c || one_of ["."; ","; "-"; "+"]%char c then
        take_part s date part
          (cur +:+ String (if Ascii.eqb c "," then "."%char else c) EmptyString) a
      else if String.eqb cur "" then bad_duration s
      else
        match F64.parse cur with
        | None => bad_duration s
        | Some v =>
            let int := if contains_char cur "." then None else parse_i64 cur in
            match take_unit date (to_ascii_uppercase_byte c) cur v int a with
            | Some a => take_part s date part "" a
            | None => bad_duration s
            end
        end
  end.

(** Whether the text after the [P] is read as a date and time. *)
Definition alternative_form (body : string) : outcome bool :=
  if contains_char body "-" && negb (exists_byte (one_of ["Y"; "W"; "D"; "H"; "S"]%char) body)
  then Ok true
  else
    match body with
    | String c _ =>
        if is_ascii_digit c && (4 <=? String.length body)%nat then
          y ← slice body 0 4;
          Ok (all_chars is_ascii_digit y && bool_decide (str_get body 4 5 = Some "-"))
        else Ok false
    | EmptyString => Ok false
    end.

Definition parse_alternative (s body : string) (neg : bool) : outcome Dur :=
  let '(date, time) := match split_once (Ascii.eqb "T") body with
                       | Some (d, t) => (d, Some t)
                       | None => (body, None)
                       end in
  match split_char "-" date with
  | [p0; p1; p2] =>
      y ← num p0; m ← num p1; d ← num p2;
      n ← match time with Some t => parse_time t | None => Ok 0 end;
      let dur := Dur_new (y * 12 + m)%i64 d n in
      Ok (if neg then Dur_neg dur else dur)
  | _ => bad_duration s
  end.

Definition parse_units (s body : string) (neg : bool) : outcome Dur :=
  let '(date_part, time_part) :=
    default (body, "") (split_once (one_of ["T"; "t"]%char) body) in
  a ← take_part s true date_part "" (mkDurAcc F64.zero F64.zero F64.zero (Some (0, 0, 0)));
  '(mkDurAcc mo da na exact) ← take_part s false time_part "" a;
  let exact := if F64.eqb (F64.fract mo) F64.zero && F64.eqb (F64.fract da) F64.zero
               then exact else None in
  let dur := from_parts mo da na exact in
  Ok (if neg then Dur_neg dur else dur).

(** [P1Y2M3W4DT5H6M7.8S] (fractions allowed on any unit) or [P2012-02-02T14:37:21.545]. *)
Definition parse_duration (s : string) : outcome Dur :=
  let '(neg, body) := match strip_prefix s "-" with
                      | Some r => (true, r)
                      | None => (false, s)
                      end in
  match body with
  | String "P" body | String "p" body =>
      alt ← alternative_form body;
      if alt : bool then parse_alternative s body neg else parse_units s body neg
  | _ => bad_duration s
  end.

(** [T::parse]. *)
Definition T_parse (kind : TemporalKind) (s : string) : outcome T :=
  let s := trim s in
  match kind with
  | Date => TDate <$> parse_date s
  | LocalTime => '(n, _) ← parse_time_zone s; Ok (TLocalTime n)
  | Time =>
      '(n, z) ← parse_time_zone s;
      o ← match z with
          | Some (Offset o) => Ok o
          | Some (Named name) => offset_at_local name 0 n
          | None => Ok 0
          end;
      Ok (TTime n o)
  | LocalDateTime => '(d, n, _) ← parse_datetime s; Ok (TLocalDateTime d n)
  | DateTime => '(d, n, z) ← parse_datetime s; zoned d n (default (Offset 0) z) None
  | Duration => TDuration <$> parse_duration s
  end.

(** [T::from_value]. *)
Definition T_from_value (v : Value) : outcome (option T) :=
  match v with
  | VTemporal k s => Some <$> T_parse k s
  | _ => Ok None
  end.
End jiff.
