(* ===== verification/TemporalOps.v ===== *)
(** * Functions on temporal values ([crates/oxilite-cypher/src/temporal.rs], second part)

    Construction from maps, the statement clock, component access, truncation, arithmetic,
    comparison, differences and the decoding of stored literals. *)

From S2P Require Export Temporal.

Abbreviation ValueMap := (list (string * Value)).

(** Sequencing for optional components: [Option<Result<T>>::transpose] and the like. *)
Definition or_else {A} (o o' : option A) : option A := match o with Some _ => o | None => o' end.

Section ops.
Context `{Jiff} `{Lowercase}.

(** ** Fields of a map *)

Definition map_int (m : ValueMap) (k : string) : outcome (option Z) :=
  match BTreeMap.get m k with
  | None | Some VNull => Ok None
  | Some (VInt i) => Ok (Some i)
  | Some o =>
      let bad := runtime ("`" +:+ k +:+ "` must be an integer, got " +:+ type_name o) in
      match o with
      | VFloat f => if F64.eqb (F64.fract f) F64.zero then Ok (Some (F64.to_i64 f)) else bad
      | _ => bad
      end
  end.

Definition map_temporal (m : ValueMap) (k : string) : outcome (option T) :=
  match BTreeMap.get m k with
  | None | Some VNull => Ok None
  | Some v =>
      t ← T_from_value v;
      match t with
      | Some t => Ok (Some t)
      | None => runtime ("`" +:+ k +:+ "` must be a temporal value")
      end
  end.

Definition DATE_KEYS : list string :=
  ["year"; "month"; "day"; "week"; "dayofweek"; "ordinalday"; "quarter"; "dayofquarter"].
Definition TIME_KEYS : list string :=
  ["hour"; "minute"; "second"; "millisecond"; "microsecond"; "nanosecond"].

Definition lower_keys (m : ValueMap) : ValueMap :=
  BTreeMap.collect (map (fun '(k, v) => (to_lowercase k, v)) m).

(** The date of a map without a base date. *)
Definition date_of_fields (year month day week dow od q dq : option Z) : outcome Z :=
  match year with
  | None => runtime "a date needs a year"
  | Some y =>
      match week, od, q with
      | Some w, _, _ => from_week y w (default 1 dow)
      | None, Some o, _ => from_ordinal y o
      | None, None, Some q => from_quarter y q (default 1 dq)
      | None, None, None =>
          if bool_decide (is_Some day) && negb (bool_decide (is_Some month)) then
            runtime "a date with a day needs a month"
          else check_date y (default 1 month) (default 1 day)
      end
  end.

(** The date of a map over a base date. *)
Definition date_over_base (base : Z) (year month day week dow od q dq : option Z) : outcome Z :=
  let '(by_, bm, bd) := civil_from_days base in
  match week, dow, od with
  | Some w, _, _ =>
      let '(bwy, _) := iso_week base in
      from_week (default bwy year) w (default (weekday base) dow)
  | None, Some d, _ =>
      let '(bwy, bw) := iso_week base in from_week (default bwy year) bw d
  | None, None, Some o => from_ordinal (default by_ year) o
  | None, None, None =>
      if bool_decide (is_Some q) || bool_decide (is_Some dq) then
        let bq := ((bm - 1) `quot` 3 + 1)%i64 in
        let y := default by_ year in
        let q' := default bq q in
        let dq' := default (base - quarter_start by_ bq + 1)%i64 dq in
        from_quarter y q' dq'
      else check_date (default by_ year) (default bm month) (default bd day)
  end.

Definition date_from_map (m : ValueMap) (base : option Z) : outcome (option Z) :=
  let g := map_int m in
  year ← g "year"; month ← g "month"; day ← g "day";
  week ← g "week"; dow ← g "dayofweek";
  od ← g "ordinalday"; q ← g "quarter"; dq ← g "dayofquarter";
  match base with
  | None =>
      if existsb (BTreeMap.contains_key m) DATE_KEYS
      then Some <$> date_of_fields year month day week dow od q dq
      else Ok None
  | Some base => Some <$> date_over_base base year month day week dow od q dq
  end.

(** The nanoseconds of the sub-second fields; over a base value, the units larger than the
    ones given are kept. *)
Definition sub_seconds (base : option Z) (bn : Z) (ms us ns : option Z) : outcome Z :=
  let us_limit := if bool_decide (is_Some ms) then 1000 else 1000000 in
  let ns_limit := if bool_decide (is_Some us) then 1000
                  else if bool_decide (is_Some ms) then 1000000 else NS in
  let plain := (default 0 ms, default 0 us, default 0 ns, us_limit, ns_limit) in
  let '(ms, us, ns, us_limit, ns_limit) :=
    match base, ms, us, ns with
    | Some _, None, None, Some n =>
        if n <? 1000
        then (bn `quot` 1000000, (bn `quot` 1000) `rem` 1000, n, 1000, 1000)
        else plain
    | Some _, None, Some u, n =>
        if u <? 1000 then (bn `quot` 1000000, u, default 0 n, 1000, 1000) else plain
    | _, _, _, _ => plain
    end in
  if negb ((0 <=? ms) && (ms <? 1000)) || negb ((0 <=? us) && (us <? us_limit))
     || negb ((0 <=? ns) && (ns <? ns_limit))
  then runtime "sub-second fields out of range"
  else Ok (ms * 1000000 + us * 1000 + ns)%i64.

Definition time_from_map (m : ValueMap) (base : option Z) : outcome (option Z) :=
  let g := map_int m in
  h ← g "hour"; mi ← g "minute"; s ← g "second";
  ms ← g "millisecond"; us ← g "microsecond"; ns ← g "nanosecond";
  let some {A} (o : option A) := bool_decide (is_Some o) in
  if negb (some base) && negb (existsb (BTreeMap.contains_key m) TIME_KEYS) then Ok None
  else
    let '(bh, bmi, bs, bn) := split_time (default 0 base) in
    sub ← (if some ms || some us || some ns then sub_seconds base bn ms us ns
           else Ok (if some base then bn else 0));
    let hh := default (if some base then bh else 0) h in
    let mm := default (if some base then bmi else 0) mi in
    let ss := default (if some base then bs else 0) s in
    if negb (some base) && ((some mi && negb (some h)) || (some s && negb (some mi)))
    then runtime "time fields need their larger units"
    else if negb ((0 <=? hh) && (hh <? 24)) || negb ((0 <=? mm) && (mm <? 60))
            || negb ((0 <=? ss) && (ss <? 60))
    then runtime "time fields out of range"
    else Ok (Some (((hh * 60 + mm) * 60 + ss) * NS + sub)%i64).

Definition map_zone (m : ValueMap) : outcome (option Zone) :=
  match BTreeMap.get m "timezone" with
  | None | Some VNull => Ok None
  | Some (VString s) => Some <$> parse_zone s
  | Some o => runtime ("timezone must be a string, got " +:+ type_name o)
  end.

Definition zone_offset_now (z : Zone) (days nanos : Z) : outcome Z :=
  match z with
  | Offset o => Ok o
  | Named n => offset_at_local n days nanos
  end.

(** ** Durations from maps *)

(** One field: its number as a float and, for an integer, exactly. *)
Definition duration_field (k : string) (f : f64) (int : option Z) (a : DurAcc)
    : option DurAcc :=
  let 'mkDurAcc mo da na exact := a in
  let add dm dd dn :=
    '(m, d, n) ← exact; i ← int;
    Some ((m + i * dm)%i64, (d + i * dd)%i64, add128 n (i * dn)) in
  let z := F64.of_Z in
  let months x e := Some (mkDurAcc (F64.add mo x) da na e) in
  let days x e := Some (mkDurAcc mo (F64.add da x) na e) in
  let nanos x e := Some (mkDurAcc mo da (F64.add na x) e) in
  let k' := String.eqb k in
  if k' "years" then months (F64.mul f (z 12)) (add 12 0 0)
  else if k' "quarters" then months (F64.mul f (z 3)) (add 3 0 0)
  else if k' "months" then months f (add 1 0 0)
  else if k' "weeks" then days (F64.mul f (z 7)) (add 0 7 0)
  else if k' "days" then days f (add 0 1 0)
  else if k' "hours" then nanos (F64.mul (F64.mul f (z 3600)) (z NS)) (add 0 0 (3600 * NS))
  else if k' "minutes" then nanos (F64.mul (F64.mul f (z 60)) (z NS)) (add 0 0 (60 * NS))
  else if k' "seconds" then nanos (F64.mul f (z NS)) (add 0 0 NS)
  else if k' "milliseconds" then nanos (F64.mul f (z 1000000)) (add 0 0 1000000)
  else if k' "microseconds" then nanos (F64.mul f (z 1000)) (add 0 0 1000)
  else if k' "nanoseconds" then nanos f (add 0 0 1)
  else None.

Fixpoint duration_fields (m : ValueMap) (a : DurAcc) : outcome DurAcc :=
  match m with
  | [] => Ok a
  | (k, v) :: m =>
      let step f int :=
        match duration_field k f int a with
        | Some a => duration_fields m a
        | None => runtime ("unknown duration field `" +:+ k +:+ "`")
        end in
      match v with
      | VInt i => step (F64.of_Z i) (Some i)
      | VFloat x => step x None
      | VNull => duration_fields m a
      | o => runtime ("duration field `" +:+ k +:+ "` must be a number, got " +:+ type_name o)
      end
  end.

Definition duration_from_map (m : ValueMap) : outcome Dur :=
  '(mkDurAcc mo da na exact) ←
    duration_fields m (mkDurAcc F64.zero F64.zero F64.zero (Some (0, 0, 0)));
  Ok (from_parts mo da na exact).

(** ** Construction *)

Definition need {A} (o : option A) (msg : string) : outcome A :=
  match o with Some a => Ok a | None => runtime msg end.

(** The time and offset of [time(map)]: a new zone on a zoned time keeps the instant. *)
Definition time_in_zone (n d : Z) (z src : option Zone) : outcome T :=
  match z, src with
  | Some z, Some sz =>
      so ← zone_offset_now sz d n;
      no ← zone_offset_now z d n;
      Ok (TTime (wrap_i64 ((n - so * NS + no * NS) `mod` DAY_NS)) no)
  | Some z, None => o ← zone_offset_now z d n; Ok (TTime n o)
  | None, Some sz => o ← zone_offset_now sz d n; Ok (TTime n o)
  | None, None => Ok (TTime n 0)
  end.

(** The datetime of [datetime(map)]: a zoned value converted to another zone keeps the
    instant. *)
Definition datetime_in_zone (d n : Z) (z src : option Zone) : outcome T :=
  match z, src with
  | Some z, Some sz =>
      so ← zone_offset_now sz d n;
      at_instant (d * DAY_NS + n - so * NS) z
  | Some z, None => zoned d n z None
  | None, Some (Named name) => zoned d n (Named name) None
  | None, Some (Offset o) => Ok (TDateTime d n (Offset o) o)
  | None, None => Ok (TDateTime d n (Offset 0) 0)
  end.

Definition from_map (kind : TemporalKind) (m : ValueMap) : outcome Value :=
  let m := lower_keys m in
  if bool_decide (kind = Duration) then
    d ← duration_from_map m; Ok (T_value (TDuration d))
  else
    base_dt ← map_temporal m "datetime";
    base_date ← (fun d => or_else d base_dt) <$> map_temporal m "date";
    base_time ← (fun t => or_else t base_dt) <$> map_temporal m "time";
    z ← map_zone m;
    let bd := base_date ≫= date_days in
    let bt := base_time ≫= time_nanos in
    let zone_src := if BTreeMap.contains_key m "time" then base_time else base_dt in
    let src_zone := zone_src ≫= zone in
    T_value <$>
    match kind with
    | Date =>
        d ← date_from_map m bd; d ← need d "date() needs date fields"; Ok (TDate d)
    | LocalTime =>
        n ← time_from_map m bt; n ← need n "localtime() needs time fields"; Ok (TLocalTime n)
    | Time =>
        n ← time_from_map m bt; n ← need n "time() needs time fields";
        time_in_zone n (default 0 bd) z (base_time ≫= zone)
    | LocalDateTime =>
        d ← date_from_map m bd; d ← need d "localdatetime() needs a date";
        n ← time_from_map m bt; Ok (TLocalDateTime d (default 0 n))
    | DateTime =>
        d ← date_from_map m bd; d ← need d "datetime() needs a date";
        n ← time_from_map m bt; datetime_in_zone d (default 0 n) z src_zone
    | Duration => Err Panic
    end.

(** ** The statement clock

    [CLOCK] is explicit: the instant every clock read of the statement sees, once one was
    made. [system] is the system time: nanoseconds since the epoch, or the error before it. *)

Definition reset_clock : option Z := None.

Definition now (clock : option Z) (system : result string Z) (kind : TemporalKind)
    : outcome Value * option Z :=
  let '(inst, clock') :=
    match clock with
    | Some i => (Ok i, clock)
    | None =>
        match system with
        | Ok i => (Ok i, Some i)
        | Err e => (runtime e, clock)
        end
    end in
  (inst ← inst;
   t ← at_instant inst (Offset 0);
   match t with
   | TDateTime days nanos _ _ =>
       match kind with
       | Date => Ok (T_value (TDate days))
       | LocalTime => Ok (T_value (TLocalTime nanos))
       | Time => Ok (T_value (TTime nanos 0))
       | LocalDateTime => Ok (T_value (TLocalDateTime days nanos))
       | DateTime => Ok (T_value t)
       | Duration => runtime "duration() needs an argument"
       end
   | _ => Err Panic
   end, clock').

(** [date(x)], [datetime(x)]...; only a call without argument reads the clock. *)
Definition construct (clock : option Z) (system : result string Z) (kind : TemporalKind)
    (arg : option Value) : outcome Value * option Z :=
  match arg with
  | None => now clock system kind
  | Some v =>
      (match v with
       | VNull => Ok VNull
       | VString s => T_value <$> T_parse kind s
       | VMap m => from_map kind m
       | VTemporal k _ =>
           if bool_decide (kind = Duration) then runtime "duration() of a temporal value"
           else
             let key := match k with
                        | Date => "date"
                        | LocalTime | Time => "time"
                        | _ => "datetime"
                        end in
             from_map kind [(key, v)]
       | o => runtime ("cannot build a temporal value from a " +:+ type_name o)
       end, clock)
  end.

(** ** Component access *)

Definition date_field (days : Z) (key : string) : option Z :=
  let '(y, m, d) := civil_from_days days in
  let '(wy, w) := iso_week days in
  let q := ((m - 1) `quot` 3 + 1)%i64 in
  let k := String.eqb key in
  if k "year" then Some y
  else if k "quarter" then Some q
  else if k "month" then Some m
  else if k "week" then Some w
  else if k "weekyear" then Some wy
  else if k "day" then Some d
  else if k "ordinalday" then Some (ordinal days)
  else if k "weekday" || k "dayofweek" then Some (weekday days)
  else if k "dayofquarter" then Some (days - quarter_start y q + 1)%i64
  else None.

Definition time_field (n : Z) (key : string) : option Z :=
  let '(h, mi, s, ns) := split_time n in
  let k := String.eqb key in
  if k "hour" then Some h
  else if k "minute" then Some mi
  else if k "second" then Some s
  else if k "millisecond" then Some (ns `quot` 1000000)
  else if k "microsecond" then Some (ns `quot` 1000)
  else if k "nanosecond" then Some ns
  else None.

Definition offset_field (z : option Zone) (o : Z) (key : string) : option Value :=
  let k := String.eqb key in
  if k "timezone" then
    Some (VString match z with Some (Named n) => n | _ => fmt_offset o end)
  else if k "offset" then Some (VString (fmt_offset o))
  else if k "offsetminutes" then Some (VInt (o `quot` 60))
  else if k "offsetseconds" then Some (VInt o)
  else None.

Definition instant_field (inst : Z) (key : string) : option Value :=
  let k := String.eqb key in
  if k "epochseconds" then Some (VInt (wrap_i64 (inst `div` NS)))
  else if k "epochmillis" then Some (VInt (wrap_i64 (inst `div` 1000000)))
  else None.

Definition field (v : T) (key : string) : Value :=
  let key := to_lowercase key in
  match v with
  | TDuration d => default VNull (component d key)
  | _ =>
      default VNull
        (or_else (d ← date_days v; VInt <$> date_field d key)
        (or_else (n ← time_nanos v; VInt <$> time_field n key)
        (or_else (o ← offset v; offset_field (zone v) o key)
                 (i ← instant v; instant_field i key))))
  end.

(** ** Truncation *)

Definition truncate_days (unit : string) (days : Z) : Z :=
  let '(y, m, _) := civil_from_days days in
  let k := String.eqb unit in
  if k "millennium" then days_from_civil ((y `div` 1000) * 1000)%i64 1 1
  else if k "century" then days_from_civil ((y `div` 100) * 100)%i64 1 1
  else if k "decade" then days_from_civil ((y `div` 10) * 10)%i64 1 1
  else if k "year" then days_from_civil y 1 1
  else if k "weekyear" then week1_monday (iso_week days).1
  else if k "quarter" then quarter_start y ((m - 1) `quot` 3 + 1)%i64
  else if k "month" then days_from_civil y m 1
  else if k "week" then (days - (weekday days - 1))%i64
  else days.

Definition DATE_UNITS : list string :=
  ["millennium"; "century"; "decade"; "year"; "weekyear"; "quarter"; "month"; "week"; "day"].

Definition truncate_nanos (unit : string) (nanos : Z) : outcome Z :=
  let k := String.eqb unit in
  if k "hour" then Ok (nanos `quot` (3600 * NS) * 3600 * NS)%i64
  else if k "minute" then Ok (nanos `quot` (60 * NS) * 60 * NS)%i64
  else if k "second" then Ok (nanos `quot` NS * NS)%i64
  else if k "millisecond" then Ok (nanos `quot` 1000000 * 1000000)%i64
  else if k "microsecond" then Ok (nanos `quot` 1000 * 1000)%i64
  else if existsb k DATE_UNITS then Ok 0
  else runtime ("unknown truncation unit '" +:+ unit +:+ "'").

(** The local time of a temporal value in a map, for a [timezone] override. *)
Definition local_time_of (kind : TemporalKind) (v : option Value) : outcome Value :=
  match v with
  | None => Err Panic
  | Some v =>
      t ← T_from_value v;
      match kind, t with
      | DateTime, Some (TDateTime _ n _ _) | Time, Some (TTime n _) =>
          Ok (T_value (TLocalTime n))
      | _, _ => Err Panic
      end
  end.

Definition truncate (kind : TemporalKind) (unit : string) (v : T) (overrides : option ValueMap)
    : outcome Value :=
  let unit := to_lowercase unit in
  tn ← truncate_nanos unit (default 0 (time_nanos v));
  td ← match date_days v with
       | Some d => Ok (Some (truncate_days unit d))
       | None =>
           if existsb (String.eqb unit) DATE_UNITS && negb (String.eqb unit "day")
           then runtime "cannot truncate a time to a date unit" else Ok None
       end;
  truncated ← match kind, td with
              | Date, Some d => Ok (TDate d)
              | LocalDateTime, Some d => Ok (TLocalDateTime d tn)
              | DateTime, Some d =>
                  match zone v with
                  | Some z => zoned d tn z None
                  | None => Ok (TDateTime d tn (Offset 0) 0)
                  end
              | LocalTime, _ => Ok (TLocalTime tn)
              | Time, _ => Ok (TTime tn (default 0 (offset v)))
              | _, _ => runtime "invalid truncation"
              end;
  match overrides with
  | None | Some [] => Ok (T_value truncated)
  | Some o =>
      let key := match kind with
                 | Date => "date"
                 | LocalTime | Time => "time"
                 | _ => "datetime"
                 end in
      let base := foldl (fun b '(k, v) => BTreeMap.insert b k v)
                    [(key, T_value truncated)] (lower_keys o) in
      (* A timezone in the overrides applies to the truncated local value. *)
      base ← (if bool_decide (kind = DateTime) && BTreeMap.contains_key base "timezone" then
                let dt := BTreeMap.get base "datetime" in
                t ← local_time_of kind dt;
                Ok (BTreeMap.insert
                      (BTreeMap.insert (BTreeMap.remove base "datetime") "date" (default VNull dt))
                      "time" t)
              else Ok base);
      base ← (if bool_decide (kind = Time) && BTreeMap.contains_key base "timezone" then
                t ← local_time_of kind (BTreeMap.get base "time");
                Ok (BTreeMap.insert base "time" t)
              else Ok base);
      from_map kind base
  end.

(** ** Arithmetic *)

Definition add_duration (v : T) (d : Dur) (sign : Z) : outcome T :=
  let d := if sign <? 0 then Dur_neg d else d in
  let n := total_nanos d in
  match v with
  | TDate day =>
      let x := (add_months day (months d) + days d)%i64 in
      Ok (TDate (x + wrap_i64 (n `quot` DAY_NS))%i64)
  | TLocalTime t => Ok (TLocalTime (wrap_i64 ((t + n) `mod` DAY_NS)))
  | TTime t o => Ok (TTime (wrap_i64 ((t + n) `mod` DAY_NS)) o)
  | TLocalDateTime day t =>
      let base := (add_months day (months d) + days d)%i64 in
      let total := base * DAY_NS + t + n in
      Ok (TLocalDateTime (wrap_i64 (total `div` DAY_NS)) (wrap_i64 (total `mod` DAY_NS)))
  | TDateTime day t z _ =>
      let base := (add_months day (months d) + days d)%i64 in
      local ← zoned base t z None;
      match instant local with
      | Some i => at_instant (i + n) z
      | None => Err Panic
      end
  | TDuration x => TDuration <$> Dur_add x d
  end.

(** [a + b], [a - b], [a * n], [a / n]: [None] when no temporal value is involved. *)
Definition arith (op : ascii) (a b : Value) : outcome (option Value) :=
  ta ← T_from_value a;
  tb ← T_from_value b;
  let is_op c := Ascii.eqb op c in
  let some r := (fun t => Some (T_value t)) <$> r in
  let scaled d (f : option f64) := Ok ((fun f => T_value (TDuration (Dur_scale d f))) <$> f) in
  match ta, tb with
  | Some x, Some (TDuration d) =>
      if is_op "+"%char then some (add_duration x d 1)
      else if is_op "-"%char then some (add_duration x d (-1))
      else Ok None
  | Some (TDuration d), Some x => if is_op "+"%char then some (add_duration x d 1) else Ok None
  | Some (TDuration d), None =>
      if is_op "*"%char then scaled d (as_f64 b)
      else if is_op "/"%char then
        match as_f64 b with
        | Some f =>
            if F64.eqb f F64.zero then runtime "division of a duration by zero"
            else scaled d (Some (F64.div (F64.of_Z 1) f))
        | None => Ok None
        end
      else Ok None
  | None, Some (TDuration d) => if is_op "*"%char then scaled d (as_f64 a) else Ok None
  | _, _ => Ok None
  end.

(** ** Comparison *)

(** [Ordering::then] and the order of pairs. *)
Definition then_cmp (a b : comparison) : comparison := match a with Eq => b | _ => a end.

Definition compare (a b : T) : option comparison :=
  match a, b with
  | TDate x, TDate y => Some (x ?= y)
  | TLocalTime x, TLocalTime y => Some (x ?= y)
  | TTime x ox, TTime y oy =>
      Some (then_cmp (x - ox * NS ?= y - oy * NS) (CompOpp (ox ?= oy)))
  | TLocalDateTime dx x, TLocalDateTime dy y => Some (then_cmp (dx ?= dy) (x ?= y))
  | TDateTime _ _ _ _, TDateTime _ _ _ _ =>
      x ← instant a; y ← instant b; Some (x ?= y)
  | _, _ => None
  end.

Definition equal (a b : T) : option bool :=
  match a, b with
  | TDuration x, TDuration y => Some (bool_decide (x = y))
  | TTime x ox, TTime y oy => Some ((x =? y) && (ox =? oy))
  | TDateTime dx x zx ox, TDateTime dy y zy oy =>
      Some (bool_decide (instant a = instant b)
            && (bool_decide (zx = zy) || ((dx =? dy) && (x =? y) && (ox =? oy))))
  | _, _ =>
      if negb (bool_decide (T_kind a = T_kind b)) then Some false
      else (fun o => match o with Eq => true | _ => false end) <$> compare a b
  end.

(** ** Differences *)

(** Whole months, then whole days. *)
Definition months_days (da na db nb : Z) : Z * Z :=
  let '(y1, m1, d1) := civil_from_days da in
  let '(y2, m2, d2) := civil_from_days db in
  let before a1 b1 a2 b2 := (a1 <? a2) || ((a1 =? a2) && (b1 <? b2)) in
  let months := ((y2 * 12 + m2) - (y1 * 12 + m1))%i64 in
  let months :=
    if (0 <? months) && before d2 nb d1 na then (months - 1)%i64
    else if (months <? 0) && before d1 na d2 nb then (months + 1)%i64
    else months in
  let mid := add_months da months * DAY_NS + na in
  let end_ := db * DAY_NS + nb in
  (months, wrap_i64 ((end_ - mid) `quot` DAY_NS)).

(** Local day and time of a dated value, zoned ones in the zone [z]. *)
Definition local_in (z : Zone) (v : T) : outcome (Z * Z) :=
  match v with
  | TDateTime _ _ _ _ =>
      match instant v with
      | None => Err Panic
      | Some i =>
          t ← at_instant i z;
          match t with TDateTime d n _ _ => Ok (d, n) | _ => Err Panic end
      end
  | _ =>
      match date_days v with
      | Some d => Ok (d, default 0 (time_nanos v))
      | None => Err Panic
      end
  end.

Definition instant_in (z : Zone) (d n : Z) : outcome Z :=
  t ← zoned d n z None;
  match instant t with Some i => Ok i | None => Err Panic end.

(** Between dated values, one of them at least in a zone. *)
Definition between_zoned (unit : string) (z : Zone) (a b : T) : outcome Dur :=
  '(da, na) ← local_in z a;
  '(db, nb) ← local_in z b;
  ia ← instant_in z da na;
  ib ← instant_in z db nb;
  if String.eqb unit "inseconds" then Ok (Dur_new 0 0 (ib - ia))
  else
    let '(months, days) := months_days da na db nb in
    if String.eqb unit "inmonths" then Ok (Dur_new months 0 0)
    else if String.eqb unit "indays" then
      Ok (Dur_new 0 (add_months da months - da + days)%i64 0)
    else
      mid ← instant_in z (add_months da months + days)%i64 na;
      Ok (Dur_new months days (ib - mid)).

(** Between local dated values. *)
Definition between_local (unit : string) (da na db nb : Z) : Dur :=
  let start := da * DAY_NS + na in
  let end_ := db * DAY_NS + nb in
  if String.eqb unit "inseconds" then Dur_new 0 0 (end_ - start)
  else if String.eqb unit "indays" then Dur_new 0 (wrap_i64 ((end_ - start) `quot` DAY_NS)) 0
  else
    let '(months, days) := months_days da na db nb in
    if String.eqb unit "inmonths" then Dur_new months 0 0
    else
      let mid := (add_months da months + days)%i64 * DAY_NS + na in
      Dur_new months days (end_ - mid).

(** The UTC time of day of a time with an offset. *)
Definition utc_nanos (v : T) : option Z :=
  match v with TTime n o => Some (n - o * NS) | _ => None end.

(** Between values one of which has no date, neither zoned with a date. *)
Definition between_times (a b : T) : Dur :=
  let '(x, y) := match utc_nanos a, utc_nanos b with
                 | Some x, Some y => (x, y)
                 | _, _ => (default 0 (time_nanos a), default 0 (time_nanos b))
                 end in
  Dur_new 0 0 (y - x).

(** Between a datetime ([d], [n], [o] in the zone [z]) and a value without a date;
    [forward] when the datetime comes first. *)
Definition between_mixed (d n o : Z) (z : Zone) (other : T) (forward : bool) : outcome Dur :=
  let inst_dt := d * DAY_NS + n - o * NS in
  inst_other ← match other with
               | TTime tn to => Ok (d * DAY_NS + tn - to * NS)
               | _ => instant_in z (default d (date_days other)) (default 0 (time_nanos other))
               end;
  let '(x, y) := if forward then (inst_dt, inst_other) else (inst_other, inst_dt) in
  match other with
  | TTime _ _ => Ok (Dur_new 0 0 (y `mod` DAY_NS - x `mod` DAY_NS))
  | _ => Ok (Dur_new 0 0 (y - x))
  end.

Definition has_clock (v : T) : bool :=
  bool_decide (is_Some (time_nanos v)) || bool_decide (is_Some (date_days v)).

(** [duration.between], [inMonths], [inDays], [inSeconds]. *)
Definition between (unit : string) (a b : T) : outcome Value :=
  let z := match a, b with
           | TDateTime _ _ z _, _ => Some z
           | _, TDateTime _ _ z _ => Some z
           | _, _ => None
           end in
  (fun d => T_value (TDuration d)) <$>
  match date_days a, date_days b with
  | Some da, Some db =>
      match z with
      | Some z => between_zoned unit z a b
      | None => Ok (between_local unit da (default 0 (time_nanos a)) db (default 0 (time_nanos b)))
      end
  | _, _ =>
      if String.eqb unit "inmonths" || String.eqb unit "indays" then Ok Dur_default
      else
        match a, b, z with
        | TDateTime d n _ o, other, Some z =>
            if has_clock other then between_mixed d n o z other true
            else Ok (between_times a b)
        | other, TDateTime d n _ o, Some z =>
            if has_clock other then between_mixed d n o z other false
            else Ok (between_times a b)
        | _, _, _ => Ok (between_times a b)
        end
  end.

Definition from_epoch (seconds nanos : Z) : outcome Value :=
  T_value <$> at_instant (seconds * NS + nanos) (Offset 0).

(** ** Stored literals *)

Definition literal_kind (dt lex : string) : outcome (option TemporalKind) :=
  let is_dt := String.eqb dt in
  if is_dt "http://www.w3.org/2001/XMLSchema#date" then Ok (Some Date)
  else if is_dt "http://www.w3.org/2001/XMLSchema#time" then
    r ← catch (parse_time_zone lex);
    Ok ('(_, z) ← r; Some (if bool_decide (is_Some z) then Time else LocalTime))
  else if is_dt "http://www.w3.org/2001/XMLSchema#dateTime"
          || is_dt "http://www.w3.org/2001/XMLSchema#dateTimeStamp" then
    r ← catch (parse_datetime lex);
    Ok ('(_, z) ← r; Some (if bool_decide (is_Some z) then DateTime else LocalDateTime))
  else if is_dt ZONED_DATETIME then Ok (Some DateTime)
  else if is_dt "http://www.w3.org/2001/XMLSchema#duration"
          || is_dt "http://www.w3.org/2001/XMLSchema#dayTimeDuration"
          || is_dt "http://www.w3.org/2001/XMLSchema#yearMonthDuration" then Ok (Some Duration)
  else Ok None.

Definition from_literal (dt lex : string) : outcome (option Value) :=
  kind ← literal_kind dt lex;
  match kind return outcome (option Value) with
  | None => Ok None
  | Some kind => r ← catch (T_parse kind lex); Ok (option_map T_value r)
  end.
End ops.
