(* ===== verification/F64Int.v ===== *)
(** * Integers in [f64]

    Integers below 2^53 in magnitude are exact: their float has the 53-bit mantissa [repr]
    gives, sums and products of such floats are the floats of the sums and products, their
    fractional part is zero, and parsing their decimal digits gives them. *)

From S2P Require Export F64 SortKey.

Section exact.
#[local] Abbreviation digits m := (Zpos (digits2_pos m)).

(** The number of binary digits is determined by the bounds. *)
Lemma digits2_unique m n : 0 <= n -> 2 ^ (n - 1) <= Zpos m < 2 ^ n -> digits m = n.
Proof.
  intros Hn0 Hn. destruct (digits2_bounds m _ eq_refl) as [Hlo Hhi].
  destruct (Z.lt_trichotomy (digits m) n) as [H|[H|H]]; [|done|].
  - assert (2 ^ digits m <= 2 ^ (n - 1)) by (apply Z.pow_le_mono_r; lia). lia.
  - assert (2 ^ n <= 2 ^ (digits m - 1)) by (apply Z.pow_le_mono_r; lia). lia.
Qed.

Lemma digits2_small m k : 0 <= k -> Zpos m < 2 ^ k -> digits m <= k.
Proof.
  intros Hk Hm. destruct (digits2_bounds m _ eq_refl) as [Hlo _].
  destruct (Z.le_gt_cases (digits m) k); [done|].
  assert (2 ^ k <= 2 ^ (digits m - 1)) by (apply Z.pow_le_mono_r; lia). lia.
Qed.

Lemma digits2_shift m k p : 0 <= k -> Zpos p = Zpos m * 2 ^ k -> digits p = digits m + k.
Proof.
  intros Hk Hp. destruct (digits2_bounds m _ eq_refl) as [Hlo Hhi].
  apply digits2_unique; [lia|]. rewrite Hp.
  replace (digits m + k - 1) with (digits m - 1 + k) by lia.
  rewrite !Z.pow_add_r by lia. nia.
Qed.

(** Shifting out zeros is exact. *)
Lemma iter_pos_iter {A} (f : A -> A) n x : SpecFloat.iter_pos f n x = Nat.iter (Pos.to_nat n) f x.
Proof.
  revert x. induction n as [n IH|n IH|]; intros x; cbn [SpecFloat.iter_pos]; [..|done].
  - rewrite !IH, <- Nat.iter_add.
    replace (Pos.to_nat n~1) with (S (Pos.to_nat n + Pos.to_nat n)) by lia.
    by rewrite Nat.iter_succ_r.
  - rewrite !IH, <- Nat.iter_add. f_equal. lia.
Qed.

Definition exactly (m : Z) : shr_record := Build_shr_record m false false.

Lemma shr_1_exact m : 0 <= m -> shr_1 (exactly (2 * m)) = exactly m.
Proof. by destruct m. Qed.

Lemma shr_exact m k e : 0 <= m -> 0 <= k -> shr (exactly (m * 2 ^ k)) e k = (exactly m, e + k).
Proof.
  intros Hm Hk. destruct k as [|p|p]; [..|lia].
  - rewrite Z.mul_1_r. by rewrite Z.add_0_r.
  - cbn [shr]. f_equal. rewrite iter_pos_iter.
    replace (Zpos p) with (Z.of_nat (Pos.to_nat p)) by lia. generalize (Pos.to_nat p) as n.
    induction n as [|n IH]; [by rewrite Z.mul_1_r|].
    rewrite Nat.iter_succ_r. etransitivity; [|apply IH]. f_equal.
    rewrite Nat2Z.inj_succ, Z.pow_succ_r by lia.
    replace (m * (2 * 2 ^ Z.of_nat n)) with (2 * (m * 2 ^ Z.of_nat n)) by lia.
    apply shr_1_exact. lia.
Qed.

(** The float of a positive integer below 2^53. *)
Definition repr (s : bool) (n : positive) : f64 :=
  S754_finite s (Z.to_pos (Zpos n * 2 ^ (53 - digits n))) (digits n - 53).

Definition small (n : positive) : Prop := Zpos n < 2 ^ 53.

Lemma small_digits n : small n -> digits n <= 53.
Proof. intros. by apply digits2_small. Qed.

Lemma repr_mantissa n :
  small n -> Zpos (Z.to_pos (Zpos n * 2 ^ (53 - digits n))) = Zpos n * 2 ^ (53 - digits n).
Proof.
  intros Hn%small_digits. apply Z2Pos.id.
  apply Z.mul_pos_pos; [done|]. apply Z.pow_pos_nonneg; lia.
Qed.

Lemma binary_round_aux_exact s n k m :
  small n -> 53 - digits n <= k -> Zpos m = Zpos n * 2 ^ k ->
  binary_round_aux F64.prec F64.emax s (Zpos m) (- k) loc_Exact = repr s n.
Proof.
  intros Hn Hk Hm. pose proof (small_digits n Hn) as Hd.
  assert (0 <= k) by lia.
  unfold binary_round_aux, shr_fexp. cbn [Zdigits2 shr_record_of_loc].
  rewrite (digits2_shift n k m) by done.
  replace (digits n + k + - k) with (digits n) by lia.
  assert (Hf : fexp F64.prec F64.emax (digits n) = digits n - 53)
    by (unfold fexp, SpecFloat.emin, F64.prec, F64.emax; lia).
  rewrite Hf. set (j := digits n - 53 - - k).
  replace (Zpos m) with ((Zpos n * 2 ^ (53 - digits n)) * 2 ^ j).
  2:{ rewrite Hm. unfold j. rewrite <- Z.mul_assoc, <- Z.pow_add_r by lia. f_equal. f_equal. lia. }
  change (Build_shr_record ?x false false) with (exactly x).
  rewrite shr_exact; [|apply Z.mul_nonneg_nonneg; [done|apply Z.pow_nonneg; lia]|unfold j; lia].
  cbn [exactly shr_m loc_of_shr_record round_nearest_even].
  replace (- k + j) with (digits n - 53) by (unfold j; lia).
  rewrite <- repr_mantissa by done. set (M := Z.to_pos _). cbn [Zdigits2].
  assert (digits M = 53) as ->.
  { unfold M. rewrite (digits2_shift n (53 - digits n)); [lia|lia|]. by apply repr_mantissa. }
  replace (fexp F64.prec F64.emax (53 + (digits n - 53)) - (digits n - 53)) with 0
    by (unfold fexp, SpecFloat.emin, F64.prec, F64.emax; lia).
  cbn [shr shr_record_of_loc shr_m].
  assert ((digits n - 53 <=? F64.emax - F64.prec) = true) as ->
    by (apply Z.leb_le; unfold F64.prec, F64.emax; lia).
  done.
Qed.


Lemma pos_iter_xO m d : Zpos (Pos.iter xO m d) = Zpos m * 2 ^ Zpos d.
Proof.
  revert d. apply Pos.peano_ind; [cbn; lia|]. intros d IH.
  rewrite Pos.iter_succ, Pos2Z.inj_succ, Z.pow_succ_r by lia. lia.
Qed.

(** [shl_align] down to a smaller exponent multiplies the mantissa. *)
Lemma shl_align_down m e e' :
  e' <= e -> exists p, shl_align m e e' = (p, e') /\ Zpos p = Zpos m * 2 ^ (e - e').
Proof.
  intros He. unfold shl_align. destruct (e' - e) as [|d|d] eqn:Hd; [|lia|].
  - exists m. replace (e - e') with 0 by lia. split; [f_equal; lia|lia].
  - eexists. split; [done|]. rewrite pos_iter_xO. f_equal. f_equal. lia.
Qed.

(** Rounding an integer below 2^53 given with any number of fractional zeros. *)
Lemma binary_round_exact s n k m :
  small n -> 0 <= k -> Zpos m = Zpos n * 2 ^ k ->
  binary_round F64.prec F64.emax s m (- k) = repr s n.
Proof.
  intros Hn Hk Hm. pose proof (small_digits n Hn) as Hd. unfold binary_round.
  rewrite (digits2_shift n k m) by done.
  replace (digits n + k + - k) with (digits n) by lia.
  assert (fexp F64.prec F64.emax (digits n) = - (53 - digits n)) as ->
    by (unfold fexp, SpecFloat.emin, F64.prec, F64.emax; lia).
  destruct (Z.le_gt_cases (53 - digits n) k) as [Hle|Hgt].
  - unfold shl_align. replace (- (53 - digits n) - - k) with (k - (53 - digits n)) by lia.
    destruct (k - (53 - digits n)) as [|d|d] eqn:Hkd; [| |lia]; by apply binary_round_aux_exact.
  - destruct (shl_align_down m (- k) (- (53 - digits n))) as (p & -> & Hp); [lia|].
    apply binary_round_aux_exact; [done|lia|].
    rewrite Hp, Hm, <- Z.mul_assoc, <- Z.pow_add_r by lia. f_equal. f_equal. lia.
Qed.

(** The float of an integer. *)
Definition fint (z : Z) : f64 :=
  match z with
  | Z0 => F64.zero
  | Zpos n => repr false n
  | Zneg n => repr true n
  end.

Lemma normalize_exact z k m :
  Z.abs z < 2 ^ 53 -> 0 <= k -> m = z * 2 ^ k ->
  binary_normalize F64.prec F64.emax m (- k) false = fint z.
Proof.
  intros Hz Hk ->. assert (0 < 2 ^ k) by (apply Z.pow_pos_nonneg; lia).
  destruct z as [|n|n]; [done|..]; cbn [fint].
  - destruct (Zpos n * 2 ^ k) as [|p|p] eqn:Hp; [lia| |lia].
    cbn [binary_normalize]. by apply binary_round_exact.
  - destruct (Zneg n * 2 ^ k) as [|p|p] eqn:Hp; [lia|lia|].
    cbn [binary_normalize]. apply binary_round_exact; [done..|lia].
Qed.

Lemma of_Z_exact z : Z.abs z < 2 ^ 53 -> F64.of_Z z = fint z.
Proof. intros. apply (normalize_exact z 0); lia. Qed.

Lemma normalize_int z s :
  z <> 0 -> Z.abs z < 2 ^ 53 -> binary_normalize F64.prec F64.emax z 0 s = fint z.
Proof. intros Hnz Hz. rewrite <- of_Z_exact by done. by destruct z. Qed.

(** A non-zero float of an integer, with its mantissa in full. *)
Lemma fint_nonzero z :
  z <> 0 -> Z.abs z < 2 ^ 53 ->
  exists m k, fint z = S754_finite (z <? 0) m (- k) /\ 0 <= k <= 52 /\
    Zpos m = Z.abs z * 2 ^ k /\ k = 53 - digits (Z.to_pos (Z.abs z)).
Proof.
  intros Hz Hs. destruct z as [|n|n]; [done|..]; cbn [fint Z.ltb Z.compare Z.abs Z.to_pos];
    (exists (Z.to_pos (Zpos n * 2 ^ (53 - digits n))), (53 - digits n);
     pose proof (small_digits n Hs); split_and!; [|lia|lia|by apply repr_mantissa|done]);
    unfold repr; f_equal; lia.
Qed.

Lemma fint_add a b :
  Z.abs a < 2 ^ 53 -> Z.abs b < 2 ^ 53 -> Z.abs (a + b) < 2 ^ 53 ->
  F64.add (fint a) (fint b) = fint (a + b).
Proof.
  intros Ha Hb Hab. unfold F64.add.
  destruct (Z.eq_dec a 0) as [->|Hna].
  { rewrite Z.add_0_l. by destruct b. }
  destruct (Z.eq_dec b 0) as [->|Hnb].
  { rewrite Z.add_0_r. by destruct a. }
  destruct (fint_nonzero a Hna Ha) as (ma & ka & -> & Hka & Hma & _).
  destruct (fint_nonzero b Hnb Hb) as (mb & kb & -> & Hkb & Hmb & _).
  cbn [SFadd].
  destruct (shl_align_down ma (- ka) (Z.min (- ka) (- kb))) as (pa & -> & Hpa); [lia|].
  destruct (shl_align_down mb (- kb) (Z.min (- ka) (- kb))) as (pb & -> & Hpb); [lia|].
  cbn [fst]. replace (Z.min (- ka) (- kb)) with (- Z.max ka kb) in * by lia.
  rewrite Hma, <- Z.mul_assoc, <- Z.pow_add_r in Hpa by lia.
  rewrite Hmb, <- Z.mul_assoc, <- Z.pow_add_r in Hpb by lia.
  replace (ka + (- ka - - Z.max ka kb)) with (Z.max ka kb) in Hpa by lia.
  replace (kb + (- kb - - Z.max ka kb)) with (Z.max ka kb) in Hpb by lia.
  apply normalize_exact; [done|lia|]. unfold cond_Zopp. rewrite Hpa, Hpb.
  rewrite Z.mul_add_distr_r.
  assert (Hs : forall z k, (if z <? 0 then - (Z.abs z * 2 ^ k) else Z.abs z * 2 ^ k) = z * 2 ^ k).
  { intros z k. destruct (Z.ltb_spec z 0); nia. }
  by rewrite !Hs.
Qed.

Lemma fint_mul a b :
  a <> 0 -> b <> 0 -> Z.abs a < 2 ^ 53 -> Z.abs b < 2 ^ 53 -> Z.abs (a * b) < 2 ^ 53 ->
  F64.mul (fint a) (fint b) = fint (a * b).
Proof.
  intros Hna Hnb Ha Hb Hab. unfold F64.mul.
  destruct (fint_nonzero a Hna Ha) as (ma & ka & -> & Hka & Hma & Hda).
  destruct (fint_nonzero b Hnb Hb) as (mb & kb & -> & Hkb & Hmb & Hdb).
  cbn [SFmul].
  set (n := Z.to_pos (Z.abs (a * b))).
  assert (Hn : Zpos n = Z.abs a * Z.abs b) by (unfold n; rewrite Z2Pos.id; lia).
  replace (- ka + - kb) with (- (ka + kb)) by lia.
  rewrite (binary_round_aux_exact (xorb (a <? 0) (b <? 0)) n).
  - unfold n. destruct a, b; done.
  - unfold small. lia.
  - destruct (digits2_bounds (Z.to_pos (Z.abs a)) _ eq_refl) as [Hla _].
    destruct (digits2_bounds (Z.to_pos (Z.abs b)) _ eq_refl) as [Hlb _].
    pose proof (digits2_bounds n _ eq_refl) as [_ Hln].
    rewrite Z2Pos.id in Hla by lia. rewrite Z2Pos.id in Hlb by lia.
    assert (2 ^ (digits (Z.to_pos (Z.abs a)) - 1 + (digits (Z.to_pos (Z.abs b)) - 1))
            < 2 ^ digits n) as Hlt%Z.pow_lt_mono_r_iff by (rewrite Z.pow_add_r by lia; nia).
    all: lia.
  - rewrite Pos2Z.inj_mul, Hma, Hmb, Hn, Z.pow_add_r by lia. lia.
Qed.

Lemma fint_trunc z : Z.abs z < 2 ^ 53 -> F64.trunc (fint z) = fint z.
Proof.
  intros Hz. destruct (Z.eq_dec z 0) as [->|Hnz]; [done|].
  destruct (fint_nonzero z Hnz Hz) as (m & k & Heq & Hk & Hm & _). rewrite Heq.
  cbn [F64.trunc]. destruct (Z.leb_spec 0 (- k)); [done|].
  rewrite Z.opp_involutive, Z.shiftr_div_pow2, Hm, Z.div_mul
    by (try apply Z.pow_nonzero; lia).
  destruct (Z.abs z) as [|p|p] eqn:Hp; [lia| |lia]. rewrite <- Heq.
  replace (if z <? 0 then - Zpos p else Zpos p) with z by (destruct (Z.ltb_spec z 0); lia).
  apply normalize_int; lia.
Qed.

Lemma fint_fract z : Z.abs z < 2 ^ 53 -> F64.fract (fint z) = F64.zero.
Proof.
  intros Hz. unfold F64.fract. rewrite fint_trunc by done. unfold F64.sub.
  destruct (Z.eq_dec z 0) as [->|Hnz]; [done|].
  destruct (fint_nonzero z Hnz Hz) as (m & k & -> & _). cbn [SFsub].
  by rewrite Z.sub_diag.
Qed.
End exact.
