(* ===== verification/StrFacts.v ===== *)
(** * Printing numbers and cutting strings

    Lemmas on the string operations of [Machine] for printable ASCII texts: slices at the
    joints of a concatenation, searching, trimming, zero-padded numbers and their parsing. *)

From S2P Require Export CypherValue F64Int.

(** ** Character classes *)

Definition printable (c : ascii) : bool := (33 <=? byte_val c) && (byte_val c <=? 126).


Lemma digit_printable c : is_ascii_digit c = true -> printable c = true.
Proof. unfold is_ascii_digit, printable. rewrite !andb_true_iff, !Z.leb_le. lia. Qed.

(** ** Slices *)

Lemma get_app_l i a b : (i < String.length a)%nat -> String.get i (a +:+ b) = String.get i a.
Proof.
  revert i. induction a as [|c a IH]; intros i Hi; [cbn in Hi; lia|].
  destruct i as [|i]; [done|]. cbn in *. apply IH. lia.
Qed.

Lemma printable_boundary s i :
  all_chars printable s = true -> (i <= String.length s)%nat -> is_char_boundary s i = true.
Proof.
  unfold is_char_boundary. revert i. induction s as [|c s IH]; intros i Hs Hi.
  - cbn in *. by destruct i; [|lia].
  - cbn in Hs. apply andb_true_iff in Hs as [Hc Hs]. destruct i as [|i]; [done|].
    cbn [String.get String.length] in *. specialize (IH i Hs ltac:(lia)).
    destruct (String.get i s) as [d|] eqn:Hd; [|done].
    destruct i as [|i]; [|done].
    destruct s as [|e s]; [done|]. cbn in Hd, Hs. injection Hd as <-.
    apply andb_true_iff in Hs as [He _]. unfold printable in He.
    rewrite andb_true_iff, !Z.leb_le in He. cbn. apply orb_true_iff. left. lia.
Qed.

Lemma slice_printable s a b :
  all_chars printable s = true -> (a <= b)%nat -> (b <= String.length s)%nat ->
  str_get s a b = Some (String.substring a (b - a) s).
Proof.
  intros Hs Ha Hb. unfold str_get.
  rewrite (proj2 (Nat.leb_le a b)) by done. rewrite !printable_boundary by (done || lia). done.
Qed.

Lemma substring_app_l a b : String.substring 0 (String.length a) (a +:+ b) = a.
Proof.
  induction a as [|c a IH]; [by destruct b|].
  rewrite string_app_cons. cbn. f_equal. apply IH.
Qed.

Lemma substring_all a : String.substring 0 (String.length a) a = a.
Proof. rewrite <- (string_app_nil_r a) at 2. apply substring_app_l. Qed.

Lemma substring_app_r a b n :
  String.substring (String.length a) n (a +:+ b) = String.substring 0 n b.
Proof. induction a as [|c a IH]; [done|]. rewrite string_app_cons. cbn. apply IH. Qed.

(** The first part of a concatenation, and the second. *)
Lemma slice_left a b :
  all_chars printable (a +:+ b) = true ->
  slice (a +:+ b) 0 (String.length a) = Ok a.
Proof.
  intros Hs. unfold slice. rewrite slice_printable by (rewrite ?string_length_app; (done || lia)).
  by rewrite Nat.sub_0_r, substring_app_l.
Qed.

Lemma slice_right a b :
  all_chars printable (a +:+ b) = true ->
  slice (a +:+ b) (String.length a) (String.length (a +:+ b)) = Ok b.
Proof.
  intros Hs. unfold slice. rewrite slice_printable by (rewrite ?string_length_app; (done || lia)).
  rewrite substring_app_r, string_length_app.
  replace (String.length a + String.length b - String.length a)%nat with (String.length b) by lia.
  by rewrite substring_all.
Qed.

Lemma slice_tail c s :
  all_chars printable (String c s) = true ->
  slice (String c s) 1 (String.length (String c s)) = Ok s.
Proof. intros. by apply (slice_right (String c "") s). Qed.

(** After a separator of one byte. *)
Lemma slice_after a c b :
  all_chars printable (a +:+ String c b) = true ->
  slice (a +:+ String c b) (String.length a + 1) (String.length (a +:+ String c b)) = Ok b.
Proof.
  intros Hs. rewrite <- (slice_right (a +:+ String c "") b); rewrite <- string_app_assoc; [|done].
  f_equal. rewrite string_length_app. done.
Qed.

(** Between two separators of one byte, the second at the end. *)
Lemma slice_between a c b d :
  all_chars printable (a +:+ String c (b +:+ String d "")) = true ->
  slice (a +:+ String c (b +:+ String d "")) (String.length a + 1)
    (String.length (a +:+ String c (b +:+ String d "")) - 1) = Ok b.
Proof.
  intros Hs. unfold slice.
  assert (String.length (a +:+ String c (b +:+ String d "")) = String.length a + 2 + String.length b)%nat
    as Hl by (rewrite string_length_app; cbn [String.length]; rewrite string_length_app; cbn; lia).
  rewrite slice_printable by (done || lia). rewrite Hl.
  replace (a +:+ String c (b +:+ String d "")) with ((a +:+ String c "") +:+ b +:+ String d "")
    by (rewrite <- string_app_assoc; done).
  replace (String.length a + 1)%nat with (String.length (a +:+ String c ""))
    by (rewrite string_length_app; done).
  rewrite substring_app_r, string_length_app. cbn [String.length].
  replace (_ - _)%nat with (String.length b) by lia. by rewrite substring_app_l.
Qed.

Lemma ends_with_app a c : ends_with (a +:+ String c "") c = true.
Proof.
  induction a as [|d a IH]; [cbn; apply Ascii.eqb_refl|]. rewrite string_app_cons. cbn.
  destruct (a +:+ String c "") eqn:Ha; [by destruct a|done].
Qed.

(** ** Searching *)

Lemma find_byte_app p a b :
  all_chars (fun c => negb (p c)) a = true ->
  find_byte p (a +:+ b) = (fun i => String.length a + i)%nat <$> find_byte p b.
Proof.
  induction a as [|c a IH]; cbn -[String.append]; [intros _; rewrite string_app_nil_l; by destruct (find_byte p b)|].
  rewrite andb_true_iff, negb_true_iff. intros [Hc Ha]. rewrite string_app_cons. cbn.
  rewrite Hc, IH by done. by destruct (find_byte p b).
Qed.

Lemma find_byte_none p a : all_chars (fun c => negb (p c)) a = true -> find_byte p a = None.
Proof. intros Ha. rewrite <- (string_app_nil_r a), find_byte_app by done. done. Qed.

Lemma find_byte_at p a c b :
  all_chars (fun c => negb (p c)) a = true -> p c = true ->
  find_byte p (a +:+ String c b) = Some (String.length a).
Proof. intros Ha Hc. rewrite find_byte_app by done. cbn. rewrite Hc. cbn. f_equal. lia. Qed.

Lemma split_once_at p a c b :
  all_chars (fun c => negb (p c)) a = true -> p c = true ->
  split_once p (a +:+ String c b) = Some (a, b).
Proof.
  intros Ha Hc. induction a as [|d a IH]; cbn -[String.append].
  - rewrite string_app_nil_l. cbn. by rewrite Hc.
  - cbn in Ha. apply andb_true_iff in Ha as [Hd%negb_true_iff Ha]. rewrite string_app_cons. cbn.
    by rewrite Hd, IH.
Qed.

Lemma split_once_none p a : all_chars (fun c => negb (p c)) a = true -> split_once p a = None.
Proof.
  induction a as [|d a IH]; [done|]. cbn. intros [Hd%negb_true_iff Ha]%andb_true_iff.
  by rewrite Hd, IH.
Qed.

Lemma split_none c a : all_chars (fun d => negb (Ascii.eqb d c)) a = true -> split_char c a = [a].
Proof.
  induction a as [|d a IH]; [done|]. cbn. intros [Hd%negb_true_iff Ha]%andb_true_iff.
  by rewrite Hd, IH.
Qed.

Lemma split_app c a b :
  all_chars (fun d => negb (Ascii.eqb d c)) a = true -> split_char c (a +:+ String c b) = a :: split_char c b.
Proof.
  induction a as [|d a IH]; cbn -[String.append].
  - intros _. rewrite string_app_nil_l. cbn. by rewrite Ascii.eqb_refl.
  - intros [Hd%negb_true_iff Ha]%andb_true_iff. rewrite string_app_cons. cbn. by rewrite Hd, IH.
Qed.

Lemma contains_char_app a b c : contains_char (a +:+ b) c = contains_char a c || contains_char b c.
Proof.
  induction a as [|d a IH]; [done|]. rewrite string_app_cons. cbn. rewrite IH. by rewrite orb_assoc.
Qed.

Lemma contains_char_none c a :
  all_chars (fun d => negb (Ascii.eqb d c)) a = true -> contains_char a c = false.
Proof.
  induction a as [|d a IH]; [done|]. cbn. intros [Hd%negb_true_iff Ha]%andb_true_iff.
  by rewrite Hd, IH.
Qed.

Lemma exists_byte_app p a b : exists_byte p (a +:+ b) = exists_byte p a || exists_byte p b.
Proof.
  induction a as [|d a IH]; [done|]. rewrite string_app_cons. cbn. rewrite IH. by rewrite orb_assoc.
Qed.

Lemma exists_byte_none p a : all_chars (fun c => negb (p c)) a = true -> exists_byte p a = false.
Proof.
  induction a as [|d a IH]; [done|]. cbn. intros [Hd%negb_true_iff Ha]%andb_true_iff.
  by rewrite Hd, IH.
Qed.

(** ** Trimming *)

Lemma strip_whitespace_printable c s : printable c = true -> strip_whitespace (String c s) = None.
Proof.
  unfold printable. rewrite andb_true_iff, !Z.leb_le. intros Hc. unfold strip_whitespace.
  destruct (Z.leb_spec 9 (byte_val c)), (Z.leb_spec (byte_val c) 13), (Z.eqb_spec (byte_val c) 32);
    try lia; cbn [andb orb].
  destruct (Z.eqb_spec (byte_val c) 194), (Z.eqb_spec (byte_val c) 225),
    (Z.eqb_spec (byte_val c) 226), (Z.eqb_spec (byte_val c) 227); try lia.
  by destruct s as [|c1 [|c2 s]].
Qed.

Lemma trim_start_printable s : all_chars printable s = true -> trim_start s = s.
Proof.
  destruct s as [|c s]; [done|]. cbn [all_chars]. intros [Hc _]%andb_true_iff.
  unfold trim_start. cbn [String.length trim_start_fuel].
  by rewrite strip_whitespace_printable.
Qed.

Lemma trim_printable s : all_chars printable s = true -> trim s = s.
Proof.
  intros Hs. unfold trim. rewrite trim_start_printable by done.
  induction s as [|c s IH]; [done|]. cbn [trim_end]. rewrite trim_start_printable by done.
  cbn [String.eqb]. cbn in Hs. apply andb_true_iff in Hs as [_ Hs]. by rewrite IH.
Qed.

(** ** Numbers *)

Lemma digits_val_nonneg acc s v : 0 <= acc -> digits_val acc s = Some v -> 0 <= v.
Proof.
  revert acc. induction s as [|c s IH]; intros acc Ha; cbn; [intros [= <-]; done|].
  destruct (is_ascii_digit c) eqn:Hc; [|done]. apply IH.
  unfold is_ascii_digit in Hc. rewrite andb_true_iff, !Z.leb_le in Hc. lia.
Qed.

Lemma parse_i64_digits s v :
  s <> "" -> digits_val 0 s = Some v -> v <= i64_max -> parse_i64 s = Some v.
Proof.
  intros Hs Hv Hm. pose proof (digits_val_all _ _ _ Hv) as Ha.
  pose proof (digits_val_nonneg 0 s v ltac:(lia) Hv).
  unfold parse_i64. assert (parse_digits s = Some v) as Hp by (by destruct s).
  assert (match s with String "+" d => parse_digits d | String "-" d => Z.opp <$> parse_digits d
          | _ => parse_digits s end = Some v) as ->.
  { destruct s as [|c s]; [done|]. cbn [all_chars] in Ha. apply andb_true_iff in Ha as [Hc _].
    destruct c as [[] [] [] [] [] [] [] []]; done. }
  cbn. unfold in_i64, i64_min. destruct (Z.leb_spec (- 2 ^ 63) v); [|lia].
  by destruct (Z.leb_spec v i64_max); [|lia].
Qed.

Lemma digits_val_zeros acc n s : digits_val acc (F64.zeros n +:+ s) = digits_val (acc * 10 ^ Z.of_nat n) s.
Proof.
  revert acc. induction n as [|n IH]; intros acc.
  - cbn [F64.zeros]. rewrite string_app_nil_l. f_equal. lia.
  - cbn [F64.zeros]. rewrite string_app_cons. cbn [digits_val].
    change (is_ascii_digit "0") with true. cbn iota. rewrite IH. f_equal.
    change (byte_val "0" - 48) with 0. rewrite Nat2Z.inj_succ, Z.pow_succ_r by lia. lia.
Qed.

Lemma zeros_length n : String.length (F64.zeros n) = n.
Proof. induction n; cbn; [done|]. by f_equal. Qed.

Lemma zeros_digits n : all_chars is_ascii_digit (F64.zeros n) = true.
Proof. by induction n. Qed.

Lemma digits_val_show z : 0 <= z -> digits_val 0 (show_Z z) = Some z.
Proof.
  intros Hz. unfold show_Z. destruct z as [|p|p]; [done| |lia].
  destruct (pretty_N_digits (Npos p)) as (Hv & c & t & Heq & _).
  change (pretty (Zpos p)) with (pretty (Npos p)). by rewrite Heq in *.
Qed.

(** A number below [10 ^ n] has at most [n] digits. *)
Lemma digits_val_lower acc s v :
  0 <= acc -> digits_val acc s = Some v -> acc * 10 ^ string_len s <= v.
Proof.
  revert acc. induction s as [|c s IH]; intros acc Ha; cbn [digits_val].
  - intros [= <-]. change (string_len "") with 0. lia.
  - destruct (is_ascii_digit c) eqn:Hc; [|done]. intros Hv.
    unfold is_ascii_digit in Hc. rewrite andb_true_iff, !Z.leb_le in Hc.
    apply IH in Hv; [|lia].
    assert (string_len (String c s) = Z.succ (string_len s)) as -> by (unfold string_len; cbn; lia).
    pose proof (string_len_nonneg s). rewrite Z.pow_succ_r by lia.
    assert (0 < 10 ^ string_len s) by (apply Z.pow_pos_nonneg; lia). nia.
Qed.

Lemma show_Z_first z : 0 < z -> exists c s, show_Z z = String c s /\ 49 <= byte_val c.
Proof.
  intros Hz. destruct z as [|p|p]; [lia| |lia].
  change (show_Z (Zpos p)) with (pretty (Npos p)). unfold pretty, pretty_N.
  case_decide; [done|].
  enough (forall x s, (0 < x)%N -> exists c t, pretty_N_go x s = String c t /\ 49 <= byte_val c)
    as Hgo by (by apply Hgo).
  intros x. induction (N.lt_wf_0 x) as [x _ IH]; intros s Hx.
  rewrite pretty_N_go_step by done.
  destruct (N.eq_0_gt_0_cases (x `div` 10)) as [Hq|Hq].
  - rewrite Hq, pretty_N_go_0. eexists _, _. split; [done|].
    destruct (byte_val_digit (x `mod` 10)) as [_ Hv]; [by apply N.mod_lt|].
    apply N.div_small_iff in Hq; [|done]. rewrite N.mod_small in * by done. lia.
  - apply IH; [by apply N.div_lt|done].
Qed.

Lemma show_Z_digits_length z n : 0 <= z < 10 ^ Z.of_nat n -> (0 < n)%nat -> (String.length (show_Z z) <= n)%nat.
Proof.
  intros [Hz Hn] H0. destruct (Z.eq_dec z 0) as [->|Hnz]; [cbn; lia|].
  destruct (show_Z_first z) as (c & s & Heq & Hc); [lia|].
  pose proof (digits_val_show z Hz) as Hv. rewrite Heq in *. cbn [digits_val] in Hv.
  destruct (is_ascii_digit c); [|done]. apply digits_val_lower in Hv; [|lia].
  destruct (Nat.le_gt_cases (String.length (String c s)) n) as [|Hlt]; [done|]. exfalso.
  cbn [String.length] in Hlt.
  assert (10 ^ Z.of_nat n <= 10 ^ string_len s) by (apply Z.pow_le_mono_r; unfold string_len; lia).
  assert (0 < 10 ^ string_len s) by (apply Z.pow_pos_nonneg; [lia|apply string_len_nonneg]). nia.
Qed.

(** *** Zero-padded numbers *)

Lemma fmt_0_nonneg w z : 0 <= z -> fmt_0 w z = zero_pad w (show_Z z).
Proof. intros. unfold fmt_0. by destruct (Z.ltb_spec z 0); [lia|]. Qed.

Lemma fmt_0_spec w z :
  0 <= z < 10 ^ Z.of_nat w -> (0 < w)%nat ->
  String.length (fmt_0 w z) = w /\ all_chars is_ascii_digit (fmt_0 w z) = true /\
  digits_val 0 (fmt_0 w z) = Some z.
Proof.
  intros Hz Hw. pose proof (show_Z_digits_length z w Hz Hw).
  rewrite fmt_0_nonneg by lia. unfold zero_pad. split_and!.
  - rewrite string_length_app, zeros_length. lia.
  - rewrite all_chars_app, zeros_digits. cbn [andb]. apply show_Z_digits. lia.
  - rewrite digits_val_zeros, Z.mul_0_l. apply digits_val_show. lia.
Qed.

(** ** Texts over an alphabet *)

Definition DIGITS : list ascii := ["0"; "1"; "2"; "3"; "4"; "5"; "6"; "7"; "8"; "9"]%char.

Lemma digit_one_of c : is_ascii_digit c = one_of DIGITS c.
Proof. by destruct c as [[] [] [] [] [] [] [] []]. Qed.

(** [s] is over the alphabet [L]. *)
Definition over (L : list ascii) (s : string) : Prop := all_chars (one_of L) s = true.

Lemma over_all L q s : over L s -> forallb q L = true -> all_chars q s = true.
Proof.
  intros Hs Hq. eapply all_chars_impl; [|done]. cbn. intros c Hc.
  unfold one_of in Hc. apply existsb_exists in Hc as (d & Hd & He).
  apply Ascii.eqb_eq in He as ->. by eapply forallb_forall in Hq.
Qed.

Lemma over_app L a b : over L (a +:+ b) <-> over L a /\ over L b.
Proof. unfold over. by rewrite all_chars_app, andb_true_iff. Qed.

Lemma over_sub L L' s : over L s -> forallb (one_of L') L = true -> over L' s.
Proof. apply over_all. Qed.

Lemma digits_over s : all_chars is_ascii_digit s = true <-> over DIGITS s.
Proof.
  unfold over. split; apply all_chars_impl; intros c; by rewrite digit_one_of.
Qed.

Lemma fmt_0_over w z : 0 <= z -> over DIGITS (fmt_0 w z).
Proof.
  intros Hz. rewrite fmt_0_nonneg by done. apply digits_over.
  unfold zero_pad. rewrite all_chars_app, zeros_digits. cbn. by apply show_Z_digits.
Qed.

Lemma fmt_0_digits_val w z : 0 <= z -> digits_val 0 (fmt_0 w z) = Some z.
Proof.
  intros Hz. rewrite fmt_0_nonneg by done. unfold zero_pad.
  rewrite digits_val_zeros, Z.mul_0_l. by apply digits_val_show.
Qed.

Lemma fmt_0_min_length w z : 0 <= z -> (w <= String.length (fmt_0 w z))%nat.
Proof.
  intros Hz. rewrite fmt_0_nonneg by done. unfold zero_pad.
  rewrite string_length_app, zeros_length. lia.
Qed.

Lemma fmt_0_length w z :
  0 <= z < 10 ^ Z.of_nat w -> (0 < w)%nat -> String.length (fmt_0 w z) = w.
Proof. intros. by apply fmt_0_spec. Qed.

Lemma length_nonempty s : (0 < String.length s)%nat -> s <> "".
Proof. destruct s; cbn; [lia|done]. Qed.

Lemma parse_i64_fmt_0 w z :
  0 <= z <= i64_max -> (0 < w)%nat -> parse_i64 (fmt_0 w z) = Some z.
Proof.
  intros Hz Hw. apply parse_i64_digits; [|apply fmt_0_digits_val; lia|lia].
  apply length_nonempty. pose proof (fmt_0_min_length w z ltac:(lia)). lia.
Qed.

(** A value of more than [n] digits has more than [n] digits. *)
Lemma digits_val_upper acc s v :
  0 <= acc -> digits_val acc s = Some v -> v < (acc + 1) * 10 ^ string_len s.
Proof.
  revert acc. induction s as [|c s IH]; intros acc Ha; cbn [digits_val].
  - intros [= <-]. change (string_len "") with 0. lia.
  - destruct (is_ascii_digit c) eqn:Hc; [|done]. intros Hv.
    unfold is_ascii_digit in Hc. rewrite andb_true_iff, !Z.leb_le in Hc.
    apply IH in Hv; [|lia].
    assert (string_len (String c s) = Z.succ (string_len s)) as -> by (unfold string_len; cbn; lia).
    pose proof (string_len_nonneg s). rewrite Z.pow_succ_r by lia.
    assert (0 < 10 ^ string_len s) by (apply Z.pow_pos_nonneg; lia). nia.
Qed.

Lemma show_Z_min_length z n :
  10 ^ Z.of_nat n <= z -> (n < String.length (show_Z z))%nat.
Proof.
  intros Hz. assert (0 < 10 ^ Z.of_nat n) by (apply Z.pow_pos_nonneg; lia).
  pose proof (digits_val_show z ltac:(lia)) as Hv. apply digits_val_upper in Hv; [|lia].
  destruct (Nat.lt_ge_cases n (String.length (show_Z z))) as [|Hle]; [done|].
  assert (10 ^ string_len (show_Z z) <= 10 ^ Z.of_nat n) by (apply Z.pow_le_mono_r; unfold string_len; lia).
  lia.
Qed.
