(* ===== verification/TemporalFacts.v ===== *)
(** * Temporal texts read back

    What [T::render] prints, [T::parse] reads as the same value: dates, times, offsets and
    datetimes; durations are characterised exactly, with the ones that cannot be read back. *)

From S2P Require Export CalendarFacts StrFacts TemporalOps.

(** ** Dates *)

Lemma num_of s v : parse_i64 s = Some v -> num s = Ok v.
Proof. intros H. unfold num. by rewrite H. Qed.

Lemma all_digits_over s : s <> "" -> over DIGITS s -> all_digits s = true.
Proof.
  intros Hs Ho. unfold all_digits. rewrite (proj2 (digits_over s)) by done.
  destruct (String.eqb_spec s ""); done.
Qed.

Lemma fmt_0_all_digits w z : 0 <= z -> (0 < w)%nat -> all_digits (fmt_0 w z) = true.
Proof.
  intros. apply all_digits_over; [|by apply fmt_0_over].
  apply length_nonempty. pose proof (fmt_0_min_length w z ltac:(lia)). lia.
Qed.

(** Two digits. *)
Lemma fmt_02 z :
  0 <= z < 100 ->
  String.length (fmt_0 2 z) = 2%nat /\ all_digits (fmt_0 2 z) = true /\
  num (fmt_0 2 z) = Ok z /\ over DIGITS (fmt_0 2 z).
Proof.
  intros Hz. split_and!.
  - by apply fmt_0_length; [|lia].
  - apply fmt_0_all_digits; lia.
  - apply num_of, parse_i64_fmt_0; unfold i64_max; lia.
  - apply fmt_0_over. lia.
Qed.

Lemma signed_year_parse (sg : ascii) (Y rest : string) v :
  sg = "+"%char \/ sg = "-"%char -> over DIGITS Y -> (4 <= String.length Y)%nat ->
  digits_val 0 Y = Some v -> v <= 2 ^ 62 -> all_chars printable rest = true ->
  parse_year (String sg (Y +:+ String "-" rest))
  = Ok ((if Ascii.eqb sg "-" then -1 else 1) * v, String "-" rest).
Proof.
  intros Hsg HY Hlen Hv Hb Hrest.
  assert (HYp : all_chars printable Y = true) by (by eapply over_all).
  assert (Hp : all_chars printable (Y +:+ String "-" rest) = true)
    by (rewrite all_chars_app, HYp; cbn; by rewrite Hrest).
  pose proof (digits_val_nonneg 0 Y v ltac:(lia) Hv).
  set (body := Y +:+ String "-" rest) in *.
  assert (Hs : starts_with (String sg body) "+" || starts_with (String sg body) "-" = true)
    by (by destruct Hsg as [-> | ->], body).
  assert (Hsign : (if starts_with (String sg body) "-" then -1 else 1)
                  = if Ascii.eqb sg "-" then -1 else 1)
    by (by destruct Hsg as [-> | ->], body).
  assert (Hslice : slice (String sg body) 1 (String.length (String sg body)) = Ok body).
  { apply slice_tail. cbn. rewrite Hp. by destruct Hsg as [-> | ->]. }
  unfold parse_year. rewrite Hs, Hslice, Hsign. cbn [mbind result_bind].
  assert (find_byte (fun c => negb (is_ascii_digit c)) body = Some (String.length Y)) as ->.
  { apply find_byte_at; [|done].
    eapply over_all; [done|]. vm_compute. reflexivity. }
  cbn [default from_option]. unfold id.
  rewrite (proj2 (Nat.ltb_ge _ 4)) by done. cbn [andb].
  unfold body. rewrite slice_left, slice_right by done. cbn [mbind result_bind].
  rewrite (num_of Y v) by (apply parse_i64_digits; [apply length_nonempty; lia|done|unfold i64_max; lia]).
  cbn [mbind result_bind]. f_equal. f_equal.
  destruct (Ascii.eqb sg "-"); unwrap; lia.
Qed.

Lemma plain_year_parse y rest :
  0 <= y <= 9999 -> all_chars printable rest = true ->
  parse_year (fmt_0 4 y +:+ String "-" rest) = Ok (y, String "-" rest).
Proof.
  intros Hy Hrest.
  destruct (fmt_0_spec 4 y ltac:(lia) ltac:(lia)) as (Hlen & Hdig & Hv).
  assert (HY : over DIGITS (fmt_0 4 y)) by (apply fmt_0_over; lia).
  assert (Hp : all_chars printable (fmt_0 4 y +:+ String "-" rest) = true)
    by (rewrite all_chars_app, (over_all DIGITS printable) by done; cbn; by rewrite Hrest).
  unfold parse_year.
  assert (starts_with (fmt_0 4 y +:+ String "-" rest) "+"
          || starts_with (fmt_0 4 y +:+ String "-" rest) "-" = false) as ->.
  { destruct (fmt_0 4 y) as [|c t]; [done|].
    unfold over in HY. cbn [all_chars] in HY. apply andb_true_iff in HY as [Hc _].
    rewrite string_app_cons. revert Hc. by destruct c as [[] [] [] [] [] [] [] []]. }
  assert ((if starts_with (fmt_0 4 y +:+ String "-" rest) "-" then -1 else 1) = 1) as ->.
  { destruct (fmt_0 4 y) as [|c t]; [done|].
    unfold over in HY. cbn [all_chars] in HY. apply andb_true_iff in HY as [Hc _].
    rewrite string_app_cons. revert Hc. by destruct c as [[] [] [] [] [] [] [] []]. }
  cbn [mbind result_bind].
  assert (Nat.min 4 (String.length (fmt_0 4 y +:+ String "-" rest)) = String.length (fmt_0 4 y)) as ->
    by (rewrite string_length_app; cbn [String.length]; lia).
  rewrite (proj2 (Nat.ltb_ge _ 4)) by lia. cbn [andb].
  rewrite slice_left, slice_right by done. cbn [mbind result_bind].
  rewrite (num_of _ y) by (apply parse_i64_fmt_0; unfold i64_max; lia).
  cbn [mbind result_bind]. f_equal. f_equal. unwrap. lia.
Qed.

Lemma fmt_year_parse y rest :
  Z.abs y <= 2 ^ 53 -> all_chars printable rest = true ->
  parse_year (fmt_year y +:+ String "-" rest) = Ok (y, String "-" rest).
Proof.
  intros Hy Hrest. unfold fmt_year.
  destruct (Z.ltb_spec 9999 y); [|destruct (Z.ltb_spec y 0)].
  - rewrite <- string_app_assoc. cbn [String.append].
    rewrite (signed_year_parse _ _ _ y); [|by left| | | |lia|done].
    + change (Ascii.eqb "+" "-") with false. do 2 f_equal. lia.
    + apply digits_over, show_Z_digits. lia.
    + apply (show_Z_min_length y 3). lia.
    + apply digits_val_show. lia.
  - rewrite <- string_app_assoc. cbn [String.append].
    assert ((- y)%i64 = - y) as -> by (unwrap; done).
    rewrite (signed_year_parse _ _ _ (- y)); [|by right| | | |lia|done].
    + cbn. f_equal. f_equal. lia.
    + apply fmt_0_over. lia.
    + apply fmt_0_min_length. lia.
    + apply fmt_0_digits_val. lia.
  - by apply plain_year_parse; [lia|].
Qed.

Definition DATE_CHARS : list ascii := "+"%char :: "-"%char :: DIGITS.

Lemma digits_over_date s : over DIGITS s -> over DATE_CHARS s.
Proof. intros H. by eapply over_sub. Qed.

Lemma fmt_year_over y : over DATE_CHARS (fmt_year y).
Proof.
  unfold fmt_year. destruct (Z.ltb_spec 9999 y); [|destruct (Z.ltb_spec y 0)].
  - apply over_app. split; [done|]. apply digits_over_date, digits_over, show_Z_digits. lia.
  - apply over_app. split; [done|]. pose proof (wrap_i64_range (- y)).
    unfold i64.neg, fmt_0. destruct (Z.ltb_spec (wrap_i64 (- y)) 0).
    + apply over_app. split; [done|]. apply digits_over_date. unfold zero_pad.
      apply digits_over. rewrite all_chars_app, zeros_digits. apply show_Z_digits. lia.
    + apply digits_over_date, digits_over. unfold zero_pad.
      rewrite all_chars_app, zeros_digits. apply show_Z_digits. lia.
  - apply digits_over_date, fmt_0_over. lia.
Qed.

Lemma fmt_date_over d : day_ok d -> over DATE_CHARS (fmt_date d).
Proof.
  intros Hd. unfold fmt_date. destruct (civil_from_days d) as [[y m] dd] eqn:Heq.
  apply civil_from_days_inv in Heq as (Hm & Hdd & _); [|done].
  rewrite !over_app. split_and!; [apply fmt_year_over|done| |done|];
    apply digits_over_date, fmt_0_over; lia.
Qed.

Lemma check_date_valid y m d :
  Z.abs y <= 2 ^ 53 -> valid_date (y, m, d) = true -> check_date y m d = Ok (day_number (y, m, d)).
Proof.
  intros Hy [Hm Hd]%valid_date_spec. unfold check_date. pose proof (days_in_month_bounds y m).
  destruct (Z.leb_spec 1 m), (Z.leb_spec m 12), (Z.ltb_spec d 1), (Z.ltb_spec (days_in_month y m) d);
    try lia. cbn [andb negb orb].
  by rewrite days_from_civil_day_number by lia.
Qed.

Lemma fmt_date_parse d : day_ok d -> parse_date (fmt_date d) = Ok d.
Proof.
  intros Hd. unfold fmt_date, parse_date.
  destruct (civil_from_days d) as [[y m] dd] eqn:Heq.
  apply civil_from_days_inv in Heq as (Hm & Hdd & Hn & Hy); [|done].
  pose proof (days_in_month_bounds y m).
  destruct (fmt_02 m ltac:(lia)) as (Hml & Hma & Hmn & Hmo).
  destruct (fmt_02 dd ltac:(lia)) as (Hdl & Hda & Hdn & Hdo).
  set (M := fmt_0 2 m) in *. set (D := fmt_0 2 dd) in *.
  change ("-" +:+ M +:+ "-" +:+ D) with (String "-" (M +:+ String "-" D)).
  assert (Hp : all_chars printable (M +:+ String "-" D) = true).
  { rewrite all_chars_app. cbn. by rewrite !(over_all DIGITS printable). }
  rewrite fmt_year_parse by done. cbn [mbind result_bind].
  change (String.eqb (String "-" (M +:+ String "-" D)) "") with false. cbn iota.
  assert (starts_with (String "-" (M +:+ String "-" D)) "-" = true) as -> by (by destruct M).
  rewrite slice_tail by (cbn; by rewrite Hp). cbn [mbind result_bind].
  assert (strip_prefix (M +:+ String "-" D) "W" = None) as ->.
  { destruct M as [|c t]; [done|]. unfold over in Hmo. cbn [all_chars] in Hmo.
    apply andb_true_iff in Hmo as [Hc _]. rewrite string_app_cons. revert Hc.
    by destruct c as [[] [] [] [] [] [] [] []]. }
  rewrite split_once_at; [|by eapply over_all|done].
  rewrite Hml, Hdl, Hma, Hda, Hmn, Hdn. cbn [Nat.eqb andb mbind result_bind].
  rewrite check_date_valid; [by rewrite Hn|done|]. apply valid_date_spec. lia.
Qed.

(** ** Times of day *)

Lemma split_time_exact n :
  0 <= n < DAY_NS ->
  let '(h, m, s, ns) := split_time n in
  0 <= h < 24 /\ 0 <= m < 60 /\ 0 <= s < 60 /\ 0 <= ns < NS /\
  n = ((h * 60 + m) * 60 + s) * NS + ns.
Proof.
  unfold split_time, i64.quot, i64.rem, DAY_NS, NS. intros Hn.
  assert (n `quot` 1000000000 = n / 1000000000) as -> by zdiv.
  assert (0 <= n / 1000000000 < 86400) by zdiv.
  assert (n = n / 1000000000 * 1000000000 + n `rem` 1000000000 /\ 0 <= n `rem` 1000000000 < 1000000000)
    as [Hr Hb] by zdiv.
  generalize dependent (n `rem` 1000000000). intros ns Hr Hns.
  generalize dependent (n / 1000000000). intros t Ht Hr.
  split_and!; zdiv.
Qed.

(** The fraction of a second, as printed. *)
Lemma pad_right_num F v :
  over DIGITS F -> (0 < String.length F <= 9)%nat -> digits_val 0 F = Some v ->
  num (pad_right 9 F) = Ok (v * 10 ^ (9 - string_len F)).
Proof.
  intros HF Hl Hv. apply num_of. pose proof (digits_val_nonneg 0 F v ltac:(lia) Hv).
  pose proof (digits_val_upper 0 F v ltac:(lia) Hv) as Hu.
  assert (Hk : 10 ^ string_len F * 10 ^ (9 - string_len F) = 10 ^ 9).
  { unfold string_len in *. rewrite <- Z.pow_add_r by lia. f_equal. lia. }
  assert (0 < 10 ^ (9 - string_len F)) by (apply Z.pow_pos_nonneg; unfold string_len; lia).
  apply parse_i64_digits.
  - unfold pad_right. by destruct F.
  - unfold pad_right. rewrite (digits_val_app _ _ v) by done.
    rewrite <- (string_app_nil_r (F64.zeros _)), digits_val_zeros. cbn [digits_val].
    do 2 f_equal. f_equal. unfold string_len. lia.
  - unfold i64_max. nia.
Qed.

Lemma fmt_time_shape n :
  0 <= n < DAY_NS ->
  exists h m s ns tail,
    fmt_time n = fmt_0 2 h +:+ String ":" (fmt_0 2 m +:+ tail) /\
    0 <= h < 24 /\ 0 <= m < 60 /\ 0 <= s < 60 /\ 0 <= ns < NS /\
    n = ((h * 60 + m) * 60 + s) * NS + ns /\
    ((tail = "" /\ s = 0 /\ ns = 0) \/
     (tail = String ":" (fmt_0 2 s) /\ ns = 0) \/
     (exists F v, tail = String ":" (fmt_0 2 s +:+ String "." F) /\ over DIGITS F /\
        (0 < String.length F <= 9)%nat /\ digits_val 0 F = Some v /\
        v * 10 ^ (9 - string_len F) = ns)).
Proof.
  intros Hn. pose proof (split_time_exact n Hn) as Hs. unfold fmt_time.
  destruct (split_time n) as [[[h m] s] ns]. destruct Hs as (Hh & Hm & Hsec & Hns & Heq).
  exists h, m, s, ns. eexists. split; [reflexivity|]. split_and!; try done; try lia.
  destruct (Z.eqb_spec ns 0) as [->|Hnz].
  - destruct (Z.eqb_spec s 0) as [->|]; [by left|right; left]. by rewrite string_app_nil_r.
  - right; right. rewrite orb_true_r. cbn [negb].
    assert (forall w x, 0 <= x < 10 ^ Z.of_nat w -> (0 < w <= 9)%nat -> x * 10 ^ (9 - Z.of_nat w) = ns ->
      exists F v, (":" +:+ fmt_0 2 s) +:+ "." +:+ fmt_0 w x = String ":" (fmt_0 2 s +:+ String "." F)
        /\ over DIGITS F /\ (0 < String.length F <= 9)%nat /\ digits_val 0 F = Some v /\
        v * 10 ^ (9 - string_len F) = ns) as Hw.
    { intros w x Hx Hw Hv. exists (fmt_0 w x), x. unfold string_len.
      rewrite fmt_0_length by lia. split_and!; try done; try lia.
      - apply fmt_0_over. lia.
      - apply fmt_0_digits_val. lia. }
    unfold NS in *.
    destruct (Z.eqb_spec (ns `rem` 1000000) 0); [|destruct (Z.eqb_spec (ns `rem` 1000) 0)];
      apply Hw; change (10 ^ Z.of_nat _) with 1000000 || change (10 ^ Z.of_nat _) with 1000 || idtac; zdiv.
Qed.

Definition TIME_CHARS : list ascii := ":"%char :: "."%char :: DIGITS.

(** Overs and their consequences, for the side conditions of searches and slices. *)
Ltac over_side :=
  repeat (rewrite ?all_chars_app; cbn [all_chars andb]);
  repeat match goal with
  | H : over ?L ?s |- context [all_chars ?q ?s] =>
      rewrite (over_all L q s H) by (vm_compute; reflexivity)
  end;
  try reflexivity.

(** The parts of a time with colons. *)
Lemma time_parts_hm H M :
  over DIGITS H -> over DIGITS M -> split_char ":" (H +:+ String ":" M) = [H; M].
Proof.
  intros HH HM. rewrite split_app by (by eapply over_all).
  by rewrite split_none by (by eapply over_all).
Qed.

Lemma time_parts_hms H M S :
  over DIGITS H -> over DIGITS M -> over DIGITS S ->
  split_char ":" (H +:+ String ":" (M +:+ String ":" S)) = [H; M; S].
Proof.
  intros HH HM HS. rewrite split_app by (by eapply over_all). by rewrite time_parts_hm.
Qed.

Lemma contains_colon H t : contains_char (H +:+ String ":" t) ":" = true.
Proof. rewrite contains_char_app. cbn. by rewrite orb_true_r. Qed.

Lemma time_value h m s ns :
  0 <= h < 24 -> 0 <= m < 60 -> 0 <= s < 60 -> 0 <= ns < NS ->
  (((h * 60 + m) * 60 + s) * NS + ns)%i64 = ((h * 60 + m) * 60 + s) * NS + ns.
Proof. unfold NS. intros. unwrap. done. Qed.

Lemma fmt_time_parse n : 0 <= n < DAY_NS -> parse_time (fmt_time n) = Ok n.
Proof.
  intros Hn. destruct (fmt_time_shape n Hn) as (h & m & s & ns & tail & -> & Hh & Hm & Hs & Hns & Heq & Ht).
  destruct (fmt_02 h ltac:(lia)) as (Hhl & Hha & Hhn & Hho).
  destruct (fmt_02 m ltac:(lia)) as (Hml & Hma & Hmn & Hmo).
  destruct (fmt_02 s ltac:(lia)) as (Hsl & Hsa & Hsn & Hso).
  set (H := fmt_0 2 h) in *. set (M := fmt_0 2 m) in *. set (S := fmt_0 2 s) in *.
  assert (Hrange : (23 <? h) || (59 <? m) || (59 <? s) = false)
    by (destruct (Z.ltb_spec 23 h), (Z.ltb_spec 59 m), (Z.ltb_spec 59 s); lia).
  unfold parse_time. destruct Ht as [(-> & -> & ->)|[(-> & ->)|(F & v & -> & HF & HFl & HFv & Hv)]].
  - rewrite string_app_nil_r. rewrite find_byte_none by over_side. cbn [mbind result_bind].
    rewrite contains_colon, time_parts_hm by done. cbn [mbind result_bind length Nat.ltb Nat.leb existsb].
    rewrite Hhl, Hml, Hha, Hma, Hhn. cbn [negb orb Nat.eqb mbind result_bind].
    rewrite Hmn. cbn [mbind result_bind]. rewrite Hrange. cbn [mbind result_bind].
    by rewrite time_value, Heq by done.
  - rewrite find_byte_none by over_side. cbn [mbind result_bind].
    rewrite contains_colon, time_parts_hms by done. cbn [mbind result_bind length Nat.ltb Nat.leb existsb].
    rewrite Hhl, Hml, Hsl, Hha, Hma, Hsa, Hhn. cbn [negb orb Nat.eqb mbind result_bind].
    rewrite Hmn. cbn [mbind result_bind]. rewrite Hsn. cbn [mbind result_bind]. rewrite Hrange.
    cbn [mbind result_bind]. by rewrite time_value, Heq by done.
  - set (main := H +:+ String ":" (M +:+ String ":" S)).
    replace (H +:+ String ":" (M +:+ String ":" (S +:+ String "." F))) with (main +:+ String "." F)
      by (unfold main; rewrite <- string_app_assoc, string_app_cons, <- string_app_assoc, string_app_cons; done).
    rewrite find_byte_at by (done || (unfold main; over_side)).
    assert (Hp : all_chars printable (main +:+ String "." F) = true) by (unfold main; over_side).
    rewrite slice_left, slice_after by done. cbn [mbind result_bind].
    rewrite (proj2 (Nat.ltb_ge 9 _)) by lia.
    assert (contains_char main ":" = true) as -> by apply contains_colon.
    assert (split_char ":" main = [H; M; S]) as -> by (by apply time_parts_hms).
    cbn [mbind result_bind length Nat.ltb Nat.leb existsb].
    rewrite Hhl, Hml, Hsl, Hha, Hma, Hsa, Hhn. cbn [negb orb Nat.eqb mbind result_bind].
    rewrite Hmn. cbn [mbind result_bind]. rewrite Hsn. cbn [mbind result_bind]. rewrite Hrange.
    rewrite all_digits_over by (done || (apply length_nonempty; lia)).
    cbn [negb orb]. rewrite (pad_right_num F v) by done. cbn [mbind result_bind]. rewrite Hv.
    by rewrite time_value, Heq by done.
Qed.

Lemma fmt_time_over n : 0 <= n < DAY_NS -> over TIME_CHARS (fmt_time n).
Proof.
  intros Hn. destruct (fmt_time_shape n Hn) as (h & m & s & ns & tail & -> & Hh & Hm & Hs & Hns & Heq & Ht).
  assert (forall z, 0 <= z -> over DIGITS (fmt_0 2 z)) as Hd by (intros; by apply fmt_0_over).
  pose proof (Hd h ltac:(lia)). pose proof (Hd m ltac:(lia)). pose proof (Hd s ltac:(lia)).
  unfold over. destruct Ht as [(-> & _)|[(-> & _)|(F & v & -> & HF & _)]]; over_side.
Qed.

(** ** Offsets and zones *)

Definition offset_ok (o : Z) : Prop := Z.abs o <= 18 * 3600 + 59 * 60 + 59.
Definition OFFSET_CHARS : list ascii := "Z"%char :: "+"%char :: "-"%char :: ":"%char :: DIGITS.

Lemma filter_bytes_app p a b : filter_bytes p (a +:+ b) = filter_bytes p a +:+ filter_bytes p b.
Proof.
  induction a as [|c a IH]; [done|]. rewrite string_app_cons. cbn.
  destruct (p c); [by rewrite string_app_cons, IH|done].
Qed.

Lemma filter_bytes_id p a : all_chars p a = true -> filter_bytes p a = a.
Proof.
  induction a as [|c a IH]; [done|]. cbn. intros [Hc Ha]%andb_true_iff. by rewrite Hc, IH.
Qed.

Lemma filter_colon_digits a :
  over DIGITS a -> filter_bytes (fun c => negb (Ascii.eqb c ":")) a = a.
Proof. intros. apply filter_bytes_id. over_side. Qed.

(** A two-digit slice of a digit text. *)
Lemma two_digits a M b :
  over DIGITS (a +:+ M +:+ b) -> String.length M = 2%nat ->
  str_get (a +:+ M +:+ b) (String.length a) (String.length a + 2) = Some M.
Proof.
  intros Ho HM. rewrite slice_printable.
  - rewrite substring_app_r. replace (_ - _)%nat with (String.length M) by lia.
    by rewrite substring_app_l.
  - by eapply over_all.
  - lia.
  - rewrite !string_length_app. lia.
Qed.

Definition fmt_signed_offset (sg H M : string) (sec : option string) : string :=
  sg +:+ H +:+ ":" +:+ M +:+ match sec with Some x => ":" +:+ x | None => "" end.

Lemma fmt_offset_shape o :
  o <> 0 -> offset_ok o ->
  exists sg h m s,
    ((sg = "+" /\ 0 < o) \/ (sg = "-" /\ o < 0)) /\
    0 <= h <= 18 /\ 0 <= m < 60 /\ 0 <= s < 60 /\ Z.abs o = h * 3600 + m * 60 + s /\
    fmt_offset o = fmt_signed_offset sg (fmt_0 2 h) (fmt_0 2 m)
      (if s =? 0 then None else Some (fmt_0 2 s)).
Proof.
  unfold offset_ok. intros Hz Ho.
  exists (if o <? 0 then "-" else "+"), (Z.abs o `quot` 3600), ((Z.abs o `quot` 60) `rem` 60), (Z.abs o `rem` 60).
  split; [destruct (Z.ltb_spec o 0); [by right|left; split; [done|lia]]|].
  do 4 (split; [zdiv|]).
  unfold fmt_offset. rewrite (proj2 (Z.eqb_neq o 0)) by done.
  unfold fmt_signed_offset. destruct (_ =? 0); cbn [negb]; [|done]. by rewrite string_app_nil_r.
Qed.

Lemma fmt_offset_parse o : offset_ok o -> parse_offset (fmt_offset o) = Ok o.
Proof.
  intros Ho. destruct (Z.eq_dec o 0) as [->|Hz]; [done|].
  destruct (fmt_offset_shape o Hz Ho) as (sg & h & m & s & Hsg & Hh & Hm & Hs & Heq & ->).
  destruct (fmt_02 h ltac:(lia)) as (Hhl & Hha & Hhn & Hho).
  destruct (fmt_02 m ltac:(lia)) as (Hml & Hma & Hmn & Hmo).
  destruct (fmt_02 s ltac:(lia)) as (Hsl & Hsa & Hsn & Hso).
  assert (Hnum : forall z, 0 <= z < 100 -> parse_i64 (fmt_0 2 z) = Some z)
    by (intros; apply parse_i64_fmt_0; unfold i64_max; lia).
  pose proof (Hnum h ltac:(lia)) as Hpm. pose proof (Hnum m ltac:(lia)) as Hpn.
  pose proof (Hnum s ltac:(lia)) as Hps.
  set (H := fmt_0 2 h) in *. set (M := fmt_0 2 m) in *. set (S := fmt_0 2 s) in *.
  set (rest := H +:+ ":" +:+ M +:+ match (if s =? 0 then None else Some S) with
                                   | Some x => ":" +:+ x | None => "" end).
  set (D := H +:+ M +:+ if s =? 0 then "" else S).
  assert (Hrest : all_chars printable rest = true)
    by (unfold rest; destruct (s =? 0); over_side).
  assert (HD : filter_bytes (fun c => negb (Ascii.eqb c ":")) rest = D).
  { unfold rest, D. rewrite !filter_bytes_app, (filter_colon_digits H), (filter_colon_digits M) by done.
    change (filter_bytes _ ":") with "". rewrite string_app_nil_l.
    destruct (s =? 0); [done|]. rewrite filter_bytes_app, (filter_colon_digits S) by done. done. }
  assert (HDo : over DIGITS D) by (unfold D, over; destruct (s =? 0); over_side).
  unfold parse_offset, fmt_signed_offset. fold rest.
  assert (exists c, sg = String c "" /\ (c = "+"%char \/ c = "-"%char)) as (c & Hc & Hcs)
    by (destruct Hsg as [[-> _]|[-> _]]; eexists; split; eauto).
  assert (Hne : String.eqb (sg +:+ rest) "Z" = false) by (by destruct Hsg as [[-> _]|[-> _]]).
  rewrite Hne.
  assert (Hsign : (if starts_with (sg +:+ rest) "+" then Ok 1
                   else if starts_with (sg +:+ rest) "-" then Ok (-1) else bad_offset (sg +:+ rest))
                  = Ok (Z.sgn o)).
  { destruct Hsg as [[-> Hpos]|[-> Hneg]]; cbn; rewrite ?Z.sgn_pos, ?Z.sgn_neg by lia; by destruct rest. }
  rewrite Hsign. cbn [mbind result_bind].
  rewrite Hc, string_app_cons, string_app_nil_l, slice_tail
    by (cbn; rewrite Hrest; by destruct Hcs as [-> | ->]).
  cbn [mbind result_bind]. rewrite HD, (proj2 (digits_over D)) by done. cbn [negb].
  assert (Hh' : str_get D 0 2 = Some H).
  { apply (two_digits "" H); done. }
  assert (Hm' : str_get D 2 4 = Some M).
  { rewrite <- Hhl at 1. replace 4%nat with (String.length H + 2)%nat by lia. by apply (two_digits H M). }
  assert (Hl : String.length D = if s =? 0 then 4%nat else 6%nat).
  { unfold D. rewrite !string_length_app, Hhl, Hml. destruct (s =? 0); [done|]. by rewrite Hsl. }
  rewrite Hl, Hh', Hm'. cbn [mbind option_bind]. rewrite Hpm, Hpn. cbn [mbind option_bind result_bind].
  assert (Hb : (18 <? h) || (59 <? m) || (59 <? s) = false)
    by (destruct (Z.ltb_spec 18 h), (Z.ltb_spec 59 m), (Z.ltb_spec 59 s); lia).
  destruct (Z.eqb_spec s 0) as [->|Hs0].
  - cbn [mbind result_bind]. rewrite Hb. f_equal. nia.
  - assert (Hs' : str_get D 4 6 = Some S).
    { assert (D = (H +:+ M) +:+ S +:+ "") as HD'.
      { unfold D. by rewrite string_app_nil_r, <- string_app_assoc. }
      pose proof (two_digits (H +:+ M) S "") as H2. rewrite <- HD', string_length_app, Hhl, Hml in H2.
      by apply H2. }
    rewrite Hs'. cbn [mbind option_bind]. rewrite Hps. cbn [mbind result_bind]. rewrite Hb.
    f_equal. nia.
Qed.

Lemma fmt_offset_over o : offset_ok o -> over OFFSET_CHARS (fmt_offset o).
Proof.
  intros Ho. destruct (Z.eq_dec o 0) as [->|Hz]; [done|].
  destruct (fmt_offset_shape o Hz Ho) as (sg & h & m & s & Hsg & Hh & Hm & Hs & _ & ->).
  pose proof (fmt_0_over 2 h ltac:(lia)). pose proof (fmt_0_over 2 m ltac:(lia)).
  pose proof (fmt_0_over 2 s ltac:(lia)).
  unfold fmt_signed_offset, over. destruct Hsg as [[-> _]|[-> _]], (s =? 0); over_side.
Qed.

Lemma fmt_offset_head o :
  offset_ok o ->
  exists c t, fmt_offset o = String c t /\ one_of ["Z"; "z"; "+"; "-"]%char c = true /\
    String.eqb (fmt_offset o) "z" = false.
Proof.
  intros Ho. destruct (Z.eq_dec o 0) as [->|Hz]; [by eexists _, _|].
  destruct (fmt_offset_shape o Hz Ho) as (sg & h & m & s & Hsg & _ & _ & _ & _ & ->).
  destruct Hsg as [[-> _]|[-> _]]; by eexists _, _.
Qed.

Section zones.
Context `{Jiff}.

Lemma parse_time_zone_none n :
  0 <= n < DAY_NS -> parse_time_zone (fmt_time n) = Ok (n, None).
Proof.
  intros Hn. pose proof (fmt_time_over n Hn). unfold parse_time_zone.
  rewrite !find_byte_none by over_side. cbn [mbind result_bind].
  rewrite find_byte_none by over_side. cbn [mbind result_bind].
  by rewrite fmt_time_parse.
Qed.

(** The time and the offset of a text, the zone's name removed. *)
Lemma parse_time_offset n o :
  0 <= n < DAY_NS -> offset_ok o ->
  exists off, find_byte (one_of ["Z"; "z"; "+"; "-"]%char) (fmt_time n +:+ fmt_offset o)
              = Some (String.length (fmt_time n)) /\
    off = fmt_offset o /\
    slice (fmt_time n +:+ off) 0 (String.length (fmt_time n)) = Ok (fmt_time n) /\
    slice (fmt_time n +:+ off) (String.length (fmt_time n)) (String.length (fmt_time n +:+ off)) = Ok off.
Proof.
  intros Hn Ho. pose proof (fmt_time_over n Hn). pose proof (fmt_offset_over o Ho).
  destruct (fmt_offset_head o Ho) as (c & t & Heq & Hc & _).
  exists (fmt_offset o). split_and!; [|done|apply slice_left; over_side|apply slice_right; over_side].
  rewrite Heq. apply find_byte_at; [over_side|done].
Qed.

Lemma parse_time_zone_offset n o :
  0 <= n < DAY_NS -> offset_ok o ->
  parse_time_zone (fmt_time n +:+ fmt_offset o) = Ok (n, Some (Offset o)).
Proof.
  intros Hn Ho. pose proof (fmt_time_over n Hn). pose proof (fmt_offset_over o Ho).
  destruct (parse_time_offset n o Hn Ho) as (off & Hf & -> & Hl & Hr).
  destruct (fmt_offset_head o Ho) as (_ & _ & _ & _ & Hz).
  unfold parse_time_zone. rewrite (find_byte_none (Ascii.eqb "[")) by over_side.
  cbn [mbind result_bind]. rewrite Hf, Hl. cbn [mbind result_bind]. rewrite Hr.
  cbn [mbind result_bind]. rewrite fmt_time_parse by done. cbn [mbind result_bind].
  rewrite Hz, fmt_offset_parse by done. done.
Qed.

Lemma parse_time_zone_named n o name z :
  0 <= n < DAY_NS -> offset_ok o -> all_chars printable name = true -> tz_get name = Some z ->
  parse_time_zone (fmt_time n +:+ fmt_offset o +:+ "[" +:+ name +:+ "]") = Ok (n, Some (Named name)).
Proof.
  intros Hn Ho Hname Htz. pose proof (fmt_time_over n Hn). pose proof (fmt_offset_over o Ho).
  destruct (parse_time_offset n o Hn Ho) as (off & Hf & -> & Hl & Hr).
  rewrite string_app_assoc. set (t := fmt_time n +:+ fmt_offset o) in *.
  change ("[" +:+ name +:+ "]") with (String "[" (name +:+ String "]" "")).
  assert (Hp : all_chars printable (t +:+ String "[" (name +:+ String "]" "")) = true)
    by (unfold t; over_side; rewrite Hname; over_side).
  unfold parse_time_zone. rewrite find_byte_at by (done || (unfold t; over_side)).
  assert (ends_with (t +:+ String "[" (name +:+ String "]" "")) "]" = true) as ->.
  { replace (t +:+ String "[" (name +:+ String "]" "")) with ((t +:+ String "[" name) +:+ String "]" "")
      by (rewrite <- string_app_assoc; done). apply ends_with_app. }
  rewrite slice_left, slice_between by done. cbn [mbind result_bind].
  rewrite Hf, Hl. cbn [mbind result_bind]. rewrite Hr. cbn [mbind result_bind].
  rewrite fmt_time_parse by done. cbn [mbind result_bind]. unfold tz. by rewrite Htz.
Qed.

Lemma parse_datetime_app d rest :
  day_ok d -> all_chars printable rest = true ->
  parse_datetime (fmt_date d +:+ "T" +:+ rest)
  = ('(n, z) ← parse_time_zone rest; Ok (d, n, z)).
Proof.
  intros Hd Hr. pose proof (fmt_date_over d Hd).
  change ("T" +:+ rest) with (String "T" rest).
  assert (all_chars printable (fmt_date d +:+ String "T" rest) = true)
    by (over_side; by rewrite Hr).
  unfold parse_datetime. rewrite find_byte_at by (done || over_side).
  rewrite slice_left, ok_bind, fmt_date_parse, ok_bind, slice_after, ok_bind by done.
  reflexivity.
Qed.

(** ** The round trip of temporal values *)

(** Values in range, with the offset their zone has. *)
Definition wf_temporal (v : T) : Prop :=
  match v with
  | TDate d => day_ok d
  | TLocalTime n => 0 <= n < DAY_NS
  | TTime n o => 0 <= n < DAY_NS /\ offset_ok o
  | TLocalDateTime d n => day_ok d /\ 0 <= n < DAY_NS
  | TDateTime d n (Offset o') o => day_ok d /\ 0 <= n < DAY_NS /\ offset_ok o /\ o' = o
  | TDateTime d n (Named name) o =>
      day_ok d /\ 0 <= n < DAY_NS /\ offset_ok o /\ all_chars printable name = true /\
      offset_at_local name d n = Ok o
  | TDuration _ => False
  end.

(** The conversions below unfold these before the texts they are made of. *)
#[local] Strategy expand [T_render T_kind wf_temporal T_parse].

Lemma offset_at_local_tz name d n o : offset_at_local name d n = Ok o -> exists z, tz_get name = Some z.
Proof. unfold offset_at_local, tz. destruct (tz_get name); [by eexists|done]. Qed.

Lemma render_printable v : wf_temporal v -> all_chars printable (T_render v) = true.
Proof.
  destruct v as [d|n|n o|d n|d n [o'|name] o|]; cbn [wf_temporal T_render]; intros Hwf; [..|done].
  all: repeat match goal with
       | H : _ /\ _ |- _ => lazymatch type of H with 0 <= _ < _ => fail | _ => destruct H end
       end.
  all: try match goal with H : day_ok ?d |- _ => pose proof (fmt_date_over d H) end.
  all: try match goal with H : 0 <= ?n < DAY_NS |- _ => pose proof (fmt_time_over n H) end.
  all: try match goal with H : offset_ok ?o |- _ => pose proof (fmt_offset_over o H) end.
  all: over_side; match goal with H : all_chars printable _ = true |- _ => by rewrite H end.
Qed.

Lemma datetime_offset_roundtrip d n o :
  wf_temporal (TDateTime d n (Offset o) o) ->
  T_parse DateTime (T_render (TDateTime d n (Offset o) o)) = Ok (TDateTime d n (Offset o) o).
Proof.
  intros Hwf. pose proof (render_printable _ Hwf) as Hp. destruct Hwf as (Hd & Hn & Ho & _).
  unfold T_parse, T_render in *. rewrite string_app_nil_r in *. rewrite trim_printable by done.
  rewrite !all_chars_app, !andb_true_iff in Hp.
  rewrite parse_datetime_app by (rewrite ?all_chars_app, ?andb_true_iff; tauto).
  rewrite parse_time_zone_offset, !ok_bind by done. reflexivity.
Qed.

(** The printed offset of a datetime in a named zone is not read: the zone's offset at the local
    time replaces it. *)
Lemma datetime_named_reread d n name o o' :
  day_ok d -> 0 <= n < DAY_NS -> offset_ok o -> all_chars printable name = true ->
  offset_at_local name d n = Ok o' ->
  T_parse DateTime (T_render (TDateTime d n (Named name) o)) = Ok (TDateTime d n (Named name) o').
Proof.
  intros Hd Hn Ho Hname Hloc.
  destruct (offset_at_local_tz _ _ _ _ Hloc) as [z Hz].
  assert (Hp : all_chars printable (fmt_date d +:+ "T" +:+ fmt_time n +:+ fmt_offset o
                                    +:+ "[" +:+ name +:+ "]") = true).
  { pose proof (fmt_date_over d Hd). pose proof (fmt_time_over n Hn). pose proof (fmt_offset_over o Ho).
    over_side. by rewrite Hname. }
  unfold T_parse, T_render in *. rewrite trim_printable by done.
  rewrite !all_chars_app, !andb_true_iff in Hp.
  rewrite parse_datetime_app by (rewrite ?all_chars_app, ?andb_true_iff; tauto).
  rewrite (parse_time_zone_named n o name z), !ok_bind by tauto.
  unfold zoned. cbn [default from_option]. unfold id. rewrite Hloc, ok_bind. reflexivity.
Qed.

Lemma local_datetime_roundtrip d n :
  wf_temporal (TLocalDateTime d n) ->
  T_parse LocalDateTime (T_render (TLocalDateTime d n)) = Ok (TLocalDateTime d n).
Proof.
  intros Hwf. pose proof (render_printable _ Hwf) as Hp. destruct Hwf as (Hd & Hn).
  unfold T_parse, T_render in *. rewrite trim_printable by done.
  rewrite !all_chars_app, !andb_true_iff in Hp.
  rewrite parse_datetime_app by tauto. rewrite parse_time_zone_none, !ok_bind by done. reflexivity.
Qed.

Lemma temporal_text_read v : wf_temporal v -> T_parse (T_kind v) (T_render v) = Ok v.
Proof.
  intros Hwf. pose proof (render_printable v Hwf) as Hp. destruct v as [d|n|n o|d n|d n z o|].
  - unfold T_parse, T_kind, T_render in *. rewrite trim_printable, fmt_date_parse by done. reflexivity.
  - unfold T_parse, T_kind, T_render in *.
    rewrite trim_printable, parse_time_zone_none, ok_bind by done. reflexivity.
  - destruct Hwf. unfold T_parse, T_kind, T_render in *.
    rewrite trim_printable, parse_time_zone_offset, ok_bind by done. reflexivity.
  - by apply local_datetime_roundtrip.
  - destruct z as [o'|name].
    + assert (o' = o) as -> by apply Hwf. by apply datetime_offset_roundtrip.
    + destruct Hwf as (? & ? & ? & ? & ?). by apply datetime_named_reread.
  - destruct Hwf.
Qed.
End zones.
