(* ===== verification/DurationFacts.v ===== *)
(** * Durations read back, and the ones that do not

    [parse_duration] reads what [Dur::render] prints exactly when the text is not taken for the
    alternative (date and time) form: the durations of months and minutes only, with a minus
    sign and no other unit, are printed but rejected. *)

From S2P Require Export TemporalFacts.

(** ** Numbers in a duration *)

Definition NUMBER_CHARS : list ascii := "."%char :: "-"%char :: DIGITS.

Lemma show_Z_neg n : 0 < n -> show_Z (- n) = String "-" (show_Z n).
Proof. by destruct n. Qed.

Lemma show_Z_over z : over NUMBER_CHARS (show_Z z).
Proof.
  destruct (Z.neg_nonneg_cases z) as [Hz|Hz].
  - replace z with (- - z) by lia. rewrite show_Z_neg by lia. unfold over. cbn [all_chars].
    change (one_of NUMBER_CHARS "-") with true. cbn [andb].
    apply (over_all DIGITS); [|done]. apply digits_over, show_Z_digits. lia.
  - apply (over_all DIGITS); [|done]. apply digits_over, show_Z_digits. lia.
Qed.

Lemma show_Z_nonempty z : show_Z z <> "".
Proof.
  destruct (Z.neg_nonneg_cases z) as [Hz|Hz].
  - replace z with (- - z) by lia. by rewrite show_Z_neg by lia.
  - by apply show_Z_digits.
Qed.

(** The digits before a point or the end. *)
Lemma scan_digits_over acc n s v rest :
  over DIGITS s -> digits_val acc s = Some v ->
  match rest with String c _ => is_ascii_digit c = false | EmptyString => True end ->
  F64.scan_digits acc n (s +:+ rest) = (v, n + String.length s, rest)%nat.
Proof.
  intros Hs Hv Hr. revert acc n Hv. induction s as [|c s IH]; intros acc n Hv.
  - injection Hv as <-. rewrite string_app_nil_l. cbn [String.length]. rewrite Nat.add_0_r.
    destruct rest as [|c r]; [done|]. cbn. by rewrite Hr.
  - unfold over in Hs. cbn [all_chars] in Hs. apply andb_true_iff in Hs as [Hc Hs].
    rewrite <- digit_one_of in Hc. cbn [digits_val] in Hv. rewrite Hc in Hv.
    rewrite string_app_cons. cbn [F64.scan_digits]. rewrite Hc.
    rewrite (IH Hs _ _ Hv). f_equal. f_equal. cbn [String.length]. lia.
Qed.

Lemma lower_digits_not_special s :
  s <> "" -> all_chars (fun c => is_ascii_digit c || Ascii.eqb c ".") s = true ->
  (String.eqb (to_ascii_lowercase s) "inf" || String.eqb (to_ascii_lowercase s) "infinity" = false)
  /\ String.eqb (to_ascii_lowercase s) "nan" = false.
Proof.
  intros Hne Hs. destruct s as [|c s]; [done|]. cbn [all_chars] in Hs.
  apply andb_true_iff in Hs as [Hc _].
  destruct c as [[] [] [] [] [] [] [] []]; (discriminate Hc || (split; reflexivity)).
Qed.

(** An unsigned number of digits is the float of its value. *)
Lemma parse_unsigned_digits sg s v :
  over DIGITS s -> (0 < String.length s <= 300)%nat -> digits_val 0 s = Some v ->
  F64.parse_unsigned sg s = Some (F64.of_decimal sg v 0 (string_len s)).
Proof.
  intros Hs Hl Hv. unfold F64.parse_unsigned.
  destruct (lower_digits_not_special s) as [-> ->]; [apply length_nonempty; lia|over_side|].
  rewrite <- (string_app_nil_r s) at 1. rewrite (scan_digits_over 0 0 s v "") by done.
  cbn [Nat.add]. rewrite Nat.add_0_r. rewrite (proj2 (Nat.eqb_neq (String.length s) 0)) by lia.
  done.
Qed.

(** A number with a fraction parses. *)
Lemma parse_unsigned_decimal sg s f v w :
  over DIGITS s -> over DIGITS f -> s <> "" -> digits_val 0 s = Some v -> digits_val v f = Some w ->
  exists x, F64.parse_unsigned sg (s +:+ String "." f) = Some x.
Proof.
  intros Hs Hf Hne Hv Hw. unfold F64.parse_unsigned.
  destruct (lower_digits_not_special (s +:+ String "." f)) as [-> ->]; [by destruct s|over_side|].
  rewrite (scan_digits_over 0 0 s v) by done. cbn [Nat.add].
  rewrite <- (string_app_nil_r f), (scan_digits_over v 0 f w "") by done. cbn [Nat.add].
  destruct s as [|c s]; [done|]. cbn [String.length Nat.add Nat.eqb]. by eexists.
Qed.

Lemma of_decimal_int sg v n :
  0 < v < 2 ^ 53 -> 0 <= n <= 300 -> F64.of_decimal sg v 0 n = fint (if sg : bool then - v else v).
Proof.
  intros Hv Hn. unfold F64.of_decimal. destruct v as [|p|p]; [lia| |lia].
  destruct (Z.ltb_spec 310 (0 + n)); [lia|]. destruct (Z.ltb_spec (0 + n) (-330)); [lia|].
  cbn [Z.leb Z.compare]. rewrite Z.mul_1_r. destruct sg; apply normalize_int; lia.
Qed.

Lemma f64_parse_show z :
  z <> 0 -> Z.abs z < 2 ^ 53 -> F64.parse (show_Z z) = Some (fint z).
Proof.
  intros Hz Hb.
  assert (Hpos : forall n sg, 0 < n < 2 ^ 53 ->
            F64.parse_unsigned sg (show_Z n) = Some (fint (if sg : bool then - n else n))).
  { intros n sg Hn. destruct (show_Z_digits n ltac:(lia)) as [Hd Hne].
    pose proof (show_Z_digits_length n 17 ltac:(lia) ltac:(lia)).
    assert (0 < String.length (show_Z n))%nat by (destruct (show_Z n); cbn; [done|lia]).
    rewrite (parse_unsigned_digits sg _ n); [|by apply digits_over|lia|apply digits_val_show; lia].
    f_equal. apply of_decimal_int; [done|]. unfold string_len. lia. }
  destruct (Z.lt_trichotomy z 0) as [Hneg|[|Hp]]; [|done|].
  - replace z with (- - z) at 1 by lia. rewrite show_Z_neg by lia. cbn [F64.parse].
    rewrite Hpos by lia. do 2 f_equal. lia.
  - destruct (show_Z_first z Hp) as (c & s & Heq & Hc). pose proof (Hpos z false ltac:(lia)) as Hf.
    pose proof (proj1 (show_Z_digits z ltac:(lia))) as Hd.
    rewrite Heq in *. cbn [all_chars] in Hd. apply andb_true_iff in Hd as [Hcd _].
    rewrite <- Hf. unfold F64.parse. revert Hcd. by destruct c as [[] [] [] [] [] [] [] []].
Qed.

(** ** Reading one component *)

(** The bytes of a number go to [cur]. *)
Lemma take_number s date N part cur a :
  over NUMBER_CHARS N -> take_part s date (N +:+ part) cur a = take_part s date part (cur +:+ N) a.
Proof.
  intros HN. revert cur. induction N as [|c N IH]; intros cur.
  - by rewrite string_app_nil_l, string_app_nil_r.
  - unfold over in HN. cbn [all_chars] in HN. apply andb_true_iff in HN as [Hc HN].
    rewrite string_app_cons. cbn [take_part].
    assert (is_ascii_digit c || one_of ["."; ","; "-"; "+"]%char c = true) as ->
      by (revert Hc; by destruct c as [[] [] [] [] [] [] [] []]).
    assert ((if Ascii.eqb c "," then "."%char else c) = c) as ->
      by (revert Hc; by destruct c as [[] [] [] [] [] [] [] []]).
    rewrite IH by done. f_equal. rewrite <- string_app_assoc. done.
Qed.

Lemma take_component s date N u part a v a' :
  over NUMBER_CHARS N -> N <> "" ->
  is_ascii_digit u || one_of ["."; ","; "-"; "+"]%char u = false ->
  F64.parse N = Some v ->
  take_unit date (to_ascii_uppercase_byte u) N v
    (if contains_char N "." then None else parse_i64 N) a = Some a' ->
  take_part s date (N +:+ String u part) "" a = take_part s date part "" a'.
Proof.
  intros HN Hne Hu Hv Ha. rewrite take_number by done. rewrite string_app_nil_l.
  cbn [take_part]. rewrite Hu. destruct (String.eqb_spec N ""); [done|]. by rewrite Hv, Ha.
Qed.

(** ** The date part *)

(** A component of a duration text, left out when it is zero. *)
Definition comp (z : Z) (u : ascii) : string :=
  if z =? 0 then "" else show_Z z +:+ String u "".

Lemma in_i64_true z : Z.abs z <= 2 ^ 62 -> in_i64 z = true.
Proof.
  intros. unfold in_i64, i64_min, i64_max.
  destruct (Z.leb_spec (- 2 ^ 63) z), (Z.leb_spec z (2 ^ 63 - 1)); lia.
Qed.

Lemma show_Z_no_point z : contains_char (show_Z z) "." = false.
Proof.
  apply contains_char_none. destruct (Z.neg_nonneg_cases z) as [Hz|Hz].
  - replace z with (- - z) by lia. rewrite show_Z_neg by lia. cbn [all_chars].
    change (negb (Ascii.eqb "-" ".")) with true. cbn [andb].
    apply (over_all DIGITS); [|done]. apply digits_over, show_Z_digits. lia.
  - apply (over_all DIGITS); [|done]. apply digits_over, show_Z_digits. lia.
Qed.

(** One integer component. *)
Lemma take_int_component s date z u part a a' :
  z <> 0 -> Z.abs z < 2 ^ 53 ->
  is_ascii_digit u || one_of ["."; ","; "-"; "+"]%char u = false ->
  take_unit date (to_ascii_uppercase_byte u) (show_Z z) (fint z) (Some z) a = Some a' ->
  take_part s date (show_Z z +:+ String u part) "" a = take_part s date part "" a'.
Proof.
  intros Hz Hb Hu Ha.
  apply (take_component s date (show_Z z) u part a (fint z) a');
    [apply show_Z_over|apply show_Z_nonempty|done|by apply f64_parse_show|].
  rewrite show_Z_no_point, parse_i64_show by (apply in_i64_true; lia). done.
Qed.

(** What the date part has read: months and days, as floats and exactly. *)
Definition date_acc (m d : Z) : DurAcc := mkDurAcc (fint m) (fint d) F64.zero (Some (m, d, 0)).

Lemma comp_app z u part :
  comp z u +:+ part = if z =? 0 then part else show_Z z +:+ String u part.
Proof.
  unfold comp. destruct (z =? 0); [by rewrite string_app_nil_l|].
  by rewrite <- string_app_assoc.
Qed.

Lemma take_comp s u z part m d m' d' :
  Z.abs z < 2 ^ 53 ->
  is_ascii_digit u || one_of ["."; ","; "-"; "+"]%char u = false ->
  (z = 0 -> m' = m /\ d' = d) ->
  (z <> 0 -> take_unit true (to_ascii_uppercase_byte u) (show_Z z) (fint z) (Some z) (date_acc m d)
             = Some (date_acc m' d')) ->
  take_part s true (comp z u +:+ part) "" (date_acc m d)
  = take_part s true part "" (date_acc m' d').
Proof.
  intros Hb Hu H0 Hn. rewrite comp_app. destruct (Z.eqb_spec z 0) as [Hz|Hz].
  - by destruct (H0 Hz) as [-> ->].
  - apply take_int_component; auto.
Qed.

Lemma take_date_part s m d :
  Z.abs m <= 2 ^ 50 -> Z.abs d <= 2 ^ 50 ->
  take_part s true (comp (m `quot` 12) "Y" +:+ comp (m `rem` 12) "M" +:+ comp d "D") ""
    (date_acc 0 0) = Ok (date_acc m d).
Proof.
  intros Hm Hd.
  assert (Hq : Z.abs (m `quot` 12) <= 2 ^ 50 /\ Z.abs (m `rem` 12) < 12
               /\ Z.abs (m `quot` 12 * 12) <= 2 ^ 50 /\ m `quot` 12 * 12 + m `rem` 12 = m) by zdiv.
  destruct Hq as (Hq & Hr & Hq12 & Hsum).
  generalize dependent (m `quot` 12). intros y Hq Hq12 Hsum.
  generalize dependent (m `rem` 12). intros mm Hr Hsum.
  rewrite (take_comp s "Y" y _ 0 0 (y * 12) 0); [|lia|done|lia|].
  2:{ intros Hy. cbn [take_unit date_acc]. unfold date_acc.
      change (Bool.eqb true true && Ascii.eqb (to_ascii_uppercase_byte "Y") "Y") with true. cbn iota.
      rewrite of_Z_exact, fint_mul by lia. change F64.zero with (fint 0) at 1.
      rewrite fint_add, Z.add_0_l by lia. cbn [mbind option_bind].
      assert ((0 + y * 12)%i64 = y * 12) as -> by (unwrap; lia). done. }
  rewrite (take_comp s "M" mm _ (y * 12) 0 m 0); [|lia|done|lia|].
  2:{ intros Hy. unfold date_acc. cbn [take_unit].
      change (Bool.eqb true true && Ascii.eqb (to_ascii_uppercase_byte "M") "Y") with false.
      change (Bool.eqb true true && Ascii.eqb (to_ascii_uppercase_byte "M") "M") with true. cbn iota.
      rewrite fint_add, Hsum by lia. cbn [mbind option_bind].
      assert (i64.add (y * 12)%Z mm = m) as -> by (unwrap; lia). done. }
  rewrite <- (string_app_nil_r (comp d "D")).
  rewrite (take_comp s "D" d _ m 0 m d); [|lia|done|intros ->; done|].
  2:{ intros Hy. unfold date_acc. cbn [take_unit].
      change (Bool.eqb true true && Ascii.eqb (to_ascii_uppercase_byte "D") "Y") with false.
      change (Bool.eqb true true && Ascii.eqb (to_ascii_uppercase_byte "D") "M") with false.
      change (Bool.eqb true true && Ascii.eqb (to_ascii_uppercase_byte "D") "W") with false.
      change (Bool.eqb true true && Ascii.eqb (to_ascii_uppercase_byte "D") "D") with true. cbn iota.
      rewrite fint_add, Z.add_0_l by lia. cbn [mbind option_bind].
      assert ((0 + d)%i64 = d) as -> by (unwrap; lia). done. }
  reflexivity.
Qed.

(** ** Seconds with a fraction *)

Lemma pop_while_app s : exists n, s = pop_while "0" s +:+ F64.zeros n.
Proof.
  induction s as [|c s [n IH]]; [by exists O|]. cbn [pop_while].
  destruct (pop_while "0" s) as [|d t] eqn:Hp.
  - destruct (Ascii.eqb_spec c "0") as [->|]; rewrite string_app_nil_l in IH.
    + exists (S n). rewrite string_app_nil_l. cbn. by f_equal.
    + exists n. rewrite string_app_cons, string_app_nil_l. by f_equal.
  - exists n. rewrite string_app_cons. by f_equal.
Qed.

(** The trailing zeros dropped by the printer are the ones the parser adds. *)
Lemma pad_pop w z :
  0 <= z < 10 ^ Z.of_nat w -> (0 < w)%nat -> pad_right w (pop_while "0" (fmt_0 w z)) = fmt_0 w z.
Proof.
  intros Hz Hw. pose proof (fmt_0_length w z Hz Hw) as Hl.
  destruct (pop_while_app (fmt_0 w z)) as [n Hn].
  assert (n = w - String.length (pop_while "0" (fmt_0 w z)))%nat as Hn'.
  { rewrite Hn in Hl at 1. rewrite string_length_app, zeros_length in Hl. lia. }
  unfold pad_right. rewrite <- Hn'. by symmetry.
Qed.

Lemma pop_over w z : 0 <= z -> over DIGITS (pop_while "0" (fmt_0 w z)).
Proof.
  intros Hz. destruct (pop_while_app (fmt_0 w z)) as [n Hn].
  pose proof (fmt_0_over w z Hz) as Ho. rewrite Hn in Ho. by apply over_app in Ho as [? _].
Qed.

Lemma pop_length w z :
  0 <= z < 10 ^ Z.of_nat w -> (0 < w)%nat -> (String.length (pop_while "0" (fmt_0 w z)) <= w)%nat.
Proof.
  intros Hz Hw. destruct (pop_while_app (fmt_0 w z)) as [n Hn].
  rewrite <- (fmt_0_length w z Hz Hw) at 2. rewrite Hn at 2. rewrite string_length_app. lia.
Qed.

Lemma parse_i128_digits s v :
  s <> "" -> digits_val 0 s = Some v -> v <= 2 ^ 62 -> parse_i128 s = Some v.
Proof.
  intros Hs Hv Hm. pose proof (digits_val_nonneg 0 s v ltac:(lia) Hv).
  pose proof (parse_i64_digits s v Hs Hv ltac:(unfold i64_max; lia)) as H64.
  unfold parse_i128, parse_i64 in *.
  set (o := match s with String "+" d => parse_digits d | String "-" d => Z.opp <$> parse_digits d
            | _ => parse_digits s end) in *.
  destruct o as [z|]; [|done]. cbn in *. destruct (in_i64 z) eqn:Hz; [|done]. injection H64 as ->.
  unfold in_i128, i128_min, i128_max.
  by destruct (Z.leb_spec (- 2 ^ 127) v), (Z.leb_spec v (2 ^ 127 - 1)); try lia.
Qed.

(** The text of a number of seconds. *)
Definition seconds_text (neg : bool) (sec frac : Z) : string :=
  let f := pop_while "0" (fmt_0 9 frac) in
  (if neg then "-" else "") +:+ show_Z sec +:+ (if String.eqb f "" then "" else "." +:+ f).

Lemma render_seconds_text neg sec frac :
  render_seconds (if neg : bool then "-" else "") sec frac = seconds_text neg sec frac +:+ "S".
Proof.
  unfold render_seconds, seconds_text. rewrite <- !string_app_assoc.
  destruct (String.eqb _ ""); [by rewrite string_app_nil_l|]. by rewrite <- !string_app_assoc.
Qed.

Lemma wrap_128_exact z : Z.abs z <= 2 ^ 126 -> wrap 128 z = z.
Proof. intros. unfold wrap. rewrite Z.mod_small; lia. Qed.

Lemma decimal_nanos_text neg sec frac :
  0 <= sec <= 2 ^ 62 -> 0 <= frac < NS ->
  decimal_nanos (seconds_text neg sec frac)
  = Some (if neg then - (sec * NS + frac) else sec * NS + frac).
Proof.
  intros Hs Hf. unfold NS in *. set (f := pop_while "0" (fmt_0 9 frac)).
  set (body := show_Z sec +:+ (if String.eqb f "" then "" else "." +:+ f)).
  assert (Hfo : over DIGITS f) by (apply pop_over; lia).
  assert (Hfl : (String.length f <= 9)%nat) by (apply pop_length; [|lia]; cbn; lia).
  assert (Hpad : pad_right 9 f = fmt_0 9 frac) by (apply pad_pop; [|lia]; cbn; lia).
  assert (Hso : over DIGITS (show_Z sec)) by (apply digits_over, show_Z_digits; lia).
  assert (Hstrip : match strip_prefix (seconds_text neg sec frac) "-" with
                   | Some r => (true, r)
                   | None => (false, default (seconds_text neg sec frac)
                                       (strip_prefix (seconds_text neg sec frac) "+"))
                   end = (neg, body)).
  { unfold seconds_text. fold f. destruct neg; [by rewrite strip_prefix_app|].
    rewrite string_app_nil_l. fold body. pose proof (show_Z_nonempty sec).
    unfold body. unfold over in Hso. destruct (show_Z sec) as [|c t]; [done|].
    cbn [all_chars] in Hso. apply andb_true_iff in Hso as [Hc _]. rewrite string_app_cons.
    revert Hc. by destruct c as [[] [] [] [] [] [] [] []]. }
  unfold decimal_nanos. rewrite Hstrip.
  assert (Hsplit : default (body, "") (split_once (Ascii.eqb ".") body) = (show_Z sec, f)).
  { unfold body. destruct (String.eqb_spec f "") as [Hf0|].
    - rewrite string_app_nil_r, split_once_none by over_side. by rewrite Hf0.
    - change ("." +:+ f) with (String "." f). rewrite split_once_at by (done || over_side). done. }
  rewrite Hsplit. rewrite (proj2 (Nat.ltb_ge 9 _)) by lia. rewrite Hpad.
  rewrite (parse_i128_digits (show_Z sec) sec)
    by (apply show_Z_nonempty || (apply digits_val_show; lia) || lia).
  rewrite (parse_i128_digits (fmt_0 9 frac) frac).
  2:{ apply length_nonempty. pose proof (fmt_0_min_length 9 frac ltac:(lia)). lia. }
  2:{ apply fmt_0_digits_val. lia. }
  2:{ lia. }
  cbn [mbind option_bind]. unfold add128, NS. rewrite (wrap_128_exact (sec * _)) by lia.
  rewrite (wrap_128_exact (sec * _ + _)) by lia. destruct neg; [|done]. by rewrite wrap_128_exact by lia.
Qed.

(** ** The time part *)

Definition signed (neg : bool) (z : Z) : Z := if neg then - z else z.

Lemma signed_comp (neg : bool) z u :
  0 <= z -> (if negb (z =? 0) then (if neg then "-" else "") +:+ show_Z z +:+ String u "" else "")
            = comp (signed neg z) u.
Proof.
  intros Hz. unfold comp, signed. destruct (Z.eqb_spec z 0) as [->|]; [by destruct neg|].
  cbn [negb]. destruct neg.
  - rewrite (proj2 (Z.eqb_neq (- z) 0)) by lia. by rewrite show_Z_neg by lia.
  - rewrite (proj2 (Z.eqb_neq z 0)) by lia. by rewrite string_app_nil_l.
Qed.

(** Hours and minutes add to the exact nanoseconds. *)
Lemma take_time_comp s u k z part mo da na m d n :
  (u = "H"%char /\ k = 3600 * NS) \/ (u = "M"%char /\ k = 60 * NS) ->
  Z.abs z < 2 ^ 53 -> Z.abs n <= 2 ^ 100 ->
  exists na',
    take_part s false (comp z u +:+ part) "" (mkDurAcc mo da na (Some (m, d, n)))
    = take_part s false part "" (mkDurAcc mo da na' (Some (m, d, n + z * k))).
Proof.
  intros Hu Hz Hn. rewrite comp_app. destruct (Z.eqb_spec z 0) as [->|Hnz].
  { exists na. do 4 f_equal. lia. }
  destruct Hu as [[-> ->]|[-> ->]]; eexists; (apply take_int_component; [done|done|done|]);
    cbn [take_unit]; rewrite Z.mul_assoc.
  - change (to_ascii_uppercase_byte "H") with "H"%char. cbn.
    unfold add128, NS. rewrite wrap_128_exact by lia. reflexivity.
  - change (to_ascii_uppercase_byte "M") with "M"%char. cbn.
    unfold add128, NS. rewrite wrap_128_exact by lia. reflexivity.
Qed.

Lemma seconds_text_over neg sec frac :
  0 <= sec -> 0 <= frac -> over NUMBER_CHARS (seconds_text neg sec frac).
Proof.
  intros Hs Hf. unfold seconds_text, over.
  pose proof (show_Z_over sec). pose proof (pop_over 9 frac Hf).
  destruct neg, (String.eqb _ _); over_side.
Qed.

Lemma parse_neg_unsigned s :
  over NUMBER_CHARS s -> (forall c t, s = String c t -> is_ascii_digit c = true) ->
  F64.parse s = F64.parse_unsigned false s /\ F64.parse (String "-" s) = F64.parse_unsigned true s.
Proof.
  intros Ho Hd. split; [|done]. destruct s as [|c t]; [done|].
  pose proof (Hd c t eq_refl) as Hc. unfold F64.parse. revert Hc.
  by destruct c as [[] [] [] [] [] [] [] []].
Qed.

Lemma digits_head s c t : over DIGITS s -> s = String c t -> is_ascii_digit c = true.
Proof.
  intros Ho ->. unfold over in Ho. cbn [all_chars] in Ho. apply andb_true_iff in Ho as [Hc _].
  by rewrite digit_one_of.
Qed.

Lemma digits_val_some acc s : over DIGITS s -> exists v, digits_val acc s = Some v.
Proof.
  revert acc. induction s as [|c s IH]; intros acc Hs; [by eexists|].
  unfold over in Hs. cbn [all_chars] in Hs. apply andb_true_iff in Hs as [Hc Hs].
  cbn. rewrite digit_one_of, Hc. by apply IH.
Qed.

(** The float of the seconds exists. *)
Lemma seconds_parse neg sec frac :
  0 <= sec <= 2 ^ 62 -> 0 <= frac < NS -> exists v, F64.parse (seconds_text neg sec frac) = Some v.
Proof.
  intros Hs Hf. unfold NS in *. unfold seconds_text. set (f := pop_while "0" (fmt_0 9 frac)).
  assert (Hfo : over DIGITS f) by (apply pop_over; lia).
  assert (Hso : over DIGITS (show_Z sec)) by (apply digits_over, show_Z_digits; lia).
  pose proof (show_Z_nonempty sec) as Hne.
  assert (Hhead : forall x c t, show_Z sec +:+ x = String c t -> is_ascii_digit c = true).
  { intros x c t Heq. destruct (show_Z sec) as [|c' t'] eqn:Hsec; [done|].
    rewrite string_app_cons in Heq. injection Heq as -> _. by eapply digits_head. }
  assert (Hu : forall sg, exists v, F64.parse_unsigned sg
            (show_Z sec +:+ (if String.eqb f "" then "" else "." +:+ f)) = Some v).
  { intros sg. destruct (String.eqb_spec f "").
    - rewrite string_app_nil_r. eexists. apply (parse_unsigned_digits sg _ sec); [done| |apply digits_val_show; lia].
      pose proof (show_Z_digits_length sec 20 ltac:(lia) ltac:(lia)).
      destruct (show_Z sec); [done|]. cbn in *. lia.
    - destruct (digits_val_some sec f Hfo) as [w Hw].
      eapply (parse_unsigned_decimal sg _ f sec w); try done. apply digits_val_show. lia. }
  assert (Ho : over NUMBER_CHARS (show_Z sec +:+ (if String.eqb f "" then "" else "." +:+ f)))
    by (unfold over; destruct (String.eqb f ""); over_side).
  destruct (parse_neg_unsigned _ Ho (Hhead _)) as [Hp Hm].
  destruct neg.
  - change ("-" +:+ ?x) with (String "-" x). destruct (Hu true) as [v Hv]. exists v. by rewrite <- Hm in Hv.
  - rewrite string_app_nil_l, Hp. apply Hu.
Qed.

Lemma take_seconds s neg sec frac mo da na m d n :
  0 <= sec < 60 -> 0 <= frac < NS -> Z.abs n <= 2 ^ 100 ->
  exists na',
    take_part s false (seconds_text neg sec frac +:+ "S") "" (mkDurAcc mo da na (Some (m, d, n)))
    = Ok (mkDurAcc mo da na' (Some (m, d, n + signed neg (sec * NS + frac)))).
Proof.
  intros Hs Hf Hn. destruct (seconds_parse neg sec frac) as [v Hv]; [lia|done|].
  eexists.
  rewrite (take_component s false _ "S" "" _ v
             (mkDurAcc mo da (F64.add na (F64.mul v (F64.of_Z NS)))
                (Some (m, d, n + signed neg (sec * NS + frac))))).
  - reflexivity.
  - apply seconds_text_over; lia.
  - unfold seconds_text. pose proof (show_Z_nonempty sec). destruct neg; [done|].
    rewrite string_app_nil_l. by destruct (show_Z sec).
  - done.
  - done.
  - cbn [take_unit]. change (to_ascii_uppercase_byte "S") with "S"%char. cbn.
    rewrite decimal_nanos_text by lia. cbn. unfold add128, signed, NS in *.
    by rewrite wrap_128_exact by (destruct neg; lia).
Qed.

(** The time part of a duration's text, after the [T]. *)
Definition time_text (total : Z) : string :=
  let a := Z.abs total in
  let secs := a `div` NS in
  let frac := a `mod` NS in
  let neg := total <? 0 in
  comp (signed neg (secs `quot` 3600)) "H" +:+ comp (signed neg ((secs `quot` 60) `rem` 60)) "M"
  +:+ (if negb (secs `rem` 60 =? 0) || negb (frac =? 0)
       then seconds_text neg (secs `rem` 60) frac +:+ "S" else "").

Definition date_text (self : Dur) : string :=
  comp (months self `quot` 12) "Y" +:+ comp (months self `rem` 12) "M" +:+ comp (days self) "D".

Lemma Dur_render_text self :
  self <> Dur_default ->
  Dur_render self = "P" +:+ date_text self
    +:+ (if total_nanos self =? 0 then "" else "T" +:+ time_text (total_nanos self)).
Proof.
  intros Hne. unfold Dur_render. rewrite bool_decide_false by done. cbv zeta.
  unfold date_text. rewrite <- !string_app_assoc. f_equal.
  assert (forall z u, (if negb (z =? 0) then show_Z z +:+ String u "" else "") = comp z u) as Hc.
  { intros z u. unfold comp. by destruct (z =? 0). }
  rewrite !Hc. do 3 f_equal.
  destruct (total_nanos self =? 0); [done|]. f_equal. unfold time_text. cbv zeta.
  set (total := total_nanos self).
  assert (0 <= Z.abs total `div` NS) by (apply Z.div_pos; unfold NS; lia).
  rewrite <- !signed_comp by zdiv.
  do 2 f_equal. destruct (negb _ || negb _); [|done]. by rewrite render_seconds_text.
Qed.

Lemma take_time_part s total mo da na m d :
  Z.abs total <= 2 ^ 93 / 2 ->
  exists na',
    take_part s false (time_text total) "" (mkDurAcc mo da na (Some (m, d, 0)))
    = Ok (mkDurAcc mo da na' (Some (m, d, total))).
Proof.
  intros Hb. unfold time_text. set (neg := total <? 0).
  set (secs := Z.abs total `div` NS). set (frac := Z.abs total `mod` NS).
  assert (Hsf : Z.abs total = secs * NS + frac /\ 0 <= frac < NS /\ 0 <= secs <= 2 ^ 63)
    by (unfold secs, frac, NS in *; zdiv).
  destruct Hsf as (Hsf & Hf & Hsecs).
  set (h := secs `quot` 3600). set (mi := (secs `quot` 60) `rem` 60). set (sec := secs `rem` 60).
  assert (Hparts : secs = h * 3600 + mi * 60 + sec /\ 0 <= h <= 2 ^ 52 /\ 0 <= mi < 60 /\ 0 <= sec < 60)
    by (unfold h, mi, sec; zdiv).
  destruct Hparts as (Hparts & Hh & Hmi & Hsec).
  destruct (take_time_comp s "H" (3600 * NS) (signed neg h)
              (comp (signed neg mi) "M" +:+
               (if negb (sec =? 0) || negb (frac =? 0) then seconds_text neg sec frac +:+ "S" else ""))
              mo da na m d 0) as [na1 H1]; [by left|unfold signed; destruct neg; lia|lia|].
  rewrite H1.
  destruct (take_time_comp s "M" (60 * NS) (signed neg mi)
              (if negb (sec =? 0) || negb (frac =? 0) then seconds_text neg sec frac +:+ "S" else "")
              mo da na1 m d (0 + signed neg h * (3600 * NS))) as [na2 H2];
    [by right|unfold signed; destruct neg; lia|unfold signed, NS; destruct neg; lia|].
  rewrite H2.
  set (n := 0 + signed neg h * (3600 * NS) + signed neg mi * (60 * NS)).
  assert (Htotal : n + signed neg (sec * NS + frac) = total).
  { unfold n, signed, neg in *. destruct (Z.ltb_spec total 0); unfold NS in *; lia. }
  destruct (negb (sec =? 0) || negb (frac =? 0)) eqn:Hz.
  - destruct (take_seconds s neg sec frac mo da na2 m d n) as [na3 H3];
      [done|done|unfold n, signed, NS; destruct neg; lia|].
    exists na3. by rewrite H3, Htotal.
  - exists na2. apply orb_false_iff in Hz as [Hz1%negb_false_iff%Z.eqb_eq Hz2%negb_false_iff%Z.eqb_eq].
    rewrite Hz1, Hz2 in Htotal. cbn [take_part String.eqb]. do 4 f_equal.
    rewrite <- Htotal. unfold signed. destruct neg; lia.
Qed.

(** ** The two forms *)

(** Whether a text has the shape of a date, [1234-]. *)
Definition date_like (body : string) : outcome bool :=
  match body with
  | String c _ =>
      if is_ascii_digit c && (4 <=? String.length body)%nat then
        y ← slice body 0 4;
        Ok (all_chars is_ascii_digit y && bool_decide (str_get body 4 5 = Some "-"))
      else Ok false
  | EmptyString => Ok false
  end.

Lemma alternative_form_eq body :
  alternative_form body
  = if contains_char body "-" && negb (exists_byte (one_of ["Y"; "W"; "D"; "H"; "S"]%char) body)
    then Ok true else date_like body.
Proof. done. Qed.

Lemma get_substring_1 i s c : String.substring i 1 s = String c "" -> String.get i s = Some c.
Proof.
  revert i. induction s as [|d s IH]; intros i; [by destruct i|].
  destruct i as [|i]; cbn; [by destruct s; intros [= ->]|apply IH].
Qed.

Lemma get_over L s i c : over L s -> String.get i s = Some c -> one_of L c = true.
Proof.
  revert i. induction s as [|d s IH]; intros i Hs; [by destruct i|].
  unfold over in Hs. cbn [all_chars] in Hs. apply andb_true_iff in Hs as [Hd Hs].
  destruct i as [|i]; cbn; [by intros [= <-]|by apply IH].
Qed.

Lemma get_app_r i a b : String.get (String.length a + i) (a +:+ b) = String.get i b.
Proof. induction a as [|c a IH]; [done|]. rewrite string_app_cons. cbn. apply IH. Qed.

Lemma all_chars_get p s i c : all_chars p s = true -> String.get i s = Some c -> p c = true.
Proof.
  revert i. induction s as [|d s IH]; intros i Hs; [by destruct i|].
  cbn [all_chars] in Hs. apply andb_true_iff in Hs as [Hd Hs].
  destruct i as [|i]; cbn; [by intros [= <-]|by apply IH].
Qed.

Lemma get_substring n m s i : (i < m)%nat -> String.get i (String.substring n m s) = String.get (i + n) s.
Proof. intros. apply String.substring_correct1. done. Qed.

(** Digits followed by a byte that is neither a digit nor a minus sign. *)
Lemma date_like_digits D u rest :
  over DIGITS D -> is_ascii_digit u = false -> u <> "-"%char ->
  all_chars printable (D +:+ String u rest) = true ->
  date_like (D +:+ String u rest) = Ok false.
Proof.
  intros HD Hu Hm Hp. set (body := D +:+ String u rest) in *.
  assert (exists c, date_like body
    = if is_ascii_digit c && (4 <=? String.length body)%nat then
        y ← slice body 0 4;
        Ok (all_chars is_ascii_digit y && bool_decide (str_get body 4 5 = Some "-"))
      else Ok false) as [c ->] by (unfold body; destruct D; by eexists).
  destruct (is_ascii_digit c); [|done]. cbn [andb].
  destruct (Nat.leb_spec 4 (String.length body)) as [Hlen|]; [|done].
  unfold slice. rewrite (slice_printable body 0 4) by (done || lia). cbn [ok_or]. rewrite ok_bind.
  destruct (all_chars is_ascii_digit _) eqn:Hd; [|done]. cbn [andb]. do 2 f_equal.
  apply bool_decide_eq_false. intros H5.
  destruct (Nat.lt_ge_cases (String.length D) 4) as [Hlt|Hge].
  - assert (String.get (String.length D) (String.substring 0 (4 - 0) body) = Some u) as Hg.
    { rewrite get_substring by lia. rewrite Nat.add_0_r. unfold body.
      rewrite <- (Nat.add_0_r (String.length D)), get_app_r. done. }
    eapply all_chars_get in Hg; [|done]. congruence.
  - assert (Hget : String.get 4 body = Some "-"%char).
    { unfold str_get in H5. destruct (_ && _); [|done]. injection H5 as H5. by apply get_substring_1. }
    destruct (Nat.eq_dec (String.length D) 4) as [H4|].
    + unfold body in Hget. rewrite <- H4, <- (Nat.add_0_r (String.length D)), get_app_r in Hget.
      by injection Hget.
    + unfold body in Hget. rewrite get_app_l in Hget by lia.
      eapply get_over in Hget; [|done]. done.
Qed.

Lemma date_like_comp z u part :
  is_ascii_digit u = false -> u <> "-"%char -> all_chars printable (comp z u +:+ part) = true ->
  date_like part = Ok false -> date_like (comp z u +:+ part) = Ok false.
Proof.
  intros Hu Hm Hp Hpart. rewrite comp_app in *. destruct (Z.eqb_spec z 0); [done|].
  destruct (Z.neg_nonneg_cases z) as [Hz|Hz].
  - replace z with (- - z) by lia. rewrite show_Z_neg by lia. done.
  - apply date_like_digits; [by apply digits_over, show_Z_digits|done..].
Qed.

(** ** Characters of a duration's text *)

Definition UNIT_CHARS : list ascii := ["Y"; "M"; "D"; "T"; "H"; "S"]%char ++ NUMBER_CHARS.
Definition form_units : ascii -> bool := one_of ["Y"; "W"; "D"; "H"; "S"]%char.

Lemma comp_over z u L :
  forallb (one_of L) NUMBER_CHARS = true -> one_of L u = true -> over L (comp z u).
Proof.
  intros HL Hu. unfold comp. destruct (z =? 0); [done|]. apply over_app. split.
  - by eapply over_sub; [apply show_Z_over|].
  - unfold over. cbn. by rewrite Hu.
Qed.

Lemma comp_minus z u : Ascii.eqb u "-" = false -> contains_char (comp z u) "-" = (z <? 0).
Proof.
  intros Hu. unfold comp. destruct (Z.eqb_spec z 0) as [->|]; [done|].
  rewrite contains_char_app. cbn [contains_char]. rewrite Hu. cbn [orb]. rewrite orb_false_r.
  destruct (Z.ltb_spec z 0) as [Hz|Hz].
  - replace z with (- - z) by lia. by rewrite show_Z_neg by lia.
  - apply contains_char_none, (over_all DIGITS); [|done]. by apply digits_over, show_Z_digits.
Qed.

Lemma comp_unit z u : exists_byte form_units (comp z u) = negb (z =? 0) && form_units u.
Proof.
  unfold comp. destruct (Z.eqb_spec z 0) as [->|]; [done|].
  rewrite exists_byte_app. cbn [exists_byte negb andb]. rewrite orb_false_r.
  rewrite exists_byte_none; [done|]. apply (over_all NUMBER_CHARS); [apply show_Z_over|done].
Qed.

Lemma seconds_minus neg sec frac :
  0 <= sec -> 0 <= frac -> contains_char (seconds_text neg sec frac +:+ "S") "-" = neg.
Proof.
  intros Hs Hf. unfold seconds_text.
  assert (over DIGITS (show_Z sec)) by (apply digits_over, show_Z_digits; lia).
  pose proof (pop_over 9 frac Hf).
  rewrite !contains_char_app. destruct neg; [done|]. cbn [contains_char orb].
  rewrite contains_char_none by over_side. cbn [orb].
  destruct (String.eqb _ _); [done|]. rewrite contains_char_app.
  by rewrite (contains_char_none "-" (pop_while _ _)) by over_side.
Qed.

Lemma seconds_unit neg sec frac : exists_byte form_units (seconds_text neg sec frac +:+ "S") = true.
Proof. rewrite exists_byte_app. cbn. by rewrite orb_true_r. Qed.

(** ** The characterisation *)

(** Durations in range: months and days below 2^50, any number of seconds below 2^62. *)
Definition dur_ok (d : Dur) : Prop :=
  Z.abs (months d) <= 2 ^ 50 /\ Z.abs (days d) <= 2 ^ 50 /\ Z.abs (seconds d) <= 2 ^ 61 /\
  0 <= nanos d < NS.

(** Only months (less than a year) and minutes (less than an hour), some of them negative. *)
Definition unreadable (d : Dur) : bool :=
  (Z.abs (months d) <? 12) && (days d =? 0) && (Z.abs (total_nanos d) <? 3600 * NS)
  && (Z.abs (total_nanos d) mod (60 * NS) =? 0)
  && ((months d <? 0) || (total_nanos d <? 0)).

Definition body_text (self : Dur) : string :=
  date_text self +:+ (if total_nanos self =? 0 then "" else "T" +:+ time_text (total_nanos self)).

Lemma signed_sign neg z : 0 <= z -> (signed neg z <? 0) = neg && negb (z =? 0).
Proof.
  intros Hz. unfold signed. destruct neg, (Z.eqb_spec z 0); cbn [andb negb];
    destruct (Z.ltb_spec (if true then - z else z) 0); try destruct (Z.ltb_spec z 0); lia.
Qed.

Lemma signed_zero neg z : (signed neg z =? 0) = (z =? 0).
Proof. unfold signed. destruct neg; [|done]. destruct (Z.eqb_spec (- z) 0), (Z.eqb_spec z 0); lia. Qed.

(** The components of a total. *)
Record time_split (total h mi sec frac : Z) : Prop := {
  ts_eq : Z.abs total = ((h * 60 + mi) * 60 + sec) * NS + frac;
  ts_h : 0 <= h; ts_mi : 0 <= mi < 60; ts_sec : 0 <= sec < 60; ts_frac : 0 <= frac < NS;
}.

Lemma time_text_split total :
  exists h mi sec frac, time_split total h mi sec frac /\
    time_text total = comp (signed (total <? 0) h) "H" +:+ comp (signed (total <? 0) mi) "M"
      +:+ (if negb (sec =? 0) || negb (frac =? 0)
           then seconds_text (total <? 0) sec frac +:+ "S" else "").
Proof.
  exists ((Z.abs total `div` NS) `quot` 3600), (((Z.abs total `div` NS) `quot` 60) `rem` 60),
    ((Z.abs total `div` NS) `rem` 60), (Z.abs total `mod` NS).
  split; [|done].
  assert (Hsf : Z.abs total = Z.abs total `div` NS * NS + Z.abs total `mod` NS
          /\ 0 <= Z.abs total `mod` NS < NS /\ 0 <= Z.abs total `div` NS) by (unfold NS in *; zdiv).
  destruct Hsf as (Hsf & Hf & Hs).
  set (frac := Z.abs total `mod` NS) in *. set (secs := Z.abs total `div` NS) in *.
  clearbody frac secs.
  split; [rewrite Hsf; f_equal; f_equal|..]; zdiv.
Qed.

Lemma time_minus total : total <> 0 -> contains_char (time_text total) "-" = (total <? 0).
Proof.
  intros Hz. destruct (time_text_split total) as (h & mi & sec & frac & [Heq Hh Hmi Hsec Hf] & ->).
  rewrite !contains_char_app, !comp_minus by done. rewrite !signed_sign by lia.
  destruct (Z.ltb_spec total 0) as [Hneg|Hpos]; cbn [andb].
  - destruct (Z.eqb_spec h 0) as [->|]; [|done]. destruct (Z.eqb_spec mi 0) as [->|]; [|done].
    cbn [negb orb]. destruct (Z.eqb_spec sec 0) as [->|]; cbn [negb orb].
    + destruct (Z.eqb_spec frac 0) as [->|]; [exfalso; lia|]. by apply seconds_minus; lia.
    + by apply seconds_minus; lia.
  - cbn [orb]. destruct (negb _ || negb _); [|done]. by apply seconds_minus; lia.
Qed.

Lemma time_unit total :
  exists_byte form_units (time_text total)
  = negb ((Z.abs total <? 3600 * NS) && (Z.abs total mod (60 * NS) =? 0)).
Proof.
  destruct (time_text_split total) as (h & mi & sec & frac & [Heq Hh Hmi Hsec Hf] & ->).
  rewrite !exists_byte_app, !comp_unit, !signed_zero.
  change (form_units "H") with true. change (form_units "M") with false.
  rewrite andb_true_r, andb_false_r. cbn [orb].
  assert (Hh0 : (Z.abs total <? 3600 * NS) = (h =? 0)).
  { destruct (Z.ltb_spec (Z.abs total) (3600 * NS)), (Z.eqb_spec h 0); unfold NS in *; nia. }
  assert (Hs0 : (Z.abs total mod (60 * NS) =? 0) = (sec =? 0) && (frac =? 0)).
  { assert (Z.abs total mod (60 * NS) = sec * NS + frac) as ->.
    { symmetry. apply (Z.mod_unique _ _ (h * 60 + mi)); unfold NS in *; lia. }
    destruct (Z.eqb_spec (sec * NS + frac) 0), (Z.eqb_spec sec 0), (Z.eqb_spec frac 0);
      unfold NS in *; cbn [andb]; lia. }
  rewrite Hh0, Hs0. destruct (h =? 0), (sec =? 0), (frac =? 0); cbn [negb orb andb];
    try done; by rewrite seconds_unit.
Qed.

Lemma quot_rem_sign m : (m `quot` 12 <? 0) || (m `rem` 12 <? 0) = (m <? 0).
Proof.
  destruct (Z.ltb_spec (m `quot` 12) 0), (Z.ltb_spec (m `rem` 12) 0), (Z.ltb_spec m 0);
    cbn [orb]; try done; exfalso; zdiv.
Qed.

Lemma quot_zero m : (m `quot` 12 =? 0) = (Z.abs m <? 12).
Proof. destruct (Z.eqb_spec (m `quot` 12) 0), (Z.ltb_spec (Z.abs m) 12); try done; exfalso; zdiv. Qed.

(** The text is taken for the date form exactly for [unreadable] durations. *)
Lemma body_alternative self :
  contains_char (body_text self) "-" && negb (exists_byte form_units (body_text self)) = unreadable self.
Proof.
  unfold body_text, date_text, unreadable.
  rewrite !contains_char_app, !comp_minus, !exists_byte_app, !comp_unit by done.
  change (form_units "Y") with true. change (form_units "M") with false.
  change (form_units "D") with true. rewrite !andb_true_r, andb_false_r. cbn [orb].
  rewrite orb_assoc, quot_rem_sign, quot_zero.
  destruct (Z.eqb_spec (total_nanos self) 0) as [Ht|Ht].
  - rewrite Ht. change (Z.abs 0 <? 3600 * NS) with true. change (Z.abs 0 mod (60 * NS) =? 0) with true.
    cbn [contains_char exists_byte andb]. rewrite !orb_false_r, andb_true_r.
    destruct (months self <? 0), (Z.abs (months self) <? 12), (Z.eqb_spec (days self) 0) as [->|];
      try destruct (days self <? 0); done.
  - cbn [String.append contains_char exists_byte].
    change (Ascii.eqb "T" "-") with false. change (form_units "T") with false. cbn [orb].
    rewrite time_minus, time_unit by done.
    destruct (months self <? 0), (Z.abs (months self) <? 12), (Z.eqb_spec (days self) 0) as [->|];
      try destruct (days self <? 0); destruct (total_nanos self <? 0), (_ && _) eqn:Ha;
      try done; cbn [negb orb andb] in *;
      destruct (Z.abs (total_nanos self) <? 3600 * NS), (Z.abs (total_nanos self) mod (60 * NS) =? 0); done.
Qed.

Lemma date_text_over self : over UNIT_CHARS (date_text self).
Proof. unfold date_text. rewrite !over_app. split_and!; by apply comp_over. Qed.

Lemma time_text_over total : over UNIT_CHARS (time_text total).
Proof.
  destruct (time_text_split total) as (h & mi & sec & frac & [_ Hh Hmi Hsec Hf] & ->).
  rewrite !over_app. split_and!; [by apply comp_over..|].
  destruct (negb _ || negb _); [|done]. apply over_app. split; [|done].
  eapply over_sub; [apply seconds_text_over; lia|done].
Qed.

Lemma body_text_over self : over UNIT_CHARS (body_text self).
Proof.
  unfold body_text. apply over_app. split; [apply date_text_over|].
  destruct (_ =? 0); [done|]. apply over_app. split; [done|apply time_text_over].
Qed.

(** A duration's text never looks like a date. *)
Lemma body_not_date self : date_like (body_text self) = Ok false.
Proof.
  pose proof (body_text_over self) as Ho. apply (over_all _ printable) in Ho; [|done].
  unfold body_text, date_text in *. rewrite <- !string_app_assoc in *.
  apply date_like_comp; [done..|]. rewrite all_chars_app, andb_true_iff in Ho. destruct Ho as [_ Ho].
  apply date_like_comp; [done..|]. rewrite all_chars_app, andb_true_iff in Ho. destruct Ho as [_ Ho].
  apply date_like_comp; [done..|]. by destruct (_ =? 0).
Qed.

(** The parts around the [T]. *)
Lemma body_split self :
  default (body_text self, "") (split_once (one_of ["T"; "t"]%char) (body_text self))
  = (date_text self, if total_nanos self =? 0 then "" else time_text (total_nanos self)).
Proof.
  assert (Hd : all_chars (fun c => negb (one_of ["T"; "t"]%char c)) (date_text self) = true).
  { unfold date_text. rewrite !all_chars_app.
    assert (forall z u, one_of ["T"; "t"]%char u = false ->
              all_chars (fun c => negb (one_of ["T"; "t"]%char c)) (comp z u) = true) as Hc.
    { intros z u Hu. unfold comp. destruct (z =? 0); [done|]. rewrite all_chars_app. cbn [all_chars].
      rewrite Hu. rewrite (over_all NUMBER_CHARS) by (apply show_Z_over || done). done. }
    by rewrite !Hc. }
  unfold body_text. destruct (_ =? 0).
  - rewrite string_app_nil_r. by rewrite split_once_none.
  - change ("T" +:+ ?x) with (String "T" x). by rewrite split_once_at.
Qed.

Lemma Dur_new_total self : dur_ok self -> Dur_new (months self) (days self) (total_nanos self) = self.
Proof.
  intros (_ & _ & Hs & Hn). unfold Dur_new, total_nanos, NS in *.
  assert ((seconds self * 1000000000 + nanos self) `div` 1000000000 = seconds self) as -> by zdiv.
  assert ((seconds self * 1000000000 + nanos self) `mod` 1000000000 = nanos self) as -> by zdiv.
  rewrite !wrap_i64_exact by (unfold i64_min, i64_max; lia). by destruct self.
Qed.

Lemma parse_units_text s self :
  dur_ok self -> parse_units s (body_text self) false = Ok self.
Proof.
  intros Hok. pose proof (Dur_new_total self Hok) as Hnew. destruct Hok as (Hm & Hd & Hs & Hn).
  unfold parse_units. rewrite body_split.
  change (mkDurAcc F64.zero F64.zero F64.zero (Some (0, 0, 0))) with (date_acc 0 0).
  unfold date_text. rewrite take_date_part, ok_bind by done.
  assert (exists na, take_part s false (if total_nanos self =? 0 then "" else time_text (total_nanos self))
             "" (date_acc (months self) (days self))
           = Ok (mkDurAcc (fint (months self)) (fint (days self)) na
                   (Some (months self, days self, total_nanos self)))) as [na Hna].
  { destruct (Z.eqb_spec (total_nanos self) 0) as [->|]; [by exists F64.zero|].
    apply take_time_part. unfold total_nanos, NS in *. change (2 ^ 93 / 2) with (2 ^ 92). lia. }
  rewrite Hna, ok_bind, !fint_fract by lia. change (F64.eqb F64.zero F64.zero) with true.
  cbn [andb]. cbv zeta. cbn [from_parts]. by rewrite Hnew.
Qed.

(** Only upper-case letters are printed. *)
Lemma split_once_upper s :
  over UNIT_CHARS s -> split_once (Ascii.eqb "T") s = split_once (one_of ["T"; "t"]%char) s.
Proof.
  induction s as [|c t IH]; [done|]. intros Ho.
  unfold over in Ho. cbn [all_chars] in Ho. apply andb_true_iff in Ho as [Hc Ho]. cbn [split_once].
  assert (one_of ["T"; "t"]%char c = Ascii.eqb "T" c) as ->.
  { revert Hc. by destruct c as [[] [] [] [] [] [] [] []]. }
  by rewrite IH.
Qed.

(** Without year, day, hour and second, the date form has too few parts. *)
Lemma unreadable_alternative s self :
  unreadable self = true -> exists m, parse_alternative s (body_text self) false = Err (Raise (Runtime m)).
Proof.
  unfold unreadable. rewrite !andb_true_iff. intros ((((Hm & Hd) & Hh) & Hs) & _).
  apply Z.eqb_eq in Hd.
  assert (Hdate : date_text self = comp (months self `rem` 12) "M").
  { unfold date_text, comp at 1. rewrite quot_zero, Hm, Hd. rewrite string_app_nil_l.
    change (comp 0 "D") with "". by rewrite string_app_nil_r. }
  assert (Hsplit : exists date time,
            match split_once (Ascii.eqb "T") (body_text self) with
            | Some (d, t) => (d, Some t) | None => (body_text self, None) end = (date, time) /\
            date = date_text self).
  { pose proof (body_split self) as Hb.
    assert (split_once (Ascii.eqb "T") (body_text self) = split_once (one_of ["T"; "t"]%char) (body_text self)) as ->.
    { apply split_once_upper, body_text_over. }
    destruct (split_once _ _) as [[d t]|]; cbn in Hb; injection Hb as Hd' Ht'; by eexists _, _. }
  destruct Hsplit as (date & time & Hsplit & ->).
  unfold parse_alternative. rewrite Hsplit, Hdate.
  assert (Hparts : exists l, split_char "-" (comp (months self `rem` 12) "M") = l /\ (length l < 3)%nat).
  { eexists. split; [done|]. unfold comp. destruct (Z.eqb_spec (months self `rem` 12) 0); [cbn; lia|].
    set (z := months self `rem` 12) in *.
    assert (Hpos : forall k, 0 <= k -> split_char "-" (show_Z k +:+ "M") = [show_Z k +:+ "M"]).
    { intros k Hk. apply split_none. rewrite all_chars_app.
      rewrite (over_all DIGITS) by (done || (apply digits_over, show_Z_digits; lia)). done. }
    destruct (Z.neg_nonneg_cases z) as [Hz|Hz].
    - replace z with (- - z) by lia. rewrite show_Z_neg by lia. rewrite string_app_cons.
      cbn [split_char Ascii.eqb]. rewrite Hpos by lia. cbn. lia.
    - rewrite Hpos by lia. cbn. lia. }
  destruct Hparts as (l & -> & Hl). destruct l as [|? [|? [|? l]]]; cbn in Hl; [by eexists..|lia].
Qed.

Section parse.
Context `{Jiff}.

(** How a printed duration is read back: as itself, unless it is [unreadable]. *)
Lemma duration_text_read self :
  dur_ok self ->
  if unreadable self
  then exists m, T_parse Duration (Dur_render self) = Err (Raise (Runtime m))
  else T_parse Duration (Dur_render self) = Ok (TDuration self).
Proof.
  intros Hok. destruct (decide (self = Dur_default)) as [->|Hne]; [by vm_compute|].
  pose proof (Dur_render_text self Hne) as Htext.
  change (date_text self +:+ ?x) with (body_text self) in Htext. rewrite Htext.
  pose proof (body_text_over self) as Ho. apply (over_all _ printable) in Ho; [|done].
  unfold T_parse. rewrite trim_printable by done.
  change ("P" +:+ body_text self) with (String "P" (body_text self)).
  unfold parse_duration. cbn [strip_prefix]. change (Ascii.eqb "-" "P") with false. cbn iota.
  rewrite alternative_form_eq. fold form_units. rewrite body_alternative.
  destruct (unreadable self) eqn:Hu.
  - rewrite ok_bind. destruct (unreadable_alternative (String "P" (body_text self)) self Hu) as [m Hm].
    exists m. by rewrite Hm.
  - rewrite body_not_date, ok_bind, parse_units_text by done. reflexivity.
Qed.
End parse.
