(* ===== verification/TemporalSpec.v ===== *)
(** * What the temporal values promise

    The theorems on [temporal.rs]: its calendar is the proleptic Gregorian one, ISO weeks
    identify days, months clamp to the end of the month, every printed value that can be read is
    read as itself, and a duration between two datetimes leads from one to the other. *)

From S2P Require Export DurationFacts.

(** ** The calendar *)

(** C38: [civil_from_days] is the proleptic Gregorian calendar: day 0 is 1970-01-01 and the date
    of each following day is the next date of the reference calendar [next_date], for all day
    numbers up to 2^61 in magnitude, in wrapping [i64] arithmetic. *)
Theorem civil_from_days_gregorian :
  civil_from_days 0 = (1970, 1, 1) /\
  forall z, Z.abs z < 2 ^ 61 -> civil_from_days (z + 1) = next_date (civil_from_days z).
Proof. split; [reflexivity|]. apply civil_from_days_next. Qed.

(** C37: [days_from_civil] and [civil_from_days] are inverse: every day number has a valid date
    that gives it back, and every valid date (years up to 2^52) is the date of its day number;
    earlier dates have smaller day numbers. *)
Theorem civil_days_inverse :
  (forall z, day_ok z ->
     valid_date (civil_from_days z) = true /\
     (let '(y, m, d) := civil_from_days z in days_from_civil y m d) = z) /\
  (forall y m d, Z.abs y <= 2 ^ 52 -> valid_date (y, m, d) = true ->
     civil_from_days (days_from_civil y m d) = (y, m, d)) /\
  (forall z1 z2, day_ok z1 -> day_ok z2 ->
     z1 < z2 <-> date_lt (civil_from_days z1) (civil_from_days z2)).
Proof.
  split_and!.
  - intros z Hz. split; [by apply civil_from_days_valid|by apply days_from_civil_from_days].
  - apply civil_of_days_from_civil.
  - intros z1 z2 H1 H2. destruct (civil_from_days_spec z1 H1) as (Hv1 & Hn1 & _).
    destruct (civil_from_days_spec z2 H2) as (Hv2 & Hn2 & _).
    rewrite day_number_mono_iff by done. by rewrite Hn1, Hn2.
Qed.

Lemma from_week_exact wy w dow :
  Z.abs wy <= 2 ^ 52 -> 1 <= w <= weeks_in_year wy -> 1 <= dow <= 7 ->
  from_week wy w dow = Ok (week1_monday wy + 7 * (w - 1) + (dow - 1)).
Proof.
  intros Hy Hw Hd. unfold from_week.
  destruct (week1_monday_spec wy ltac:(lia)) as [HM _].
  destruct (week1_monday_spec (wy + 1) ltac:(lia)) as [HM' _].
  pose proof (jan1_bounds wy). pose proof (jan1_bounds (wy + 1)).
  destruct (Z.ltb_spec w 1), (Z.ltb_spec (weeks_in_year wy) w), (Z.leb_spec 1 dow), (Z.leb_spec dow 7);
    try lia. cbn [orb andb negb]. f_equal.
  rewrite weeks_in_year_exact in Hw by lia. unwrap. lia.
Qed.

(** ISO week dates identify days. The week-year, week and weekday of a day are in range and
    [from_week] gives the day back; and whatever week date [from_week] accepts is the week date
    of the day it returns. *)
Theorem iso_week_bijection :
  (forall z, Z.abs z <= 2 ^ 60 ->
     let '(wy, w) := iso_week z in
     1 <= w <= weeks_in_year wy /\ 1 <= weekday z <= 7 /\
     from_week wy w (weekday z) = Ok z) /\
  (forall wy w dow z, Z.abs wy <= 2 ^ 50 -> from_week wy w dow = Ok z ->
     iso_week z = (wy, w) /\ weekday z = dow).
Proof.
  split.
  - intros z Hz. pose proof (iso_week_range z Hz) as Hr. pose proof (iso_week_spec z Hz) as Hs.
    pose proof (weekday_range z ltac:(lia)). destruct (iso_week z) as [wy w].
    destruct Hs as (Hz' & Hj & _). pose proof (jan1_bounds wy). pose proof (jan1_bounds (wy + 1)).
    split_and!; [lia..|]. rewrite from_week_exact by lia. f_equal. lia.
  - intros wy w dow z Hy Hf. unfold from_week in Hf.
    destruct (Z.ltb_spec w 1), (Z.ltb_spec (weeks_in_year wy) w), (Z.leb_spec 1 dow),
      (Z.leb_spec dow 7); try done.
    pose proof (from_week_exact wy w dow ltac:(lia) ltac:(lia) ltac:(lia)) as He.
    unfold from_week in He.
    destruct (Z.ltb_spec w 1), (Z.ltb_spec (weeks_in_year wy) w), (Z.leb_spec 1 dow),
      (Z.leb_spec dow 7); try lia. cbn [orb andb negb] in Hf, He. rewrite He in Hf.
    injection Hf as <-. by apply iso_week_of_week_date.
Qed.

(** Adding months moves to the month that many months later and keeps the day of the month,
    or takes the last day where that month is shorter. *)
Theorem add_months_clamps d n :
  Z.abs d <= 2 ^ 58 -> Z.abs n <= 2 ^ 55 ->
  civil_from_days (add_months d n) = months_later (civil_from_days d) n.
Proof.
  intros Hd Hn. destruct (add_months_day_number d n Hd Hn) as [Heq _].
  assert (Hok : day_ok d) by (unfold day_ok; lia).
  apply civil_from_days_eq; [by apply add_months_bound| |done].
  by apply months_later_valid, civil_from_days_valid.
Qed.
Lemma add_months_clamps_witness :
  civil_from_days (add_months (days_from_civil 2024 1 31) 1) = (2024, 2, 29) /\
  civil_from_days (add_months (days_from_civil 2024 1 31) 1)
  = months_later (civil_from_days (days_from_civil 2024 1 31)) 1.
Proof. split; [reflexivity|]. apply add_months_clamps; vm_compute; discriminate. Defined.

(** ** Texts *)

(** A zone database with one zone: two hours ahead of UTC, one hour from [SWITCH] on. *)
Module SampleZones.
Definition SWITCH : Z := 1000000000.
#[global] Instance jiff : Jiff := {
  TimeZone := unit;
  CivilDateTime := Z;
  Timestamp := Z;
  tz_get name := if String.eqb name "Test/Autumn" then Some tt else None;
  civil_new y m d h mi s n := Ok (days_from_civil y m d * 86400 + h * 3600 + mi * 60 + s);
  compatible_offset _ local := Ok (if local - 7200 <? SWITCH then 7200 else 3600);
  timestamp_from_second s := Ok s;
  to_offset _ s := if s <? SWITCH then 7200 else 3600;
}.
End SampleZones.

Section texts.
Context `{Jiff}.

(** The values whose texts are read back: in range, with the offset of their zone, and no
    duration that is only printed. *)
Definition readable (v : T) : Prop :=
  match v with
  | TDuration d => dur_ok d /\ unreadable d = false
  | _ => wf_temporal v
  end.


(** Durations of months and minutes only (less than a year, less than an hour) with a
    negative component are printed, as in [P-5M] or [PT-5M], but their text is rejected by
    [parse_duration], which takes the minus sign for the separator of a date: such a value can
    be created and never used again. *)
Theorem negative_months_minutes_rejected d :
  dur_ok d -> unreadable d = true ->
  exists m, T_from_value (T_value (TDuration d)) = Err (Raise (Runtime m)).
Proof.
  intros Hok Hu. pose proof (duration_text_read d Hok) as Hd. rewrite Hu in Hd.
  destruct Hd as [m Hm]. exists m. unfold T_value, T_from_value.
  change (T_kind (TDuration d)) with Duration. change (T_render (TDuration d)) with (Dur_render d).
  by rewrite Hm.
Qed.

(** The text of a datetime in a named zone is read with the offset the zone has at the local
    time, whatever offset was printed: the local date and time are kept and the instant moves by
    the difference (an hour, for the second of two equal local times in autumn). *)
Theorem zoned_text_moves_instant d n name o o' :
  day_ok d -> 0 <= n < DAY_NS -> offset_ok o -> all_chars printable name = true ->
  offset_at_local name d n = Ok o' ->
  exists v', T_from_value (T_value (TDateTime d n (Named name) o)) = Ok (Some v') /\
    v' = TDateTime d n (Named name) o' /\
    instant v' = (fun i => i + (o - o') * NS) <$> instant (TDateTime d n (Named name) o).
Proof.
  intros Hd Hn Ho Hname Hloc. eexists. split; [|split; [reflexivity|]].
  - unfold T_value, T_from_value.
    change (T_kind (TDateTime d n (Named name) o)) with DateTime.
    by rewrite (datetime_named_reread d n name o o').
  - cbn. f_equal. lia.
Qed.
End texts.

#[local] Existing Instance SampleZones.jiff.


Lemma negative_months_minutes_rejected_witness :
  T_render (TDuration (Dur_new (-5) 0 0)) = "P-5M" /\
  exists m, T_from_value (T_value (TDuration (Dur_new (-5) 0 0))) = Err (Raise (Runtime m)).
Proof.
  split; [vm_compute; reflexivity|].
  apply negative_months_minutes_rejected; [|vm_compute; reflexivity].
  vm_compute. repeat split; discriminate.
Defined.

(** Ten minutes after the clocks went back: the value moves an hour when it is read again. *)
Lemma zoned_text_moves_instant_witness :
  at_instant ((SampleZones.SWITCH + 600) * NS) (Named "Test/Autumn")
  = Ok (TDateTime 11574 (10600 * NS) (Named "Test/Autumn") 3600) /\
  exists v', T_from_value (T_value (TDateTime 11574 (10600 * NS) (Named "Test/Autumn") 3600)) = Ok (Some v') /\
    v' = TDateTime 11574 (10600 * NS) (Named "Test/Autumn") 7200 /\
    instant v' = (fun i => i + (3600 - 7200) * NS)
      <$> instant (TDateTime 11574 (10600 * NS) (Named "Test/Autumn") 3600).
Proof.
  split; [vm_compute; reflexivity|]. apply zoned_text_moves_instant.
  - unfold day_ok. vm_compute. discriminate.
  - vm_compute. split; [discriminate|reflexivity].
  - unfold offset_ok. vm_compute. discriminate.
  - reflexivity.
  - vm_compute. reflexivity.
Defined.

(** ** Differences *)

Lemma before_iff a1 b1 a2 b2 :
  ((a1 <? a2) || ((a1 =? a2) && (b1 <? b2))) = true <-> a1 < a2 \/ (a1 = a2 /\ b1 < b2).
Proof. rewrite orb_true_iff, andb_true_iff, !Z.ltb_lt, Z.eqb_eq. done. Qed.

(** The difference of local datetimes is applied the way it was computed. *)
Lemma months_days_bound da na db nb :
  Z.abs da <= 2 ^ 54 -> Z.abs db <= 2 ^ 54 -> Z.abs (months_days da na db nb).1 <= 2 ^ 52.
Proof.
  intros Ha Hb. unfold months_days.
  destruct (civil_from_days da) as [[y1 m1] d1] eqn:H1. destruct (civil_from_days db) as [[y2 m2] d2] eqn:H2.
  apply civil_from_days_inv in H1 as (Hm1 & Hd1 & Hn1 & _); [|unfold day_ok; lia].
  apply civil_from_days_inv in H2 as (Hm2 & Hd2 & Hn2 & _); [|unfold day_ok; lia].
  pose proof (day_number_year_abs y1 m1 d1 ltac:(by apply valid_date_spec)).
  pose proof (day_number_year_abs y2 m2 d2 ltac:(by apply valid_date_spec)).
  assert (((y2 * 12 + m2) - (y1 * 12 + m1))%i64 = (y2 * 12 + m2) - (y1 * 12 + m1)) as ->
    by (unwrap; done).
  set (k := y2 * 12 + m2 - (y1 * 12 + m1)). assert (Z.abs k <= 2 ^ 51) by (unfold k; lia).
  cbn [fst]. destruct (_ && _); [unwrap; lia|]. destruct (_ && _); [unwrap; lia|lia].
Qed.

Definition time_ok (n : Z) : Prop := 0 <= n < DAY_NS.

(** What is left after the months and the days is less than a day. *)
Lemma between_rest da na db nb :
  Z.abs da <= 2 ^ 54 -> Z.abs db <= 2 ^ 54 -> time_ok na -> time_ok nb ->
  let '(m, d) := months_days da na db nb in
  let rest := db * DAY_NS + nb - ((add_months da m + d)%i64 * DAY_NS + na) in
  Z.abs rest < DAY_NS /\ Z.abs m <= 2 ^ 52.
Proof.
  unfold time_ok. intros Ha Hb Hna Hnb. pose proof (months_days_bound da na db nb Ha Hb) as Hm.
  unfold months_days in *.
  destruct (civil_from_days da) as [[y1 m1] d1], (civil_from_days db) as [[y2 m2] d2].
  cbv zeta in *. cbn [fst] in Hm. set (m := if _ : bool then _ else _) in *. clearbody m.
  pose proof (add_months_bound da m ltac:(lia) ltac:(lia)) as Hadd.
  generalize dependent (add_months da m). intros x Hx.
  set (e := db * DAY_NS + nb - (x * DAY_NS + na)).
  assert (He : Z.abs (e `quot` DAY_NS) <= 2 ^ 62) by (unfold e, DAY_NS, NS in *; zdiv).
  assert (wrap_i64 (e `quot` DAY_NS) = e `quot` DAY_NS) as ->
    by (apply wrap_i64_exact; unfold i64_min, i64_max; lia).
  assert (i64.add x (e `quot` DAY_NS)%Z = x + e `quot` DAY_NS) as ->
    by (unfold i64.add; apply wrap_i64_exact; unfold i64_min, i64_max; lia).
  split; [|done].
  assert (e = DAY_NS * (e `quot` DAY_NS) + e `rem` DAY_NS /\ Z.abs (e `rem` DAY_NS) < DAY_NS) as [Hq Hr].
  { split; [apply Z.quot_rem'|]. pose proof (Z.rem_bound_abs e DAY_NS ltac:(done)). exact H. }
  unfold e in *. lia.
Qed.

Lemma total_nanos_new m d n : Z.abs n <= DAY_NS -> total_nanos (Dur_new m d n) = n.
Proof.
  intros Hn. unfold total_nanos, Dur_new, DAY_NS, NS in *. cbn [seconds nanos].
  rewrite !wrap_i64_exact by (unfold i64_min, i64_max; zdiv). zdiv.
Qed.

Section between.
Context `{Jiff}.

(** C40: [duration.between] of two local datetimes (up to 2^54 days) is a duration of whole
    months, whole days and less than a day of time, and adding it to the first datetime gives
    the second. *)
Theorem between_then_add unit da na db nb :
  Z.abs da <= 2 ^ 54 -> Z.abs db <= 2 ^ 54 -> time_ok na -> time_ok nb ->
  unit ∉ ["inseconds"; "indays"; "inmonths"] ->
  exists d,
    between unit (TLocalDateTime da na) (TLocalDateTime db nb) = Ok (T_value (TDuration d)) /\
    Z.abs (total_nanos d) < DAY_NS /\
    add_duration (TLocalDateTime da na) d 1 = Ok (TLocalDateTime db nb).
Proof.
  intros Ha Hb Hna Hnb Hunit.
  assert (String.eqb unit "inseconds" = false /\ String.eqb unit "indays" = false
          /\ String.eqb unit "inmonths" = false) as (H1 & H2 & H3).
  { rewrite !String.eqb_neq. set_solver. }
  pose proof (between_rest da na db nb Ha Hb Hna Hnb) as Hrest.
  unfold between. cbn [date_days time_nanos default from_option]. unfold id, between_local.
  rewrite H1, H2, H3. destruct (months_days da na db nb) as [m d]. destruct Hrest as [Hrest Hm].
  set (rest := db * DAY_NS + nb - ((add_months da m + d)%i64 * DAY_NS + na)) in *.
  exists (Dur_new m d rest). split; [done|]. rewrite total_nanos_new by lia. split; [done|].
  unfold add_duration. change (1 <? 0) with false. cbn iota.
  rewrite total_nanos_new by lia. cbn [months days Dur_new].
  set (base := (add_months da m + d)%i64) in *.
  assert (base * DAY_NS + na + rest = db * DAY_NS + nb) as -> by (unfold rest; lia).
  unfold time_ok in Hnb.
  assert ((db * DAY_NS + nb) `div` DAY_NS = db) as -> by (unfold DAY_NS, NS in *; zdiv).
  assert ((db * DAY_NS + nb) `mod` DAY_NS = nb) as -> by (unfold DAY_NS, NS in *; zdiv).
  rewrite !wrap_i64_exact by (unfold i64_min, i64_max, DAY_NS, NS in *; lia). done.
Qed.
End between.

Lemma between_then_add_witness :
  let a := TLocalDateTime (days_from_civil 2023 1 31) (23 * 3600 * NS) in
  let b := TLocalDateTime (days_from_civil 2024 2 29) (1 * 3600 * NS) in
  T_render (TDuration (Dur_new 12 28 (2 * 3600 * NS))) = "P1Y28DT2H" /\
  exists d, between "between" a b = Ok (T_value (TDuration d)) /\ Z.abs (total_nanos d) < DAY_NS /\
    add_duration a d 1 = Ok b.
Proof.
  split; [vm_compute; reflexivity|].
  apply between_then_add; try (vm_compute; done); try (vm_compute; split; done).
  rewrite !not_elem_of_cons. split_and!; [done..|apply not_elem_of_nil].
Defined.
